(* ===== verification/_CoqProject ===== *)
-Q . S2P
Prelude.v
Float.v
FloatExact.v
U256.v
Crc.v
Version.v
Extranonce.v
Job.v
Alarm.v
Estimator.v
ShareRate.v
Scheduler.v
SchedulerInv.v
Register.v
Chain.v
ChipConfig.v
Command.v
Response.v
RegisterClient.v
HashThread.v
HashThreadProps.v
BringUp.v
HealthyChain.v
SchedulerFrame.v
SchedulerProps.v
SchedulerLife.v
Effects.v
Text.v
Stratum.v
StratumClient.v
StratumClientProps.v
StratumProtocol.v
StratumSource.v
StratumSourceProps.v
Pool.v
Pmbus.v
PmbusProps.v
I2c.v
Tps546.v
Tps546Props.v
Tps546Contract.v
Connection.v
ConnectionProps.v
Control.v
ControlProps.v
Sensors.v
Backplane.v
BackplaneProps.v
Board.v
BoardProps.v
CpuMiner.v
CpuMinerProps.v
ForcedRate.v
ForcedRateProps.v
Usb.v
UsbProps.v
Startup.v
Serial.v
SerialProps.v
Api.v
Led.v
LedProps.v
Dummy.v
DummyProps.v
Settings.v
Logging.v
SettingsProps.v
Connector.v
Dispatch.v
DispatchThreads.v
DispatchProps.v
Display.v
Client.v
