(* ===== verification/Prelude.v ===== *)
(** * Verification of the mujina mining firmware (mujina-miner/src)

    mujina drives Bitcoin mining boards.  A pool's jobs come in through a job source,
    a scheduler splits the search space among hash threads, a hash thread talks to a
    chain of BM13xx chips over a serial line, and shares go back the same way.  The
    files follow the data; all paths below are under mujina-miner/src.

    ** The parts and their files

    The wire of the chips.
    - [Crc] is asic/bm13xx/crc.rs; [Register] the registers of register.rs and
      error.rs; [Command] the commands of command.rs and the encoders of codec.rs;
      [Response] the responses of response.rs and the decoder of codec.rs.
    - [Chain] is chain.rs and topology.rs; [ChipConfig] chip_config.rs,
      types/frequency.rs and the frequency ramp of thread.rs; [RegisterClient]
      register_client.rs and reader.rs.
    - [HashThread] is the actor of asic/bm13xx/thread.rs: bring-up, task assignment,
      chip job ids, nonces, the loop.  [HashThreadProps] and [BringUp] prove about it;
      [HealthyChain] runs its bring-up against chips that keep what is written to them.

    The work.
    - [U256] is u256.rs and types/difficulty.rs; [Float] the IEEE operations of the
      language; [Version], [Extranonce], [Job] are job_source/version.rs,
      extranonce.rs, merkle.rs, job.rs and messages.rs with asic/hash_thread.rs.
    - [Display] is how extranonces are written; the texts can be read back.
    - [Alarm], [Estimator], [ShareRate] are types/debounced_alarm.rs,
      types/hash_rate.rs with types/hashrate_estimator.rs, and types/share_rate.rs
      with types/mod.rs.
    - [Scheduler] is scheduler.rs: one function per handler, [iteration] for a turn of
      the event loop.  [SchedulerInv], [SchedulerFrame], [SchedulerProps] and
      [SchedulerLife] hold its invariant, what handlers leave alone, and theorems.
    - [Dispatch] is the scheduler and its threads side by side: tasks, answers and the
      bounded channels of the shares, a step at a time in any order.  A thread is an
      instance of its class [Worker]; [DispatchThreads] makes the BM13xx actor and the
      CPU miner instances, [DispatchProps] proves about the whole.

    The pool.
    - [Stratum] is stratum_v1/messages.rs and error.rs; [StratumClient] client.rs;
      [StratumSource] job_source/stratum_v1.rs.  [StratumClientProps],
      [StratumProtocol] and [StratumSourceProps] prove about them.
    - [Connection] is stratum_v1/connection.rs, the reader and writer of lines;
      [ConnectionProps] proves about it.  [Text] is UTF-8 as the language treats it.
    - [ForcedRate] is job_source/forced_rate.rs, the wrapper that forces a share rate;
      [ForcedRateProps] proves about it.
    - [Pool] composes job source, hash thread and submission: the way of one share.
    - [Effects] is the shared model of asynchronous code.

    The board.
    - [Backplane] is backplane.rs with board/pattern.rs and board/mod.rs: the choice of
      a board for a device and the loop that starts and stops boards;
      [BackplaneProps] proves about it.
    - [Control] is mgmt_protocol/bitaxe_raw: packets, codec, channel, and the I2C, GPIO
      and LED operations on it; [ControlProps] proves about it.
    - [Sensors] is peripheral/tmp1075.rs, tmp451.rs and emc2101.rs, with theorems.
    - [Pmbus] is peripheral/pmbus.rs with pmbus/pmbus_types.rs (commands, the LINEAR11
      and LINEAR16 formats, typed values, status decoding); [FloatExact] relates the
      float operations they use to exact rationals; [PmbusProps] proves about them.
    - [I2c] is the bus of hw_trait/i2c.rs, with types/voltage.rs and types/ratio.rs.
    - [Tps546] is the regulator driver peripheral/tps546.rs and its handle
      regulator.rs, every operation as the bus transactions it makes;
      [Tps546Props] and [Tps546Contract] prove about them.
    - [Board] is board/bitaxe.rs and board/emberone00.rs at the level of calls to these
      drivers: attaching, monitoring, shutting down; [BoardProps] proves about it;
      [Connector] is what is created for the backplane, and the reset line.

    The CPU miner.
    - [CpuMiner] is cpu_miner and board/cpu.rs: the mining loop, the probe of the peak
      rate, the configuration; [CpuMinerProps] proves about it.

    The machine and its user.
    - [Usb] is transport/usb.rs, usb/linux.rs and usb/macos.rs, the monitor of USB
      devices and the search for serial ports, and [Serial] is transport/serial.rs; [UsbProps] and
      [SerialProps] prove about them.
    - [Api] is the registry, the shared state and the handlers of api, with
      api_client/types.rs; [Client] is api_client/mod.rs and bin/cli.rs with the routes
      they ask for.
    - [Led] is peripheral/led and hw_trait/rgb_led.rs: calibration, animations as tasks,
      the status LED; [LedProps] proves about it.
    - [Dummy] is job_source/dummy.rs with the block of test_blocks.rs; [DummyProps]
      proves about it.
    - [Settings] is env_help.rs and what daemon.rs decides from the environment,
      [Logging] is tracing.rs; [SettingsProps] proves about them.
    - [Startup] composes USB discovery, backplane, scheduler and job source the way
      daemon.rs joins them.

    ** How code is modelled

    - Integers are [Z] with their width ([uint], [wrap], [sign]); arithmetic that
      overflows in release mode wraps.  Floats are Stdlib's [spec_float] at binary32
      and binary64.  Bytes are integers below 256, text is a string of UTF-8 bytes.
    - A function that can fail returns [result] or [option]; where the code can panic,
      [None] is the panic, and theorems say when it is not.
    - Handlers are functions from state to state and outputs.  Asynchronous code is a
      function of the outcomes of its awaits, given as a list ([Effects.M], and
      [HashThread.M] for the chip actor): an await uses one outcome, tasks raced by
      select! are distinguished by the outcome, a deadline that passes is an outcome,
      and a list that ends is a computation that still waits.  A theorem for all
      lists is a theorem for all timings and failures.
    - Fuel: [Effects.loop] runs a body at most once more than there are outcomes, which
      is enough since each round uses one ([loop_unfold]); the CPU miner hashes at most
      ten thousand times between two outcomes ([mining_work_unbounded]); every other
      recursion is structural or bounded by a length with a lemma that it suffices.
    - Clocks are read as arguments.  Channels and streams are inputs and outputs.
    - Third-party code is never defined: it is a class or an argument with its
      documented behaviour, and instances in examples only - ruint ([Ruint],
      [RuintSpec]), bitcoin ([HashThread.Bitcoin], [BitcoinPow]), libm
      ([FloatLib]), num-traits' integer_decode, hex ([Hex], [HexSpec]), serde_json's
      text of a message ([Serde]) and Debug ([DebugValue]), regular expressions
      ([TextMatch]), the hasher behind the backoff's jitter, nusb ([Nusb]), the
      terminal settings of rustix ([Termios], [TermiosSpec]), the transcendental
      functions of the LEDs ([LedMath]).  tokio, slotmap
      and bytes are modelled by what their documentation says of the calls
      the code makes (slotmap keys by value and version, in [Scheduler.SlotMap]).
    - Logging and Display texts that nothing reads back are left out.

    ** What is proved

    - The way of a share: what the pool rebuilds from a submission is the header the
      chip mined; shares that beat the target reach the pool exactly once, and no others.
    - The wire: registers and frames round-trip; the decoder finds the next frame in
      any input; reads pair with their answers.
    - Bring-up: no job is sent before a chain is configured and verified; what a
      successful bring-up has written, counted and been answered; chips that keep what
      is written to them come up.
    - The scheduler: tasks partition the search space, registries stay consistent,
      departures are noticed, the startup gate; a replacement is always answered, an
      update can lock scheduler and threads up.
    - The pool's side: the client refines an abstract protocol, lines are read as one
      byte after the other, jobs are read as the pool means them, suggestions are paced,
      stale work is cleared, a pool is replaced two minutes after its last job.
    - The regulator: it is set up with its output off and as configured, at the
      VOUT_MODE the chip reported; a handle call that succeeds was read back from the
      chip and answers what the chip said; a status check fails exactly on a critical
      fault, voltages are set to the nearest step of the chip.
    - The board's side: the control channel pairs answers with requests and is an I2C
      bus for the drivers, packets are read as sent, temperatures are exact, the best
      matching board is chosen, the end of the enumeration is announced once and last,
      an overheating board is stopped and nothing else stops it unasked.
    - The CPU miner's shares solve the task in force, its commands are answered, and it
      returns when it is told to; the forced rate source forwards everything and
      changes only the share target.
    - Devices and their user: the events of USB discovery describe the devices plugged
      in, the settings of a port are those asked for, the API serves the boards
      registered and connected; and what a failure of discovery does to all the rest.
    - The status LED shows the last status in its phase whatever flashes interrupt it,
      and a call that takes the LED gets it under fair scheduling.
    - The dummy source's job is block 881,423, checked with SHA-256 itself; the help
      text is wrapped without losing a word.
    - Numbers: estimation windows, difficulty and share-rate arithmetic, the PLL search
      finds the best divider, frequency ramps end at their target, extranonce ranges.
    - Deviations: places where the code does not do what it or its documentation
      means to, each a theorem about the code as written.

    ** Not modelled

    Binding the HTTP server and its OpenAPI pages, signals, tasks and the installation
    of log subscribers, minerd and tui, unit newtypes and most Display texts: I/O and
    glue whose logic is in the libraries called.
*)
From stdpp Require Import base numbers list strings gmap.
From Stdlib Require Import ZArith Lia.
#[global] Open Scope Z_scope.
#[global] Arguments Z.shiftl : simpl never.
#[global] Arguments Z.shiftr : simpl never.
#[global] Arguments Z.land : simpl never.
#[global] Arguments Z.lor : simpl never.
#[global] Arguments Z.lxor : simpl never.
#[global] Arguments Z.testbit : simpl never.
#[global] Arguments Z.pow : simpl never.

(** ** Machine words

    A w-bit unsigned integer of the program is a [Z]; [uint w x] says that it
    is in range, [wrap w x] is the value kept when a wider one is cast to [w]
    bits (Rust's [as]) or when release-mode arithmetic overflows. *)
Definition uint (w x : Z) : Prop := 0 <= x < 2 ^ w.
Definition wrap (w x : Z) : Z := x mod 2 ^ w.
(** Two's complement reading of a [w]-bit word (Rust's [as i16], [as i32], ...). *)
Definition sign (w x : Z) : Z := if 2 ^ (w - 1) <=? x then x - 2 ^ w else x.
(** [bool as u32]. *)
Definition b2z (b : bool) : Z := if b then 1 else 0.
(** [value >> i & 1 == 1]. *)
Definition bit (x i : Z) : bool := Z.land (Z.shiftr x i) 1 =? 1.

#[global] Instance uint_dec w x : Decision (uint w x).
Proof. unfold uint. apply _. Defined.

(** ** Fallible code: Rust's [Result] *)
Inductive result (E A : Type) : Type :=
| Ok (a : A)
| Err (e : E).
Arguments Ok {E A} a.
Arguments Err {E A} e.

Definition res_bind {E A B} (m : result E A) (k : A -> result E B) : result E B :=
  match m with Ok a => k a | Err e => Err e end.
Definition ok_or {E A} (o : option A) (e : E) : result E A :=
  match o with Some a => Ok a | None => Err e end.
Definition is_ok {E A} (m : result E A) : bool :=
  match m with Ok _ => true | Err _ => false end.

Declare Scope res_scope.
Delimit Scope res_scope with res.
Notation "'let?' x ':=' m 'in' k" := (res_bind m (fun x => k))
  (at level 10, x pattern, m at level 100, k at level 200) : res_scope.

(** ** Byte strings: lists of [Z] in [0, 256) *)
Definition bytes (l : list Z) : Prop := Forall (uint 8) l.

Fixpoint le_bytes (n : nat) (v : Z) : list Z :=
  match n with
  | O => []
  | S n => v mod 256 :: le_bytes n (v / 256)
  end.
Fixpoint from_le (l : list Z) : Z :=
  match l with
  | [] => 0
  | b :: l => b + 256 * from_le l
  end.
Definition be_bytes (n : nat) (v : Z) : list Z := rev (le_bytes n v).
Definition from_be (l : list Z) : Z := from_le (rev l).

(** ** Range lemmas *)
Lemma uint_nonneg w x : uint w x -> 0 <= x.
Proof. unfold uint; lia. Qed.

Lemma uint_mono w v x : w <= v -> uint w x -> uint v x.
Proof.
  unfold uint. intros Hle [H0 H1]. split; [done|].
  destruct (decide (0 <= w)).
  - pose proof (Z.pow_le_mono_r 2 w v ltac:(lia) Hle). lia.
  - rewrite Z.pow_neg_r in H1 by lia. lia.
Qed.

Lemma wrap_uint w x : 0 <= w -> uint w (wrap w x).
Proof. intros. apply Z.mod_pos_bound. apply Z.pow_pos_nonneg; lia. Qed.

Lemma wrap_id w x : uint w x -> wrap w x = x.
Proof. intros. by apply Z.mod_small. Qed.

Lemma testbit_high w x n : uint w x -> w <= n -> Z.testbit x n = false.
Proof.
  intros [H0 H1] Hn.
  destruct (decide (0 <= w)).
  - rewrite <- (Z.mod_small x (2 ^ w)) by lia.
    apply Z.mod_pow2_bits_high. lia.
  - rewrite Z.pow_neg_r in H1 by lia. lia.
Qed.

Lemma uint_testbit w x :
  0 <= w -> 0 <= x -> (forall n, w <= n -> Z.testbit x n = false) -> uint w x.
Proof.
  intros Hw Hx Hb. split; [done|].
  destruct (decide (x = 0)) as [->|Hne]; [lia|].
  destruct (Z.le_gt_cases (2 ^ w) x) as [Hle|]; [|done].
  assert (w <= Z.log2 x) by (apply Z.log2_le_pow2; lia).
  specialize (Hb (Z.log2 x) ltac:(done)).
  rewrite Z.bit_log2 in Hb by lia. done.
Qed.

Lemma uint_lor w x y : 0 <= w -> uint w x -> uint w y -> uint w (Z.lor x y).
Proof.
  intros Hw Hx Hy. apply uint_testbit; [done| |].
  - apply Z.lor_nonneg. unfold uint in *; lia.
  - intros n Hn. rewrite Z.lor_spec, (testbit_high w x), (testbit_high w y); done.
Qed.

Lemma uint_lxor w x y : 0 <= w -> uint w x -> uint w y -> uint w (Z.lxor x y).
Proof.
  intros Hw Hx Hy. apply uint_testbit; [done| |].
  - apply Z.lxor_nonneg. unfold uint in *; lia.
  - intros n Hn. rewrite Z.lxor_spec, (testbit_high w x), (testbit_high w y); done.
Qed.

Lemma uint_land_r w x m : 0 <= w -> uint w m -> uint w (Z.land x m).
Proof.
  intros Hw Hm. apply uint_testbit; [done| |].
  - apply Z.land_nonneg. unfold uint in *; lia.
  - intros n Hn. rewrite Z.land_spec, (testbit_high w m), andb_false_r; done.
Qed.

Lemma uint_shiftl w v x k : 0 <= k -> w + k <= v -> uint w x -> uint v (Z.shiftl x k).
Proof.
  intros Hk Hv Hx. apply (uint_mono (w + k)); [done|].
  unfold uint in *. rewrite Z.shiftl_mul_pow2 by done.
  destruct (decide (0 <= w)).
  - rewrite Z.pow_add_r by done. nia.
  - rewrite (Z.pow_neg_r 2 w) in Hx by lia. lia.
Qed.

Lemma uint_shiftr w v x k : 0 <= k -> 0 <= v -> w <= v + k -> uint w x -> uint v (Z.shiftr x k).
Proof.
  intros Hk Hv Hw Hx. apply uint_testbit; [done| |].
  - apply Z.shiftr_nonneg. unfold uint in *; lia.
  - intros n Hn. rewrite Z.shiftr_spec by lia. apply (testbit_high w); [done|lia].
Qed.

Lemma uint_b2z w b : 1 <= w -> uint w (b2z b).
Proof.
  intros. apply (uint_mono 1); [done|]. unfold uint. destruct b; simpl; lia.
Qed.

Lemma uint_0 w : 0 <= w -> uint w 0.
Proof. intros. unfold uint. split; [done|]. apply Z.pow_pos_nonneg; lia. Qed.

(** Placing [l] below a shifted [h] is an addition. *)
Lemma land_shiftl_low h l k : 0 <= k -> uint k l -> Z.land (Z.shiftl h k) l = 0.
Proof.
  intros Hk Hl. apply Z.bits_inj'. intros n Hn.
  rewrite Z.land_spec, Z.shiftl_spec, Z.bits_0 by lia.
  destruct (decide (n < k)); [by rewrite Z.testbit_neg_r by lia|].
  rewrite (testbit_high k l n) by (done || lia). apply andb_false_r.
Qed.

Lemma lor_shiftl_add h l k : 0 <= k -> uint k l -> Z.lor (Z.shiftl h k) l = h * 2 ^ k + l.
Proof.
  intros Hk Hl. pose proof (Z.add_lor_land (Z.shiftl h k) l) as H.
  rewrite land_shiftl_low, Z.shiftl_mul_pow2 in H by done.
  rewrite Z.shiftl_mul_pow2 by done. lia.
Qed.

(** ** Equality of words, bit by bit *)
Lemma uint_bits_eq w x y :
  0 <= w -> uint w x -> uint w y ->
  (forall n, 0 <= n < w -> Z.testbit x n = Z.testbit y n) -> x = y.
Proof.
  intros Hw Hx Hy Hb. apply Z.bits_inj'. intros n Hn.
  destruct (decide (n < w)); [apply Hb; lia|].
  rewrite (testbit_high w x), (testbit_high w y); (done || lia).
Qed.

Lemma bit_testbit x i : 0 <= i -> bit x i = Z.testbit x i.
Proof.
  intros Hi. unfold bit.
  change 1 with (Z.ones 1) at 1. rewrite Z.land_ones by lia.
  change (2 ^ 1) with 2. rewrite <- Z.bit0_mod, Z.shiftr_spec by lia.
  replace (0 + i) with i by lia. by destruct (Z.testbit x i).
Qed.

Lemma b2z_testbit b n : Z.testbit (b2z b) n = b && (n =? 0).
Proof.
  destruct b; unfold b2z.
  - simpl andb. destruct (decide (n = 0)) as [->|]; [done|].
    rewrite (proj2 (Z.eqb_neq n 0)) by done.
    destruct (decide (n < 0)); [by apply Z.testbit_neg_r|].
    apply (testbit_high 1); [unfold uint; simpl; lia|lia].
  - by rewrite Z.testbit_0_l.
Qed.

Lemma wrap_testbit w x n : 0 <= w -> Z.testbit (wrap w x) n = (n <? w) && Z.testbit x n.
Proof.
  intros Hw. unfold wrap. destruct (Z.ltb_spec n w); simpl.
  - by apply Z.mod_pow2_bits_low.
  - apply Z.mod_pow2_bits_high; lia.
Qed.

(** The bits of one byte, read off a word. *)
Lemma byte_land x : Z.land x 255 = wrap 8 x.
Proof. change 255 with (Z.ones 8). by rewrite Z.land_ones by lia. Qed.

Create HintDb word.
#[export] Hint Resolve uint_lor uint_lxor uint_land_r uint_b2z uint_0 wrap_uint : word.
#[export] Hint Extern 1 (uint ?v (Z.shiftl ?x ?k)) =>
  apply (uint_shiftl (v - k) v x k); [lia|lia|];
  let w := eval vm_compute in (v - k) in change (v - k) with w : word.
#[export] Hint Extern 1 (uint ?v (Z.shiftr ?x ?k)) =>
  apply (uint_shiftr (v + k) v x k); [lia|lia|lia|];
  let w := eval vm_compute in (v + k) in change (v + k) with w : word.
#[export] Hint Extern 1 (uint ?v (wrap ?w ?x)) =>
  apply (uint_mono w v); [lia|apply wrap_uint; lia] : word.
#[export] Hint Extern 3 (_ <= _) => lia : word.
#[export] Hint Extern 4 (uint _ _) => (unfold uint; lia) : word.
#[export] Hint Extern 5 (uint _ _) =>
  match goal with H : uint ?w ?x |- uint ?v ?x => apply (uint_mono w v x); [lia|exact H] end : word.

(** ** Deciding an equality of words one bit at a time *)
Fixpoint all_below (k : nat) (P : Z -> Prop) : Prop :=
  match k with
  | O => True
  | S k => P (Z.of_nat k) /\ all_below k P
  end.

Lemma all_below_spec k P n : all_below k P -> 0 <= n < Z.of_nat k -> P n.
Proof.
  induction k as [|k IH]; simpl; [lia|].
  intros [Hk Hall] Hn. destruct (decide (n = Z.of_nat k)) as [->|]; [done|].
  apply IH; [done|lia].
Qed.

Lemma word_ext (k : nat) x y :
  uint (Z.of_nat k) x -> uint (Z.of_nat k) y ->
  all_below k (fun n => Z.testbit x n = Z.testbit y n) -> x = y.
Proof.
  intros Hx Hy Hall. apply (uint_bits_eq (Z.of_nat k)); [lia|done|done|].
  intros n Hn. by apply (all_below_spec k (fun n => Z.testbit x n = Z.testbit y n)).
Qed.

(** Evaluates [Z.testbit] of a constant, or of a variable at an index out of
    its range. *)
Ltac testbit_step :=
  match goal with
  | |- context [Z.testbit ?x ?n] =>
      let v := eval vm_compute in (Z.testbit x n) in
      match v with
      | true => change (Z.testbit x n) with true
      | false => change (Z.testbit x n) with false
      end
  | |- context [Z.testbit ?x (Z.neg ?p)] => rewrite (Z.testbit_neg_r x (Z.neg p)) by done
  | H : uint ?w ?x |- context [Z.testbit ?x ?n] =>
      rewrite (testbit_high w x n H) by (vm_compute; discriminate)
  end.
Ltac testbit_push :=
  repeat match goal with
  | |- context [Z.testbit (Z.lor ?x ?y) ?n] => rewrite (Z.lor_spec x y n)
  | |- context [Z.testbit (Z.lxor ?x ?y) ?n] => rewrite (Z.lxor_spec x y n)
  | |- context [Z.testbit (Z.land ?x ?y) ?n] => rewrite (Z.land_spec x y n)
  | |- context [Z.testbit (b2z ?b) ?n] => rewrite (b2z_testbit b n)
  | |- context [Z.testbit (wrap ?w ?x) ?n] => rewrite (wrap_testbit w x n) by lia
  | |- context [Z.testbit (Z.shiftl ?x ?k) ?n] =>
      rewrite (Z.shiftl_spec x k n) by lia;
      let m := eval vm_compute in (n - k) in change (n - k) with m
  | |- context [Z.testbit (Z.shiftr ?x ?k) ?n] =>
      rewrite (Z.shiftr_spec x k n) by lia;
      let m := eval vm_compute in (n + k) in change (n + k) with m
  end.
Ltac bool_clean :=
  repeat match goal with
  | |- context [?n =? ?m] => let v := eval vm_compute in (n =? m) in change (n =? m) with v
  | |- context [?n <? ?m] => let v := eval vm_compute in (n <? m) in change (n <? m) with v
  end;
  rewrite ?andb_true_r, ?andb_false_r, ?orb_false_r, ?orb_true_r, ?andb_true_l, ?andb_false_l,
    ?orb_false_l, ?orb_true_l, ?xorb_false_l, ?xorb_false_r.
(** One bit of an expression in [lor], [land], shifts, [b2z] and [wrap]. *)
Ltac testbit_solve :=
  testbit_push; repeat testbit_step; bool_clean; try done; try congruence.
(** An equality of [k]-bit words. *)
Ltac word_eq k :=
  apply (word_ext k); simpl Z.of_nat;
  [solve [eauto 12 with word]|solve [eauto 12 with word]|];
  simpl all_below; repeat split; testbit_solve.

(** ** Byte string lemmas *)
Lemma le_bytes_length n v : length (le_bytes n v) = n.
Proof. revert v; induction n; intros; simpl; auto. Qed.

Lemma be_bytes_length n v : length (be_bytes n v) = n.
Proof. unfold be_bytes. by rewrite length_rev, le_bytes_length. Qed.

Lemma le_bytes_bytes n v : bytes (le_bytes n v).
Proof.
  revert v; induction n as [|n IH]; intros v; simpl; constructor; [|apply IH].
  unfold uint. apply Z.mod_pos_bound. done.
Qed.

Lemma be_bytes_bytes n v : bytes (be_bytes n v).
Proof. apply Forall_rev, le_bytes_bytes. Qed.

(** [bytes] of a frame assembled from pieces. *)
Ltac bytes_tac :=
  unfold bytes;
  repeat match goal with
  | |- Forall _ (_ ++ _) => apply Forall_app_2
  | |- Forall _ (_ :: _) => apply Forall_cons_2
  | |- Forall _ [] => apply Forall_nil_2
  | |- Forall _ (le_bytes _ _) => apply le_bytes_bytes
  | |- Forall _ (be_bytes _ _) => apply be_bytes_bytes
  | |- uint _ (wrap _ _) => apply wrap_uint; lia
  | |- _ => assumption
  end.

Lemma pow_256 (n : nat) : 2 ^ (8 * Z.of_nat (S n)) = 256 * 2 ^ (8 * Z.of_nat n).
Proof.
  replace (8 * Z.of_nat (S n)) with (8 + 8 * Z.of_nat n) by lia.
  rewrite Z.pow_add_r by lia. done.
Qed.

Lemma from_le_le_bytes n v : from_le (le_bytes n v) = wrap (8 * Z.of_nat n) v.
Proof.
  unfold wrap. revert v; induction n as [|n IH]; intros v; simpl from_le.
  - by rewrite Z.mod_1_r.
  - rewrite IH, pow_256.
    rewrite (Z.rem_mul_r v 256 (2 ^ (8 * Z.of_nat n))); [lia|lia|].
    apply Z.pow_pos_nonneg; lia.
Qed.

Lemma from_be_be_bytes n v : from_be (be_bytes n v) = wrap (8 * Z.of_nat n) v.
Proof. unfold from_be, be_bytes. by rewrite rev_involutive, from_le_le_bytes. Qed.

Lemma from_le_range l : bytes l -> uint (8 * Z.of_nat (length l)) (from_le l).
Proof.
  induction 1 as [|b l Hb _ IH]; [unfold uint; simpl; lia|].
  unfold uint in *. simpl length. rewrite pow_256. simpl from_le.
  change (2 ^ 8) with 256 in Hb. lia.
Qed.

Lemma from_be_range l : bytes l -> uint (8 * Z.of_nat (length l)) (from_be l).
Proof.
  intros H. unfold from_be. rewrite <- length_rev. apply from_le_range.
  by apply Forall_rev.
Qed.

Lemma le_bytes_from_le l : bytes l -> le_bytes (length l) (from_le l) = l.
Proof.
  induction 1 as [|b l Hb _ IH]; [done|]. simpl.
  unfold uint in Hb. change (2 ^ 8) with 256 in Hb. f_equal.
  - rewrite (Z.mul_comm 256), Z.mod_add by lia. by apply Z.mod_small.
  - rewrite (Z.mul_comm 256), Z.div_add by lia.
    by rewrite (Z.div_small b 256), Z.add_0_l by lia.
Qed.

Lemma be_bytes_from_be l : bytes l -> be_bytes (length l) (from_be l) = l.
Proof.
  intros H. unfold be_bytes, from_be. rewrite <- (length_rev l).
  rewrite le_bytes_from_le; [apply rev_involutive|by apply Forall_rev].
Qed.

Lemma from_le_app l1 l2 :
  from_le (l1 ++ l2) = from_le l1 + 2 ^ (8 * Z.of_nat (length l1)) * from_le l2.
Proof.
  induction l1 as [|b l1 IH]; simpl app; simpl from_le; [simpl; lia|].
  rewrite IH. simpl length. rewrite pow_256. ring.
Qed.

#[global] Arguments bit : simpl never.
#[global] Arguments wrap : simpl never.
#[global] Arguments from_be : simpl never.
#[global] Arguments be_bytes : simpl never.

(** ** Exhaustive checks over small ranges *)
Fixpoint check_from (k : nat) (x : Z) (f : Z -> bool) : bool :=
  match k with
  | O => true
  | S k => if f x then check_from k (x + 1) f else false
  end.
Definition check_below (n : Z) (f : Z -> bool) : bool := check_from (Z.to_nat n) 0 f.

Lemma check_from_spec k x f :
  check_from k x f = true -> forall y, x <= y < x + Z.of_nat k -> f y = true.
Proof.
  revert x; induction k as [|k IH]; simpl; intros x; [lia|].
  destruct (f x) eqn:Hf; [|done]. intros Hc y Hy.
  destruct (decide (y = x)) as [->|]; [done|]. apply (IH (x + 1)); [done|lia].
Qed.

Lemma check_below_spec n f : check_below n f = true -> forall x, 0 <= x < n -> f x = true.
Proof. intros H x Hx. apply (check_from_spec _ _ _ H). lia. Qed.

Lemma check_uint w f : check_below (2 ^ w) f = true -> forall x, uint w x -> f x = true.
Proof. intros H x Hx. by apply (check_below_spec (2 ^ w)). Qed.

(** Folding with a step that is injective in the state never merges two states. *)
Section Fold_inj.
Context {A S : Type} (ok : S -> Prop) (good : A -> Prop) (f : S -> A -> S).
Hypothesis f_ok : forall s a, ok s -> good a -> ok (f s a).
Hypothesis f_inj : forall s1 s2 a, ok s1 -> ok s2 -> good a -> f s1 a = f s2 a -> s1 = s2.

Lemma fold_left_ok l s : ok s -> Forall good l -> ok (fold_left f l s).
Proof. intros Hs Hl; revert s Hs; induction Hl; simpl; auto. Qed.

Lemma fold_left_inj l s1 s2 :
  ok s1 -> ok s2 -> Forall good l -> fold_left f l s1 = fold_left f l s2 -> s1 = s2.
Proof.
  intros H1 H2 Hl; revert s1 s2 H1 H2; induction Hl as [|a l Ha Hl IH]; simpl; [done|].
  intros s1 s2 H1 H2 Heq. apply (f_inj s1 s2 a); auto.
Qed.
End Fold_inj.

Lemma fold_left_map {A B C} (f : C -> B -> C) (g : A -> B) l c :
  fold_left f (map g l) c = fold_left (fun c a => f c (g a)) l c.
Proof. revert c; induction l as [|a l IH]; intros c; [done|]. apply IH. Qed.

Lemma fold_left_cons {A B} (f : B -> A -> B) a l c :
  fold_left f (a :: l) c = fold_left f l (f c a).
Proof. reflexivity. Qed.

Lemma filter_all {A} (P : A -> Prop) `{forall x, Decision (P x)} l : Forall P l -> base.filter P l = l.
Proof.
  induction 1 as [|x l Hx Hl IH]; [done|]. rewrite filter_cons_True by done. by rewrite IH.
Qed.

Lemma filter_none {A} (P : A -> Prop) `{forall x, Decision (P x)} l :
  Forall (fun x => ~ P x) l -> base.filter P l = [].
Proof. induction 1 as [|x l Hx Hl IH]; [done|]. by rewrite filter_cons_False. Qed.

Lemma Forall_filter_2 {A} (P Q : A -> Prop) `{forall x, Decision (P x)} l :
  Forall Q l -> Forall Q (base.filter P l).
Proof.
  intros Hq. apply Forall_forall. intros x [_ Hx]%list_elem_of_filter.
  rewrite Forall_forall in Hq. by apply Hq.
Qed.
