(* ===== verification/Float.v ===== *)
(** * IEEE 754 numbers of the program: Rust's [f32] and [f64]

    Both are the Standard Library's executable [spec_float]s, rounded to
    nearest even at the format's precision.  [as] casts from a float to an
    unsigned integer truncate towards zero and saturate, as Rust defines. *)
From stdpp Require Import base numbers list.
From Stdlib Require Import ZArith Lia SpecFloat.
From S2P Require Import Prelude.

Definition float : Type := spec_float.

(** The two formats: precision and exponent bound. *)
Record format := Format { prec : Z; emax : Z }.
Definition f32 : format := Format 24 128.
Definition f64 : format := Format 53 1024.

Definition f_of_Z (F : format) (z : Z) : float := binary_normalize (prec F) (emax F) z 0 false.
(** The decimal literal n / d, correctly rounded when both are exact. *)
Definition f_lit (F : format) (n d : Z) : float :=
  SFdiv (prec F) (emax F) (f_of_Z F n) (f_of_Z F d).
Definition f_add (F : format) := SFadd (prec F) (emax F).
Definition f_sub (F : format) := SFsub (prec F) (emax F).
Definition f_mul (F : format) := SFmul (prec F) (emax F).
Definition f_div (F : format) := SFdiv (prec F) (emax F).
(** [x < y], [x <= y] and [x == y]: false on NaN. *)
Definition f_lt := SFltb.
Definition f_le := SFleb.
Definition f_eq := SFeqb.

Definition is_finite (x : float) : bool :=
  match x with S754_zero _ | S754_finite _ _ _ => true | _ => false end.

Definition f_abs (x : float) : float := SFabs x.

(** [m * 2^e], truncated to an integer. *)
Definition mag_trunc (m : positive) (e : Z) : Z :=
  if 0 <=? e then Z.pos m * 2 ^ e else Z.pos m / 2 ^ (- e).
(** [m * 2^e], to the nearest integer, ties away from zero ([f32::round]). *)
Definition mag_round (m : positive) (e : Z) : Z :=
  if 0 <=? e then Z.pos m * 2 ^ e else (2 * Z.pos m + 2 ^ (- e)) / (2 * 2 ^ (- e)).

(** [x as u{w}]. *)
Definition f_to_uint (w : Z) (x : float) : Z :=
  match x with
  | S754_finite false m e => Z.min (mag_trunc m e) (2 ^ w - 1)
  | S754_infinity false => 2 ^ w - 1
  | _ => 0
  end.
(** [x.round() as u{w}]: the rounded value is integral, so the cast only saturates. *)
Definition f_round_to_uint (w : Z) (x : float) : Z :=
  match x with
  | S754_finite false m e => Z.min (mag_round m e) (2 ^ w - 1)
  | S754_infinity false => 2 ^ w - 1
  | _ => 0
  end.
(** [x.floor()], for the uses whose result is cast to an integer at once. *)
Definition f_floor_to_Z (x : float) : Z :=
  match x with
  | S754_finite false m e => mag_trunc m e
  | S754_finite true m e => if 0 <=? e then - (Z.pos m * 2 ^ e) else - ((Z.pos m + 2 ^ (- e) - 1) / 2 ^ (- e))
  | _ => 0
  end.

Lemma mag_trunc_nonneg m e : 0 <= mag_trunc m e.
Proof.
  unfold mag_trunc. destruct (Z.leb_spec 0 e).
  - pose proof (Z.pow_pos_nonneg 2 e). lia.
  - apply Z.div_pos; [lia|]. apply Z.pow_pos_nonneg; lia.
Qed.

Lemma mag_round_nonneg m e : 0 <= mag_round m e.
Proof.
  unfold mag_round. destruct (Z.leb_spec 0 e).
  - pose proof (Z.pow_pos_nonneg 2 e). lia.
  - assert (0 < 2 ^ (- e)) by (apply Z.pow_pos_nonneg; lia). apply Z.div_pos; lia.
Qed.

Lemma f_to_uint_range w x : 0 <= w -> uint w (f_to_uint w x).
Proof.
  intros Hw. assert (0 < 2 ^ w) by (apply Z.pow_pos_nonneg; lia).
  unfold uint. destruct x as [|[]| |[] m e]; simpl; try lia.
  pose proof (mag_trunc_nonneg m e). lia.
Qed.

Lemma f_round_to_uint_range w x : 0 <= w -> uint w (f_round_to_uint w x).
Proof.
  intros Hw. assert (0 < 2 ^ w) by (apply Z.pow_pos_nonneg; lia).
  unfold uint. destruct x as [|[]| |[] m e]; simpl; try lia.
  pose proof (mag_round_nonneg m e). lia.
Qed.

(** ** The order of floats

    [SFcompare] orders all floats but NaN as their keys are ordered
    lexicographically, so [<] and [==] are transitive and compatible. *)
Definition f_key (x : float) : option (Z * Z * Z) :=
  match x with
  | S754_nan => None
  | S754_infinity s => Some (if s then -2 else 2, 0, 0)
  | S754_zero _ => Some (0, 0, 0)
  | S754_finite true m e => Some (-1, - e, - Z.pos m)
  | S754_finite false m e => Some (1, e, Z.pos m)
  end.

Definition key_lt (a b : Z * Z * Z) : Prop :=
  a.1.1 < b.1.1 \/ (a.1.1 = b.1.1 /\ (a.1.2 < b.1.2 \/ (a.1.2 = b.1.2 /\ a.2 < b.2))).

Lemma f_compare_key x y :
  match SFcompare x y, f_key x, f_key y with
  | Some Lt, Some a, Some b => key_lt a b
  | Some Eq, Some a, Some b => a = b
  | Some Gt, Some a, Some b => key_lt b a
  | None, a, b => a = None \/ b = None
  | _, _, _ => False
  end.
Proof.
  unfold key_lt.
  destruct x as [|[]| |[] m e]; destruct y as [|[]| |[] m' e']; simpl; auto; try lia.
  all: destruct (Z.compare_spec e e'); subst; simpl; try lia.
  all: change (Pos.compare_cont Eq m m') with (Pos.compare m m');
    destruct (Pos.compare_spec m m'); subst; simpl; try done; lia.
Qed.

Lemma f_lt_spec x y :
  f_lt x y = true <-> exists a b, f_key x = Some a /\ f_key y = Some b /\ key_lt a b.
Proof.
  pose proof (f_compare_key x y) as H. unfold f_lt, SFltb.
  destruct (SFcompare x y) as [[]|], (f_key x) as [a|], (f_key y) as [b|]; try done;
    (split; [try done; intros _; by exists a, b|intros (a' & b' & Ha & Hb & Hl); simplify_eq; unfold key_lt in *]).
  all: try done; try lia; try (by destruct H).
Qed.

Lemma f_eq_spec x y :
  f_eq x y = true <-> exists a, f_key x = Some a /\ f_key y = Some a.
Proof.
  pose proof (f_compare_key x y) as H. unfold f_eq, SFeqb.
  destruct (SFcompare x y) as [[]|], (f_key x) as [a|], (f_key y) as [b|]; try done;
    (split; [try done; intros _; exists a; by subst|intros (a' & Ha & Hb); simplify_eq; unfold key_lt in *]).
  all: try done; try lia; try (by destruct H).
Qed.

Lemma key_lt_trans a b c : key_lt a b -> key_lt b c -> key_lt a c.
Proof. unfold key_lt. lia. Qed.

Lemma f_lt_trans x y z : f_lt x y = true -> f_lt y z = true -> f_lt x z = true.
Proof.
  rewrite !f_lt_spec. intros (a & b & Hx & Hy & H1) (b' & c & Hy' & Hz & H2).
  exists a, c. split_and!; [done|done|]. eapply key_lt_trans; [exact H1|]. congruence.
Qed.

Lemma f_lt_eq_l x y z : f_eq x y = true -> f_lt y z = true -> f_lt x z = true.
Proof.
  rewrite !f_lt_spec, f_eq_spec. intros (a & Hx & Hy) (b & c & Hy' & Hz & H). exists a, c.
  split_and!; [done|done|]. congruence.
Qed.

Lemma f_lt_eq_r x y z : f_lt x y = true -> f_eq y z = true -> f_lt x z = true.
Proof.
  rewrite !f_lt_spec, f_eq_spec. intros (a & b & Hx & Hy & H) (b' & Hy' & Hz). exists a, b'.
  split_and!; [done|done|]. congruence.
Qed.

Lemma f_eq_trans x y z : f_eq x y = true -> f_eq y z = true -> f_eq x z = true.
Proof. rewrite !f_eq_spec. intros (a & Hx & Hy) (b & Hy' & Hz). exists a. split; congruence. Qed.

Lemma f_lt_irrefl x : f_lt x x = false.
Proof.
  apply not_true_iff_false. rewrite f_lt_spec. intros (a & b & Hx & Hx' & H).
  simplify_eq. unfold key_lt in H. lia.
Qed.

(** On numbers, [<=] is the opposite of the converse [<]. *)
Definition is_nan (x : float) : bool := match x with S754_nan => true | _ => false end.

Lemma f_le_not_lt x y : is_nan x = false -> is_nan y = false -> f_le x y = negb (f_lt y x).
Proof.
  intros Hx Hy. pose proof (f_compare_key x y) as H1. pose proof (f_compare_key y x) as H2.
  unfold f_le, f_lt, SFleb, SFltb, key_lt in *.
  destruct (f_key x) eqn:Kx; [|by destruct x as [|[]| |[]]]. destruct (f_key y) eqn:Ky; [|by destruct y as [|[]| |[]]].
  destruct (SFcompare x y) as [[]|], (SFcompare y x) as [[]|]; subst; first [done | exfalso; lia | by destruct H1 | by destruct H2].
Qed.

Lemma f_lt_le x y : f_lt x y = true -> f_le x y = true.
Proof. unfold f_lt, f_le, SFltb, SFleb. by destruct (SFcompare x y) as [[]|]. Qed.
