(* ===== verification/FloatExact.v ===== *)
(** * Exact float operations

    Powers of two, rounding to an integer and signed casts, and the cases in which
    multiplying, dividing and converting do not round: normal floats by powers of
    two, small integers. *)
From stdpp Require Import base numbers list.
From Stdlib Require Import ZArith Lia SpecFloat.
From S2P Require Import Prelude Float.

(** [2.0.powi(k)]: a product of twos, which is exact. *)
Definition f_pow2 (F : format) (k : Z) : float := SFldexp (prec F) (emax F) (f_of_Z F 1) k.

(** [x.round()]: to the nearest integer, ties away from zero. *)
Definition f_round (F : format) (x : float) : float :=
  match x with
  | S754_finite s m e =>
      if 0 <=? e then x
      else if mag_round m e =? 0 then S754_zero s
      else f_of_Z F (if s then - mag_round m e else mag_round m e)
  | _ => x
  end.

(** [x as i{w}]: truncated and saturated. *)
Definition f_to_int (w : Z) (x : float) : Z :=
  match x with
  | S754_finite false m e => Z.min (mag_trunc m e) (2 ^ (w - 1) - 1)
  | S754_finite true m e => Z.max (- mag_trunc m e) (- 2 ^ (w - 1))
  | S754_infinity s => if s then - 2 ^ (w - 1) else 2 ^ (w - 1) - 1
  | _ => 0
  end.

Definition f_opp (x : float) : float := SFopp x.

(** ** Digits *)
Abbreviation digits m := (Z.pos (digits2_pos m)).

Lemma digits_bounds m : 2 ^ (digits m - 1) <= Z.pos m < 2 ^ digits m.
Proof.
  induction m as [m IH|m IH|]; cbn [digits2_pos]; [| |by vm_compute].
  all: rewrite Pos2Z.inj_succ; replace (Z.succ (digits m) - 1) with (Z.succ (digits m - 1)) by lia;
    rewrite !Z.pow_succ_r by lia; lia.
Qed.

Lemma digits_unique m d : 0 < d -> 2 ^ (d - 1) <= Z.pos m < 2 ^ d -> digits m = d.
Proof.
  intros Hd Hm. pose proof (digits_bounds m) as Hb.
  destruct (Z.lt_trichotomy (digits m) d) as [H|[H|H]]; [|done|]; exfalso.
  - assert (2 ^ digits m <= 2 ^ (d - 1)) by (apply Z.pow_le_mono_r; lia). lia.
  - assert (2 ^ d <= 2 ^ (digits m - 1)) by (apply Z.pow_le_mono_r; lia). lia.
Qed.

Lemma digits_shift m m' k : 0 <= k -> Z.pos m' = Z.pos m * 2 ^ k -> digits m' = digits m + k.
Proof.
  intros Hk Hm. pose proof (digits_bounds m) as Hb. pose proof (Z.pow_pos_nonneg 2 k ltac:(lia) Hk).
  apply digits_unique; [lia|]. rewrite Hm.
  replace (digits m + k - 1) with ((digits m - 1) + k) by lia. rewrite !Z.pow_add_r by lia. nia.
Qed.

(** ** Shifting *)
Lemma iter_pos_nat {A} (f : A -> A) p x : iter_pos f p x = Nat.iter (Pos.to_nat p) f x.
Proof.
  revert x. induction p as [p IH|p IH|]; intros x; cbn [iter_pos]; [| |done].
  - rewrite !IH, Pos2Nat.inj_xI, <- Nat.iter_add. replace (S (2 * Pos.to_nat p)) with ((Pos.to_nat p + Pos.to_nat p) + 1)%nat by lia.
    by rewrite (Nat.iter_add _ 1).
  - rewrite !IH, Pos2Nat.inj_xO, <- Nat.iter_add. f_equal. lia.
Qed.

Lemma shr_exact m m' e k : 0 <= k -> Z.pos m' = Z.pos m * 2 ^ k ->
  shr (Build_shr_record (Z.pos m') false false) e k = (Build_shr_record (Z.pos m) false false, e + k).
Proof.
  intros Hk Hm. destruct k as [|k|k]; [|simpl; f_equal|lia].
  - rewrite Z.mul_1_r in Hm. rewrite Z.add_0_r. simpl. by rewrite Hm.
  - cbn [shr]. rewrite iter_pos_nat. f_equal. rewrite <- (positive_nat_Z k) in Hm. clear Hk. revert m' Hm. induction (Pos.to_nat k) as [|n IH]; intros m' Hm.
    + change (2 ^ Z.of_nat 0) with 1 in Hm. rewrite Z.mul_1_r in Hm. by rewrite Hm.
    + rewrite Nat.iter_succ_r. rewrite Nat2Z.inj_succ, Z.pow_succ_r in Hm by lia.
      destruct m' as [m'|m'|]; [lia| |lia]. apply IH. lia.
Qed.

Section Format.
Context (F : format) (HF : 1 < prec F /\ prec F + 1 < emax F).

Abbreviation p := (prec F).
Abbreviation lo := (emin (prec F) (emax F)).

(** The canonical floats that are not subnormal. *)
Definition normal (m : positive) (e : Z) : Prop := digits m = p /\ lo <= e <= emax F - p.

Lemma round_exact s m m' e k :
  0 <= k -> normal m (e + k) -> Z.pos m' = Z.pos m * 2 ^ k ->
  binary_round_aux p (emax F) s (Z.pos m') e loc_Exact = S754_finite s m (e + k).
Proof.
  intros Hk [Hd He] Hm. unfold binary_round_aux, shr_fexp. cbn [shr_record_of_loc Zdigits2].
  rewrite (digits_shift m m' k) by done. rewrite Hd. unfold fexp.
  replace (Z.max (p + k + e - p) lo - e) with k by lia. rewrite (shr_exact m) by done.
  cbn [shr_m shr_r shr_s loc_of_shr_record round_nearest_even shr_record_of_loc Zdigits2].
  rewrite Hd. replace (Z.max (p + (e + k) - p) lo - (e + k)) with 0 by lia. cbn [shr shr_m].
  by rewrite (proj2 (Z.leb_le _ _)) by lia.
Qed.

Lemma iter_xO n d : Z.pos (Pos.iter xO n d) = Z.pos n * 2 ^ Z.pos d.
Proof.
  rewrite Pos2Nat.inj_iter, <- (positive_nat_Z d). generalize (Pos.to_nat d) as k. intros k.
  induction k as [|k IH]; [change (2 ^ Z.of_nat 0) with 1; cbn; lia|].
  rewrite Nat2Z.inj_succ, Z.pow_succ_r by lia. cbn [Nat.iter nat_rect]. lia.
Qed.

(** A number of at most [p] digits keeps them all. *)
Lemma binary_round_exact s n e :
  digits n <= p -> lo <= e + digits n - p <= emax F - p ->
  exists m, Z.pos m = Z.pos n * 2 ^ (p - digits n) /\ normal m (e + digits n - p) /\
    binary_round p (emax F) s n e = S754_finite s m (e + digits n - p).
Proof.
  intros Hd He. unfold binary_round, fexp. replace (Z.max (digits n + e - p) lo) with (e + digits n - p) by lia.
  unfold shl_align. replace (e + digits n - p - e) with (- (p - digits n)) by lia.
  assert (Hm : exists m, Z.pos m = Z.pos n * 2 ^ (p - digits n) /\
    (match - (p - digits n) with Zneg d => (Pos.iter xO n d, e + digits n - p) | _ => (n, e) end) = (m, e + digits n - p)).
  { destruct (p - digits n) as [|d|d] eqn:Hp; simpl; [exists n|exists (Pos.iter xO n d)|lia].
    - split; [change (2 ^ 0) with 1; lia|f_equal; lia].
    - split; [apply iter_xO|done]. }
  destruct Hm as (m & Hm & ->). exists m. assert (Hn : normal m (e + digits n - p)).
  { split; [|done]. rewrite (digits_shift n m (p - digits n)) by (done || lia). lia. }
  refine (conj Hm (conj Hn _)).
  rewrite <- (Z.add_0_r (e + digits n - p)) in Hn |- * at 2.
  apply round_exact; [lia|done|]. change (2 ^ 0) with 1. lia.
Qed.

(** [x as f32] of a small integer. *)
Lemma f_of_Z_exact n : digits n <= p ->
  exists m, Z.pos m = Z.pos n * 2 ^ (p - digits n) /\ normal m (digits n - p) /\
    f_of_Z F (Z.pos n) = S754_finite false m (digits n - p) /\
    f_of_Z F (Z.neg n) = S754_finite true m (digits n - p).
Proof.
  intros Hd. pose proof (Pos2Z.is_pos (digits2_pos n)).
  assert (Hr : lo <= 0 + digits n - p <= emax F - p) by (unfold emin; lia).
  destruct (binary_round_exact false n 0 Hd Hr) as (m & Hm & Hn & Hp).
  destruct (binary_round_exact true n 0 Hd Hr) as (m' & Hm' & _ & Hp').
  assert (m' = m) as -> by (apply Pos2Z.inj; congruence).
  exists m. exact (conj Hm (conj Hn (conj Hp Hp'))).
Qed.

Lemma pow2_eq k : lo <= k + 1 - p <= emax F - p ->
  exists m, Z.pos m = 2 ^ (p - 1) /\ normal m (k + 1 - p) /\ f_pow2 F k = S754_finite false m (k + 1 - p).
Proof.
  intros Hk. destruct (f_of_Z_exact 1) as (m & Hm & [Hd _] & H1 & _); [simpl; lia|]. simpl digits2_pos in *.
  unfold f_pow2. rewrite H1. cbn [SFldexp].
  destruct (binary_round_exact false m (1 - p + k)) as (m' & Hm' & Hn & Hp); [lia|rewrite Hd; lia|].
  rewrite Hd in *. exists m'. replace (1 - p + k + p - p) with (k + 1 - p) in * by lia.
  refine (conj _ (conj Hn Hp)). rewrite Hm', Hm, Z.sub_diag, Z.mul_1_r. lia.
Qed.

(** ** Scaling by powers of two *)
Lemma mul_pow2 s m e k : normal m e -> normal m (e + k) -> lo <= k + 1 - p <= emax F - p ->
  f_mul F (S754_finite s m e) (f_pow2 F k) = S754_finite s m (e + k).
Proof.
  intros Hm He Hk. destruct (pow2_eq k Hk) as (t & Ht & _ & ->). unfold f_mul, SFmul.
  rewrite xorb_false_r. replace (e + k) with (e + (k + 1 - p) + (p - 1)) in He |- * by lia.
  apply round_exact; [lia|done|]. rewrite Pos2Z.inj_mul. lia.
Qed.

Lemma div_pow2 s m e k : normal m e -> normal m (e - k) -> lo < e - k -> lo <= k + 1 - p <= emax F - p ->
  f_div F (S754_finite s m e) (f_pow2 F k) = S754_finite s m (e - k).
Proof.
  intros [Hd Hm] He Hlo Hk. destruct (pow2_eq k Hk) as (t & Ht & [Htd _] & ->). unfold f_div, SFdiv, SFdiv_core_binary.
  cbn [Zdigits2]. rewrite Hd, Htd. unfold fexp.
  replace (Z.min (Z.max (p + e - (p + (k + 1 - p)) - p) lo) (e - (k + 1 - p))) with (e - k - 1) by lia.
  replace (e - (k + 1 - p) - (e - k - 1)) with p by lia.
  destruct p as [|pp|pp] eqn:Hp; [lia| |lia]. rewrite <- Hp in *.
  rewrite Z.shiftl_mul_pow2 by lia.
  assert (Hq : Z.pos m * 2 ^ p = Z.pos t * (2 * Z.pos m)).
  { rewrite Ht. replace p with (Z.succ (p - 1)) at 1 by lia. rewrite Z.pow_succ_r by lia. lia. }
  rewrite Hq.
  destruct (Z.div_eucl (Z.pos t * (2 * Z.pos m)) (Z.pos t)) as [q r] eqn:Hqr.
  assert (q = Z.pos (xO m) /\ r = 0) as [-> ->].
  { pose proof (Z_div_mod (Z.pos t * (2 * Z.pos m)) (Z.pos t) (Zgt_pos_0 t)) as Hdm.
    rewrite Hqr in Hdm. destruct Hdm as [Hdm Hr]. change (Z.pos m~0) with (2 * Z.pos m). clear -Hdm Hr.
    destruct (Z.div_mod_unique (Z.pos t) q (2 * Z.pos m) r 0); lia. }
  assert (Hloc : new_location (Z.pos t) 0 = loc_Exact) by (unfold new_location, new_location_even, new_location_odd; by destruct (Z.even _)).
  rewrite Hloc, xorb_false_r. replace (S754_finite s m (e - k)) with (S754_finite s m (e - k - 1 + 1)) by (f_equal; lia).
  apply round_exact; [lia|by replace (e - k - 1 + 1) with (e - k) by lia|]. change (2 ^ 1) with 2. lia.
Qed.
(** ** Small integers *)
Lemma f_of_Z_neg n : digits n <= p -> f_of_Z F (Z.neg n) = f_opp (f_of_Z F (Z.pos n)).
Proof. intros Hd. by destruct (f_of_Z_exact n Hd) as (m & _ & _ & -> & ->). Qed.

Lemma mag_of_Z n m : Z.pos m = Z.pos n * 2 ^ (p - digits n) -> digits n <= p ->
  mag_trunc m (digits n - p) = Z.pos n /\ mag_round m (digits n - p) = Z.pos n.
Proof.
  intros Hm Hd. unfold mag_trunc, mag_round. rewrite Hm. replace (- (digits n - p)) with (p - digits n) by lia.
  assert (0 < 2 ^ (p - digits n)) by (apply Z.pow_pos_nonneg; lia).
  destruct (Z.leb_spec 0 (digits n - p)).
  - replace (p - digits n) with 0 by lia. replace (digits n - p) with 0 by lia. change (2 ^ 0) with 1. lia.
  - rewrite Z.div_mul by lia. split; [done|]. symmetry. apply Z.div_unique with (2 ^ (p - digits n)); lia.
Qed.

Lemma f_lt_of_Z a b : digits a <= p -> digits b <= p ->
  f_lt (f_of_Z F (Z.pos a)) (f_of_Z F (Z.pos b)) = (Z.pos a <? Z.pos b).
Proof.
  intros Ha Hb. destruct (f_of_Z_exact a Ha) as (m & Hm & _ & -> & _), (f_of_Z_exact b Hb) as (m' & Hm' & _ & -> & _).
  pose proof (digits_bounds a) as Ba. pose proof (digits_bounds b) as Bb. unfold f_lt, SFltb. cbn [SFcompare].
  destruct (Z.compare_spec (digits a - p) (digits b - p)) as [H|H|H].
  - assert (Hd : digits a = digits b) by lia. rewrite Hd in Hm. change (Pos.compare_cont Eq m m') with (Pos.compare m m').
    rewrite Pos2Z.inj_compare, Hm, Hm'.
    assert (0 < 2 ^ (p - digits b)) by (apply Z.pow_pos_nonneg; lia).
    rewrite <- Zmult_compare_compat_r by lia. unfold Z.ltb. by destruct (_ ?= _).
  - symmetry. apply Z.ltb_lt. assert (2 ^ digits a <= 2 ^ (digits b - 1)) by (apply Z.pow_le_mono_r; lia). lia.
  - symmetry. apply Z.ltb_ge. assert (2 ^ digits b <= 2 ^ (digits a - 1)) by (apply Z.pow_le_mono_r; lia). lia.
Qed.

Lemma round_of_Z n : digits n <= p -> f_round F (f_of_Z F (Z.pos n)) = f_of_Z F (Z.pos n).
Proof.
  intros Hd. destruct (f_of_Z_exact n Hd) as (m & Hm & _ & Hp & _). rewrite Hp. unfold f_round.
  destruct (Z.leb_spec 0 (digits n - p)); [done|]. destruct (mag_of_Z n m Hm Hd) as [_ ->]. by rewrite <- Hp.
Qed.

Lemma to_uint_of_Z w n : digits n <= p -> f_to_uint w (f_of_Z F (Z.pos n)) = Z.min (Z.pos n) (2 ^ w - 1).
Proof.
  intros Hd. destruct (f_of_Z_exact n Hd) as (m & Hm & _ & -> & _). simpl.
  by destruct (mag_of_Z n m Hm Hd) as [-> _].
Qed.
End Format.

(** The value of a float in units of 2^-u; an [f32] is a multiple of 2^-149. *)
Definition units (u : Z) (x : float) : Z :=
  match x with
  | S754_finite s m e => (if s then -1 else 1) * Z.pos m * 2 ^ (e + u)
  | _ => 0
  end.
