(* ===== verification/U256.v ===== *)
(** * 256-bit arithmetic and mining difficulty (u256.rs, types/difficulty.rs)

    A [U256] is the [Z] its limbs denote.  The arithmetic itself belongs to the
    [ruint] crate: the class [Ruint] lists the operations the program calls and
    [RuintSpec] what the crate documents of them; [ruint_ref] shows the
    interface is satisfiable and lets the witnesses compute. *)
From stdpp Require Import base numbers list.
From Stdlib Require Import ZArith Lia SpecFloat.
From S2P Require Import Prelude Float.

(** ** The ruint crate: [Uint<BITS, LIMBS>] *)
Class Ruint := {
  ru_from_le_bytes : Z -> list Z -> Z;
  ru_to_le_bytes : Z -> Z -> list Z;
  ru_leading_zeros : Z -> Z -> Z;
  ru_add : Z -> Z -> Z -> Z;
  ru_sub : Z -> Z -> Z -> Z;
  ru_mul : Z -> Z -> Z -> Z;
  (** called with a divisor other than zero: zero is a panic *)
  ru_div : Z -> Z -> Z -> Z;
  ru_shl : Z -> Z -> Z -> Z;
}.
Class RuintSpec (R : Ruint) : Prop := {
  ru_from_le_bytes_spec n l : length l = n -> bytes l -> ru_from_le_bytes (8 * Z.of_nat n) l = from_le l;
  ru_to_le_bytes_spec n x : uint (8 * Z.of_nat n) x -> ru_to_le_bytes (8 * Z.of_nat n) x = le_bytes n x;
  ru_leading_zeros_spec w x : uint w x -> x <> 0 -> ru_leading_zeros w x = w - 1 - Z.log2 x;
  ru_add_spec w x y : ru_add w x y = wrap w (x + y);
  ru_sub_spec w x y : ru_sub w x y = wrap w (x - y);
  ru_mul_spec w x y : ru_mul w x y = wrap w (x * y);
  ru_div_spec w x y : y <> 0 -> ru_div w x y = x / y;
  ru_shl_spec w x s : 0 <= s -> ru_shl w x s = wrap w (Z.shiftl x s);
}.

Definition ruint_ref : Ruint := {|
  ru_from_le_bytes _ l := from_le l;
  ru_to_le_bytes w x := le_bytes (Z.to_nat (w / 8)) x;
  ru_leading_zeros w x := if x =? 0 then w else w - 1 - Z.log2 x;
  ru_add w x y := wrap w (x + y);
  ru_sub w x y := wrap w (x - y);
  ru_mul w x y := wrap w (x * y);
  ru_div _ x y := x / y;
  ru_shl w x s := wrap w (Z.shiftl x s);
|}.

Lemma ruint_ref_spec : RuintSpec ruint_ref.
Proof.
  split; simpl; try done.
  - intros n x Hx. rewrite Z.mul_comm, Z.div_mul by lia. by rewrite Nat2Z.id.
  - intros w x _ Hx. by rewrite (proj2 (Z.eqb_neq x 0)).
Qed.

(** ** U256 *)
Module U256.
Section Ops.
Context `{R : Ruint}.

Definition ZERO : Z := 0.
Definition MAX : Z := 2 ^ 256 - 1.
Definition from_le_bytes (b : list Z) : Z := ru_from_le_bytes 256 b.
Definition to_le_bytes (x : Z) : list Z := ru_to_le_bytes 256 x.
Definition saturating_to_u64 (x : Z) : Z := Z.min x (2 ^ 64 - 1).
Definition leading_zeros (x : Z) : Z := ru_leading_zeros 256 x.

(** The panic of a division by zero is [None]. *)
Definition div (x y : Z) : option Z := if y =? 0 then None else Some (ru_div 256 x y).
Definition div_u64 (x y : Z) : option Z := if y =? 0 then None else Some (ru_div 256 x y).
Definition div_u128 (x y : Z) : option Z := if y =? 0 then None else Some (ru_div 256 x y).
Definition mul_u64 (x y : Z) : Z := ru_mul 256 x y.
Definition add_assign (x y : Z) : Z := ru_add 256 x y.
Definition sub_assign (x y : Z) : Z := ru_sub 256 x y.
Definition shl (x s : Z) : Z := ru_shl 256 x s.
Definition from_u64 (x : Z) : Z := x.

(** [wide] is the 256-bit value in the low limbs of a 512-bit one; the test
    on the high limbs of the quotient is a test on its bits from 256 up. *)
Definition shifted_div (x shift divisor : Z) : option Z :=
  if negb (x =? ZERO) && (512 <? (256 - leading_zeros x) + shift) then Some MAX
  else if divisor =? 0 then None
  else
    let result := ru_div 512 (ru_shl 512 x shift) divisor in
    if negb (Z.shiftr result 256 =? 0) then Some MAX else Some result.

(** [integer_decode] is num_traits' decomposition of a float. *)
Definition div_f64 (integer_decode : float -> Z * Z) (x : Z) (rhs : float) : option Z :=
  if is_finite rhs && f_lt (S754_zero false) rhs then
    let '(mantissa, exponent) := integer_decode rhs in
    if 0 <=? exponent then
      let shift := exponent in
      if 256 <? shift + 53 then Some ZERO
      else div x (shl (from_u64 mantissa) shift)
    else shifted_div x (- exponent) mantissa
  else None.

(** The scan of [to_f64_approx] for the highest byte that is not zero; 0 if all are. *)
Fixpoint highest_byte_from (l : list Z) (i : nat) (acc : nat) : nat :=
  match l with
  | [] => acc
  | b :: l => highest_byte_from l (S i) (if negb (b =? 0) then i else acc)
  end.
Definition highest_byte (l : list Z) : nat := highest_byte_from l 0 0.

(** [pow2] is [2.0_f64.powi]. *)
Definition to_f64_approx (pow2 : Z -> float) (x : Z) : float :=
  let b := to_le_bytes x in
  let h := highest_byte b in
  if (h <? 8)%nat then f_of_Z f64 (saturating_to_u64 x)
  else
    let start := (h - 7)%nat in
    let mantissa := f_of_Z f64 (from_le (take 8 (drop start b))) in
    f_mul f64 mantissa (pow2 (Z.of_nat start * 8)).
End Ops.

Section Laws.
Context `{HR : RuintSpec}.

(** What [shifted_div] computes, with the saturation in one place. *)
Definition sat_quotient (x shift divisor : Z) : Z := Z.min (x * 2 ^ shift / divisor) MAX.

Lemma log2_lower x : 0 < x -> 2 ^ Z.log2 x <= x < 2 ^ (Z.log2 x + 1).
Proof. intros H. pose proof (Z.log2_spec x H). by rewrite <- Z.add_1_r in *. Qed.

Lemma shifted_div_no_sat x shift divisor :
  uint 512 (x * 2 ^ shift) -> 0 <= x -> 0 <= shift -> 0 < divisor ->
  (if negb (Z.shiftr (ru_div 512 (ru_shl 512 x shift) divisor) 256 =? 0)
   then Some MAX else Some (ru_div 512 (ru_shl 512 x shift) divisor))
  = Some (sat_quotient x shift divisor).
Proof.
  intros Hr Hx Hs Hd.
  rewrite ru_div_spec, ru_shl_spec, Z.shiftl_mul_pow2, wrap_id by (done || lia).
  set (q := x * 2 ^ shift / divisor).
  assert (0 <= q) by (apply Z.div_pos; unfold uint in *; lia).
  unfold sat_quotient, MAX. fold q. rewrite Z.shiftr_div_pow2 by lia.
  destruct (Z.eqb_spec (q / 2 ^ 256) 0) as [Hz|Hz]; simpl; f_equal.
  - apply Z.div_small_iff in Hz; [|lia]. lia.
  - assert (2 ^ 256 <= q); [|lia].
    destruct (Z.le_gt_cases (2 ^ 256) q); [done|]. rewrite Z.div_small in Hz; lia.
Qed.

(** A quotient that would need more than 512 bits before the division is above the maximum. *)
Lemma sat_quotient_overflow x shift divisor :
  uint 256 x -> 0 < x -> 0 <= shift -> 0 < divisor < 2 ^ 64 ->
  512 < Z.log2 x + 1 + shift -> sat_quotient x shift divisor = MAX.
Proof.
  intros Hx Hpos Hs Hd Hbits. unfold sat_quotient, MAX.
  assert (2 ^ 512 <= x * 2 ^ shift).
  { transitivity (2 ^ Z.log2 x * 2 ^ shift).
    - rewrite <- Z.pow_add_r by (try apply Z.log2_nonneg; lia).
      apply Z.pow_le_mono_r; lia.
    - pose proof (log2_lower x Hpos). pose proof (Z.pow_pos_nonneg 2 shift). nia. }
  assert (2 ^ 256 <= x * 2 ^ shift / divisor); [|lia].
  transitivity (2 ^ 512 / 2 ^ 64); [vm_compute; discriminate|].
  transitivity (x * 2 ^ shift / 2 ^ 64); [apply Z.div_le_mono; lia|].
  apply Z.div_le_compat_l; lia.
Qed.

Lemma leading_zeros_bits x : uint 256 x -> x <> 0 -> 256 - leading_zeros x = Z.log2 x + 1.
Proof. intros Hx Hne. unfold leading_zeros. rewrite ru_leading_zeros_spec by done. lia. Qed.

Lemma shifted_div_spec x shift divisor :
  uint 256 x -> 0 <= shift -> 0 < divisor < 2 ^ 64 ->
  shifted_div x shift divisor = Some (sat_quotient x shift divisor).
Proof.
  intros Hx Hs Hd. unfold shifted_div, ZERO.
  destruct (Z.eqb_spec x 0) as [->|Hne]; cbn [negb andb].
  - rewrite (proj2 (Z.eqb_neq divisor 0)) by lia.
    apply shifted_div_no_sat; unfold uint in *; lia.
  - assert (0 < x) by (unfold uint in Hx; lia).
    rewrite leading_zeros_bits by done.
    destruct (Z.ltb_spec 512 (Z.log2 x + 1 + shift)).
    + by rewrite sat_quotient_overflow.
    + rewrite (proj2 (Z.eqb_neq divisor 0)) by lia.
      apply shifted_div_no_sat; try (unfold uint in *; lia).
      pose proof (log2_lower x ltac:(lia)) as [_ Hlt].
      pose proof (Z.pow_pos_nonneg 2 shift).
      split; [nia|]. apply Z.lt_le_trans with (2 ^ (Z.log2 x + 1) * 2 ^ shift); [nia|].
      pose proof (Z.log2_nonneg x).
      rewrite <- Z.pow_add_r by lia. apply Z.pow_le_mono_r; lia.
Qed.

(** num_traits' [integer_decode]: an exact decomposition with at most 53 bits of
    mantissa, all 53 of them when the exponent is not negative. *)
Definition decode_spec (integer_decode : float -> Z * Z) (m0 : positive) (e0 : Z) : Prop :=
  let '(m, e) := integer_decode (S754_finite false m0 e0) in
  0 < m < 2 ^ 53 /\ (0 <= e -> 2 ^ 52 <= m) /\ -1075 <= e /\ -1075 <= e0 /\
  m * 2 ^ (e + 1075) = Z.pos m0 * 2 ^ (e0 + 1075).

(** [x / (m * 2^e)] rounded down, for any exponent a 64-bit float has. *)
Definition floor_quotient (x m e : Z) : Z := x * 2 ^ 1075 / (m * 2 ^ (e + 1075)).

Lemma floor_quotient_nonneg_exp x m e :
  0 < m -> 0 <= e -> x / (m * 2 ^ e) = floor_quotient x m e.
Proof.
  intros Hm He. unfold floor_quotient.
  assert (0 < 2 ^ e) by (apply Z.pow_pos_nonneg; lia).
  rewrite Z.pow_add_r, Z.mul_assoc by lia.
  rewrite Z.div_mul_cancel_r; [done|nia|]. apply Z.pow_nonzero; lia.
Qed.

Lemma floor_quotient_neg_exp x m e :
  0 < m -> -1075 <= e < 0 -> x * 2 ^ (- e) / m = floor_quotient x m e.
Proof.
  intros Hm He. unfold floor_quotient.
  rewrite <- (Z.div_mul_cancel_r (x * 2 ^ (- e)) m (2 ^ (e + 1075)));
    [|lia|apply Z.pow_nonzero; lia].
  rewrite <- Z.mul_assoc, <- Z.pow_add_r by lia. do 3 f_equal. lia.
Qed.

Lemma div_f64_spec integer_decode x rhs m e :
  uint 256 x -> is_finite rhs = true -> f_lt (S754_zero false) rhs = true ->
  integer_decode rhs = (m, e) -> 0 < m < 2 ^ 53 -> (0 <= e -> 2 ^ 52 <= m) ->
  div_f64 integer_decode x rhs =
    Some (if 0 <=? e then x / (m * 2 ^ e) else sat_quotient x (- e) m).
Proof.
  intros Hx Hf Hlt Hdec Hm Hnorm. unfold div_f64. rewrite Hf, Hlt, Hdec. cbn [andb].
  destruct (Z.leb_spec 0 e) as [He|He]; [|apply shifted_div_spec; (done || lia)].
  specialize (Hnorm He). unfold uint in Hx.
  destruct (Z.ltb_spec 256 (e + 53)).
  - unfold ZERO. f_equal. symmetry. apply Z.div_small.
    assert (2 ^ 204 <= 2 ^ e) by (apply Z.pow_le_mono_r; lia).
    assert (2 ^ 52 * 2 ^ 204 <= m * 2 ^ e) by (apply Z.mul_le_mono_nonneg; lia).
    change (2 ^ 52 * 2 ^ 204) with (2 ^ 256) in *. lia.
  - assert (0 < 2 ^ e) by (apply Z.pow_pos_nonneg; lia).
    assert (2 ^ e <= 2 ^ 203) by (apply Z.pow_le_mono_r; lia).
    assert (m * 2 ^ e < 2 ^ 53 * 2 ^ e) by (apply Z.mul_lt_mono_pos_r; lia).
    assert (2 ^ 53 * 2 ^ e <= 2 ^ 53 * 2 ^ 203) by (apply Z.mul_le_mono_nonneg_l; lia).
    unfold div, shl, from_u64.
    rewrite ru_shl_spec, Z.shiftl_mul_pow2, wrap_id; try lia.
    + rewrite (proj2 (Z.eqb_neq _ 0)) by nia. rewrite ru_div_spec by nia. done.
    + unfold uint. change (2 ^ 53 * 2 ^ 203) with (2 ^ 256) in *. nia.
Qed.

Lemma div_f64_floor_quotient integer_decode x m0 e0 :
  uint 256 x -> decode_spec integer_decode m0 e0 ->
  div_f64 integer_decode x (S754_finite false m0 e0) =
    Some (Z.min (floor_quotient x (Z.pos m0) e0) MAX).
Proof.
  intros Hx Hdec. unfold decode_spec in Hdec.
  destruct (integer_decode _) as [m e] eqn:Hid.
  destruct Hdec as (Hm & Hnorm & He & He0 & Heq).
  rewrite (div_f64_spec integer_decode x _ m e) by done.
  assert (Hq : floor_quotient x (Z.pos m0) e0 = floor_quotient x m e)
    by (unfold floor_quotient; by rewrite Heq).
  rewrite Hq. f_equal. destruct (Z.leb_spec 0 e).
  - rewrite <- floor_quotient_nonneg_exp by lia.
    assert (0 < 2 ^ e) by (apply Z.pow_pos_nonneg; lia).
    assert (x / (m * 2 ^ e) <= x / 1)
      by (apply Z.div_le_compat_l; unfold uint in Hx; [lia|nia]).
    rewrite Z.div_1_r in *.
    unfold MAX, uint in *. lia.
  - unfold sat_quotient. by rewrite floor_quotient_neg_exp by lia.
Qed.
End Laws.
End U256.

(** ** Difficulty: a target, ordered the other way round *)

(** The bitcoin crate's proof-of-work types: the easiest target and the
    floating point difficulty of one. *)
Class BitcoinPow := {
  target_max : Z;
  difficulty_float : Z -> float;
  to_work : Z -> Z;
}.
Class BitcoinPowSpec (P : BitcoinPow) : Prop := {
  target_max_spec : target_max = 0xFFFF * 2 ^ 208;
}.

(** [f64::log10] and [10_f64.powi] of the standard library, whose precision Rust leaves open. *)
Class FloatLib := {
  log10 : float -> float;
  log2 : float -> float;
  pow10 : Z -> float;
}.

Module Difficulty.
Section Ops.
Context `{R : Ruint} `{P : BitcoinPow} `{L : FloatLib}.

Record t := Mk { target : Z }.

Definition MAX : t := Mk 0.
Definition PRECISION_DIGITS : Z := 12.

Definition from_f64 (integer_decode : float -> Z * Z) (value : float) : option t :=
  if f_le value (S754_zero false) || negb (is_finite value) then Some (Mk target_max)
  else option_map Mk (U256.div_f64 integer_decode target_max value).

(** [value.abs().log10().floor() as i32] is left to the library's [log10];
    [(value * scale).round()] is rounded to an integer and read back. *)
Definition round_significant (value : float) (digits : Z) : float :=
  if f_eq value (S754_zero false) || negb (is_finite value) then value
  else
    let magnitude := f_floor_to_Z (log10 (f_abs value)) in
    let scale := pow10 (digits - 1 - magnitude) in
    if negb (is_finite scale) then value
    else
      let rounded :=
        match f_mul f64 value scale with
        | S754_finite false m e => f_of_Z f64 (mag_round m e)
        | S754_finite true m e => f_of_Z f64 (- mag_round m e)
        | x => x
        end in
      f_div f64 rounded scale.

Definition f64_max : float := S754_finite false (2 ^ 53 - 1)%positive 971.

Definition as_f64 (d : t) : float :=
  let raw := difficulty_float (target d) in
  if negb (is_finite raw) then f64_max else round_significant raw PRECISION_DIGITS.

Definition as_u64 (d : t) : Z :=
  let f := as_f64 d in
  if f_le (f_of_Z f64 (2 ^ 64 - 1)) f then 2 ^ 64 - 1
  else if f_le f (S754_zero false) then 0
  else f_to_uint 64 f.

Definition from_target (x : Z) : t := Mk x.
Definition to_target (d : t) : Z := target d.

Definition from_hash (hash : list Z) : t :=
  let hash_u256 := U256.from_le_bytes hash in
  if hash_u256 =? U256.ZERO then MAX else Mk hash_u256.

(** [From<u64>]: the division's panic cannot happen, the divisor is not zero. *)
Definition from_u64 (diff : Z) : option t :=
  if diff =? 0 then Some (Mk target_max) else option_map Mk (U256.div_u64 target_max diff).

Definition eqb (a b : t) : bool := target a =? target b.
Definition cmp (a b : t) : comparison := target b ?= target a.
Definition partial_cmp (a b : t) : option comparison := Some (cmp a b).
End Ops.
End Difficulty.

(** ** What the arithmetic promises *)

(** The conversions of the standard and num_traits libraries, for the witnesses. *)
Definition integer_decode_ref (x : float) : Z * Z :=
  match x with S754_finite _ m e => (Z.pos m, e) | _ => (0, 0) end.
Definition bitcoin_ref : BitcoinPow := {|
  target_max := 0xFFFF * 2 ^ 208;
  difficulty_float t := f_div f64 (f_of_Z f64 (0xFFFF * 2 ^ 208)) (f_of_Z f64 t);
  to_work t := 2 ^ 256 / (t + 1);
|}.

(** Dividing a 256-bit number by a positive finite f64 never panics and gives
    the exact quotient by the rational number the float denotes, rounded down and
    saturated to [U256::MAX], on both sides of the exponent's sign. *)
Theorem div_f64_exact (R : Ruint) (HR : RuintSpec R) integer_decode x m0 e0 :
  uint 256 x -> U256.decode_spec integer_decode m0 e0 ->
  U256.div_f64 integer_decode x (S754_finite false m0 e0) =
    Some (Z.min (U256.floor_quotient x (Z.pos m0) e0) U256.MAX).
Proof. apply U256.div_f64_floor_quotient. Qed.

(** 0.1 as an f64: the target of difficulty 0.1 is ten times the easiest one, to 53 bits. *)
Lemma div_f64_exact_witness :
  U256.decode_spec integer_decode_ref 7205759403792794 (-56) /\
  @U256.div_f64 ruint_ref integer_decode_ref (0xFFFF * 2 ^ 208)
    (S754_finite false 7205759403792794 (-56)) =
    Some (Z.min (U256.floor_quotient (0xFFFF * 2 ^ 208) 7205759403792794 (-56)) U256.MAX).
Proof.
  assert (H : U256.decode_spec integer_decode_ref 7205759403792794 (-56))
    by (vm_compute; intuition discriminate).
  split; [exact H|]. apply (div_f64_exact ruint_ref ruint_ref_spec); [|exact H].
  vm_compute. split; [discriminate|reflexivity].
Defined.

(** [shifted_div] is the saturated quotient for every shift and every
    divisor other than zero: widening to 512 bits loses nothing. *)
Theorem shifted_div_exact (R : Ruint) (HR : RuintSpec R) x shift divisor :
  uint 256 x -> 0 <= shift -> 0 < divisor < 2 ^ 64 ->
  U256.shifted_div x shift divisor = Some (Z.min (x * 2 ^ shift / divisor) (2 ^ 256 - 1)).
Proof. apply U256.shifted_div_spec. Qed.

Lemma shifted_div_exact_witness :
  @U256.shifted_div ruint_ref 5 300 (2 ^ 60) = Some (5 * 2 ^ 240).
Proof.
  rewrite (shifted_div_exact ruint_ref ruint_ref_spec 5 300 (2 ^ 60));
    [reflexivity|vm_compute; split; [discriminate|reflexivity]|lia|lia].
Defined.

(** Difficulty and target run in opposite directions: the target of a
    larger integer difficulty is no larger, the derived ordering agrees with the
    targets' reversed, difficulty zero is the easiest target, and the conversion
    never fails. *)
Theorem difficulty_antitone (R : Ruint) (HR : RuintSpec R) (P : BitcoinPow) (HP : BitcoinPowSpec P) d1 d2 :
  0 <= d1 <= d2 ->
  exists t1 t2, Difficulty.from_u64 d1 = Some t1 /\ Difficulty.from_u64 d2 = Some t2 /\
    Difficulty.target t2 <= Difficulty.target t1 <= target_max /\
    Difficulty.cmp t1 t2 <> Gt /\
    (0 < d1 -> Difficulty.target t1 = 0xFFFF * 2 ^ 208 / d1).
Proof.
  intros Hd.
  assert (Hof : forall d, 0 <= d -> exists t, Difficulty.from_u64 d = Some t /\
            Difficulty.target t = target_max / Z.max 1 d).
  { intros d Hpos. unfold Difficulty.from_u64, U256.div_u64.
    destruct (Z.eqb_spec d 0) as [->|Hne]; eexists; (split; [reflexivity|]); simpl.
    - by rewrite Z.div_1_r.
    - rewrite ru_div_spec by done. f_equal. lia. }
  destruct (Hof d1) as (t1 & -> & H1); [lia|]. destruct (Hof d2) as (t2 & -> & H2); [lia|].
  assert (Hm : 0 <= target_max) by (rewrite target_max_spec; lia).
  assert (Hle : Difficulty.target t2 <= Difficulty.target t1)
    by (rewrite H1, H2; apply Z.div_le_compat_l; lia).
  exists t1, t2. split_and!; try done.
  - rewrite H1. transitivity (target_max / 1); [apply Z.div_le_compat_l; lia|].
    by rewrite Z.div_1_r.
  - intros Hpos. rewrite H1, target_max_spec. by rewrite Z.max_r by lia.
Qed.

Lemma difficulty_antitone_witness :
  exists t1 t2, @Difficulty.from_u64 ruint_ref bitcoin_ref 0 = Some t1 /\
    @Difficulty.from_u64 ruint_ref bitcoin_ref 1000 = Some t2 /\
    Difficulty.target t2 <= Difficulty.target t1 <= @target_max bitcoin_ref /\
    Difficulty.cmp t1 t2 <> Gt /\
    (0 < 0 -> Difficulty.target t1 = 0xFFFF * 2 ^ 208 / 0).
Proof.
  apply (difficulty_antitone ruint_ref ruint_ref_spec bitcoin_ref); [|lia].
  split. reflexivity.
Defined.
