(* ===== verification/Crc.v ===== *)
(** * Frame check sequences of the BM13xx protocol (asic/bm13xx/crc.rs)

    [crc5] and [crc16] are the two bit-serial loops of the source; the lemmas
    below are what the frame encoders and the decoder rely on. *)
From stdpp Require Import base numbers list.
From Stdlib Require Import ZArith Lia.
From S2P Require Import Prelude.

(** One iteration of the inner loop of [crc5], for the bit [b] of the input. *)
Definition crc5_step (crc b : Z) : Z :=
  let top := Z.land (Z.shiftr crc 4) 1 in
  Z.lxor (Z.land (wrap 8 (Z.shiftl crc 1)) 0x1f)
         (if negb (Z.lxor top b =? 0) then 0x05 else 0).

Definition crc5_byte (crc byte : Z) : Z :=
  fold_left (fun crc i => crc5_step crc (Z.land (Z.shiftr byte i) 1)) [7; 6; 5; 4; 3; 2; 1; 0] crc.

Definition crc5 (data : list Z) : Z := fold_left crc5_byte data 0x1f.

Definition crc5_is_valid (data : list Z) : bool := crc5 data =? 0.

(** One iteration of the inner loop of [crc16]. *)
Definition crc16_step (crc : Z) : Z :=
  if negb (Z.land crc 0x8000 =? 0) then Z.lxor (wrap 16 (Z.shiftl crc 1)) 0x1021
  else wrap 16 (Z.shiftl crc 1).

Definition crc16_byte (crc byte : Z) : Z :=
  Nat.iter 8 crc16_step (Z.lxor crc (wrap 16 (Z.shiftl byte 8))).

Definition crc16 (data : list Z) : Z := fold_left crc16_byte data 0xffff.

(** ** The steps are permutations of the register *)
Lemma crc5_step_range crc b : uint 5 crc -> uint 1 b -> uint 5 (crc5_step crc b).
Proof.
  intros. unfold crc5_step. apply uint_lxor; [lia| |].
  - apply uint_land_r; [lia|]. unfold uint; lia.
  - destruct (negb _); unfold uint; lia.
Qed.

Lemma crc5_step_inj c1 c2 b :
  uint 5 c1 -> uint 5 c2 -> uint 1 b -> crc5_step c1 b = crc5_step c2 b -> c1 = c2.
Proof.
  intros H1 H2 Hb Heq.
  assert (Hall : check_below 2 (fun b => check_below 32 (fun c1 => check_below 32 (fun c2 =>
            negb (crc5_step c1 b =? crc5_step c2 b) || (c1 =? c2)))) = true)
    by (vm_compute; reflexivity).
  pose proof (check_below_spec _ _ Hall b Hb) as Hall1.
  pose proof (check_below_spec _ _ Hall1 c1 H1) as Hall2.
  pose proof (check_below_spec _ _ Hall2 c2 H2) as Hall3. cbv beta in Hall3.
  rewrite Heq, Z.eqb_refl in Hall3. by apply Z.eqb_eq in Hall3.
Qed.

(** For a given register, the two input bits lead to two registers. *)
Lemma crc5_step_bit c b1 b2 :
  uint 5 c -> uint 1 b1 -> uint 1 b2 -> crc5_step c b1 = crc5_step c b2 -> b1 = b2.
Proof.
  intros H1 H2 Hb Heq.
  assert (Hall : check_below 32 (fun c => check_below 2 (fun b1 => check_below 2 (fun b2 =>
            negb (crc5_step c b1 =? crc5_step c b2) || (b1 =? b2)))) = true)
    by (vm_compute; reflexivity).
  pose proof (check_below_spec _ _ Hall c H1) as Hall1.
  pose proof (check_below_spec _ _ Hall1 b1 H2) as Hall2.
  pose proof (check_below_spec _ _ Hall2 b2 Hb) as Hall3. cbv beta in Hall3.
  rewrite Heq, Z.eqb_refl in Hall3. by apply Z.eqb_eq in Hall3.
Qed.

(** The bits of a byte, most significant first, as [crc5] consumes them. *)
Definition byte_bits (byte : Z) : list Z :=
  map (fun i => Z.land (Z.shiftr byte i) 1) [7; 6; 5; 4; 3; 2; 1; 0].
Definition bits_of (data : list Z) : list Z := flat_map byte_bits data.

Lemma bits_of_ok data : Forall (uint 1) (bits_of data).
Proof.
  apply Forall_flat_map, Forall_true. intros byte.
  apply Forall_map, Forall_true. intros i. apply uint_land_r; unfold uint; lia.
Qed.

Lemma crc5_byte_bits c b : crc5_byte c b = fold_left crc5_step (byte_bits b) c.
Proof. unfold crc5_byte, byte_bits. by rewrite fold_left_map. Qed.

Lemma crc5_bits data c : fold_left crc5_byte data c = fold_left crc5_step (bits_of data) c.
Proof.
  revert c; induction data as [|b data IH]; intros c; [done|].
  change (bits_of (b :: data)) with (byte_bits b ++ bits_of data).
  by rewrite fold_left_app, <- IH, <- crc5_byte_bits, fold_left_cons.
Qed.

Lemma crc5_range data : uint 5 (crc5 data).
Proof.
  unfold crc5. rewrite crc5_bits.
  apply (fold_left_ok (uint 5) (uint 1)); [apply crc5_step_range|unfold uint; lia|].
  apply bits_of_ok.
Qed.

(** Two bit strings that differ in exactly one bit have different registers. *)
Lemma crc5_one_bit pre post b1 b2 c :
  uint 5 c -> Forall (uint 1) pre -> Forall (uint 1) post -> uint 1 b1 -> uint 1 b2 ->
  fold_left crc5_step (pre ++ b1 :: post) c = fold_left crc5_step (pre ++ b2 :: post) c ->
  b1 = b2.
Proof.
  intros Hc Hpre Hpost H1 H2. rewrite !fold_left_app. simpl.
  assert (Hs : uint 5 (fold_left crc5_step pre c))
    by (apply (fold_left_ok (uint 5) (uint 1)); auto using crc5_step_range).
  intros Heq%(fold_left_inj (uint 5) (uint 1) _ crc5_step_range crc5_step_inj);
    auto using crc5_step_range.
  by apply (crc5_step_bit (fold_left crc5_step pre c)).
Qed.

(** Feeding a register its own five bits, most significant first, clears it. *)
Lemma crc5_append_low c t x :
  uint 5 c -> uint 3 t -> uint 5 x ->
  crc5_byte c (Z.lor (Z.shiftl t 5) x) = 0 <->
  x = fold_left crc5_step [Z.land (Z.shiftr t 2) 1; Z.land (Z.shiftr t 1) 1; Z.land t 1] c.
Proof.
  intros Hc Ht Hx.
  assert (Hall : check_below 32 (fun c => check_below 8 (fun t => check_below 32 (fun x =>
     Bool.eqb (crc5_byte c (Z.lor (Z.shiftl t 5) x) =? 0)
       (x =? fold_left crc5_step [Z.land (Z.shiftr t 2) 1; Z.land (Z.shiftr t 1) 1; Z.land t 1] c)))) = true)
    by (vm_compute; reflexivity).
  pose proof (check_below_spec _ _ Hall c Hc) as H1.
  pose proof (check_below_spec _ _ H1 t Ht) as H2.
  pose proof (check_below_spec _ _ H2 x Hx) as H3. cbv beta in H3.
  apply eqb_prop in H3. rewrite <- Z.eqb_eq, H3. apply Z.eqb_eq.
Qed.

(** ** crc16 *)
Lemma crc16_step_range crc : uint 16 (crc16_step crc).
Proof.
  unfold crc16_step. destruct (negb _).
  - apply uint_lxor; [lia|apply wrap_uint; lia|unfold uint; lia].
  - apply wrap_uint; lia.
Qed.

(** Undoes [crc16_step]: bit 0 of the result tells which branch ran. *)
Definition crc16_unstep (crc : Z) : Z :=
  if Z.odd crc then Z.lor 0x8000 (Z.shiftr (Z.lxor crc 0x1021) 1) else Z.shiftr crc 1.

Lemma crc16_unstep_step crc : uint 16 crc -> crc16_unstep (crc16_step crc) = crc.
Proof.
  intros H. apply Z.eqb_eq.
  apply (check_uint 16 (fun crc => crc16_unstep (crc16_step crc) =? crc)); [|done].
  vm_compute. reflexivity.
Qed.

Lemma crc16_steps_inj n c1 c2 :
  uint 16 c1 -> uint 16 c2 -> Nat.iter n crc16_step c1 = Nat.iter n crc16_step c2 -> c1 = c2.
Proof.
  intros H1 H2. induction n as [|n IH]; simpl; [done|]. intros Heq. apply IH.
  assert (Hr : forall c, uint 16 c -> uint 16 (Nat.iter n crc16_step c))
    by (intros c Hc; destruct n; simpl; [done|apply crc16_step_range]).
  rewrite <- (crc16_unstep_step (Nat.iter n crc16_step c1)) by auto.
  rewrite <- (crc16_unstep_step (Nat.iter n crc16_step c2)) by auto. by rewrite Heq.
Qed.

Lemma crc16_byte_pre_range crc byte :
  uint 16 crc -> uint 8 byte -> uint 16 (Z.lxor crc (wrap 16 (Z.shiftl byte 8))).
Proof. intros. apply uint_lxor; [lia|done|apply wrap_uint; lia]. Qed.

Lemma crc16_byte_range crc byte : uint 16 (crc16_byte crc byte).
Proof. apply crc16_step_range. Qed.

Lemma crc16_range data : uint 16 (crc16 data).
Proof.
  unfold crc16. apply (fold_left_ok (uint 16) (fun _ => True)).
  - intros; apply crc16_byte_range.
  - unfold uint; lia.
  - by apply Forall_true.
Qed.

Lemma lxor_inj_l x y z : Z.lxor x y = Z.lxor x z -> y = z.
Proof.
  intros H. rewrite <- (Z.lxor_0_l y), <- (Z.lxor_0_l z), <- (Z.lxor_nilpotent x).
  by rewrite !Z.lxor_assoc, H.
Qed.

Lemma crc16_byte_inj c1 c2 byte :
  uint 16 c1 -> uint 16 c2 -> uint 8 byte -> crc16_byte c1 byte = crc16_byte c2 byte -> c1 = c2.
Proof.
  intros H1 H2 Hb Heq%crc16_steps_inj; auto using crc16_byte_pre_range.
  rewrite !(Z.lxor_comm _ (wrap _ _)) in Heq. by apply lxor_inj_l in Heq.
Qed.

Lemma crc16_byte_byte c b1 b2 :
  uint 16 c -> uint 8 b1 -> uint 8 b2 -> crc16_byte c b1 = crc16_byte c b2 -> b1 = b2.
Proof.
  intros Hc H1 H2 Heq%crc16_steps_inj; auto using crc16_byte_pre_range.
  apply lxor_inj_l in Heq. rewrite !wrap_id in Heq by eauto with word.
  rewrite !Z.shiftl_mul_pow2 in Heq by lia. lia.
Qed.

Lemma crc5_complete data t : uint 3 t ->
  exists c, uint 5 c /\ crc5_is_valid (data ++ [Z.lor (Z.shiftl t 5) c]) = true /\
    forall c', uint 5 c' -> crc5_is_valid (data ++ [Z.lor (Z.shiftl t 5) c']) = true -> c' = c.
Proof.
  intros Ht. pose proof (crc5_range data) as Hc.
  set (c := fold_left crc5_step [Z.land (Z.shiftr t 2) 1; Z.land (Z.shiftr t 1) 1; Z.land t 1] (crc5 data)).
  assert (Hv : forall x, uint 5 x ->
     crc5_is_valid (data ++ [Z.lor (Z.shiftl t 5) x]) = true <-> x = c).
  { intros x Hx. unfold crc5_is_valid. rewrite Z.eqb_eq. unfold crc5 at 1.
    rewrite fold_left_app, fold_left_cons. by apply crc5_append_low. }
  assert (Hr : uint 5 c).
  { apply (fold_left_ok (uint 5) (uint 1)); [apply crc5_step_range|done|].
    repeat apply Forall_cons_2; try apply Forall_nil_2; apply uint_land_r; unfold uint; lia. }
  exists c. split; [done|]. split; [by apply Hv|]. intros c' Hc' Hval. by apply Hv.
Qed.

(** ** What the check sequences promise *)

(** CRC-5: flipping any single bit of a frame changes its CRC, and for any
    data and any three type bits there is exactly one five-bit check value that
    makes the frame valid. *)
Theorem crc5_detects_and_completes data :
  (forall pre post b1 b2, bits_of data = pre ++ b1 :: post -> uint 1 b2 -> b2 <> b1 ->
     fold_left crc5_step (pre ++ b2 :: post) 0x1f <> crc5 data) /\
  (forall t, uint 3 t -> exists c, uint 5 c /\ crc5_is_valid (data ++ [Z.lor (Z.shiftl t 5) c]) = true /\
     forall c', uint 5 c' -> crc5_is_valid (data ++ [Z.lor (Z.shiftl t 5) c']) = true -> c' = c).
Proof.
  split.
  - intros pre post b1 b2 Hbits H2 Hne Heq. apply Hne.
    pose proof (bits_of_ok data) as Hok. rewrite Hbits in Hok.
    apply Forall_app in Hok as [Hpre Hpost]. apply Forall_cons in Hpost as [Hb1 Hpost].
    apply (crc5_one_bit pre post b2 b1 0x1f); try done.
    rewrite Heq. unfold crc5. by rewrite crc5_bits, Hbits.
  - intros t Ht. by apply crc5_complete.
Qed.

(** CRC-16: replacing any one byte of a job frame's payload by a different
    byte changes the CRC, wherever it is and whatever surrounds it. *)
Theorem crc16_detects_byte_errors pre post b1 b2 :
  uint 8 b1 -> uint 8 b2 -> b1 <> b2 -> bytes post ->
  crc16 (pre ++ b1 :: post) <> crc16 (pre ++ b2 :: post).
Proof.
  intros H1 H2 Hne Hpost Heq. apply Hne. unfold crc16 in Heq.
  rewrite !fold_left_app, !fold_left_cons in Heq.
  apply (fold_left_inj (uint 16) (uint 8) crc16_byte (fun s a _ _ => crc16_byte_range s a)
           crc16_byte_inj) in Heq;
    [|apply crc16_byte_range|apply crc16_byte_range|exact Hpost].
  apply crc16_byte_byte in Heq; [exact Heq|apply (crc16_range pre)|exact H1|exact H2].
Qed.

Lemma crc16_detects_byte_errors_witness :
  crc16 ([0x31; 0x32; 0x33; 0x34] ++ 0x35 :: [0x36; 0x37; 0x38; 0x39]) = 0x29b1 /\
  crc16 ([0x31; 0x32; 0x33; 0x34] ++ 0x35 :: [0x36; 0x37; 0x38; 0x39]) <>
  crc16 ([0x31; 0x32; 0x33; 0x34] ++ 0x36 :: [0x36; 0x37; 0x38; 0x39]).
Proof.
  split; [vm_compute; reflexivity|].
  refine (crc16_detects_byte_errors [0x31; 0x32; 0x33; 0x34] [0x36; 0x37; 0x38; 0x39] 0x35 0x36 _ _ _ _).
  - unfold uint; lia.
  - unfold uint; lia.
  - lia.
  - repeat constructor; vm_compute; discriminate.
Defined.
