(* ===== verification/Version.v ===== *)
(** * Block version rolling (job_source/version.rs)

    A block version is the i32 of the header, a signed [Z]; general purpose
    bits are the two bytes that roll version bits 28 to 13. *)
From stdpp Require Import base numbers list.
From Stdlib Require Import ZArith Lia.
From S2P Require Import Prelude.

(** ** GeneralPurposeBits *)
Module GpBits.
Record t := Mk { hi : Z; lo : Z }.

Definition new (b0 b1 : Z) : t := Mk b0 b1.
Definition as_bytes (g : t) : list Z := [hi g; lo g].
Definition full : t := Mk 0xff 0xff.
Definition none : t := Mk 0x00 0x00.
(** [b & !m == 0], byte by byte. *)
Definition contains (mask value : t) : bool :=
  forallb (fun '(m, b) => Z.land b (Z.lxor m 0xff) =? 0)
    (zip (as_bytes mask) (as_bytes value)).
Definition to_u16 (g : t) : Z := from_be (as_bytes g).
Definition apply_to_version (g : t) (base : Z) : Z := Z.lor base (Z.shiftl (to_u16 g) 13).
(** [From<&[u8; 4]>]: bits 28 to 13 of a Stratum mask. *)
Definition from_mask (mask_bytes : list Z) : t :=
  let mask := from_be mask_bytes in
  let bits := wrap 16 (Z.shiftr mask 13) in
  Mk (wrap 8 (Z.shiftr bits 8)) (wrap 8 bits).
Definition wf (g : t) : Prop := uint 8 (hi g) /\ uint 8 (lo g).
End GpBits.

(** ** VersionTemplate *)
Module VersionTemplate.
Inductive error :=
| BaseHasGeneralPurposeBits (base_value : Z) (gp_bits : Z * Z)
| GpBitsExceedMask (gp_bits mask : GpBits.t).

Record t := Mk { base : Z; gp_bits_mask : GpBits.t }.

Definition new (b : Z) (mask : GpBits.t) : result error t :=
  let base_u32 := wrap 32 b in
  let gp_region := Z.land (Z.shiftr base_u32 13) 0xffff in
  if negb (gp_region =? 0)
  then Err (BaseHasGeneralPurposeBits base_u32 (wrap 8 (Z.shiftr gp_region 8), wrap 8 gp_region))
  else Ok (Mk b mask).

Definition apply_gp_bits (v : t) (gp : GpBits.t) : result error Z :=
  if negb (GpBits.contains (gp_bits_mask v) gp)
  then Err (GpBitsExceedMask gp (gp_bits_mask v))
  else Ok (GpBits.apply_to_version gp (base v)).
End VersionTemplate.

(** ** Lemmas *)
Lemma gp_to_u16 g : GpBits.wf g ->
  uint 16 (GpBits.to_u16 g) /\
  forall n, 0 <= n < 16 -> Z.testbit (GpBits.to_u16 g) n =
    if n <? 8 then Z.testbit (GpBits.lo g) n else Z.testbit (GpBits.hi g) (n - 8).
Proof.
  destruct g as [h l]. intros [Hh Hl]. unfold GpBits.to_u16, from_be; simpl in *.
  rewrite Z.mul_0_r, Z.add_0_r.
  replace (l + 256 * h) with (Z.lor (Z.shiftl h 8) l).
  - split; [eauto with word|]. intros n Hn. rewrite Z.lor_spec, Z.shiftl_spec by lia.
    destruct (Z.ltb_spec n 8); [by rewrite Z.testbit_neg_r by lia|].
    rewrite (testbit_high 8 l n) by done. apply orb_false_r.
  - rewrite lor_shiftl_add by (done || lia). change (2 ^ 8) with 256. lia.
Qed.

Lemma contains_byte m b : uint 8 m -> uint 8 b ->
  (Z.land b (Z.lxor m 0xff) =? 0) = true <->
  forall n, 0 <= n < 8 -> Z.testbit b n = true -> Z.testbit m n = true.
Proof.
  intros Hm Hb. rewrite Z.eqb_eq.
  assert (Hff : forall n, 0 <= n < 8 -> Z.testbit 0xff n = true).
  { intros n Hn. change 0xff with (Z.ones 8). apply Z.ones_spec_low. lia. }
  split; intros H.
  - intros n Hn Hbn. pose proof (Z.bits_0 n) as Hz. rewrite <- H in Hz.
    rewrite Z.land_spec, Z.lxor_spec, Hbn, (Hff n Hn) in Hz. by destruct (Z.testbit m n).
  - apply (uint_bits_eq 8); [lia| |apply uint_0; lia|].
    + rewrite Z.land_comm. apply uint_land_r; [lia|done].
    + intros n Hn. rewrite Z.bits_0, Z.land_spec, Z.lxor_spec, (Hff n Hn).
      destruct (Z.testbit b n) eqn:Hbn; [|done]. by rewrite (H n Hn Hbn).
Qed.

Lemma contains_spec mask gp : GpBits.wf mask -> GpBits.wf gp ->
  GpBits.contains mask gp = true <->
  forall n, 0 <= n < 16 -> Z.testbit (GpBits.to_u16 gp) n = true ->
    Z.testbit (GpBits.to_u16 mask) n = true.
Proof.
  intros Hm Hg. destruct (gp_to_u16 mask Hm) as [_ Bm]. destruct (gp_to_u16 gp Hg) as [_ Bg].
  destruct Hm as [Hm1 Hm2], Hg as [Hg1 Hg2].
  unfold GpBits.contains, GpBits.as_bytes. simpl. rewrite andb_true_r, andb_true_iff.
  rewrite !contains_byte by done. split.
  - intros [H1 H2] n Hn. rewrite Bm, Bg by lia.
    destruct (Z.ltb_spec n 8); [apply H2; lia|apply H1; lia].
  - intros H. split; intros n Hn.
    + specialize (H (n + 8) ltac:(lia)). rewrite Bm, Bg in H by lia.
      rewrite (proj2 (Z.ltb_ge (n + 8) 8)) in H by lia.
      by replace (n + 8 - 8) with n in H by lia.
    + specialize (H n ltac:(lia)). rewrite Bm, Bg in H by lia.
      by rewrite (proj2 (Z.ltb_lt n 8)) in H by lia.
Qed.

(** A template's base has none of bits 28 to 13. *)
Lemma template_base_clear b mask v n :
  VersionTemplate.new b mask = Ok v -> 13 <= n < 29 -> Z.testbit b n = false.
Proof.
  unfold VersionTemplate.new. destruct (Z.eqb_spec (Z.land (Z.shiftr (wrap 32 b) 13) 0xffff) 0)
    as [Hz|]; [|discriminate]. intros _ Hn.
  pose proof (Z.bits_0 (n - 13)) as Hb. rewrite <- Hz, Z.land_spec, Z.shiftr_spec in Hb by lia.
  replace (n - 13 + 13) with n in Hb by lia. rewrite wrap_testbit in Hb by lia.
  change 0xffff with (Z.ones 16) in Hb. rewrite Z.ones_spec_low in Hb by lia.
  rewrite (proj2 (Z.ltb_lt n 32)) in Hb by lia. by rewrite andb_true_r in Hb.
Qed.

(** Version rolling stays inside the mask: for a template that [new]
    accepts, [apply_gp_bits] succeeds exactly when every bit to be set is in the
    mask, and then bits 28 to 13 of the result are the general purpose bits and
    every other bit, sign included, is the base version's; [new] itself refuses
    exactly the bases with one of those bits set. *)
Theorem version_rolling_masked b mask gp v :
  GpBits.wf mask -> GpBits.wf gp -> VersionTemplate.new b mask = Ok v ->
  match VersionTemplate.apply_gp_bits v gp with
  | Ok version =>
      (forall n, 0 <= n -> Z.testbit version n =
         if (13 <=? n) && (n <? 29) then Z.testbit (GpBits.to_u16 gp) (n - 13) else Z.testbit b n) /\
      (forall n, 0 <= n -> Z.testbit version n <> Z.testbit b n ->
         Z.testbit (Z.shiftl (GpBits.to_u16 mask) 13) n = true)
  | Err _ => exists n, 0 <= n < 16 /\ Z.testbit (GpBits.to_u16 gp) n = true /\
      Z.testbit (GpBits.to_u16 mask) n = false
  end.
Proof.
  intros Hm Hg Hnew. pose proof (template_base_clear b mask v) as Hclear.
  assert (v = VersionTemplate.Mk b mask) as ->.
  { revert Hnew. unfold VersionTemplate.new. case_match; congruence. }
  unfold VersionTemplate.apply_gp_bits. simpl.
  destruct (GpBits.contains mask gp) eqn:Hc; simpl.
  - rewrite contains_spec in Hc by done. destruct (gp_to_u16 gp Hg) as [Hr _].
    assert (Hv : forall n, 0 <= n -> Z.testbit (GpBits.apply_to_version gp b) n =
         if (13 <=? n) && (n <? 29) then Z.testbit (GpBits.to_u16 gp) (n - 13) else Z.testbit b n).
    { intros n Hn. unfold GpBits.apply_to_version. rewrite Z.lor_spec, Z.shiftl_spec by done.
      destruct (Z.leb_spec 13 n); simpl.
      - destruct (Z.ltb_spec n 29).
        + by rewrite (Hclear n Hnew) by lia.
        + rewrite (testbit_high 16 _ (n - 13)) by (done || lia). apply orb_false_r.
      - rewrite (Z.testbit_neg_r _ (n - 13)) by lia. apply orb_false_r. }
    split; [exact Hv|]. intros n Hn. rewrite (Hv n Hn), Z.shiftl_spec by done.
    destruct (Z.leb_spec 13 n); simpl; [|done].
    destruct (Z.ltb_spec n 29); [|done]. rewrite (Hclear n Hnew) by lia. intros Hb.
    apply Hc; [lia|]. by destruct (Z.testbit (GpBits.to_u16 gp) (n - 13)).
  - apply not_true_iff_false in Hc. rewrite contains_spec in Hc by done.
    assert (Hex : exists n, In n (seqZ 0 16) /\
              (Z.testbit (GpBits.to_u16 gp) n && negb (Z.testbit (GpBits.to_u16 mask) n)) = true).
    { apply existsb_exists. apply not_false_is_true. intros Hf. apply Hc. intros n Hn Hgn.
      destruct (Z.testbit (GpBits.to_u16 mask) n) eqn:Hmn; [done|].
      assert (Ht : existsb (fun n => Z.testbit (GpBits.to_u16 gp) n &&
                     negb (Z.testbit (GpBits.to_u16 mask) n)) (seqZ 0 16) = true)
        by (apply existsb_exists; exists n; split;
            [apply list_elem_of_In, elem_of_seqZ; lia|by rewrite Hgn, Hmn]).
      congruence. }
    destruct Hex as (n & Hin & Hb). apply list_elem_of_In, elem_of_seqZ in Hin.
    apply andb_prop in Hb as [Hb1 Hb2]. exists n. split; [lia|]. split; [done|].
    by destruct (Z.testbit (GpBits.to_u16 mask) n).
Qed.

Lemma version_rolling_masked_witness :
  VersionTemplate.apply_gp_bits (VersionTemplate.Mk 0x20000000 GpBits.full) (GpBits.Mk 0x05 0xa2)
    = Ok 0x20b44000 /\
  match VersionTemplate.apply_gp_bits (VersionTemplate.Mk 0x20000000 GpBits.full) (GpBits.Mk 0x05 0xa2) with
  | Ok version =>
      (forall n, 0 <= n -> Z.testbit version n =
         if (13 <=? n) && (n <? 29) then Z.testbit (GpBits.to_u16 (GpBits.Mk 0x05 0xa2)) (n - 13)
         else Z.testbit 0x20000000 n) /\
      (forall n, 0 <= n -> Z.testbit version n <> Z.testbit 0x20000000 n ->
         Z.testbit (Z.shiftl (GpBits.to_u16 GpBits.full) 13) n = true)
  | Err _ => exists n, 0 <= n < 16 /\ Z.testbit (GpBits.to_u16 (GpBits.Mk 0x05 0xa2)) n = true /\
      Z.testbit (GpBits.to_u16 GpBits.full) n = false
  end.
Proof.
  split; [vm_compute; reflexivity|].
  apply (version_rolling_masked 0x20000000 GpBits.full (GpBits.Mk 0x05 0xa2)).
  - vm_compute; intuition discriminate.
  - vm_compute; intuition discriminate.
  - reflexivity.
Defined.
