(* ===== verification/Extranonce.v ===== *)
(** * Extranonces and their ranges (job_source/extranonce.rs)

    An extranonce is a 64-bit counter at the right end of a slot of 1 to 32
    bytes.  [elems] and [view] give the list of counters a range or an iterator
    stands for; the operations are proved against those lists. *)
From stdpp Require Import base numbers list.
From Stdlib Require Import ZArith Lia.
From S2P Require Import Prelude.

Definition COUNTER_WIDTH : nat := 8.
Definition MAX_WIDTH : nat := 32.

Inductive ExtranonceError :=
| InvalidWidth (w : nat)
| BeyondCounter.

Definition check_width (width : nat) : result ExtranonceError Z :=
  if (1 <=? width)%nat && (width <=? MAX_WIDTH)%nat then Ok (Z.of_nat width)
  else Err (InvalidWidth width).

Definition max_counter (width : Z) : Z :=
  let bits := width * 8 in
  if 64 <=? bits then 2 ^ 64 - 1 else Z.shiftl 1 bits - 1.

(** What stepping an iterator does to the list it stands for. *)
Definition list_next (l : list Z) : option Z * list Z := (head l, tail l).
Definition list_back (l : list Z) : option Z * list Z := (last l, removelast l).

(** ** Extranonce *)
Module Extranonce.
Record t := Mk { counter : Z; width : Z }.

Definition from_bytes (b : list Z) : result ExtranonceError t :=
  (let? w := check_width (length b) in
   let mid := (length b - COUNTER_WIDTH)%nat in
   let padding := take mid b in
   let tail := drop mid b in
   if existsb (fun x => negb (x =? 0)) padding then Err BeyondCounter
   else Ok (Mk (from_be (repeat 0 (COUNTER_WIDTH - length tail) ++ tail)) w))%res.

(** Defined for arrays of 1 to 8 bytes only, which the compiler enforces. *)
Definition from_array (b : list Z) : t :=
  Mk (from_be (repeat 0 (COUNTER_WIDTH - length b) ++ b)) (Z.of_nat (length b)).

Definition width_bytes (e : t) : nat := Z.to_nat (width e).

Definition bytes_of (e : t) : list Z :=
  let counter_bytes := Nat.min (width_bytes e) COUNTER_WIDTH in
  let padding := (width_bytes e - counter_bytes)%nat in
  repeat 0 padding ++ drop (COUNTER_WIDTH - counter_bytes) (be_bytes 8 (counter e)).

Definition extend_vec (e : t) (vec : list Z) : list Z := vec ++ bytes_of e.
Definition into_vec (e : t) : list Z := extend_vec e [].

Definition wf (e : t) : Prop := 1 <= width e <= 32 /\ 0 <= counter e <= max_counter (width e).
End Extranonce.

(** ** ExtranonceRange *)
Module ExtranonceRange.
Record t := Mk { first : Z; last : Z; width : Z }.

Definition full (w : nat) : result ExtranonceError t :=
  (let? w := check_width w in Ok (Mk 0 (max_counter w) w))%res.

Definition starting_at (e : Extranonce.t) : t :=
  Mk (Extranonce.counter e) (max_counter (Extranonce.width e)) (Extranonce.width e).

Definition len (r : t) : Z := last r - first r + 1.

(** The loop of [split], with [k] of its iterations left, [i] done and the next
    part starting at [first]. *)
Fixpoint split_loop (k : nat) (i base extra first width : Z) : list t :=
  match k with
  | O => []
  | S k =>
      let span := wrap 64 (base + b2z (i <? extra) - 1) in
      let last := wrap 64 (first + span) in
      Mk first last width :: split_loop k (i + 1) base extra (wrap 64 (last + 1)) width
  end.

Definition split (r : t) (n : Z) : option (list t) :=
  let parts := n in
  if (parts =? 0) || (len r <? parts) then None
  else
    let base := len r / parts in
    let extra := len r mod parts in
    Some (split_loop (Z.to_nat parts) 0 base extra (first r) (width r)).

Definition start (r : t) : Extranonce.t := Extranonce.Mk (first r) (width r).

Definition wf (r : t) : Prop :=
  1 <= width r <= 32 /\ 0 <= first r <= last r /\ last r <= max_counter (width r).

(** The counters of a range, in order. *)
Definition elems (r : t) : list Z := seqZ (first r) (len r).
End ExtranonceRange.

(** ** ExtranonceIter *)
Module ExtranonceIter.
Record t := Mk { next : option Z; last : Z; width : Z }.

Definition iter (r : ExtranonceRange.t) : t :=
  Mk (Some (ExtranonceRange.first r)) (ExtranonceRange.last r) (ExtranonceRange.width r).

Definition extranonce (it : t) (c : Z) : Extranonce.t := Extranonce.Mk c (width it).

Definition remaining (it : t) : Z :=
  match next it with None => 0 | Some n => last it - n + 1 end.

(** [Iterator::next]: the item and the iterator after the call. *)
Definition next_item (it : t) : option Extranonce.t * t :=
  match next it with
  | None => (None, it)
  | Some c =>
      let next' := if c <? last it then Some (c + 1) else None in
      (Some (extranonce it c), Mk next' (last it) (width it))
  end.

(** [usize] is 64 bits. *)
Definition size_hint (it : t) : Z * option Z :=
  let exact := if remaining it <? 2 ^ 64 then Some (remaining it) else None in
  (default (2 ^ 64 - 1) exact, exact).

Definition checked_add (x y : Z) : option Z := if x + y <? 2 ^ 64 then Some (x + y) else None.
Definition checked_sub (x y : Z) : option Z := if y <=? x then Some (x - y) else None.

Definition nth (it : t) (n : Z) : option Extranonce.t * t :=
  match next it with
  | None => (None, it)
  | Some nx =>
      match (c ← checked_add nx n; if c <=? last it then Some c else None) with
      | Some c => next_item (Mk (Some c) (last it) (width it))
      | None => (None, Mk None (last it) (width it))
      end
  end.

(** A panic when the count does not fit a [usize] is [None]. *)
Definition count (it : t) : option Z :=
  if remaining it <? 2 ^ 64 then Some (remaining it) else None.

Definition last_item (it : t) : option Extranonce.t :=
  option_map (fun _ => extranonce it (last it)) (next it).

Definition next_back (it : t) : option Extranonce.t * t :=
  match next it with
  | None => (None, it)
  | Some nx =>
      let c := last it in
      let it' := if c =? nx then Mk None (last it) (width it)
                 else Mk (next it) (last it - 1) (width it) in
      (Some (extranonce it' c), it')
  end.

Definition nth_back (it : t) (n : Z) : option Extranonce.t * t :=
  match next it with
  | None => (None, it)
  | Some nx =>
      match (c ← checked_sub (last it) n; if nx <=? c then Some c else None) with
      | Some c => next_back (Mk (next it) c (width it))
      | None => (None, Mk None (last it) (width it))
      end
  end.

Definition wf (it : t) : Prop :=
  0 <= last it < 2 ^ 64 /\ match next it with Some n => 0 <= n <= last it | None => True end.

(** The counters still to come. *)
Definition view (it : t) : list Z :=
  match next it with Some n => seqZ n (last it - n + 1) | None => [] end.
End ExtranonceIter.

(** ** Lemmas on counters *)
Lemma max_counter_range w : 1 <= w -> 0 <= max_counter w < 2 ^ 64.
Proof.
  intros Hw. unfold max_counter. destruct (Z.leb_spec 64 (w * 8)); [lia|].
  rewrite Z.shiftl_1_l. pose proof (Z.pow_lt_mono_r 2 (w * 8) 64).
  pose proof (Z.pow_pos_nonneg 2 (w * 8)). lia.
Qed.

Lemma from_le_app_zeros l n : from_le (l ++ repeat 0 n) = from_le l.
Proof.
  rewrite from_le_app. assert (from_le (repeat 0 n) = 0) as ->; [|lia].
  induction n; simpl; lia.
Qed.

Lemma rev_repeat {A} (x : A) n : rev (repeat x n) = repeat x n.
Proof.
  induction n; [done|]. simpl. rewrite IHn. clear IHn.
  induction n; [done|]. simpl. by rewrite IHn.
Qed.

Lemma from_be_zeros n l : from_be (repeat 0 n ++ l) = from_be l.
Proof. unfold from_be. rewrite rev_app_distr, rev_repeat. apply from_le_app_zeros. Qed.

Lemma from_be_app l1 l2 : from_be (l1 ++ l2) = from_be l2 + 2 ^ (8 * Z.of_nat (length l2)) * from_be l1.
Proof. unfold from_be. by rewrite rev_app_distr, from_le_app, length_rev. Qed.

Lemma be_bytes_cons n v : be_bytes (S n) v = be_bytes n (v / 256) ++ [v mod 256].
Proof. done. Qed.

(** Dropping the high bytes of a big-endian number keeps its low ones. *)
Lemma drop_be_bytes k n v : (k <= n)%nat -> drop (n - k) (be_bytes n v) = be_bytes k v.
Proof.
  revert n v; induction k as [|k IH]; intros n v Hk.
  - rewrite Nat.sub_0_r. apply skipn_all2. by rewrite be_bytes_length.
  - destruct n as [|n]; [lia|]. rewrite !be_bytes_cons. simpl Nat.sub.
    rewrite drop_app_le by (rewrite be_bytes_length; lia).
    by rewrite IH by lia.
Qed.

Lemma existsb_padding l : existsb (fun x => negb (x =? 0)) l = false -> l = repeat 0 (length l).
Proof.
  induction l as [|x l IH]; [done|]. simpl. intros [Hx Hl]%orb_false_elim.
  rewrite <- IH by done. f_equal. by destruct (Z.eqb_spec x 0).
Qed.

Lemma existsb_zeros n : existsb (fun x => negb (x =? 0)) (repeat 0 n) = false.
Proof. induction n; done. Qed.

Lemma uint_max_counter w c : (1 <= w)%nat ->
  0 <= c <= max_counter (Z.of_nat w) <-> uint (8 * Z.of_nat (Nat.min w 8)) c.
Proof.
  intros Hw. unfold uint, max_counter. destruct (Z.leb_spec 64 (Z.of_nat w * 8)).
  - replace (Nat.min w 8) with 8%nat by lia. change (8 * Z.of_nat 8) with 64. lia.
  - replace (Nat.min w 8) with w by lia. rewrite Z.shiftl_1_l, (Z.mul_comm (Z.of_nat w)). lia.
Qed.

Lemma bytes_of_wf e : Extranonce.wf e ->
  Extranonce.bytes_of e =
    repeat 0 (Extranonce.width_bytes e - 8) ++
    be_bytes (Nat.min (Extranonce.width_bytes e) 8) (Extranonce.counter e).
Proof.
  intros [Hw _]. unfold Extranonce.bytes_of, COUNTER_WIDTH. cbv zeta.
  rewrite drop_be_bytes by lia. f_equal. f_equal. lia.
Qed.

Lemma bytes_of_length e : Extranonce.wf e -> length (Extranonce.bytes_of e) = Extranonce.width_bytes e.
Proof.
  intros Hwf. rewrite bytes_of_wf by done. rewrite length_app, repeat_length, be_bytes_length. lia.
Qed.

Lemma bytes_of_bytes e : Extranonce.wf e -> bytes (Extranonce.bytes_of e).
Proof.
  intros He. rewrite bytes_of_wf by done. apply Forall_app. split; [|apply be_bytes_bytes].
  apply Forall_forall. intros b Hb. apply list_elem_of_In, repeat_spec in Hb as ->. apply uint_0; lia.
Qed.

Lemma check_width_ok w : (1 <= w <= 32)%nat -> check_width w = Ok (Z.of_nat w).
Proof. intros. unfold check_width, MAX_WIDTH. rewrite !(proj2 (Nat.leb_le _ _)) by lia. done. Qed.

Lemma check_width_err w : ~ (1 <= w <= 32)%nat -> check_width w = Err (InvalidWidth w).
Proof.
  intros. unfold check_width, MAX_WIDTH.
  destruct (Nat.leb_spec 1 w); [|done]. by rewrite (proj2 (Nat.leb_gt w 32)) by lia.
Qed.

Lemma from_bytes_into_vec e : Extranonce.wf e -> Extranonce.from_bytes (Extranonce.into_vec e) = Ok e.
Proof.
  intros Hwf. pose proof (bytes_of_length e Hwf) as Hl. destruct e as [c w]. destruct Hwf as [Hw Hc].
  unfold Extranonce.into_vec, Extranonce.extend_vec, Extranonce.from_bytes.
  rewrite app_nil_l, Hl. unfold Extranonce.width_bytes in *. simpl in *.
  rewrite check_width_ok by lia. unfold res_bind. rewrite bytes_of_wf by (split; done).
  unfold Extranonce.width_bytes, COUNTER_WIDTH. simpl.
  rewrite take_app_length', drop_app_length' by (rewrite repeat_length; done).
  rewrite existsb_zeros, be_bytes_length, from_be_zeros, from_be_be_bytes.
  rewrite wrap_id; [f_equal; f_equal; lia|].
  apply uint_max_counter; [lia|]. by rewrite Z2Nat.id by lia.
Qed.

Lemma into_vec_from_bytes b e : bytes b -> Extranonce.from_bytes b = Ok e ->
  Extranonce.wf e /\ Extranonce.into_vec e = b.
Proof.
  intros Hb. unfold Extranonce.from_bytes.
  destruct (decide (1 <= length b <= 32)%nat) as [Hl|Hl];
    [rewrite check_width_ok by done|by rewrite check_width_err by done].
  unfold res_bind, COUNTER_WIDTH.
  destruct (existsb _ _) eqn:Hpad; [discriminate|]. intros [= <-].
  apply existsb_padding in Hpad. rewrite length_take in Hpad.
  set (k := (length b - 8)%nat) in *. replace (Nat.min k (length b)) with k in Hpad by lia.
  rewrite from_be_zeros.
  assert (Htail : bytes (drop k b)) by (by apply Forall_drop).
  assert (Hlen : length (drop k b) = Nat.min (length b) 8) by (rewrite length_drop; lia).
  assert (Hwf : Extranonce.wf (Extranonce.Mk (from_be (drop k b)) (Z.of_nat (length b)))).
  { split; simpl; [lia|]. apply uint_max_counter; [lia|]. rewrite <- Hlen. by apply from_be_range. }
  split; [done|].
  unfold Extranonce.into_vec, Extranonce.extend_vec. rewrite app_nil_l, bytes_of_wf by done.
  unfold Extranonce.width_bytes. simpl. rewrite Nat2Z.id, <- Hlen, be_bytes_from_be by done.
  fold k. rewrite <- Hpad at 1. apply take_drop.
Qed.

(** ** Lemmas on [seqZ] *)
Lemma seqZ_head m n : 0 < n -> seqZ m n = m :: seqZ (m + 1) (n - 1).
Proof. intros. rewrite seqZ_cons by lia. f_equal. Qed.

Lemma seqZ_snoc m n : 0 < n -> seqZ m n = seqZ m (n - 1) ++ [m + n - 1].
Proof.
  intros. replace n with ((n - 1) + 1) at 1 by lia. rewrite seqZ_app by lia. f_equal.
  rewrite seqZ_head by lia. simpl. f_equal. lia.
Qed.

Lemma drop_seqZ k m n : drop k (seqZ m n) = seqZ (m + Z.of_nat k) (n - Z.of_nat k).
Proof.
  destruct (decide (Z.of_nat k <= n)).
  - replace n with (Z.of_nat k + (n - Z.of_nat k)) at 1 by lia.
    rewrite seqZ_app by lia. apply drop_app_length'. rewrite length_seqZ. lia.
  - rewrite (seqZ_nil _ (n - Z.of_nat k)) by lia. apply skipn_all2. rewrite length_seqZ. lia.
Qed.

Lemma take_seqZ k m n : Z.of_nat k <= n -> take k (seqZ m n) = seqZ m (Z.of_nat k).
Proof.
  intros. replace n with (Z.of_nat k + (n - Z.of_nat k)) at 1 by lia.
  rewrite seqZ_app by lia. apply take_app_length'. rewrite length_seqZ. lia.
Qed.

Lemma removelast_snoc {A} (l : list A) x : removelast (l ++ [x]) = l.
Proof. induction l as [|y l IH]; [done|]. simpl. rewrite IH. by destruct l. Qed.

(** ** The parts of a split *)
Section Split.
Context (base extra width : Z).
Hypothesis Hbase : 0 < base.

(** The number of values in the next [k] parts after the first [i]. *)
Definition total (k : nat) (i : Z) : Z :=
  Z.of_nat k * base + (Z.min extra (i + Z.of_nat k) - Z.min extra i).

Lemma total_S k i : 0 <= i -> total (S k) i = base + b2z (i <? extra) + total k (i + 1).
Proof. intros. unfold total, b2z. destruct (Z.ltb_spec i extra); lia. Qed.

Lemma total_nonneg k i : 0 <= total k i.
Proof. unfold total. nia. Qed.

Lemma split_loop_spec k i first :
  0 <= i -> 0 <= first -> first + total k i <= 2 ^ 64 ->
  let parts := ExtranonceRange.split_loop k i base extra first width in
  length parts = k /\
  mjoin (map ExtranonceRange.elems parts) = seqZ first (total k i) /\
  Forall (fun p => ExtranonceRange.width p = width /\ first <= ExtranonceRange.first p <= ExtranonceRange.last p
            /\ ExtranonceRange.last p < first + total k i
            /\ (ExtranonceRange.len p = base \/ ExtranonceRange.len p = base + 1)) parts.
Proof.
  revert i first; induction k as [|k IH]; intros i first Hi Hfirst Htot; cbv zeta.
  { split; [done|]. split; [|constructor]. simpl. rewrite seqZ_nil; [done|]. unfold total. lia. }
  rewrite total_S in * by done. simpl.
  pose proof (total_nonneg k (i + 1)) as Ht.
  set (sz := base + b2z (i <? extra)) in *.
  assert (Hsz : 0 < sz /\ (sz = base \/ sz = base + 1)) by (unfold sz, b2z; destruct (i <? extra); lia).
  assert (Hspan : wrap 64 (sz - 1) = sz - 1) by (apply wrap_id; unfold uint; lia).
  rewrite Hspan.
  assert (Hlast : wrap 64 (first + (sz - 1)) = first + sz - 1).
  { replace (first + (sz - 1)) with (first + sz - 1) by lia. apply wrap_id. unfold uint. lia. }
  rewrite Hlast.
  assert (Hrec : ExtranonceRange.split_loop k (i + 1) base extra (wrap 64 (first + sz - 1 + 1)) width =
                 ExtranonceRange.split_loop k (i + 1) base extra (first + sz) width).
  { destruct k as [|k']; [done|]. f_equal. replace (first + sz - 1 + 1) with (first + sz) by lia.
    apply wrap_id. unfold uint. unfold total in *. lia. }
  rewrite Hrec. destruct (IH (i + 1) (first + sz)) as (Hlen & Hjoin & Hall); [lia..|].
  split; [by rewrite Hlen|]. split.
  - rewrite Hjoin. unfold ExtranonceRange.elems, ExtranonceRange.len. simpl.
    replace (first + sz - 1 - first + 1) with sz by lia.
    by rewrite seqZ_app by lia.
  - constructor.
    + unfold ExtranonceRange.len. simpl. lia.
    + eapply Forall_impl; [exact Hall|]. simpl. intros p Hp. destruct_and!. split_and!; try done; lia.
Qed.
End Split.

Lemma total_all base extra n : 0 <= n -> 0 <= extra < n -> total base extra (Z.to_nat n) 0 = n * base + extra.
Proof. intros. unfold total. rewrite Z2Nat.id by lia. lia. Qed.

Lemma range_len_pos r : ExtranonceRange.wf r -> 0 < ExtranonceRange.len r <= 2 ^ 64.
Proof.
  intros (Hw & Hf & Hl). unfold ExtranonceRange.len.
  pose proof (max_counter_range (ExtranonceRange.width r)). lia.
Qed.

(** ** Iterators *)
Lemma next_item_view it : ExtranonceIter.wf it ->
  let '(o, it') := ExtranonceIter.next_item it in
  (option_map Extranonce.counter o, ExtranonceIter.view it') = list_next (ExtranonceIter.view it) /\
  ExtranonceIter.wf it' /\ ExtranonceIter.width it' = ExtranonceIter.width it.
Proof.
  destruct it as [[nx|] l w]; intros [Hl Hn];
    unfold ExtranonceIter.next_item, ExtranonceIter.view, ExtranonceIter.wf, list_next in *; simpl in *; [|done].
  rewrite seqZ_head by lia. simpl. destruct (Z.ltb_spec nx l); split_and!; try (done || lia).
  - do 2 f_equal. lia.
  - by rewrite seqZ_nil by lia.
Qed.

Lemma next_back_view it : ExtranonceIter.wf it ->
  let '(o, it') := ExtranonceIter.next_back it in
  (option_map Extranonce.counter o, ExtranonceIter.view it') = list_back (ExtranonceIter.view it) /\
  ExtranonceIter.wf it' /\ ExtranonceIter.width it' = ExtranonceIter.width it.
Proof.
  destruct it as [[nx|] l w]; intros [Hl Hn];
    unfold ExtranonceIter.next_back, ExtranonceIter.view, ExtranonceIter.wf, list_back in *; simpl in *; [|done].
  rewrite seqZ_snoc, last_snoc, removelast_snoc by lia.
  destruct (Z.eqb_spec l nx); simpl; split_and!; try (done || lia).
  - subst. rewrite seqZ_nil by lia. do 2 f_equal. lia.
  - f_equal; [f_equal; lia|]. f_equal. lia.
Qed.

(** The list an iterator stands for after skipping [n] from the front, or from the back. *)
Definition list_nth (l : list Z) (n : nat) : option Z * list Z := list_next (drop n l).
Definition list_nth_back (l : list Z) (n : nat) : option Z * list Z := list_back (take (length l - n) l).

Lemma nth_view it n : ExtranonceIter.wf it -> 0 <= n < 2 ^ 64 ->
  let '(o, it') := ExtranonceIter.nth it n in
  (option_map Extranonce.counter o, ExtranonceIter.view it') = list_nth (ExtranonceIter.view it) (Z.to_nat n) /\
  ExtranonceIter.wf it' /\ ExtranonceIter.width it' = ExtranonceIter.width it.
Proof.
  intros Hwf Hn. destruct it as [[nx|] l w]; [|by unfold list_nth, ExtranonceIter.view; destruct (Z.to_nat n)].
  destruct Hwf as [Hl Hnx]. simpl in *. unfold ExtranonceIter.nth, list_nth. simpl.
  unfold ExtranonceIter.view at 2. simpl. rewrite drop_seqZ, Z2Nat.id by lia.
  unfold ExtranonceIter.checked_add.
  destruct (Z.ltb_spec (nx + n) (2 ^ 64)); simpl; [destruct (Z.leb_spec (nx + n) l); simpl|].
  - pose proof (next_item_view (ExtranonceIter.Mk (Some (nx + n)) l w)) as H'.
    simpl in H'. destruct H' as (He & Hwf' & Hw); [split; simpl; lia|].
    split; [|split; [exact Hwf'|exact Hw]].
    rewrite He. unfold ExtranonceIter.view. simpl. do 2 f_equal. lia.
  - split_and!; [|split; simpl; done|done]. by rewrite seqZ_nil by lia.
  - split_and!; [|split; simpl; done|done]. by rewrite seqZ_nil by lia.
Qed.

Lemma nth_back_view it n : ExtranonceIter.wf it -> 0 <= n < 2 ^ 64 ->
  let '(o, it') := ExtranonceIter.nth_back it n in
  (option_map Extranonce.counter o, ExtranonceIter.view it') = list_nth_back (ExtranonceIter.view it) (Z.to_nat n) /\
  ExtranonceIter.wf it' /\ ExtranonceIter.width it' = ExtranonceIter.width it.
Proof.
  intros Hwf Hn. destruct it as [[nx|] l w]; [|done].
  destruct Hwf as [Hl Hnx]. simpl in *. unfold ExtranonceIter.nth_back, list_nth_back. simpl.
  unfold ExtranonceIter.view at 2 3. simpl. rewrite length_seqZ.
  unfold ExtranonceIter.checked_sub.
  destruct (Z.leb_spec n l); simpl; [destruct (Z.leb_spec nx (l - n)); simpl|].
  - pose proof (next_back_view (ExtranonceIter.Mk (Some nx) (l - n) w)) as H'.
    simpl in H'. destruct H' as (He & Hwf' & Hw); [split; simpl; lia|].
    split; [|split; [exact Hwf'|exact Hw]].
    rewrite He. unfold ExtranonceIter.view. simpl. rewrite take_seqZ by lia. do 2 f_equal. lia.
  - split_and!; [|split; simpl; done|done].
    replace (Z.to_nat (l - nx + 1) - Z.to_nat n)%nat with 0%nat by lia. done.
  - split_and!; [|split; simpl; done|done].
    replace (Z.to_nat (l - nx + 1) - Z.to_nat n)%nat with 0%nat by lia. done.
Qed.

(** ** What extranonces promise *)

(** Bytes and extranonces are in bijection: [from_bytes] accepts exactly
    the slots of 1 to 32 bytes whose bytes left of the 8-byte counter are zero,
    writing the result back gives the same bytes, and every extranonce is
    recovered from its own bytes. *)
Theorem extranonce_bytes_roundtrip b :
  bytes b ->
  match Extranonce.from_bytes b with
  | Ok e => Extranonce.wf e /\ Extranonce.into_vec e = b
  | Err (InvalidWidth w) => w = length b /\ ~ (1 <= w <= 32)%nat
  | Err BeyondCounter => (8 < length b <= 32)%nat /\ Exists (fun x => x <> 0) (take (length b - 8) b)
  end /\
  (forall e, Extranonce.wf e -> Extranonce.from_bytes (Extranonce.into_vec e) = Ok e).
Proof.
  intros Hb. split; [|apply from_bytes_into_vec].
  destruct (Extranonce.from_bytes b) as [e|err] eqn:He; [by apply into_vec_from_bytes|].
  revert He. unfold Extranonce.from_bytes.
  destruct (decide (1 <= length b <= 32)%nat) as [Hl|Hl];
    [rewrite check_width_ok by done|rewrite check_width_err by done]; unfold res_bind, COUNTER_WIDTH.
  - destruct (existsb _ _) eqn:Hpad; [|discriminate]. intros [= <-].
    apply existsb_exists in Hpad as (x & Hin & Hx). split.
    + destruct (decide (8 < length b)%nat); [lia|].
      by replace (length b - 8)%nat with 0%nat in Hin by lia.
    + apply Exists_exists. exists x. split; [by apply list_elem_of_In|].
      by destruct (Z.eqb_spec x 0).
  - by intros [= <-].
Qed.

Lemma extranonce_bytes_roundtrip_witness :
  Extranonce.from_bytes [0; 0x12; 0x34] = Ok (Extranonce.Mk 0x1234 3) /\
  (match Extranonce.from_bytes [0; 0x12; 0x34] with
   | Ok e => Extranonce.wf e /\ Extranonce.into_vec e = [0; 0x12; 0x34]
   | Err (InvalidWidth w) => w = 3%nat /\ ~ (1 <= w <= 32)%nat
   | Err BeyondCounter => (8 < 3 <= 32)%nat /\ Exists (fun x => x <> 0) (take (3 - 8) [0; 0x12; 0x34])
   end /\
   (forall e, Extranonce.wf e -> Extranonce.from_bytes (Extranonce.into_vec e) = Ok e)).
Proof.
  split; [vm_compute; reflexivity|]. apply (extranonce_bytes_roundtrip [0; 0x12; 0x34]).
  repeat constructor; vm_compute; discriminate.
Defined.

Lemma split_spec r n :
  ExtranonceRange.wf r -> 0 <= n < 2 ^ 64 ->
  match ExtranonceRange.split r n with
  | Some parts =>
      Z.of_nat (length parts) = n /\
      mjoin (map ExtranonceRange.elems parts) = ExtranonceRange.elems r /\
      Forall ExtranonceRange.wf parts /\
      Forall (fun p => ExtranonceRange.width p = ExtranonceRange.width r /\
        (ExtranonceRange.len p = ExtranonceRange.len r / n \/
         ExtranonceRange.len p = ExtranonceRange.len r / n + 1)) parts
  | None => n = 0 \/ ExtranonceRange.len r < n
  end.
Proof.
  intros Hwf Hn. unfold ExtranonceRange.split.
  destruct (Z.eqb_spec n 0) as [|Hn0]; simpl; [by left|].
  destruct (Z.ltb_spec (ExtranonceRange.len r) n); [by right|].
  pose proof (range_len_pos r Hwf) as Hlen. destruct Hwf as (Hw & Hf & Hmax).
  pose proof (max_counter_range (ExtranonceRange.width r) ltac:(lia)) as Hm.
  set (L := ExtranonceRange.len r) in *.
  assert (Hbase : 0 < L / n) by (apply Z.div_str_pos; lia).
  pose proof (Z.mod_pos_bound L n ltac:(lia)) as Hextra.
  pose proof (Z.div_mod L n Hn0) as Hdiv.
  destruct (split_loop_spec (L / n) (L mod n) (ExtranonceRange.width r) Hbase
              (Z.to_nat n) 0 (ExtranonceRange.first r)) as (Hl & Hj & Hall);
    [lia|lia|rewrite total_all by lia; unfold L, ExtranonceRange.len in *; lia|].
  rewrite total_all in Hj, Hall by lia.
  split_and!.
  - rewrite Hl. lia.
  - rewrite Hj. unfold ExtranonceRange.elems. f_equal. fold L. lia.
  - eapply Forall_impl; [exact Hall|]. simpl. intros p (Hpw & Hpf & Hpl & _).
    unfold ExtranonceRange.wf. rewrite Hpw. unfold L, ExtranonceRange.len in *. split_and!; lia.
  - eapply Forall_impl; [exact Hall|]. simpl. intros p (Hpw & _ & _ & Hpl). done.
Qed.

(** Splitting a range partitions it: the parts are [n] non-empty ranges of the
    same slot that, laid end to end, are exactly the counters of the whole range
    in order (so they are disjoint and nothing is lost), their lengths differ by
    at most one, and no 64-bit step overflows.  It fails exactly when [n] is
    zero or there are fewer counters than parts. *)
Theorem extranonce_split_partition r n :
  ExtranonceRange.wf r -> 0 <= n < 2 ^ 64 ->
  match ExtranonceRange.split r n with
  | Some parts =>
      Z.of_nat (length parts) = n /\
      mjoin (map ExtranonceRange.elems parts) = ExtranonceRange.elems r /\
      Forall ExtranonceRange.wf parts /\
      Forall (fun p => ExtranonceRange.width p = ExtranonceRange.width r /\
        (ExtranonceRange.len p = ExtranonceRange.len r / n \/
         ExtranonceRange.len p = ExtranonceRange.len r / n + 1)) parts
  | None => n = 0 \/ ExtranonceRange.len r < n
  end.
Proof. apply split_spec. Qed.

Lemma extranonce_split_partition_witness :
  ExtranonceRange.split (ExtranonceRange.Mk 0 (2 ^ 64 - 1) 8) 3 <> None /\
  match ExtranonceRange.split (ExtranonceRange.Mk 0 (2 ^ 64 - 1) 8) 3 with
  | Some parts =>
      Z.of_nat (length parts) = 3 /\
      mjoin (map ExtranonceRange.elems parts) = ExtranonceRange.elems (ExtranonceRange.Mk 0 (2 ^ 64 - 1) 8) /\
      Forall ExtranonceRange.wf parts /\
      Forall (fun p => ExtranonceRange.width p = 8 /\
        (ExtranonceRange.len p = ExtranonceRange.len (ExtranonceRange.Mk 0 (2 ^ 64 - 1) 8) / 3 \/
         ExtranonceRange.len p = ExtranonceRange.len (ExtranonceRange.Mk 0 (2 ^ 64 - 1) 8) / 3 + 1)) parts
  | None => 3 = 0 \/ ExtranonceRange.len (ExtranonceRange.Mk 0 (2 ^ 64 - 1) 8) < 3
  end.
Proof.
  split; [vm_compute; discriminate|].
  apply (extranonce_split_partition (ExtranonceRange.Mk 0 (2 ^ 64 - 1) 8) 3); [|lia].
  vm_compute. intuition discriminate.
Defined.

(** The range iterator refines the list of the counters that are left: from
    both ends, by steps of one or skipping any number, every method returns the
    list's answer and leaves the list's remainder, [remaining] and [last] agree,
    and a fresh iterator stands for the whole range. *)
Theorem extranonce_iter_refines it n :
  ExtranonceIter.wf it -> 0 <= n < 2 ^ 64 ->
  let l := ExtranonceIter.view it in
  let agrees (m : option Extranonce.t * ExtranonceIter.t) (a : option Z * list Z) :=
    (option_map Extranonce.counter m.1, ExtranonceIter.view m.2) = a /\
    ExtranonceIter.wf m.2 /\ ExtranonceIter.width m.2 = ExtranonceIter.width it in
  agrees (ExtranonceIter.next_item it) (head l, tail l) /\
  agrees (ExtranonceIter.next_back it) (last l, removelast l) /\
  agrees (ExtranonceIter.nth it n) (list_nth l (Z.to_nat n)) /\
  agrees (ExtranonceIter.nth_back it n) (list_nth_back l (Z.to_nat n)) /\
  ExtranonceIter.remaining it = Z.of_nat (length l) /\
  option_map Extranonce.counter (ExtranonceIter.last_item it) = last l /\
  (forall r, ExtranonceRange.wf r ->
     ExtranonceIter.wf (ExtranonceIter.iter r) /\
     ExtranonceIter.view (ExtranonceIter.iter r) = ExtranonceRange.elems r).
Proof.
  intros Hwf Hn. cbv zeta.
  pose proof (next_item_view it Hwf) as H1. pose proof (next_back_view it Hwf) as H2.
  pose proof (nth_view it n Hwf Hn) as H3. pose proof (nth_back_view it n Hwf Hn) as H4.
  destruct (ExtranonceIter.next_item it), (ExtranonceIter.next_back it),
    (ExtranonceIter.nth it n), (ExtranonceIter.nth_back it n).
  split; [exact H1|]. split; [exact H2|]. split; [exact H3|]. split; [exact H4|].
  split; [|split].
  - destruct it as [[nx|] l w], Hwf as [Hl Hnx]; unfold ExtranonceIter.remaining, ExtranonceIter.view; simpl in *.
    + rewrite length_seqZ. lia.
    + done.
  - destruct it as [[nx|] l w], Hwf as [Hl Hnx]; unfold ExtranonceIter.last_item, ExtranonceIter.view; simpl in *.
    + rewrite seqZ_snoc, last_snoc by lia. f_equal. lia.
    + done.
  - intros r (Hw & Hf & Hl).
    pose proof (max_counter_range (ExtranonceRange.width r) ltac:(lia)) as Hm.
    split; [split; simpl; lia|]. done.
Qed.

Lemma extranonce_iter_refines_witness :
  let it := ExtranonceIter.Mk (Some 3) 7 8 in
  ExtranonceIter.view it = [3; 4; 5; 6; 7] /\
  ExtranonceIter.remaining it = Z.of_nat (length (ExtranonceIter.view it)).
Proof.
  split; [reflexivity|].
  apply (extranonce_iter_refines (ExtranonceIter.Mk (Some 3) 7 8) 2); [|lia].
  split; simpl; lia.
Defined.
