(* ===== verification/Job.v ===== *)
(** * Jobs, shares and their messages (job_source/job.rs, merkle.rs, messages.rs, asic/hash_thread.rs)

    Hashes are their 32 bytes, targets 256-bit integers.  Parsing a coinbase
    transaction and hashing belong to the bitcoin crate: [txid] (deserialise,
    then compute the transaction id; [None] when the bytes are no transaction)
    and [sha256d] are arguments. *)
From stdpp Require Import base numbers list strings.
From Stdlib Require Import ZArith Lia.
From S2P Require Import Prelude Float U256 Version Extranonce.

(** ** Merkle roots *)
Module MerkleRootTemplate.
Record t := Mk {
  coinbase_prefix : list Z; extranonce_prefix : list Z; extranonce_range : ExtranonceRange.t;
  coinbase_suffix : list Z; merkle_branches : list (list Z) }.

Section Compute.
Context (txid : list Z -> option (list Z)) (sha256d : list Z -> list Z).

(** The coinbase bytes [compute_merkle_root] builds. *)
Definition coinbase_bytes (m : t) (extranonce : Extranonce.t) : list Z :=
  let b := [] in
  let b := b ++ coinbase_prefix m in
  let b := b ++ extranonce_prefix m in
  let b := Extranonce.extend_vec extranonce b in
  b ++ coinbase_suffix m.

Definition compute_merkle_root (m : t) (extranonce : Extranonce.t) : option (list Z) :=
  current_hash ← txid (coinbase_bytes m extranonce);
  Some (fold_left (fun current_hash branch => sha256d (current_hash ++ branch)) (merkle_branches m) current_hash).
End Compute.
End MerkleRootTemplate.

Inductive MerkleRootKind :=
| Fixed (root : list Z)
| Computed (template : MerkleRootTemplate.t).

(** ** Job templates and shares *)
Record JobTemplate := MkJob {
  job_id : string; prev_blockhash : list Z; version : VersionTemplate.t; bits : Z;
  share_target : Z; time : Z; merkle_root : MerkleRootKind }.

(** [JobTemplate::compute_merkle_root]; both kinds of failure are [None]. *)
Definition job_merkle_root (txid : list Z -> option (list Z)) (sha256d : list Z -> list Z)
    (j : JobTemplate) (extranonce : Extranonce.t) : option (list Z) :=
  match merkle_root j with
  | Computed template => MerkleRootTemplate.compute_merkle_root txid sha256d template extranonce
  | Fixed _ => None
  end.

(** A share on its way to a source (job.rs). *)
Record SourceShare := MkSourceShare {
  sh_job_id : string; sh_nonce : Z; sh_time : Z; sh_version : Z; sh_extranonce : option Extranonce.t }.

(** A share on its way from a hash thread (hash_thread.rs). *)
Record Share := MkShare {
  nonce : Z; hash : list Z; s_version : Z; ntime : Z; extranonce : option Extranonce.t;
  expected_work : Z }.

Definition source_share_from (s : Share) (id : string) : SourceShare :=
  MkSourceShare id (nonce s) (ntime s) (s_version s) (extranonce s).

(** Work assigned to a thread.  The share channel is the task's, named by the scheduler. *)
Record HashTask := MkTask {
  template : JobTemplate; extranonce_range : option ExtranonceRange.t;
  task_extranonce : option Extranonce.t; task_share_target : Z; task_ntime : Z }.

Inductive HashThreadEvent :=
| WorkDepletionWarning (estimated_remaining_ms : Z)
| WorkExhausted (extranonce_searched : Z)
| StatusUpdate (hashrate : Z) (is_active : bool)
| ExpectedHashRate (rate : Z).

Inductive SourceEvent :=
| UpdateJob (j : JobTemplate)
| ReplaceJob (j : JobTemplate)
| ClearJobs.

Inductive SourceCommand :=
| SubmitShare (s : SourceShare)
| UpdateHashRate (rate : Z).

(** ** The merkle tree a pool's branches describe *)
Section Merkle.
Context (sha256d : list Z -> list Z).

Inductive tree := Leaf (h : list Z) | Node (l r : tree).

Fixpoint root (t : tree) : list Z :=
  match t with Leaf h => h | Node l r => sha256d (root l ++ root r) end.
(** The coinbase is the leftmost leaf. *)
Fixpoint coinbase_leaf (t : tree) : list Z :=
  match t with Leaf h => h | Node l _ => coinbase_leaf l end.
(** The roots of the subtrees to the right of the path to it, from the bottom up. *)
Fixpoint branches (t : tree) : list (list Z) :=
  match t with Leaf _ => [] | Node l r => branches l ++ [root r] end.

Lemma climb_root t :
  fold_left (fun h b => sha256d (h ++ b)) (branches t) (coinbase_leaf t) = root t.
Proof. induction t as [h|l IHl r _]; [done|]. simpl. by rewrite fold_left_app, IHl. Qed.
End Merkle.

(** A computed merkle root is the root of the block's transaction tree: if
    the coinbase built for an extranonce is the leftmost leaf of a tree and the
    template's branches are the roots right of the path to it, the result is the
    root of the whole tree; and the extranonce's slot bytes sit in the coinbase
    between the fixed prefix and suffix. *)
Theorem merkle_root_of_tree txid sha256d m e t :
  txid (MerkleRootTemplate.coinbase_prefix m ++ MerkleRootTemplate.extranonce_prefix m ++
        Extranonce.bytes_of e ++ MerkleRootTemplate.coinbase_suffix m) = Some (coinbase_leaf t) ->
  MerkleRootTemplate.merkle_branches m = branches sha256d t ->
  MerkleRootTemplate.compute_merkle_root txid sha256d m e = Some (root sha256d t).
Proof.
  intros Hid Hb. unfold MerkleRootTemplate.compute_merkle_root, MerkleRootTemplate.coinbase_bytes.
  unfold Extranonce.extend_vec. rewrite app_nil_l, <- !app_assoc, Hid, Hb. simpl.
  by rewrite climb_root.
Qed.

Lemma merkle_root_of_tree_witness :
  let m := MerkleRootTemplate.Mk [1; 2] [3] (ExtranonceRange.Mk 0 255 1) [5] [[20]; [30]] in
  let t := Node (Node (Leaf [11]) (Leaf [20])) (Leaf [30]) in
  let sha l := [foldr Z.add 0 l] in
  MerkleRootTemplate.compute_merkle_root (fun b => Some [foldr Z.add 0 b]) sha m (Extranonce.Mk 0 1) = Some [61] /\
  MerkleRootTemplate.compute_merkle_root (fun b => Some [foldr Z.add 0 b]) sha m (Extranonce.Mk 0 1) = Some (root sha t).
Proof.
  split; [reflexivity|].
  apply (merkle_root_of_tree (fun b => Some [foldr Z.add 0 b]) (fun l => [foldr Z.add 0 l])
           (MerkleRootTemplate.Mk [1; 2] [3] (ExtranonceRange.Mk 0 255 1) [5] [[20]; [30]])
           (Extranonce.Mk 0 1) (Node (Node (Leaf [11]) (Leaf [20])) (Leaf [30]))); reflexivity.
Defined.
