(* ===== verification/Alarm.v ===== *)
(** * The debounced alarm (types/debounced_alarm.rs)

    Instants and durations are nanoseconds.  The alarm is refined by the list of
    the instants of the current episode: the consecutive checks with a true
    condition since the last false one, reset or creation. *)
From stdpp Require Import base numbers list.
From Stdlib Require Import ZArith Lia.
From S2P Require Import Prelude.

Module Alarm.
Inductive AlarmStatus := SIdle | SPending | STriggered | SActive | SResolved.
Inductive State := Idle | Timing (since : Z) | Fired.
Record t := Mk { debounce : Z; state : State }.

Definition new (debounce : Z) : t := Mk debounce Idle.

(** [since.elapsed()] at instant [now] saturates at zero. *)
Definition elapsed (now since : Z) : Z := Z.max 0 (now - since).

(** [check], with the clock read passed in as [now]. *)
Definition check (a : t) (now : Z) (condition : bool) : AlarmStatus * t :=
  match state a, condition with
  | Idle, false => (SIdle, a)
  | Idle, true => (SPending, Mk (debounce a) (Timing now))
  | Timing _, false => (SIdle, Mk (debounce a) Idle)
  | Timing since, true =>
      if debounce a <=? elapsed now since then (STriggered, Mk (debounce a) Fired)
      else (SPending, a)
  | Fired, false => (SResolved, Mk (debounce a) Idle)
  | Fired, true => (SActive, a)
  end.

Definition reset (a : t) : t := Mk (debounce a) Idle.
End Alarm.

(** ** The specification: what an episode is *)

(** Has the condition held for [deb] at some check after the first of the episode? *)
Definition fired (deb : Z) (episode : list Z) : bool :=
  match episode with
  | [] => false
  | first :: rest => existsb (fun t => deb <=? Alarm.elapsed t first) rest
  end.

Inductive event := Check (now : Z) (condition : bool) | Reset.

(** The status the documentation promises for a check, from the episode before it. *)
Definition promised (deb : Z) (episode : list Z) (now : Z) (condition : bool) : Alarm.AlarmStatus :=
  if condition then
    if fired deb episode then Alarm.SActive
    else if fired deb (episode ++ [now]) then Alarm.STriggered
    else Alarm.SPending
  else if fired deb episode then Alarm.SResolved else Alarm.SIdle.

Definition next_episode (episode : list Z) (e : event) : list Z :=
  match e with
  | Check now true => episode ++ [now]
  | Check _ false | Reset => []
  end.

(** Runs of the two machines over a list of events: the statuses returned. *)
Fixpoint run (a : Alarm.t) (es : list event) : list Alarm.AlarmStatus :=
  match es with
  | [] => []
  | Check now c :: es => let '(s, a) := Alarm.check a now c in s :: run a es
  | Reset :: es => run (Alarm.reset a) es
  end.
Fixpoint run_spec (deb : Z) (episode : list Z) (es : list event) : list Alarm.AlarmStatus :=
  match es with
  | [] => []
  | Check now c :: es =>
      promised deb episode now c :: run_spec deb (next_episode episode (Check now c)) es
  | Reset :: es => run_spec deb [] es
  end.

(** The alarm's state is a function of the episode. *)
Definition state_of (deb : Z) (episode : list Z) : Alarm.State :=
  match episode with
  | [] => Alarm.Idle
  | first :: _ => if fired deb episode then Alarm.Fired else Alarm.Timing first
  end.

Lemma fired_app deb x ep now :
  fired deb ((x :: ep) ++ [now]) = fired deb (x :: ep) || (deb <=? Alarm.elapsed now x).
Proof. simpl. rewrite existsb_app. simpl. by rewrite orb_false_r. Qed.

Lemma check_refines deb ep now c :
  Alarm.check (Alarm.Mk deb (state_of deb ep)) now c =
    (promised deb ep now c, Alarm.Mk deb (state_of deb (next_episode ep (Check now c)))).
Proof.
  unfold Alarm.check, promised. destruct ep as [|x ep]; [by destruct c|].
  assert (Hs : state_of deb (x :: ep) = if fired deb (x :: ep) then Alarm.Fired else Alarm.Timing x) by done.
  assert (Hs' : state_of deb ((x :: ep) ++ [now]) =
            if fired deb (x :: ep) || (deb <=? Alarm.elapsed now x) then Alarm.Fired else Alarm.Timing x)
    by (rewrite <- fired_app; done).
  destruct c; cbn [next_episode Alarm.state Alarm.debounce]; rewrite ?Hs, ?Hs', ?fired_app;
    destruct (fired deb (x :: ep)); try done.
  cbn [orb]. by destruct (deb <=? Alarm.elapsed now x).
Qed.

(** The alarm does what its table promises, for every sequence of checks and
    resets: the statuses it returns are those of the specification over episodes,
    so it triggers exactly at the first check, after the episode's first, at which
    the condition has held for the debounce time, then reports active until the
    condition clears, then resolved once. *)
Theorem alarm_refines_episodes deb es : run (Alarm.new deb) es = run_spec deb [] es.
Proof.
  change (Alarm.new deb) with (Alarm.Mk deb (state_of deb [])). generalize (@nil Z) as ep.
  induction es as [|[now c|] es IH]; intros ep; [done| |].
  - simpl. rewrite check_refines. cbn [next_episode]. f_equal. apply IH.
  - simpl. apply (IH []).
Qed.
