(* ===== verification/Estimator.v ===== *)
(** * Hash rates and their estimation (types/hash_rate.rs, types/hashrate_estimator.rs)

    Instants and durations are nanoseconds.  Subtracting a duration from an
    instant is the standard library's [checked_sub], which fails when the result
    is not representable: it is an argument, [clock]. *)
From stdpp Require Import base numbers list.
From Stdlib Require Import ZArith Lia Sorted.
From S2P Require Import Prelude Float U256.

Definition NANOS : Z := 1000000000.

(** ** HashRate: hashes per second, a u64 *)
Module HashRate.
Definition t : Type := Z.
Definition from_megahashes (mh : float) : t := f_to_uint 64 (f_mul f64 mh (f_of_Z f64 (10 ^ 6))).
Definition from_gigahashes (gh : float) : t := f_to_uint 64 (f_mul f64 gh (f_of_Z f64 (10 ^ 9))).
Definition from_terahashes (th : float) : t := f_to_uint 64 (f_mul f64 th (f_of_Z f64 (10 ^ 12))).
Definition as_megahashes (r : t) : float := f_div f64 (f_of_Z f64 r) (f_of_Z f64 (10 ^ 6)).
Definition as_gigahashes (r : t) : float := f_div f64 (f_of_Z f64 r) (f_of_Z f64 (10 ^ 9)).
Definition as_terahashes (r : t) : float := f_div f64 (f_of_Z f64 r) (f_of_Z f64 (10 ^ 12)).
Definition is_zero (r : t) : bool := r =? 0.
Definition from_u64 (x : Z) : t := x.
Definition to_u64 (r : t) : Z := r.
Definition to_f64 (r : t) : float := f_of_Z f64 r.

(** [Duration::as_secs_f64]. *)
Definition as_secs_f64 (d : Z) : float :=
  f_add f64 (f_of_Z f64 (d / NANOS)) (f_div f64 (f_of_Z f64 (d mod NANOS)) (f_of_Z f64 NANOS)).
Definition hashes_in (r : t) (d : Z) : float := f_mul f64 (f_of_Z f64 r) (as_secs_f64 d).

(** Release builds wrap on overflow. *)
Definition add (a b : t) : t := wrap 64 (a + b).
Definition sum (l : list t) : t := fold_left add l 0.
End HashRate.

(** ** HashrateEstimator *)
Module Estimator.
Section Ops.
Context `{R : Ruint} (clock : Z -> Z -> option Z).

Record t := Mk {
  window : Z; min_samples : nat; max_samples : nat;
  samples : list (Z * Z); total_work : Z }.

Definition with_limits (w : Z) (mn mx : nat) : t := Mk w mn mx [] U256.ZERO.
Definition new (w : Z) : t := with_limits w 5 (Z.to_nat (wrap 64 (w / NANOS * 10))).

Fixpoint prune_loop (cutoff : Z) (l : list (Z * Z)) (total : Z) : list (Z * Z) * Z :=
  match l with
  | [] => (l, total)
  | (time, work) :: l' =>
      if cutoff <=? time then (l, total) else prune_loop cutoff l' (U256.sub_assign total work)
  end.
Definition prune_before (e : t) (cutoff : Z) : t :=
  let '(l, total) := prune_loop cutoff (samples e) (total_work e) in
  Mk (window e) (min_samples e) (max_samples e) l total.

Fixpoint cap_loop (cap : nat) (l : list (Z * Z)) (total : Z) : list (Z * Z) * Z :=
  if (cap <? length l)%nat then
    match l with
    | [] => (l, total)
    | (_, old_work) :: l' => cap_loop cap l' (U256.sub_assign total old_work)
    end
  else (l, total).

Definition record_at (e : t) (at_ work : Z) : t :=
  let e := prune_before e (default at_ (clock at_ (window e))) in
  let l := samples e ++ [(at_, work)] in
  let total := U256.add_assign (total_work e) work in
  let '(l, total) := cap_loop (max_samples e) l total in
  Mk (window e) (min_samples e) (max_samples e) l total.

(** The rate and the pruned estimator; [duration_since] saturates at zero. *)
Definition hashrate_at (e : t) (now : Z) : HashRate.t * t :=
  let e := prune_before e (default now (clock now (window e))) in
  match samples e with
  | [] => (0, e)
  | (oldest, _) :: _ =>
      let secs := Z.max 0 (now - oldest) / NANOS in
      if secs =? 0 then (0, e)
      else (default 0 (U256.saturating_to_u64 <$> U256.div_u64 (total_work e) secs), e)
  end.

Definition has_samples (e : t) : bool := negb (bool_decide (samples e = [])).
Definition is_settled (e : t) : bool := (min_samples e <=? length (samples e))%nat.

(** [settled_hashrate] with the clock read passed in. *)
Definition settled_hashrate (e : t) (now : Z) : option HashRate.t * t :=
  if is_settled e then let '(r, e) := hashrate_at e now in (Some r, e) else (None, e).
End Ops.

(** ** Invariant *)
Definition works (l : list (Z * Z)) : Z := foldr (fun s acc => s.2 + acc) 0 l.
Definition times_sorted (l : list (Z * Z)) : Prop := StronglySorted Z.le (map fst l).
Definition wf (e : t) : Prop :=
  total_work e = wrap 256 (works (samples e)) /\ times_sorted (samples e) /\
  (length (samples e) <= max_samples e)%nat.

(** The last [n] elements of a list. *)
Definition lastn {A} (n : nat) (l : list A) : list A := drop (length l - n) l.
End Estimator.

(** ** Lemmas *)
Lemma wrap_add_l w x y : 0 <= w -> wrap w (wrap w x + y) = wrap w (x + y).
Proof. intros. unfold wrap. rewrite Z.add_mod_idemp_l; [done|]. apply Z.pow_nonzero; lia. Qed.

Lemma wrap_sub_l w x y : 0 <= w -> wrap w (wrap w x - y) = wrap w (x - y).
Proof. intros. unfold wrap. rewrite Zminus_mod_idemp_l. done. Qed.

Lemma works_app l1 l2 : Estimator.works (l1 ++ l2) = Estimator.works l1 + Estimator.works l2.
Proof. induction l1; simpl; lia. Qed.

Section Laws.
Context `{HR : RuintSpec}.

Lemma prune_loop_spec cutoff l total :
  Estimator.times_sorted l -> total = wrap 256 (Estimator.works l) ->
  let kept := base.filter (fun s => cutoff <= s.1) l in
  Estimator.prune_loop cutoff l total = (kept, wrap 256 (Estimator.works kept)).
Proof.
  unfold Estimator.times_sorted. revert total.
  induction l as [|[t w] l IH]; intros total Hs Ht; cbv zeta; simpl; [by rewrite Ht|].
  inversion Hs as [|?? Hs' Hall]; subst. destruct (Z.leb_spec cutoff t).
  - assert (Hf : base.filter (fun s => cutoff <= s.1) ((t, w) :: l) = (t, w) :: l).
    { apply filter_all. constructor; [done|]. rewrite List.Forall_map in Hall.
      eapply Forall_impl; [exact Hall|]. simpl. intros; lia. }
    by rewrite Hf.
  - rewrite filter_cons_False by (simpl; lia). apply IH; [done|].
    unfold U256.sub_assign. rewrite ru_sub_spec, wrap_sub_l by lia. f_equal. simpl. lia.
Qed.

Lemma cap_loop_spec cap l total :
  total = wrap 256 (Estimator.works l) ->
  Estimator.cap_loop cap l total =
    (Estimator.lastn cap l, wrap 256 (Estimator.works (Estimator.lastn cap l))).
Proof.
  unfold Estimator.lastn. revert total. induction l as [|[t w] l IH]; intros total Ht.
  - subst. destruct cap; done.
  - cbn [Estimator.cap_loop]. destruct (Nat.ltb_spec cap (length ((t, w) :: l))) as [Hlt|Hge].
    + simpl length in *. replace (S (length l) - cap)%nat with (S (length l - cap)) by lia.
      simpl drop. apply IH. unfold U256.sub_assign. rewrite ru_sub_spec, Ht, wrap_sub_l by lia.
      f_equal. simpl. lia.
    + replace (length ((t, w) :: l) - cap)%nat with 0%nat by lia. by rewrite drop_0, Ht.
Qed.

Lemma sorted_filter_snoc l cutoff at_ work :
  Estimator.times_sorted l -> Forall (fun s => s.1 <= at_) l ->
  Estimator.times_sorted (base.filter (fun s => cutoff <= s.1) l ++ [(at_, work)]).
Proof.
  unfold Estimator.times_sorted. induction l as [|[t w] l IH]; intros Hs Hall.
  - repeat constructor.
  - inversion Hs as [|?? Hs' Hall']; subst. apply Forall_cons in Hall as [Ht Hall].
    rewrite filter_cons. case_decide; [|by apply IH]. simpl. constructor; [by apply IH|].
    rewrite List.Forall_map. apply Forall_app. rewrite List.Forall_map in Hall'. split.
    + by apply Forall_filter_2.
    + repeat constructor. done.
Qed.

Lemma lastn_length {A} n (l : list A) : length (Estimator.lastn n l) = Nat.min n (length l).
Proof. unfold Estimator.lastn. rewrite length_drop. lia. Qed.

Lemma sorted_drop k l : Estimator.times_sorted l -> Estimator.times_sorted (drop k l).
Proof.
  unfold Estimator.times_sorted. revert l; induction k as [|k IH]; intros [|s l] Hs; simpl; try done.
  inversion Hs; subst. by apply IH.
Qed.

(** Recording keeps the samples of the window that fit, newest last, and their exact sum. *)
Lemma record_at_spec clock e at_ work :
  Estimator.wf e -> Forall (fun s => s.1 <= at_) (Estimator.samples e) ->
  let cutoff := default at_ (clock at_ (Estimator.window e)) in
  let e' := Estimator.record_at clock e at_ work in
  Estimator.wf e' /\
  Estimator.samples e' = Estimator.lastn (Estimator.max_samples e)
    (base.filter (fun s => cutoff <= s.1) (Estimator.samples e) ++ [(at_, work)]).
Proof.
  intros (Htot & Hsort & Hlen) Hle cutoff e'. subst e'.
  unfold Estimator.record_at, Estimator.prune_before. fold cutoff.
  rewrite (prune_loop_spec _ _ _ Hsort Htot). cbn [Estimator.samples Estimator.total_work Estimator.max_samples].
  rewrite cap_loop_spec.
  2:{ unfold U256.add_assign. rewrite ru_add_spec, wrap_add_l, works_app by lia. f_equal. simpl. lia. }
  simpl. split; [|done]. unfold Estimator.wf. simpl. split; [done|]. split.
  - apply sorted_drop, sorted_filter_snoc; done.
  - rewrite lastn_length. lia.
Qed.

Lemma prune_before_spec e cutoff :
  Estimator.wf e ->
  let e' := Estimator.prune_before e cutoff in
  Estimator.wf e' /\ Estimator.samples e' = base.filter (fun s => cutoff <= s.1) (Estimator.samples e).
Proof.
  intros (Htot & Hsort & Hlen). unfold Estimator.prune_before.
  rewrite (prune_loop_spec _ _ _ Hsort Htot). simpl. split; [|done].
  unfold Estimator.wf. simpl. split; [done|]. split.
  - revert Hsort. clear. unfold Estimator.times_sorted.
    induction (Estimator.samples e) as [|s l IH]; intros Hs; [constructor|].
    inversion Hs as [|?? Hs' Hall]; subst. rewrite filter_cons. case_decide; [|by apply IH].
    simpl. constructor; [by apply IH|]. rewrite List.Forall_map in *. by apply Forall_filter_2.
  - pose proof (length_filter (fun s : Z * Z => cutoff <= s.1) (Estimator.samples e)). lia.
Qed.
End Laws.

(** ** What the estimator promises *)

(** Instants are unbounded here: the subtraction always succeeds. *)
Definition clock_ref (at_ w : Z) : option Z := Some (at_ - w).

(** The estimator's state is exactly its window: after recording a share no
    older than the ones held, the samples are the previous ones not older than the
    window plus the new one, cut to the newest [max_samples], in time order, and
    the running total - kept by adding and subtracting modulo 2^256 - is their sum.
    Asking for the rate keeps that invariant and answers the sum divided by the
    whole seconds since the oldest sample in the window, saturated to 64 bits, and
    zero when there is no such sample or no whole second. *)
Theorem estimator_window (R : Ruint) (HR : RuintSpec R) clock e now work :
  Estimator.wf e -> Forall (fun s => s.1 <= now) (Estimator.samples e) ->
  let cutoff := default now (clock now (Estimator.window e)) in
  let inside := base.filter (fun s => cutoff <= s.1) (Estimator.samples e) in
  let recorded := Estimator.record_at clock e now work in
  let '(rate, asked) := Estimator.hashrate_at clock e now in
  (Estimator.wf recorded /\
   Estimator.samples recorded = Estimator.lastn (Estimator.max_samples e) (inside ++ [(now, work)])) /\
  (Estimator.wf asked /\ Estimator.samples asked = inside) /\
  rate = match inside with
         | [] => 0
         | (oldest, _) :: _ =>
             let secs := (now - oldest) / NANOS in
             if secs =? 0 then 0
             else Z.min (wrap 256 (Estimator.works inside) / secs) (2 ^ 64 - 1)
         end.
Proof.
  intros Hwf Hle cutoff inside recorded.
  destruct (Estimator.hashrate_at clock e now) as [rate asked] eqn:Hask.
  split; [by apply record_at_spec|].
  unfold Estimator.hashrate_at in Hask. fold cutoff in Hask.
  destruct (prune_before_spec e cutoff Hwf) as [Hwf' Hs]. fold inside in Hs.
  rewrite Hs in Hask.
  destruct inside as [|[oldest w0] rest] eqn:Hin; [injection Hask as <- <-; by split_and!|].
  assert (Hold : oldest <= now).
  { assert (Hin' : (oldest, w0) ∈ inside) by (rewrite Hin; left). unfold inside in Hin'.
    apply list_elem_of_filter in Hin' as [_ Hin']. rewrite Forall_forall in Hle. apply (Hle _ Hin'). }
  rewrite Z.max_r in Hask by lia. cbv zeta in *.
  destruct (Z.eqb_spec ((now - oldest) / NANOS) 0) as [Hz|Hnz]; injection Hask as <- <-; [by split_and!|].
  split; [by split|]. unfold U256.div_u64. rewrite (proj2 (Z.eqb_neq _ _) Hnz). simpl.
  rewrite ru_div_spec by done. destruct Hwf' as (Htot & _). by rewrite Htot, Hs.
Qed.

Lemma estimator_window_witness :
  let e := Estimator.Mk (60 * NANOS) 5 600 [(10 * NANOS, 2 ^ 40); (20 * NANOS, 2 ^ 41)] (3 * 2 ^ 40) in
  fst (@Estimator.hashrate_at ruint_ref clock_ref e (75 * NANOS)) = 2 ^ 41 / 55 /\
  Estimator.wf (@Estimator.record_at ruint_ref clock_ref e (75 * NANOS) 7).
Proof.
  intros e. split; [vm_compute; reflexivity|].
  assert (Hwf : Estimator.wf e).
  { split; [reflexivity|]. split; [|simpl; lia].
    unfold Estimator.times_sorted. simpl. repeat constructor. unfold NANOS. lia. }
  assert (Hle : Forall (fun s => s.1 <= 75 * NANOS) (Estimator.samples e))
    by (repeat constructor; simpl; unfold NANOS; lia).
  pose proof (estimator_window ruint_ref ruint_ref_spec clock_ref e (75 * NANOS) 7 Hwf Hle) as H.
  destruct (@Estimator.hashrate_at ruint_ref clock_ref e (75 * NANOS)). apply H.
Defined.

(** A settled estimate can be empty: when every sample has left the window,
    [is_settled] still counts them, so an estimator with enough stale samples
    reports a measured rate of zero - and only that call discards the samples. *)
Theorem settled_counts_stale_samples (R : Ruint) (HR : RuintSpec R) e now :
  Estimator.wf e -> (Estimator.min_samples e <= length (Estimator.samples e))%nat ->
  Forall (fun s => s.1 < now - Estimator.window e) (Estimator.samples e) ->
  let '(answer, e') := Estimator.settled_hashrate clock_ref e now in
  answer = Some 0 /\ Estimator.samples e' = [].
Proof.
  intros Hwf Hn Hstale. unfold Estimator.settled_hashrate, Estimator.is_settled.
  rewrite (proj2 (Nat.leb_le _ _) Hn). unfold Estimator.hashrate_at. simpl default.
  destruct (prune_before_spec e (now - Estimator.window e) Hwf) as [_ Hs].
  rewrite filter_none in Hs; [by rewrite Hs|].
  eapply Forall_impl; [exact Hstale|]. simpl. intros; lia.
Qed.

Lemma settled_counts_stale_samples_witness :
  let e := Estimator.Mk (60 * NANOS) 1 600 [(0, 5)] 5 in
  let '(answer, e') := @Estimator.settled_hashrate ruint_ref clock_ref e (61 * NANOS) in
  answer = Some 0 /\ Estimator.samples e' = [].
Proof.
  apply (settled_counts_stale_samples ruint_ref ruint_ref_spec); simpl.
  - split; [reflexivity|]. split; [repeat constructor|simpl; lia].
  - lia.
  - constructor; [reflexivity|constructor].
Defined.
