(* ===== verification/ShareRate.v ===== *)
(** * Share rates and the time to a share (types/share_rate.rs, types/mod.rs)

    A share rate is the interval between shares in nanoseconds.  A panic of the
    source is [None]. *)
From stdpp Require Import base numbers list.
From Stdlib Require Import ZArith Lia SpecFloat.
From S2P Require Import Prelude Float U256 Estimator.

Definition DURATION_MAX : Z := (2 ^ 64 - 1) * NANOS + (NANOS - 1).

(** [m * 2^e] nanoseconds, to the nearest, ties to even. *)
Definition mag_round_even (num den : Z) : Z :=
  let q := num / den in
  let r := num mod den in
  match 2 * r ?= den with
  | Lt => q
  | Gt => q + 1
  | Eq => if Z.even q then q else q + 1
  end.

(** [Duration::from_secs_f64]: panics on a negative, NaN or too large number. *)
Definition duration_from_secs_f64 (x : float) : option Z :=
  match x with
  | S754_zero _ => Some 0
  | S754_finite false m e =>
      let n := if 0 <=? e then Z.pos m * 2 ^ e * NANOS
               else mag_round_even (Z.pos m * NANOS) (2 ^ (- e)) in
      if n <=? DURATION_MAX then Some n else None
  | _ => None
  end.

Definition f64_zero : float := S754_zero false.
Definition f64_one : float := f_of_Z f64 1.

Module ShareRate.
Section Ops.
Context `{R : Ruint} `{P : BitcoinPow} (integer_decode : float -> Z * Z).

Definition per_second (shares : float) : option Z :=
  if f_lt f64_zero shares then duration_from_secs_f64 (f_div f64 f64_one shares) else None.
Definition per_minute (shares : float) : option Z :=
  if f_lt f64_zero shares then duration_from_secs_f64 (f_div f64 (f_of_Z f64 60) shares) else None.
Definition from_interval (interval : Z) : option Z := if interval =? 0 then None else Some interval.
Definition as_per_second (r : Z) : float := f_div f64 f64_one (HashRate.as_secs_f64 r).
Definition as_per_minute (r : Z) : float := f_div f64 (f_of_Z f64 60) (HashRate.as_secs_f64 r).
Definition as_interval (r : Z) : Z := r.

Definition to_target (r : Z) (hashrate : HashRate.t) : option Z :=
  let hashes_per_share := HashRate.hashes_in hashrate r in
  if f_le hashes_per_share f64_one then Some U256.MAX
  else U256.div_f64 integer_decode U256.MAX hashes_per_share.

Definition to_difficulty (r : Z) (hashrate : HashRate.t) : option Difficulty.t :=
  option_map Difficulty.from_target (to_target r hashrate).
End Ops.
End ShareRate.

(** ** The expected time to a share (types/mod.rs) *)
Section Expected.
Context `{P : BitcoinPow} `{L : FloatLib}.

(** [u32::MAX as f64 + 1.0]. *)
Definition two_pow_32 : float := f_add f64 (f_of_Z f64 (2 ^ 32 - 1)) f64_one.

Definition time_to_share (difficulty : float) (hashrate : HashRate.t) : option Z :=
  let hashes_per_share := f_mul f64 difficulty two_pow_32 in
  let shares_per_sec := f_div f64 (f_of_Z f64 hashrate) hashes_per_share in
  if f_le shares_per_sec f64_zero then Some DURATION_MAX
  else duration_from_secs_f64 (f_div f64 f64_one shares_per_sec).

Definition expected_time_to_share (difficulty : Difficulty.t) (hashrate : HashRate.t) : option Z :=
  time_to_share (Difficulty.as_f64 difficulty) hashrate.

Definition expected_time_to_share_from_target (target : Z) (hashrate : HashRate.t) : option Z :=
  if hashrate =? 0 then Some DURATION_MAX
  else time_to_share (difficulty_float target) hashrate.
End Expected.

(** ** What the conversion promises *)

(** The target of a share rate is [2^256 / hashes per share], the exact quotient
    of the largest 256-bit number by the f64 count of hashes in the interval,
    rounded down - and the largest number itself when at most one hash is
    expected; the conversion never panics for a hash count the float decomposition
    covers. *)
Theorem share_rate_target (R : Ruint) (HR : RuintSpec R) integer_decode interval hashrate m e :
  HashRate.hashes_in hashrate interval = S754_finite false m e ->
  U256.decode_spec integer_decode m e ->
  ShareRate.to_target integer_decode interval hashrate =
    Some (if f_le (S754_finite false m e) f64_one then U256.MAX
          else Z.min (U256.floor_quotient U256.MAX (Z.pos m) e) U256.MAX).
Proof.
  intros Hh Hdec. unfold ShareRate.to_target. rewrite Hh.
  destruct (f_le _ _); [done|]. apply U256.div_f64_floor_quotient; [|done].
  unfold uint, U256.MAX. lia.
Qed.

(** One share per second at 1 TH/s. *)
Lemma share_rate_target_witness :
  HashRate.hashes_in (10 ^ 12) NANOS = S754_finite false 8192000000000000 (-13) /\
  @ShareRate.to_target ruint_ref integer_decode_ref NANOS (10 ^ 12) =
    Some (if f_le (S754_finite false 8192000000000000 (-13)) f64_one then U256.MAX
          else Z.min (U256.floor_quotient U256.MAX 8192000000000000 (-13)) U256.MAX).
Proof.
  split; [vm_compute; reflexivity|].
  apply (share_rate_target ruint_ref ruint_ref_spec); vm_compute; [reflexivity|intuition discriminate].
Defined.

(** The time to a share can abort the program: for a target of difficulty
    10^16 and an expected hash rate of one megahash per second the duration
    exceeds what a [Duration] holds, and the conversion panics instead of
    saturating at [Duration::MAX] as it does for a zero rate. *)
Theorem time_to_share_panics (P : BitcoinPow) target :
  difficulty_float target = f_of_Z f64 (10 ^ 16) ->
  expected_time_to_share_from_target target (10 ^ 6) = None.
Proof.
  intros Hd. unfold expected_time_to_share_from_target. rewrite Hd. vm_compute. reflexivity.
Qed.

Lemma time_to_share_panics_witness :
  let P := {| target_max := 0; difficulty_float := fun _ => f_of_Z f64 (10 ^ 16); to_work := fun x => x |} in
  @expected_time_to_share_from_target P 1 (10 ^ 6) = None.
Proof. intros P. apply (time_to_share_panics P 1). reflexivity. Defined.
