(* ===== verification/Scheduler.v ===== *)
(** * The scheduler (scheduler.rs)

    The state is the [Scheduler] struct together with the locals of [run]: the
    key sets of its three StreamMaps and the gate deadline.  Handlers are
    functions from the state to the state and the messages sent, in order; a
    panic of the source is [None].  What the scheduler cannot see is an argument:
    whether a thread accepts a task, which streams have ended, the clock. *)
From stdpp Require Import base numbers list strings gmap sets.
From Stdlib Require Import ZArith Lia SpecFloat.
From S2P Require Import Prelude Float U256 Version Extranonce Job Alarm Estimator ShareRate.

(** ** StartupGate *)
Module StartupGate.
Record t := Mk { registered : nat; reported : nat; enumeration_complete : bool; open : bool }.
Definition new : t := Mk 0 0 false false.
Definition is_holding (g : t) : bool := negb (open g).
Definition try_open (g : t) : t :=
  if enumeration_complete g && (registered g <=? reported g)%nat
  then Mk (registered g) (reported g) (enumeration_complete g) true else g.
Definition record_registered (g : t) : t :=
  if open g then g else Mk (S (registered g)) (reported g) (enumeration_complete g) (open g).
Definition record_reported (g : t) : t :=
  if open g then g else try_open (Mk (registered g) (S (reported g)) (enumeration_complete g) (open g)).
Definition record_enumeration_complete (g : t) : t :=
  if open g then g else try_open (Mk (registered g) (reported g) true (open g)).
Definition record_timeout (g : t) : t :=
  Mk (registered g) (reported g) (enumeration_complete g) true.
End StartupGate.

(** ** SlotMaps: fresh keys, iteration in no particular order *)
Module SlotMap.
Record t (A : Type) := Mk { next : nat; items : gmap nat A }.
Arguments Mk {A} next items.
Arguments next {A} _.
Arguments items {A} _.
Definition empty {A} : t A := Mk 0 ∅.
(** Keys are never reused: the key carries the slot's version. *)
Definition insert {A} (m : t A) (x : A) : nat * t A :=
  (next m, Mk (S (next m)) (<[next m := x]> (items m))).
Definition set {A} (m : t A) (k : nat) (x : A) : t A := Mk (next m) (<[k := x]> (items m)).
Definition get {A} (m : t A) (k : nat) : option A := items m !! k.
Definition with_items {A} (m : t A) (i : gmap nat A) : t A := Mk (next m) i.
Definition len {A} (m : t A) : nat := size (items m).
End SlotMap.

Module Scheduler.
(** ** Data *)
Record TaskEntry := MkTaskEntry { source_id : nat; te_template : JobTemplate; thread_id : nat }.
Record SourceEntry := MkSource {
  name : string; url : option string; last_job : option JobTemplate; difficulty_alarm : Alarm.t }.
Inductive AssignMode := Update | Replace.
Record ThreadEntry := MkThread { hashrate : Estimator.t; expected : option HashRate.t }.

Record t := Mk {
  sources : SlotMap.t SourceEntry;
  threads : SlotMap.t ThreadEntry;
  tasks : SlotMap.t TaskEntry;
  shares_submitted : Z;
  last_thread_count : nat;
  startup_gate : StartupGate.t;
  paused : bool;
  (* the locals of [run] *)
  source_events : gset nat;
  thread_events : gset nat;
  share_channels : gset nat;
  gate_deadline : option Z }.

Definition new : t :=
  Mk SlotMap.empty SlotMap.empty SlotMap.empty 0 0 StartupGate.new false ∅ ∅ ∅ None.

Definition with_sources (s : t) x := Mk x (threads s) (tasks s) (shares_submitted s)
  (last_thread_count s) (startup_gate s) (paused s) (source_events s) (thread_events s) (share_channels s) (gate_deadline s).
Definition with_threads (s : t) x := Mk (sources s) x (tasks s) (shares_submitted s)
  (last_thread_count s) (startup_gate s) (paused s) (source_events s) (thread_events s) (share_channels s) (gate_deadline s).
Definition with_tasks (s : t) x c := Mk (sources s) (threads s) x (shares_submitted s)
  (last_thread_count s) (startup_gate s) (paused s) (source_events s) (thread_events s) c (gate_deadline s).
Definition with_shares (s : t) x := Mk (sources s) (threads s) (tasks s) x
  (last_thread_count s) (startup_gate s) (paused s) (source_events s) (thread_events s) (share_channels s) (gate_deadline s).
Definition with_count (s : t) x := Mk (sources s) (threads s) (tasks s) (shares_submitted s)
  x (startup_gate s) (paused s) (source_events s) (thread_events s) (share_channels s) (gate_deadline s).
Definition with_gate (s : t) x := Mk (sources s) (threads s) (tasks s) (shares_submitted s)
  (last_thread_count s) x (paused s) (source_events s) (thread_events s) (share_channels s) (gate_deadline s).
Definition with_paused (s : t) x := Mk (sources s) (threads s) (tasks s) (shares_submitted s)
  (last_thread_count s) (startup_gate s) x (source_events s) (thread_events s) (share_channels s) (gate_deadline s).
Definition with_streams (s : t) se te sc := Mk (sources s) (threads s) (tasks s) (shares_submitted s)
  (last_thread_count s) (startup_gate s) (paused s) se te sc (gate_deadline s).
Definition with_deadline (s : t) x := Mk (sources s) (threads s) (tasks s) (shares_submitted s)
  (last_thread_count s) (startup_gate s) (paused s) (source_events s) (thread_events s) (share_channels s) x.

(** Messages sent.  A thread's task carries the id its share channel will have. *)
Inductive effect :=
| ToSource (sid : nat) (c : SourceCommand)
| ToThread (tid : nat) (mode : AssignMode) (task : HashTask)
| ConfigureThread (tid : nat).

(** What the scheduler cannot see or does not define. *)
Class Env := {
  ruint_ :: Ruint;
  pow_ :: BitcoinPow;
  decode_float : float -> Z * Z;
  clock : Z -> Z -> option Z;
  (** [Target::is_met_by] *)
  is_met_by : Z -> list Z -> bool;
  (** whether, at an instant, a thread's [update_task] or [replace_task] succeeds *)
  accepts : Z -> nat -> AssignMode -> HashTask -> bool;
}.

(** ** Constants *)
Definition HASHRATE_WINDOW : Z := 5 * 60 * NANOS.
Definition STARTUP_GATE_TIMEOUT : Z := 10 * NANOS.
Definition MEASUREMENT_SHARE_RATE : Z := NANOS.
Definition FLOOD_CAP_RATE : Z := 100 * 1000000.
Definition HIGH_DIFFICULTY_THRESHOLD : Z := 300 * NANOS.
Definition HIGH_DIFFICULTY_DEBOUNCE : Z := 30 * NANOS.

Section Handlers.
Context `{E : Env}.

(** ** Aggregates *)

(** [settled_hashrate] prunes the estimator it reads, so it returns it too. *)
Definition measured_hashrate (s : t) (now : Z) : HashRate.t * t :=
  let ask e := Estimator.hashrate_at clock (hashrate e) now in
  (HashRate.sum (map (fun p => (ask p.2).1) (map_to_list (SlotMap.items (threads s)))),
   with_threads s (SlotMap.with_items (threads s)
     ((fun e => MkThread (ask e).2 (expected e)) <$> SlotMap.items (threads s)))).

Definition expected_hashrate (s : t) : HashRate.t :=
  HashRate.sum (omap (fun p => expected p.2) (map_to_list (SlotMap.items (threads s)))).

Definition allocated_hashrate (s : t) (_ : nat) : HashRate.t := expected_hashrate s.

Definition eligible_thread_ids (s : t) : list nat :=
  map fst (base.filter (fun p => is_Some (expected p.2)) (map_to_list (SlotMap.items (threads s)))).

(** [Ord::clamp] panics when the bounds cross. *)
Definition clamp (x lo hi : Z) : option Z :=
  if hi <? lo then None else Some (if x <? lo then lo else if hi <? x then hi else x).

Definition compute_scheduler_target (hr : HashRate.t) (source_target : Z) : option Z :=
  if HashRate.is_zero hr then Some source_target
  else
    measurement_target ← ShareRate.to_target decode_float MEASUREMENT_SHARE_RATE hr;
    flood_cap_target ← ShareRate.to_target decode_float FLOOD_CAP_RATE hr;
    clamp source_target measurement_target flood_cap_target.

Definition is_difficulty_too_high (job : JobTemplate) (hr : HashRate.t) : option bool :=
  if HashRate.is_zero hr then Some false
  else
    time_to_share ← expected_time_to_share_from_target (share_target job) hr;
    Some (HIGH_DIFFICULTY_THRESHOLD <? time_to_share).

Definition collect_hashrate_updates (s : t) : list (nat * HashRate.t) :=
  map (fun p => (p.1, allocated_hashrate s p.1)) (map_to_list (SlotMap.items (sources s))).
Definition send_hashrate_updates (updates : list (nat * HashRate.t)) : list effect :=
  map (fun '(sid, rate) => ToSource sid (UpdateHashRate rate)) updates.

Definition set_alarm (src : SourceEntry) (a : Alarm.t) : SourceEntry :=
  MkSource (name src) (url src) (last_job src) a.
Definition set_last_job (src : SourceEntry) (j : option JobTemplate) : SourceEntry :=
  MkSource (name src) (url src) j (difficulty_alarm src).

Definition broadcast_hashrate_change (s : t) : t * list effect :=
  let s := with_sources s (SlotMap.with_items (sources s)
             ((fun src => set_alarm src (Alarm.reset (difficulty_alarm src))) <$> SlotMap.items (sources s))) in
  (s, send_hashrate_updates (collect_hashrate_updates s)).

Definition remove_tasks_where (s : t) (P : TaskEntry -> bool) : t :=
  let task_ids := map fst (base.filter (fun p => P p.2 = true) (map_to_list (SlotMap.items (tasks s)))) in
  fold_left (fun s task_id =>
      with_tasks s (SlotMap.with_items (tasks s) (delete task_id (SlotMap.items (tasks s))))
        (share_channels s ∖ {[task_id]})) task_ids s.

(** ** Handlers *)
Definition handle_source_registration (s : t) (nm : string) (u : option string) : t * list effect :=
  let '(sid, srcs) := SlotMap.insert (sources s) (MkSource nm u None (Alarm.new HIGH_DIFFICULTY_DEBOUNCE)) in
  let s := with_sources s srcs in
  let s := with_streams s ({[sid]} ∪ source_events s) (thread_events s) (share_channels s) in
  if negb (StartupGate.is_holding (startup_gate s)) then broadcast_hashrate_change s else (s, []).

(** The hash rate a task's target is computed from, and the pruned estimator. *)
Definition task_hashrate (e : ThreadEntry) (now : Z) : HashRate.t * ThreadEntry :=
  let '(settled, est) := Estimator.settled_hashrate clock (hashrate e) now in
  (default 0 (match settled with Some r => Some r | None => expected e end), MkThread est (expected e)).

(** Hands one task to a thread; it is recorded with a share channel if accepted. *)
Definition give_task (s : t) (now : Z) (mode : AssignMode) (sid tid : nat) (task : HashTask) : t * list effect :=
  let eff := [ToThread tid mode task] in
  if accepts now tid mode task then
    let '(task_id, ts) := SlotMap.insert (tasks s) (MkTaskEntry sid (template task) tid) in
    (with_tasks s ts ({[task_id]} ∪ share_channels s), eff)
  else (s, eff).

Fixpoint assign_loop (s : t) (mode : AssignMode) (sid : nat) (tmpl : JobTemplate)
    (pairs : list (nat * ExtranonceRange.t)) (now : Z) : option (t * list effect) :=
  match pairs with
  | [] => Some (s, [])
  | (tid, range) :: pairs =>
      entry ← SlotMap.get (threads s) tid;
      let '(hr, entry) := task_hashrate entry now in
      let s := with_threads s (SlotMap.set (threads s) tid entry) in
      target ← compute_scheduler_target hr (share_target tmpl);
      let task := MkTask tmpl (Some range) (Some (ExtranonceRange.start range)) target (time tmpl) in
      let '(s, eff) := give_task s now mode sid tid task in
      '(s, effs) ← assign_loop s mode sid tmpl pairs now;
      Some (s, eff ++ effs)
  end.

(** The state after caching the job and resetting the alarm on a new target. *)
Definition cache_job (s : t) (sid : nat) (tmpl : JobTemplate) : t :=
  match SlotMap.get (sources s) sid with
  | None => s
  | Some src =>
      let prev_target := option_map share_target (last_job src) in
      let src := if negb (bool_decide (prev_target = Some (share_target tmpl)))
                 then set_alarm src (Alarm.reset (difficulty_alarm src)) else src in
      with_sources s (SlotMap.set (sources s) sid (set_last_job src (Some tmpl)))
  end.

Definition check_alarm (s : t) (sid : nat) (tmpl : JobTemplate) (now : Z) : option t :=
  match SlotMap.get (sources s) sid with
  | None => Some s
  | Some src =>
      too_high ← is_difficulty_too_high tmpl (expected_hashrate s);
      let '(_, alarm) := Alarm.check (difficulty_alarm src) now too_high in
      Some (with_sources s (SlotMap.set (sources s) sid (set_alarm src alarm)))
  end.

Definition assign_job_to_threads (s : t) (mode : AssignMode) (sid : nat) (job : JobTemplate) (now : Z) :
    option (t * list effect) :=
  match merkle_root job with
  | Fixed _ => Some (s, [])
  | Computed mt =>
      let full_extranonce_range := MerkleRootTemplate.extranonce_range mt in
      let s := cache_job s sid job in
      if bool_decide (SlotMap.items (threads s) = ∅) then Some (s, [])
      else
        s ← check_alarm s sid job now;
        let s := match mode with
                 | Replace => remove_tasks_where s (fun e => (source_id e =? sid)%nat)
                 | Update => s
                 end in
        let eligible := eligible_thread_ids s in
        if bool_decide (eligible = []) then Some (s, [])
        else
          extranonce_slices ← ExtranonceRange.split full_extranonce_range (Z.of_nat (length eligible));
          assign_loop s mode sid job (zip eligible extranonce_slices) now
  end.

Definition handle_clear_jobs (s : t) (sid : nat) : t :=
  let s := match SlotMap.get (sources s) sid with
           | None => s
           | Some src => with_sources s (SlotMap.set (sources s) sid (set_last_job src None))
           end in
  remove_tasks_where s (fun e => (source_id e =? sid)%nat).

Definition handle_share (s : t) (task_id : nat) (share : Share) (now : Z) : t * list effect :=
  match SlotMap.get (tasks s) task_id with
  | None => (s, [])
  | Some task_entry =>
      let s :=
        match SlotMap.get (threads s) (thread_id task_entry) with
        | None => s
        | Some e =>
            with_threads s (SlotMap.set (threads s) (thread_id task_entry)
              (MkThread (Estimator.record_at clock (hashrate e) now (expected_work share)) (expected e)))
        end in
      if is_met_by (share_target (te_template task_entry)) (hash share) then
        let s := with_shares s (wrap 64 (shares_submitted s + 1)) in
        match SlotMap.get (sources s) (source_id task_entry) with
        | Some _ =>
            (s, [ToSource (source_id task_entry)
                   (SubmitShare (source_share_from share (job_id (te_template task_entry))))])
        | None => (s, [])
        end
      else (s, [])
  end.

(** The loop of [assign_cached_jobs_to_thread] over the sources. *)
Fixpoint cached_loop (s : t) (now : Z) (tid : nat) (thread_hashrate : HashRate.t)
    (srcs : list (nat * SourceEntry)) : option (t * list effect) :=
  match srcs with
  | [] => Some (s, [])
  | (sid, src) :: srcs =>
      match last_job src with
      | Some (MkJob _ _ _ _ target0 time0 (Computed mt) as tmpl) =>
          let range := MerkleRootTemplate.extranonce_range mt in
          target ← compute_scheduler_target thread_hashrate target0;
          let task := MkTask tmpl (Some range) (Some (ExtranonceRange.start range)) target time0 in
          _ ← SlotMap.get (threads s) tid;
          let '(s, eff) := give_task s now Update sid tid task in
          '(s, effs) ← cached_loop s now tid thread_hashrate srcs;
          Some (s, eff ++ effs)
      | _ => cached_loop s now tid thread_hashrate srcs
      end
  end.

Definition assign_cached_jobs_to_thread (s : t) (tid : nat) (now : Z) : option (t * list effect) :=
  entry ← SlotMap.get (threads s) tid;
  let '(thread_hashrate, entry) := task_hashrate entry now in
  let s := with_threads s (SlotMap.set (threads s) tid entry) in
  cached_loop s now tid thread_hashrate (map_to_list (SlotMap.items (sources s))).

Definition handle_thread_event (s : t) (tid : nat) (ev : HashThreadEvent) (now : Z) : option (t * list effect) :=
  match ev with
  | WorkExhausted _ | WorkDepletionWarning _ | StatusUpdate _ _ => Some (s, [])
  | ExpectedHashRate rate =>
      match SlotMap.get (threads s) tid with
      | None => Some (s, [])
      | Some entry =>
          let first_report := negb (bool_decide (is_Some (expected entry))) in
          let s := with_threads s (SlotMap.set (threads s) tid (MkThread (hashrate entry) (Some rate))) in
          '(s, eff) ← (if first_report then assign_cached_jobs_to_thread s tid now else Some (s, []));
          let s := if first_report && StartupGate.is_holding (startup_gate s)
                   then with_gate s (StartupGate.record_reported (startup_gate s)) else s in
          if negb (StartupGate.is_holding (startup_gate s)) then
            let '(s, eff') := broadcast_hashrate_change s in Some (s, eff ++ eff')
          else Some (s, eff)
      end
  end.

Definition handle_new_thread (s : t) : t * list effect :=
  let '(tid, ths) := SlotMap.insert (threads s) (MkThread (Estimator.new HASHRATE_WINDOW) None) in
  let s := with_threads s ths in
  let s := with_gate s (StartupGate.record_registered (startup_gate s)) in
  let s := with_streams s (source_events s) ({[tid]} ∪ thread_events s) (share_channels s) in
  (with_count s (size (thread_events s)), [ConfigureThread tid]).

Definition handle_thread_disconnections (s : t) : t * list effect :=
  let current_count := size (thread_events s) in
  if (current_count =? last_thread_count s)%nat then (s, [])
  else
    let active_thread_ids := thread_events s in
    let s := with_threads s (SlotMap.with_items (threads s)
               (base.filter (fun p => p.1 ∈ active_thread_ids) (SlotMap.items (threads s)))) in
    let s := remove_tasks_where s (fun e => negb (bool_decide (thread_id e ∈ active_thread_ids))) in
    let s := with_count s current_count in
    broadcast_hashrate_change s.

Definition handle_enumeration_complete (s : t) (now : Z) : t * list effect :=
  let s := with_gate s (StartupGate.record_enumeration_complete (startup_gate s)) in
  if StartupGate.is_holding (startup_gate s)
  then (with_deadline s (Some (now + STARTUP_GATE_TIMEOUT)), [])
  else broadcast_hashrate_change s.

Definition handle_gate_timeout (s : t) : t * list effect :=
  let s := with_gate s (StartupGate.record_timeout (startup_gate s)) in
  let '(s, eff) := broadcast_hashrate_change s in
  (with_deadline s None, eff).

Inductive SchedulerCommand := PauseMining | ResumeMining.

(** The snapshot published and the reply are left to [compute_miner_telemetry]. *)
Definition handle_api_command (s : t) (c : SchedulerCommand) (now : Z) : t :=
  let s := with_paused s (match c with PauseMining => true | ResumeMining => false end) in
  (measured_hashrate s now).2.

(** ** Telemetry *)
Record SourceTelemetry := MkSourceTelemetry { st_name : string; st_url : option string; st_difficulty : option float }.
Record MinerTelemetry := MkTelemetry {
  uptime_secs : Z; mt_hashrate : Z; mt_shares : Z; mt_paused : bool; mt_sources : list SourceTelemetry }.

Definition telemetry_difficulty `{FloatLib} (j : JobTemplate) : float :=
  let d := Difficulty.as_f64 (Difficulty.from_target (share_target j)) in
  if f_le (f_of_Z f64 10) d then
    match d with S754_finite false m e => f_of_Z f64 (mag_round m e) | d => d end
  else d.

Definition compute_miner_telemetry `{FloatLib} (s : t) (start_time now : Z) : MinerTelemetry * t :=
  let '(hr, s) := measured_hashrate s now in
  (MkTelemetry (Z.max 0 (now - start_time) / NANOS) hr (shares_submitted s) (paused s)
     (map (fun p => MkSourceTelemetry (name p.2) (url p.2) (option_map telemetry_difficulty (last_job p.2)))
        (map_to_list (SlotMap.items (sources s)))), s).

(** ** The main loop *)

(** The first tick of the status interval only clears [first_status_tick]. *)
Inductive event :=
| SourceRegistered (nm : string) (u : option string)
| SourceEv (sid : nat) (e : SourceEvent)
| ShareArrived (task_id : nat) (share : Share)
| ThreadEv (tid : nat) (e : HashThreadEvent)
| ThreadRegistered
| InitialEnumerationComplete
| GateTimeout
| StatusTick (first : bool)
| ApiCommand (c : SchedulerCommand)
| TelemetryTick.

(** Polling a StreamMap removes the streams that have ended. *)
Definition poll_streams (s : t) (ended_sources ended_threads ended_channels : gset nat) : t :=
  with_streams s (source_events s ∖ ended_sources) (thread_events s ∖ ended_threads)
    (share_channels s ∖ ended_channels).

(** When a branch of the [select!] can be taken. *)
Definition enabled (s : t) (ev : event) (now : Z) : bool :=
  match ev with
  | SourceEv sid _ => bool_decide (sid ∈ source_events s)
  | ShareArrived task_id _ => bool_decide (task_id ∈ share_channels s)
  | ThreadEv tid _ => bool_decide (tid ∈ thread_events s)
  | GateTimeout => StartupGate.is_holding (startup_gate s) &&
      match gate_deadline s with Some d => d <=? now | None => false end
  | _ => true
  end.

Definition handle (s : t) (ev : event) (now : Z) : option (t * list effect) :=
  match ev with
  | SourceRegistered nm u => Some (handle_source_registration s nm u)
  | SourceEv sid (UpdateJob j) => assign_job_to_threads s Update sid j now
  | SourceEv sid (ReplaceJob j) => assign_job_to_threads s Replace sid j now
  | SourceEv sid ClearJobs => Some (handle_clear_jobs s sid, [])
  | ShareArrived task_id share => Some (handle_share s task_id share now)
  | ThreadEv tid e => handle_thread_event s tid e now
  | ThreadRegistered => Some (handle_new_thread s)
  | InitialEnumerationComplete => Some (handle_enumeration_complete s now)
  | GateTimeout => Some (handle_gate_timeout s)
  | StatusTick first => Some (if first then s else (measured_hashrate s now).2, [])
  | TelemetryTick => Some ((measured_hashrate s now).2, [])
  | ApiCommand c => Some (handle_api_command s c now, [])
  end.

(** One iteration of [run]: polling, one branch, then the disconnection check. *)
Definition iteration (s : t) (ended_sources ended_threads ended_channels : gset nat) (ev : event) (now : Z) :
    option (t * list effect) :=
  let s := poll_streams s ended_sources ended_threads ended_channels in
  if enabled s ev now then
    '(s, eff) ← handle s ev now;
    let '(s, eff') := handle_thread_disconnections s in
    Some (s, eff ++ eff')
  else None.

(** The states the scheduler can be in. *)
Inductive reachable : t -> Prop :=
| reach_new : reachable new
| reach_step s es et ec ev now s' eff :
    reachable s -> iteration s es et ec ev now = Some (s', eff) -> reachable s'.
End Handlers.

(** ** Formatting *)
Definition format_duration (secs : Z) : list (Z * string) :=
  let MINUTE := 60 in
  let HOUR := 60 * MINUTE in
  let DAY := 24 * HOUR in
  if DAY <=? secs then [(secs / DAY, "d"%string); (secs mod DAY / HOUR, "h"%string)]
  else if HOUR <=? secs then [(secs / HOUR, "h"%string); (secs mod HOUR / MINUTE, "m"%string)]
  else if MINUTE <=? secs then [(secs / MINUTE, "m"%string); (secs mod MINUTE, "s"%string)]
  else [(secs, "s"%string)].
End Scheduler.
