(* ===== verification/SchedulerInv.v ===== *)
(** * Invariants of the scheduler

    What stays true of the scheduler's registries over every run, whatever the
    threads, sources and streams do. *)
From stdpp Require Import base numbers list strings gmap sets fin_maps fin_map_dom.
From Stdlib Require Import ZArith Lia.
From S2P Require Import Prelude Float U256 Version Extranonce Job Alarm Estimator ShareRate Scheduler.
Import Scheduler.

(** ** Removing tasks *)
Section Remove.
Context (P : TaskEntry -> bool).

Definition kept (m : gmap nat TaskEntry) : gmap nat TaskEntry := base.filter (fun p => P p.2 = false) m.
Definition removed (m : gmap nat TaskEntry) : gset nat := dom (base.filter (fun p => P p.2 = true) m).

Lemma fold_remove ids (s : t) :
  fold_left (fun s task_id =>
      with_tasks s (SlotMap.with_items (tasks s) (delete task_id (SlotMap.items (tasks s))))
        (share_channels s ∖ {[task_id]})) ids s =
  with_tasks s (SlotMap.with_items (tasks s) (base.filter (fun p => p.1 ∉ ids) (SlotMap.items (tasks s))))
    (share_channels s ∖ list_to_set ids).
Proof.
  revert s; induction ids as [|k ids IH]; intros s; simpl.
  - destruct s as [src th [nx it] a b c d e f ch g]. unfold with_tasks, SlotMap.with_items. simpl. f_equal.
    + f_equal. symmetry. apply map_filter_id. intros i x _ H. by apply elem_of_nil in H.
    + set_solver.
  - rewrite IH. unfold with_tasks, SlotMap.with_items. simpl. f_equal; [|set_solver].
    f_equal. apply map_eq. intros i. rewrite !map_lookup_filter.
    destruct (decide (i = k)) as [->|Hne].
    + rewrite lookup_delete_eq. simpl. destruct (SlotMap.items (tasks s) !! k); simpl; [|done].
      rewrite option_guard_False; [done|]. set_solver.
    + rewrite lookup_delete_ne by done. destruct (SlotMap.items (tasks s) !! i); simpl; [|done].
      destruct (decide (i ∈ ids)).
      * rewrite !option_guard_False by set_solver. done.
      * rewrite !option_guard_True by set_solver. done.
Qed.

Lemma remove_tasks_where_eq (s : t) :
  remove_tasks_where s P =
  with_tasks s (SlotMap.with_items (tasks s) (kept (SlotMap.items (tasks s))))
    (share_channels s ∖ removed (SlotMap.items (tasks s))).
Proof.
  unfold remove_tasks_where. rewrite fold_remove. set (m := SlotMap.items (tasks s)).
  set (ids := map fst _).
  assert (Hids : forall k, k ∈ ids <-> exists e, m !! k = Some e /\ P e = true).
  { intros k. unfold ids. rewrite list_elem_of_fmap. split.
    - intros ([k' e] & -> & [HP Hin]%list_elem_of_filter). apply elem_of_map_to_list in Hin. by exists e.
    - intros (e & Hk & HP). exists (k, e). split; [done|]. apply list_elem_of_filter. split; [done|].
      by apply elem_of_map_to_list. }
  f_equal.
  - f_equal. apply map_eq. intros k. unfold kept. rewrite !map_lookup_filter.
    destruct (m !! k) as [e|] eqn:Hk; simpl; [|done].
    destruct (P e) eqn:HP.
    + rewrite !option_guard_False; [done|done|]. intros H. apply H, Hids. by exists e.
    + rewrite !option_guard_True; [done|done|]. rewrite Hids. intros (e' & He' & HP'). congruence.
  - f_equal. apply set_eq. intros k. rewrite elem_of_list_to_set, Hids. unfold removed.
    rewrite elem_of_dom. split.
    + intros (e & Hk & HP). exists e. by apply map_lookup_filter_Some.
    + intros [e [Hk HP]%map_lookup_filter_Some]. by exists e.
Qed.

Lemma kept_lookup (m : gmap nat TaskEntry) k e :
  kept m !! k = Some e <-> m !! k = Some e /\ P e = false.
Proof. unfold kept. by rewrite map_lookup_filter_Some. Qed.
End Remove.

(** ** The registries *)

(** What the invariant looks at. *)
Record skeleton := Skel {
  sk_sources : gset nat; sk_next_source : nat; sk_threads : gset nat; sk_next_thread : nat;
  sk_tasks : SlotMap.t TaskEntry; sk_source_events : gset nat; sk_thread_events : gset nat;
  sk_channels : gset nat }.
Definition skel (s : t) : skeleton :=
  Skel (dom (SlotMap.items (sources s))) (SlotMap.next (sources s))
       (dom (SlotMap.items (threads s))) (SlotMap.next (threads s))
       (tasks s) (source_events s) (thread_events s) (share_channels s).

(** Every stream belongs to something registered, every task belongs to a
    registered source and thread, every share channel to a task, and new keys are
    fresh. *)
Record inv_sk (k : skeleton) : Prop := {
  inv_source_events : sk_source_events k ⊆ sk_sources k;
  inv_thread_events : sk_thread_events k ⊆ sk_threads k;
  inv_tasks : map_Forall (fun _ e => source_id e ∈ sk_sources k /\ thread_id e ∈ sk_threads k)
                (SlotMap.items (sk_tasks k));
  inv_channels : sk_channels k ⊆ dom (SlotMap.items (sk_tasks k));
  inv_next_source : forall i, i ∈ sk_sources k -> (i < sk_next_source k)%nat;
  inv_next_thread : forall i, i ∈ sk_threads k -> (i < sk_next_thread k)%nat;
  inv_next_task : forall i, i ∈ dom (SlotMap.items (sk_tasks k)) -> (i < SlotMap.next (sk_tasks k))%nat }.
Definition inv (s : t) : Prop := inv_sk (skel s).

Section Preserve.
Context `{E : Env}.

(** ** Handlers that do not touch the registries *)
Lemma with_threads_set_skel s tid e e' :
  SlotMap.get (threads s) tid = Some e ->
  skel (with_threads s (SlotMap.set (threads s) tid e')) = skel s.
Proof. intros He. unfold skel. simpl. rewrite dom_insert_lookup_L; [done|by exists e]. Qed.

Lemma with_sources_set_skel s sid e e' :
  SlotMap.get (sources s) sid = Some e ->
  skel (with_sources s (SlotMap.set (sources s) sid e')) = skel s.
Proof. intros He. unfold skel. simpl. rewrite dom_insert_lookup_L; [done|by exists e]. Qed.

Lemma broadcast_skel s : skel (broadcast_hashrate_change s).1 = skel s.
Proof. unfold broadcast_hashrate_change, skel. simpl. by rewrite dom_fmap_L. Qed.

Lemma measured_skel s now : skel (measured_hashrate s now).2 = skel s.
Proof. unfold measured_hashrate, skel. simpl. by rewrite dom_fmap_L. Qed.

Lemma cache_job_skel s sid j : skel (cache_job s sid j) = skel s.
Proof.
  unfold cache_job. destruct (SlotMap.get (sources s) sid) eqn:H; [|done].
  by eapply with_sources_set_skel.
Qed.

Lemma check_alarm_skel s sid j now s' : check_alarm s sid j now = Some s' -> skel s' = skel s.
Proof.
  unfold check_alarm. destruct (SlotMap.get (sources s) sid) eqn:H; [|by intros [= <-]].
  destruct (is_difficulty_too_high _ _) as [b|]; [|done]. simpl.
  destruct (Alarm.check _ _ _). intros [= <-]. by eapply with_sources_set_skel.
Qed.

Lemma handle_share_skel s k sh now : skel (handle_share s k sh now).1 = skel s.
Proof.
  unfold handle_share. destruct (SlotMap.get (tasks s) k); [|done].
  destruct (SlotMap.get (threads s) _) eqn:Ht; destruct (is_met_by _ _);
    try (destruct (SlotMap.get (sources _) _)); simpl; try done;
    by eapply with_threads_set_skel.
Qed.

(** ** Handlers that do *)
Lemma inv_remove s P : inv s -> inv (remove_tasks_where s P).
Proof.
  intros [H1 H2 H3 H4 H5 H6 H7]. rewrite remove_tasks_where_eq. split; simpl in *; try done.
  - intros k e [Hk _]%kept_lookup. by apply (H3 k e).
  - intros k. rewrite elem_of_difference. intros [Hk Hnr].
    specialize (H4 k Hk). apply elem_of_dom in H4 as [e He]. apply elem_of_dom. exists e.
    apply kept_lookup. split; [done|]. destruct (P e) eqn:HP; [|done].
    destruct Hnr. unfold removed. apply elem_of_dom. exists e. by apply map_lookup_filter_Some.
  - intros k [e [Hk _]%kept_lookup]%elem_of_dom. apply H7, elem_of_dom. by exists e.
Qed.

Lemma inv_give_task s now mode sid tid task :
  inv s -> sid ∈ dom (SlotMap.items (sources s)) -> tid ∈ dom (SlotMap.items (threads s)) ->
  let s' := (give_task s now mode sid tid task).1 in
  inv s' /\ sources s' = sources s /\ threads s' = threads s.
Proof.
  intros Hinv Hs Ht. unfold give_task. destruct (accepts now tid mode task); [|done].
  simpl. split; [|done]. destruct Hinv as [H1 H2 H3 H4 H5 H6 H7]. split; simpl in *; try done.
  - apply map_Forall_insert_2; [done|done].
  - rewrite dom_insert_L. set_solver.
  - intros k. rewrite dom_insert_L, elem_of_union, elem_of_singleton. intros [->|Hk]; [lia|].
    specialize (H7 k Hk). lia.
Qed.

Lemma inv_assign_loop mode sid tmpl now pairs s s' eff :
  inv s -> sid ∈ dom (SlotMap.items (sources s)) ->
  assign_loop s mode sid tmpl pairs now = Some (s', eff) -> inv s'.
Proof.
  revert s s' eff. induction pairs as [|[tid range] pairs IH]; intros s s' eff Hinv Hsid; simpl.
  - by intros [= <- _].
  - destruct (SlotMap.get (threads s) tid) as [e|] eqn:He; [|done]. simpl.
    destruct (task_hashrate e now) as [hr e'].
    set (s1 := with_threads s _).
    assert (Hsk : skel s1 = skel s) by (by eapply with_threads_set_skel).
    destruct (compute_scheduler_target _ _); [|done]. simpl.
    set (task := MkTask _ _ _ _ _).
    assert (Hd : dom (SlotMap.items (sources s1)) = dom (SlotMap.items (sources s)) /\
                 dom (SlotMap.items (threads s1)) = dom (SlotMap.items (threads s)))
      by (by injection Hsk).
    destruct Hd as [Hd1 Hd2].
    destruct (inv_give_task s1 now mode sid tid task) as (Hi & Hsrc & _).
    { unfold inv. by rewrite Hsk. }
    { by rewrite Hd1. }
    { rewrite Hd2. apply elem_of_dom. by exists e. }
    destruct (give_task s1 now mode sid tid task) as [s2 eff2]. simpl in *.
    destruct (assign_loop s2 _ _ _ _ _) as [[s3 eff3]|] eqn:Hl; [|done]. intros [= <- _].
    eapply IH; [exact Hi| |exact Hl]. by rewrite Hsrc.
Qed.

Lemma inv_cached_loop now tid hr srcs s s' eff :
  inv s -> Forall (fun p => p.1 ∈ dom (SlotMap.items (sources s))) srcs ->
  cached_loop s now tid hr srcs = Some (s', eff) -> inv s'.
Proof.
  revert s s' eff. induction srcs as [|[sid src] srcs IH]; intros s s' eff Hinv Hall; simpl.
  - by intros [= <- _].
  - apply Forall_cons in Hall as [Hsid Hall].
    destruct (last_job src) as [[jid jp jv jb jt jtime []]|]; try by apply IH.
    destruct (compute_scheduler_target hr jt); [|done]. simpl.
    destruct (SlotMap.get (threads s) tid) as [e|] eqn:He; [|done]. simpl.
    set (task := MkTask _ _ _ _ _).
    destruct (inv_give_task s now Update sid tid task) as (Hi & Hsrc & _); [done|done|apply elem_of_dom; by exists e|].
    destruct (give_task s now Update sid tid task) as [s2 eff2]. simpl in *.
    destruct (cached_loop s2 _ _ _ _) as [[s3 eff3]|] eqn:Hl; [|done]. intros [= <- _].
    eapply IH; [exact Hi| |exact Hl]. by rewrite Hsrc.
Qed.

Lemma inv_source_registration s nm u : inv s -> inv (handle_source_registration s nm u).1.
Proof.
  intros [H1 H2 H3 H4 H5 H6 H7]. unfold handle_source_registration. simpl.
  set (s1 := with_streams _ _ _ _).
  assert (Hi : inv s1).
  { split; simpl in *; try done.
    - rewrite dom_insert_L. set_solver.
    - intros k e He. rewrite dom_insert_L. destruct (H3 k e He). set_solver.
    - intros i. rewrite dom_insert_L, elem_of_union, elem_of_singleton.
      intros [->|Hi]; [lia|]. specialize (H5 i Hi). lia. }
  destruct (negb _); [|done]. unfold inv. by rewrite broadcast_skel.
Qed.

Lemma inv_assign_job s mode sid job now s' eff :
  inv s -> sid ∈ dom (SlotMap.items (sources s)) ->
  assign_job_to_threads s mode sid job now = Some (s', eff) -> inv s'.
Proof.
  intros Hinv Hsid. unfold assign_job_to_threads.
  destruct (merkle_root job) as [|mt]; [by intros [= <- _]|].
  pose proof (cache_job_skel s sid job) as Hc. set (s1 := cache_job s sid job) in *.
  assert (Hinv1 : inv s1) by (unfold inv; by rewrite Hc).
  destruct (bool_decide _); [by intros [= <- _]|].
  destruct (check_alarm s1 sid job now) as [s2|] eqn:Ha; [|done]. simpl.
  pose proof (check_alarm_skel _ _ _ _ _ Ha) as Hsk2.
  assert (Hinv2 : inv s2) by (unfold inv; by rewrite Hsk2).
  set (s3 := match mode with Update => s2 | Replace => _ end).
  assert (Hinv3 : inv s3) by (unfold s3; destruct mode; [done|by apply inv_remove]).
  assert (Hd : dom (SlotMap.items (sources s3)) = dom (SlotMap.items (sources s))).
  { transitivity (dom (SlotMap.items (sources s2))).
    - unfold s3. destruct mode; [done|]. by rewrite remove_tasks_where_eq.
    - rewrite Hc in Hsk2. by injection Hsk2. }
  destruct (bool_decide _); [by intros [= <- _]|].
  destruct (ExtranonceRange.split _ _); [|done]. simpl. intros Hl.
  eapply inv_assign_loop; [exact Hinv3| |exact Hl]. by rewrite Hd.
Qed.

Lemma inv_clear_jobs s sid : inv s -> inv (handle_clear_jobs s sid).
Proof.
  intros Hinv. unfold handle_clear_jobs. apply inv_remove.
  destruct (SlotMap.get (sources s) sid) eqn:H; [|done].
  unfold inv. by erewrite with_sources_set_skel.
Qed.

Lemma inv_thread_event s tid ev now s' eff :
  inv s -> handle_thread_event s tid ev now = Some (s', eff) -> inv s'.
Proof.
  intros Hinv. destruct ev as [| | |rate]; simpl; try by intros [= <- _].
  destruct (SlotMap.get (threads s) tid) as [entry|] eqn:He; [|by intros [= <- _]].
  set (s1 := with_threads s _). assert (Hs1 : skel s1 = skel s) by (by eapply with_threads_set_skel).
  assert (Hinv1 : inv s1) by (unfold inv; by rewrite Hs1).
  set (first := negb _).
  destruct (if first then assign_cached_jobs_to_thread s1 tid now else Some (s1, [])) as [[s2 e2]|] eqn:Ha; [|done].
  simpl.
  assert (Hinv2 : inv s2).
  { destruct first; [|by injection Ha as <- _]. unfold assign_cached_jobs_to_thread in Ha.
    destruct (SlotMap.get (threads s1) tid) as [entry1|] eqn:He1; [|done]. simpl in Ha.
    destruct (task_hashrate entry1 now) as [hr entry2].
    set (s3 := with_threads s1 _) in Ha.
    assert (Hs3 : skel s3 = skel s1) by (by eapply with_threads_set_skel).
    eapply inv_cached_loop; [|  |exact Ha].
    - unfold inv. by rewrite Hs3.
    - apply Forall_forall. intros [sid src] Hin. apply elem_of_map_to_list in Hin.
      apply elem_of_dom. by exists src. }
  set (s3 := if first && _ then _ else _).
  assert (Hinv3 : inv s3) by (unfold s3; destruct (first && _); done).
  destruct (negb (StartupGate.is_holding (startup_gate s3))); [|by intros [= <- _]].
  intros [= <- _]. change (inv (broadcast_hashrate_change s3).1).
  unfold inv. by rewrite broadcast_skel.
Qed.

Lemma inv_new_thread s : inv s -> inv (handle_new_thread s).1.
Proof.
  intros [H1 H2 H3 H4 H5 H6 H7]. split; simpl in *; try done.
  - rewrite dom_insert_L. set_solver.
  - intros k e He. rewrite dom_insert_L. destruct (H3 k e He). set_solver.
  - intros i. rewrite dom_insert_L, elem_of_union, elem_of_singleton.
    intros [->|Hi]; [lia|]. specialize (H6 i Hi). lia.
Qed.

Lemma inv_disconnections s : inv s -> inv (handle_thread_disconnections s).1.
Proof.
  intros Hinv. unfold handle_thread_disconnections. destruct (_ =? _)%nat; [done|].
  unfold inv. rewrite broadcast_skel. rewrite remove_tasks_where_eq.
  destruct Hinv as [H1 H2 H3 H4 H5 H6 H7]. split; simpl in *; try done.
  - intros k Hk. apply elem_of_dom. specialize (H2 k Hk). apply elem_of_dom in H2 as [e He].
    exists e. by apply map_lookup_filter_Some.
  - intros k e [Hk HP]%kept_lookup. destruct (H3 k e Hk) as [Hs Ht]. split; [done|].
    apply elem_of_dom in Ht as [th Hth]. apply elem_of_dom. exists th.
    apply map_lookup_filter_Some. split; [done|]. simpl.
    apply negb_false_iff, bool_decide_eq_true in HP. done.
  - intros k. rewrite elem_of_difference. intros [Hk Hnr].
    specialize (H4 k Hk). apply elem_of_dom in H4 as [e He]. apply elem_of_dom. exists e.
    apply kept_lookup. split; [done|]. destruct (negb _) eqn:HP; [|done].
    destruct Hnr. unfold removed. apply elem_of_dom. exists e. by apply map_lookup_filter_Some.
  - intros i [e [He _]%map_lookup_filter_Some]%elem_of_dom. apply H6, elem_of_dom. by exists e.
  - intros k [e [Hk _]%kept_lookup]%elem_of_dom. apply H7, elem_of_dom. by exists e.
Qed.

Lemma step_fst (p : t * list effect) s' eff : Some p = Some (s', eff) -> p.1 = s'.
Proof. by intros [= ->]. Qed.

Lemma inv_handle s ev now s' eff :
  inv s -> enabled s ev now = true -> handle s ev now = Some (s', eff) -> inv s'.
Proof.
  intros Hinv Hen. destruct ev as [nm u|sid [j|j|]|k sh|tid e| | | |fst_tick|c|]; cbn [handle enabled] in *;
    try (intros <-%step_fst).
  - by apply inv_source_registration.
  - apply inv_assign_job; [done|]. apply bool_decide_eq_true in Hen. by apply Hinv.
  - apply inv_assign_job; [done|]. apply bool_decide_eq_true in Hen. by apply Hinv.
  - by apply inv_clear_jobs.
  - unfold inv. by rewrite handle_share_skel.
  - by apply inv_thread_event.
  - by apply inv_new_thread.
  - unfold handle_enumeration_complete. destruct (StartupGate.is_holding _); [done|].
    unfold inv. by rewrite broadcast_skel.
  - unfold handle_gate_timeout. destruct (broadcast_hashrate_change _) as [s1 e1] eqn:Hb.
    pose proof (broadcast_skel (with_gate s (StartupGate.record_timeout (startup_gate s)))) as Hsk.
    rewrite Hb in Hsk. unfold inv. simpl in *.
    assert (Hk : skel (with_deadline s1 None) = skel s1) by done. by rewrite Hk, Hsk.
  - cbn [fst]. destruct fst_tick; [done|]. unfold inv. by rewrite measured_skel.
  - cbn [fst]. unfold inv, handle_api_command. by rewrite measured_skel.
  - cbn [fst]. unfold inv. by rewrite measured_skel.
Qed.

Lemma inv_iteration s es et ec ev now s' eff :
  inv s -> iteration s es et ec ev now = Some (s', eff) -> inv s'.
Proof.
  intros Hinv. unfold iteration. set (s1 := poll_streams s es et ec).
  assert (Hinv1 : inv s1).
  { destruct Hinv as [H1 H2 H3 H4 H5 H6 H7]. split; simpl in *; try done; set_solver. }
  destruct (enabled s1 ev now) eqn:Hen; [|done].
  destruct (handle s1 ev now) as [[s2 e2]|] eqn:Hh; [|done]. simpl.
  pose proof (inv_handle _ _ _ _ _ Hinv1 Hen Hh) as Hinv2.
  pose proof (inv_disconnections s2 Hinv2) as Hinv3.
  destruct (handle_thread_disconnections s2) as [s3 e3]. intros [= <- _]. done.
Qed.

Lemma inv_new : inv new.
Proof. split; simpl; try (intros i Hi; set_solver); set_solver. Qed.

Lemma reachable_inv s : reachable s -> inv s.
Proof. induction 1; [apply inv_new|]. by eapply inv_iteration. Qed.
End Preserve.
