(* ===== verification/Register.v ===== *)
(** * BM13xx registers (asic/bm13xx/register.rs, asic/bm13xx/error.rs)

    A module per register type: its fields, [encode] (the bytes put on the
    wire), [decode], its constructors, and [wf], the values the field types and
    the constructors of the source allow.  Undecoded bits are held in place, so
    decoding loses nothing except where the source drops bits. *)
From stdpp Require Import base numbers list.
From Stdlib Require Import ZArith Lia SpecFloat.
From S2P Require Import Prelude Float U256.

(** ** Errors (error.rs) and register addresses *)
Inductive RegisterAddress :=
| AddrChipId | AddrPllDivider | AddrHashCountingNumber | AddrTicketMask | AddrMiscControl
| AddrUartBaud | AddrUartRelay | AddrCoreMailbox | AddrAnalogMux | AddrIoDriverStrength
| AddrRingOscPadDisable | AddrMidstateConfig | AddrSoftResetControl | AddrAdcCtrl1.

#[global] Instance RegisterAddress_eq_dec : EqDecision RegisterAddress.
Proof. solve_decision. Defined.

(** [address as u8]. *)
Definition addr_to_u8 (a : RegisterAddress) : Z :=
  match a with
  | AddrChipId => 0x00 | AddrPllDivider => 0x08 | AddrHashCountingNumber => 0x10
  | AddrTicketMask => 0x14 | AddrMiscControl => 0x18 | AddrUartBaud => 0x28
  | AddrUartRelay => 0x2C | AddrCoreMailbox => 0x3C | AddrAnalogMux => 0x54
  | AddrIoDriverStrength => 0x58 | AddrRingOscPadDisable => 0x68
  | AddrMidstateConfig => 0xA4 | AddrSoftResetControl => 0xA8 | AddrAdcCtrl1 => 0xB9
  end.

Definition all_addresses : list RegisterAddress :=
  [AddrChipId; AddrPllDivider; AddrHashCountingNumber; AddrTicketMask; AddrMiscControl;
   AddrUartBaud; AddrUartRelay; AddrCoreMailbox; AddrAnalogMux; AddrIoDriverStrength;
   AddrRingOscPadDisable; AddrMidstateConfig; AddrSoftResetControl; AddrAdcCtrl1].

(** The derived [TryFromPrimitive]: the variant with this discriminant, if any. *)
Definition addr_from_u8 (b : Z) : option RegisterAddress :=
  find (fun a => addr_to_u8 a =? b) all_addresses.

Inductive ProtocolError :=
| InvalidRegisterAddress (a : Z)
| InvalidResponseType (t : Z)
| ReadOnlyRegister (a : RegisterAddress)
| InvalidFrame
| UnknownChipId (id : list Z)
| BufferTooSmall (need have : Z).

Definition put_u32 (v : Z) : list Z := be_bytes 4 v.
#[global] Arguments put_u32 : simpl never.
(** [self.0 as u8] etc. of a list of four bytes by position. *)
Definition byte_at (l : list Z) (i : nat) : Z := nth i l 0.

(** ** ChipModel and ChipId *)
Module ChipModel.
Inductive t := BM1362 | BM1366 | BM1370.

Definition id_bytes (m : t) : list Z :=
  match m with
  | BM1362 => [0x13; 0x62]
  | BM1366 => [0x13; 0x66]
  | BM1370 => [0x13; 0x70]
  end.

Definition try_from (b : list Z) : result ProtocolError t :=
  match b with
  | [0x13; 0x62] => Ok BM1362
  | [0x13; 0x66] => Ok BM1366
  | [0x13; 0x70] => Ok BM1370
  | _ => Err (UnknownChipId b)
  end.

#[global] Instance eq_dec : EqDecision t.
Proof. solve_decision. Defined.
End ChipModel.

Module ChipId.
Record t := Mk { model : ChipModel.t; unknown : Z; address : Z }.

Definition encode (r : t) : list Z := ChipModel.id_bytes (model r) ++ [unknown r; address r].

Definition decode (b : list Z) : result ProtocolError t :=
  (let? m := ChipModel.try_from [byte_at b 0; byte_at b 1] in
   Ok (Mk m (byte_at b 2) (byte_at b 3)))%res.

Definition wf (r : t) : Prop := uint 8 (unknown r) /\ uint 8 (address r).
End ChipId.

(** ** PllDivider (0x08) *)
Module PllDivider.
Inductive VcoSel := Low | High.
Record t := Mk {
  locked : bool; pll_en : bool; bypass : bool; vco_sel : VcoSel;
  fb_div : Z; ref_div : Z; post_div : Z }.

(** [CRYSTAL_MHZ] (chip_config.rs), an f32. *)
Definition CRYSTAL_MHZ : float := f_of_Z f32 25.

Definition new (fb ref post : Z) : t :=
  let vco_mhz := f_div f32 (f_mul f32 (f_of_Z f32 fb) CRYSTAL_MHZ) (f_of_Z f32 ref) in
  let sel := if f_le (f_of_Z f32 2400) vco_mhz then High else Low in
  Mk false true false sel fb ref post.

Definition is_high (s : VcoSel) : bool := match s with High => true | Low => false end.

Definition encode (r : t) : list Z :=
  let flags := Z.lor (Z.lor (Z.lor (Z.shiftl (b2z (locked r)) 7) (Z.shiftl (b2z (pll_en r)) 6))
                 (Z.shiftl (b2z (bypass r)) 5)) (Z.shiftl (b2z (is_high (vco_sel r))) 4) in
  [flags; fb_div r; ref_div r; post_div r].

Definition decode (b : list Z) : t :=
  Mk (negb (Z.land (byte_at b 0) 0x80 =? 0)) (negb (Z.land (byte_at b 0) 0x40 =? 0))
     (negb (Z.land (byte_at b 0) 0x20 =? 0))
     (if negb (Z.land (byte_at b 0) 0x10 =? 0) then High else Low)
     (byte_at b 1) (byte_at b 2) (byte_at b 3).

Definition wf (r : t) : Prop := uint 8 (fb_div r) /\ uint 8 (ref_div r) /\ uint 8 (post_div r).
End PllDivider.

(** ** HashCountingNumber (0x10) *)
Module HashCountingNumber.
Record t := Mk { ticks : Z }.
Definition encode (r : t) : list Z := put_u32 (ticks r).
Definition decode (b : list Z) : t := Mk (from_be b).
Definition from_u32 (x : Z) : t := Mk x.
Definition to_u32 (r : t) : Z := ticks r.
Definition wf (r : t) : Prop := uint 32 (ticks r).
End HashCountingNumber.

(** ** TicketMask (0x14) *)

(** Eight rounds of shifting the low bit of [b] into [result]. *)
Definition reverse_bits (byte : Z) : Z :=
  fst (Nat.iter 8 (fun '(result, b) =>
    (Z.lor (wrap 8 (Z.shiftl result 1)) (Z.land b 1), Z.shiftr b 1)) (0, byte)).

Definition decode_ticket_mask_bytes (b : list Z) : Z :=
  fold_left (fun mask_value i =>
    Z.lor mask_value (Z.shiftl (reverse_bits (byte_at b (3 - i))) (8 * Z.of_nat i)))
    [0; 1; 2; 3]%nat 0.

Module Log2Difficulty.
Record t := Mk { exponent : Z }.

Definition from_difficulty `{BitcoinPow} `{FloatLib} (difficulty : Difficulty.t) : t :=
  let d := Difficulty.as_f64 difficulty in
  Mk (if f_le (f_of_Z f64 1) d
      then Z.max 0 (Z.min 255 (f_floor_to_Z (log2 d)))
      else 0).

(** [1_u64 << exponent] masks the shift count, as release builds do. *)
Definition to_work_of `{Ruint} `{BitcoinPow} (r : t) : option Z :=
  option_map (fun d => to_work (Difficulty.to_target d))
    (Difficulty.from_u64 (wrap 64 (Z.shiftl 1 (exponent r mod 64)))).
End Log2Difficulty.

Module TicketMask.
Record t := Mk { mask : Z }.

Definition new (difficulty : Log2Difficulty.t) : t :=
  let zero_bits := Log2Difficulty.exponent difficulty in
  Mk (if 32 <=? zero_bits then 2 ^ 32 - 1 else Z.shiftl 1 zero_bits - 1).

(** [bytes[3 - i] = reverse_bits(mask >> 8 * i)]. *)
Definition to_wire_bytes (r : t) : list Z :=
  map (fun j => reverse_bits (Z.land (Z.shiftr (mask r) (8 * (3 - j))) 0xFF)) [0; 1; 2; 3].

Definition encode (r : t) : list Z := to_wire_bytes r.
Definition decode (b : list Z) : t := Mk (decode_ticket_mask_bytes b).
Definition wf (r : t) : Prop := uint 32 (mask r).
End TicketMask.

(** ** MiscControl (0x18) *)
Module MiscControl.
(** [report_enables] holds the enables of register bits 28, 29, 30, 31. *)
Record t := Mk { report_enables : bool * bool * bool * bool; unexplained : Z; power_on : Z }.

Definition reporting_enabled (model : ChipModel.t) : t :=
  Mk (match model with
      | ChipModel.BM1362 => (true, true, false, true)
      | _ => (true, true, true, true)
      end) 0 0xC100.

Definition encode (r : t) : list Z :=
  let '(e0, e1, e2, e3) := report_enables r in
  let value := Z.lor (unexplained r) (power_on r) in
  let value := Z.lor value (Z.shiftl (b2z e0) 28) in
  let value := Z.lor value (Z.shiftl (b2z e1) 29) in
  let value := Z.lor value (Z.shiftl (b2z e2) 30) in
  let value := Z.lor value (Z.shiftl (b2z e3) 31) in
  put_u32 value.

Definition decode (b : list Z) : t :=
  let value := from_be b in
  Mk (bit value 28, bit value 29, bit value 30, bit value 31)
     (Z.land value 0x0fff0000) (wrap 16 (Z.land value 0xffff)).

Definition wf (r : t) : Prop :=
  uint 16 (power_on r) /\ uint 32 (unexplained r) /\ Z.land (unexplained r) 0x0fff0000 = unexplained r.
End MiscControl.

(** ** UartBaud (0x28) *)
Module UartBaud.
Record t := Mk { divider : Z; bit28 : bool; unexplained : Z }.

(** [CRYSTAL_MHZ * 1_000_000.0]. *)
Definition crystal_hz : float := f_mul f32 PllDivider.CRYSTAL_MHZ (f_of_Z f32 1000000).

Definition for_baud (target : Z) : t :=
  let steps := f_round_to_uint 8
                 (f_div f32 crystal_hz (f_mul f32 (f_of_Z f32 8) (f_of_Z f32 target))) in
  Mk (Z.max 0 (steps - 1)) false 0x01300000.

Definition baud (r : t) : Z :=
  f_to_uint 32 (f_div f32 crystal_hz
    (f_mul f32 (f_of_Z f32 8) (f_add f32 (f_of_Z f32 (divider r)) (f_of_Z f32 1)))).

Definition encode (r : t) : list Z :=
  put_u32 (Z.lor (Z.lor (Z.shiftl (b2z (bit28 r)) 28) (unexplained r)) (Z.shiftl (divider r) 8)).

Definition decode (b : list Z) : t :=
  let value := from_be b in
  Mk (wrap 8 (Z.shiftr value 8)) (bit value 28) (Z.land value 0xefff00ff).

Definition wf (r : t) : Prop :=
  uint 8 (divider r) /\ uint 32 (unexplained r) /\ Z.land (unexplained r) 0xefff00ff = unexplained r.
End UartBaud.

(** ** UartRelay (0x2C) *)
Module UartRelay.
Record t := Mk { gap_count : Z; unexplained : Z; response_relay : bool; command_relay : bool }.

Definition domain_boundary (gap : Z) : t := Mk gap 0 true true.

Definition encode (r : t) : list Z :=
  put_u32 (Z.lor (Z.lor (Z.lor (Z.shiftl (gap_count r) 16) (unexplained r))
             (Z.shiftl (b2z (response_relay r)) 1)) (b2z (command_relay r))).

Definition decode (b : list Z) : t :=
  let word := from_be b in
  Mk (wrap 16 (Z.shiftr word 16)) (Z.land word 0xfffc) (bit word 1) (Z.land word 1 =? 1).

Definition wf (r : t) : Prop :=
  uint 16 (gap_count r) /\ uint 32 (unexplained r) /\ Z.land (unexplained r) 0xfffc = unexplained r.
End UartRelay.

(** ** CoreMailbox (0x3C) *)
Module CoreRegister.
Inductive t :=
| ClockDelay | CoreEnable | ClockSelectBM1362 | ClockSelectBM1368 | NonceBinOverflow
| Unknown (id : Z).

(** [u8::from(reg)]. *)
Definition to_u8 (r : t) : Z :=
  match r with
  | ClockDelay => 0x00 | CoreEnable => 0x02 | ClockSelectBM1362 => 0x05
  | ClockSelectBM1368 => 0x0B | NonceBinOverflow => 0x0D | Unknown id => id
  end.
Definition from_u8 (b : Z) : t :=
  if b =? 0x00 then ClockDelay else if b =? 0x02 then CoreEnable
  else if b =? 0x05 then ClockSelectBM1362 else if b =? 0x0B then ClockSelectBM1368
  else if b =? 0x0D then NonceBinOverflow else Unknown b.
(** An [Unknown] id fits the five-bit field and is not the id of a named register. *)
Definition wf (r : t) : Prop := uint 5 (to_u8 r) /\ from_u8 (to_u8 r) = r.
End CoreRegister.

Module CoreCommand.
Record t := Mk {
  all : bool; num : Z; core_id : Z; write : bool; rd_done : bool;
  unexplained : Z; reg : CoreRegister.t; value : Z }.

Definition write_all (r : CoreRegister.t) (v : Z) : t := Mk true 0 0 true false 0 r v.
Definition nonce_bin_overflow (enable : bool) : t :=
  write_all CoreRegister.NonceBinOverflow (if enable then 0xEE else 0xEF).

Definition encode (c : t) : list Z :=
  put_u32
    (Z.lor (Z.lor (Z.lor (Z.lor (Z.lor (Z.lor (Z.lor
       (Z.shiftl (b2z (all c)) 31)
       (Z.shiftl (Z.land (num c) 0x7f) 24))
       (Z.shiftl (core_id c) 16))
       (Z.shiftl (b2z (write c)) 15))
       (Z.shiftl (b2z (rd_done c)) 14))
       (unexplained c))
       (Z.shiftl (Z.land (CoreRegister.to_u8 (reg c)) 0x1f) 8))
       (value c)).

Definition decode (b : list Z) : t :=
  let word := from_be b in
  Mk (bit word 31) (wrap 8 (Z.land (Z.shiftr word 24) 0x7f))
     (wrap 8 (Z.land (Z.shiftr word 16) 0xff)) (bit word 15) (bit word 14)
     (Z.land word 0x2000) (CoreRegister.from_u8 (wrap 8 (Z.land (Z.shiftr word 8) 0x1f)))
     (wrap 8 (Z.land word 0xff)).

Definition wf (c : t) : Prop :=
  uint 7 (num c) /\ uint 8 (core_id c) /\ CoreRegister.wf (reg c) /\ uint 8 (value c) /\
  uint 32 (unexplained c) /\ Z.land (unexplained c) 0x2000 = unexplained c.
End CoreCommand.

(** ** AnalogMux (0x54) *)
Module AnalogMux.
Record t := Mk { diode_select : Z; unexplained : Z }.
Definition bring_up (model : ChipModel.t) : t :=
  match model with ChipModel.BM1362 => Mk 0x3 0 | _ => Mk 0x2 0 end.
Definition encode (r : t) : list Z :=
  put_u32 (Z.lor (unexplained r) (Z.land (diode_select r) 0xf)).
Definition decode (b : list Z) : t :=
  let value := from_be b in
  Mk (wrap 8 (Z.land value 0xf)) (Z.land value 0xfffffff0).
Definition wf (r : t) : Prop :=
  uint 4 (diode_select r) /\ uint 32 (unexplained r) /\
  Z.land (unexplained r) 0xfffffff0 = unexplained r.
End AnalogMux.

(** ** IoDriverStrength (0x58) *)
Module IoDriverStrength.
Record t := Mk {
  command_out : Z; busy_out : Z; reset_out : Z; clock_out : Z; response_out : Z;
  unexplained : Z }.
Definition normal : t := Mk 0x1 0x1 0x1 0x1 0x1 0.
Definition domain_boundary : t :=
  Mk (command_out normal) (busy_out normal) (reset_out normal) 0xf
     (response_out normal) (unexplained normal).
Definition encode (r : t) : list Z :=
  put_u32 (Z.lor (Z.lor (Z.lor (Z.lor (Z.lor (unexplained r)
     (Z.shiftl (response_out r) 16)) (Z.shiftl (clock_out r) 12))
     (Z.shiftl (reset_out r) 8)) (Z.shiftl (busy_out r) 4)) (command_out r)).
Definition decode (b : list Z) : t :=
  let value := from_be b in
  Mk (wrap 8 (Z.land value 0xf)) (wrap 8 (Z.land (Z.shiftr value 4) 0xf))
     (wrap 8 (Z.land (Z.shiftr value 8) 0xf)) (wrap 8 (Z.land (Z.shiftr value 12) 0xf))
     (wrap 8 (Z.land (Z.shiftr value 16) 0xf)) (Z.land value 0xfff00000).
Definition wf (r : t) : Prop :=
  uint 4 (command_out r) /\ uint 4 (busy_out r) /\ uint 4 (reset_out r) /\
  uint 4 (clock_out r) /\ uint 4 (response_out r) /\ uint 32 (unexplained r) /\
  Z.land (unexplained r) 0xfff00000 = unexplained r.
End IoDriverStrength.

(** ** MidstateConfig (0xA4) *)
Module MidstateConfig.
Record t := Mk {
  version_mask : Z; midstate_gen : Z; unexplained : Z; version_fix : bool; auto_gen : bool }.
Definition full_rolling : t := Mk 0xffff 1 0 false true.
Definition encode (r : t) : list Z :=
  put_u32 (Z.lor (Z.lor (Z.lor (Z.lor (Z.shiftl (b2z (auto_gen r)) 31)
     (Z.shiftl (b2z (version_fix r)) 30)) (Z.shiftl (Z.land (midstate_gen r) 0x3) 28))
     (unexplained r)) (version_mask r)).
Definition decode (b : list Z) : t :=
  let value := from_be b in
  Mk (wrap 16 (Z.land value 0xffff)) (wrap 8 (Z.land (Z.shiftr value 28) 0x3))
     (Z.land value 0x0fff0000) (bit value 30) (bit value 31).
Definition wf (r : t) : Prop :=
  uint 16 (version_mask r) /\ uint 2 (midstate_gen r) /\ uint 32 (unexplained r) /\
  Z.land (unexplained r) 0x0fff0000 = unexplained r.
End MidstateConfig.

(** ** SoftResetControl (0xA8) *)
Module SoftResetControl.
Record t := Mk { word : Z }.
Definition defaults (model : ChipModel.t) : t :=
  match model with ChipModel.BM1362 => Mk 0 | _ => Mk 0x00070000 end.
Definition core_reset (model : ChipModel.t) : t :=
  match model with ChipModel.BM1362 => Mk 2 | _ => Mk 0x000701F0 end.
Definition encode (r : t) : list Z := put_u32 (word r).
Definition decode (b : list Z) : t := Mk (from_be b).
Definition wf (r : t) : Prop := uint 32 (word r).
End SoftResetControl.

(** ** The registers kept as four bytes: RingOscPadDisable (0x68), AdcCtrl1 (0xB9) *)
Module Opaque4.
Record t := Mk { raw : list Z }.
Definition encode (r : t) : list Z := raw r.
Definition decode (b : list Z) : t := Mk b.
Definition guard_pattern : t := Mk [0x5A; 0xA5; 0x5A; 0xA5].
Definition adc_bring_up : t := Mk [0x00; 0x00; 0x44; 0x80].
Definition wf (r : t) : Prop := length (raw r) = 4%nat /\ bytes (raw r).
End Opaque4.

(** ** Register: a typed payload per address *)
Module Register.
Inductive t :=
| ChipId (r : ChipId.t)
| PllDivider (r : PllDivider.t)
| HashCountingNumber (r : HashCountingNumber.t)
| TicketMask (r : TicketMask.t)
| MiscControl (r : MiscControl.t)
| UartBaud (r : UartBaud.t)
| UartRelay (r : UartRelay.t)
| CoreMailbox (r : CoreCommand.t)
| AnalogMux (r : AnalogMux.t)
| IoDriverStrength (r : IoDriverStrength.t)
| RingOscPadDisable (r : Opaque4.t)
| MidstateConfig (r : MidstateConfig.t)
| SoftResetControl (r : SoftResetControl.t)
| AdcCtrl1 (r : Opaque4.t).

Definition decode (address : RegisterAddress) (b : list Z) : result ProtocolError t :=
  match address with
  | AddrChipId => (let? r := ChipId.decode b in Ok (ChipId r))%res
  | AddrPllDivider => Ok (PllDivider (PllDivider.decode b))
  | AddrHashCountingNumber => Ok (HashCountingNumber (HashCountingNumber.decode b))
  | AddrTicketMask => Ok (TicketMask (TicketMask.decode b))
  | AddrMiscControl => Ok (MiscControl (MiscControl.decode b))
  | AddrUartBaud => Ok (UartBaud (UartBaud.decode b))
  | AddrUartRelay => Ok (UartRelay (UartRelay.decode b))
  | AddrCoreMailbox => Ok (CoreMailbox (CoreCommand.decode b))
  | AddrAnalogMux => Ok (AnalogMux (AnalogMux.decode b))
  | AddrIoDriverStrength => Ok (IoDriverStrength (IoDriverStrength.decode b))
  | AddrRingOscPadDisable => Ok (RingOscPadDisable (Opaque4.decode b))
  | AddrMidstateConfig => Ok (MidstateConfig (MidstateConfig.decode b))
  | AddrSoftResetControl => Ok (SoftResetControl (SoftResetControl.decode b))
  | AddrAdcCtrl1 => Ok (AdcCtrl1 (Opaque4.decode b))
  end.

Definition address (r : t) : RegisterAddress :=
  match r with
  | ChipId _ => AddrChipId
  | PllDivider _ => AddrPllDivider
  | HashCountingNumber _ => AddrHashCountingNumber
  | TicketMask _ => AddrTicketMask
  | MiscControl _ => AddrMiscControl
  | UartBaud _ => AddrUartBaud
  | UartRelay _ => AddrUartRelay
  | CoreMailbox _ => AddrCoreMailbox
  | AnalogMux _ => AddrAnalogMux
  | IoDriverStrength _ => AddrIoDriverStrength
  | RingOscPadDisable _ => AddrRingOscPadDisable
  | MidstateConfig _ => AddrMidstateConfig
  | SoftResetControl _ => AddrSoftResetControl
  | AdcCtrl1 _ => AddrAdcCtrl1
  end.

Definition encode (r : t) : list Z :=
  match r with
  | ChipId r => ChipId.encode r
  | PllDivider r => PllDivider.encode r
  | HashCountingNumber r => HashCountingNumber.encode r
  | TicketMask r => TicketMask.encode r
  | MiscControl r => MiscControl.encode r
  | UartBaud r => UartBaud.encode r
  | UartRelay r => UartRelay.encode r
  | CoreMailbox r => CoreCommand.encode r
  | AnalogMux r => AnalogMux.encode r
  | IoDriverStrength r => IoDriverStrength.encode r
  | RingOscPadDisable r => Opaque4.encode r
  | MidstateConfig r => MidstateConfig.encode r
  | SoftResetControl r => SoftResetControl.encode r
  | AdcCtrl1 r => Opaque4.encode r
  end.

Definition wf (r : t) : Prop :=
  match r with
  | ChipId r => ChipId.wf r
  | PllDivider r => PllDivider.wf r
  | HashCountingNumber r => HashCountingNumber.wf r
  | TicketMask r => TicketMask.wf r
  | MiscControl r => MiscControl.wf r
  | UartBaud r => UartBaud.wf r
  | UartRelay r => UartRelay.wf r
  | CoreMailbox r => CoreCommand.wf r
  | AnalogMux r => AnalogMux.wf r
  | IoDriverStrength r => IoDriverStrength.wf r
  | RingOscPadDisable r => Opaque4.wf r
  | MidstateConfig r => MidstateConfig.wf r
  | SoftResetControl r => SoftResetControl.wf r
  | AdcCtrl1 r => Opaque4.wf r
  end.
End Register.

(** ** Round trips *)
Lemma from_be_put_u32 v : uint 32 v -> from_be (put_u32 v) = v.
Proof. intros. unfold put_u32. rewrite from_be_be_bytes. by apply wrap_id. Qed.

Lemma put_u32_from_be b : length b = 4%nat -> bytes b -> put_u32 (from_be b) = b.
Proof. intros Hl Hb. unfold put_u32. rewrite <- Hl. by apply be_bytes_from_be. Qed.

Lemma from_be_uint32 b : length b = 4%nat -> bytes b -> uint 32 (from_be b).
Proof. intros Hl Hb. pose proof (from_be_range b Hb) as H. rewrite Hl in H. done. Qed.

(** A masked field has no bit outside its mask. *)
Lemma masked_bit x m n : Z.land x m = x -> Z.testbit m n = false -> Z.testbit x n = false.
Proof. intros Hx Hm. by rewrite <- Hx, Z.land_spec, Hm, andb_false_r. Qed.

Ltac mask_step :=
  match goal with
  | H : Z.land ?x ?m = ?x |- context [Z.testbit ?x ?n] =>
      rewrite (masked_bit x m n H) by (vm_compute; reflexivity)
  end.
Ltac word_bits k :=
  apply (word_ext k); simpl Z.of_nat;
  [solve [eauto 20 with word]|solve [eauto 20 with word]|];
  simpl all_below; repeat split;
  testbit_push; repeat first [testbit_step|mask_step]; bool_clean; try done; try congruence.
Ltac bool_bits :=
  rewrite ?bit_testbit by lia;
  testbit_push; repeat first [testbit_step|mask_step]; bool_clean; try done.

Lemma bit_0_land x : (Z.land x 1 =? 1) = Z.testbit x 0.
Proof. rewrite <- bit_testbit by lia. unfold bit. by rewrite Z.shiftr_0_r. Qed.

(** Evaluates record projections and nothing else. *)
Ltac fields :=
  cbv beta iota zeta delta [
    ChipId.model ChipId.unknown ChipId.address PllDivider.locked PllDivider.pll_en
    PllDivider.bypass PllDivider.vco_sel PllDivider.fb_div PllDivider.ref_div
    PllDivider.post_div HashCountingNumber.ticks Log2Difficulty.exponent TicketMask.mask
    MiscControl.report_enables MiscControl.unexplained MiscControl.power_on UartBaud.divider
    UartBaud.bit28 UartBaud.unexplained UartRelay.gap_count UartRelay.unexplained
    UartRelay.response_relay UartRelay.command_relay CoreCommand.all CoreCommand.num
    CoreCommand.core_id CoreCommand.write CoreCommand.rd_done CoreCommand.unexplained
    CoreCommand.reg CoreCommand.value AnalogMux.diode_select AnalogMux.unexplained
    IoDriverStrength.command_out IoDriverStrength.busy_out IoDriverStrength.reset_out
    IoDriverStrength.clock_out IoDriverStrength.response_out IoDriverStrength.unexplained
    MidstateConfig.version_mask MidstateConfig.midstate_gen MidstateConfig.unexplained
    MidstateConfig.version_fix MidstateConfig.auto_gen SoftResetControl.word Opaque4.raw].
(** Closes one field of a round trip. *)
Ltac word_field :=
  match goal with
  | |- bit _ _ = _ => bool_bits
  | |- (Z.land _ 1 =? 1) = _ => rewrite bit_0_land; bool_bits
  | |- _ => solve [word_bits 8%nat] || solve [word_bits 16%nat] || solve [word_bits 32%nat]
  end.
(** From the wire back to the fields. *)
Ltac round_trip :=
  repeat match goal with H : _ /\ _ |- _ => destruct H end;
  rewrite from_be_put_u32 by eauto 20 with word; cbv zeta; f_equal; try word_field.
(** From the fields of some bytes back to those bytes. *)
Ltac round_trip_bytes b Hl Hb :=
  transitivity (put_u32 (from_be b)); [|by apply put_u32_from_be];
  apply (f_equal put_u32);
  pose proof (from_be_uint32 b Hl Hb); generalize dependent (from_be b); intros;
  rewrite ?bit_0_land, ?bit_testbit by lia; word_bits 32%nat.

Lemma misc_control_decode_encode r : MiscControl.wf r -> MiscControl.decode (MiscControl.encode r) = r.
Proof.
  destruct r as [[[[e0 e1] e2] e3] un po].
  unfold MiscControl.wf, MiscControl.encode, MiscControl.decode. simpl. intros (Hp & Hu & Hm).
  rewrite from_be_put_u32 by eauto 20 with word.
  f_equal; [f_equal; [f_equal; [f_equal|]|]|..]; word_field.
Qed.

Lemma uart_baud_decode_encode r : UartBaud.wf r -> UartBaud.decode (UartBaud.encode r) = r.
Proof.
  destruct r. unfold UartBaud.wf, UartBaud.encode, UartBaud.decode. simpl. intros. round_trip.
Qed.

Lemma uart_relay_decode_encode r : UartRelay.wf r -> UartRelay.decode (UartRelay.encode r) = r.
Proof.
  destruct r. unfold UartRelay.wf, UartRelay.encode, UartRelay.decode. simpl. intros. round_trip.
Qed.

Lemma core_register_range b : uint 5 b -> CoreRegister.wf (CoreRegister.from_u8 b).
Proof.
  intros H. unfold CoreRegister.wf, CoreRegister.from_u8.
  repeat (case_match; simpl; [split; [vm_compute; intuition discriminate|reflexivity]|]).
  simpl. split; [done|]. repeat (case_match; [congruence|]). done.
Qed.

Lemma core_command_decode_encode c : CoreCommand.wf c -> CoreCommand.decode (CoreCommand.encode c) = c.
Proof.
  destruct c. unfold CoreCommand.wf, CoreRegister.wf, CoreCommand.encode, CoreCommand.decode.
  simpl. intros (? & ? & (Hr & Hreg) & ?). round_trip.
  rewrite <- Hreg at 2. f_equal. word_field.
Qed.

Lemma analog_mux_decode_encode r : AnalogMux.wf r -> AnalogMux.decode (AnalogMux.encode r) = r.
Proof.
  destruct r. unfold AnalogMux.wf, AnalogMux.encode, AnalogMux.decode. simpl. intros. round_trip.
Qed.

Lemma io_driver_decode_encode r :
  IoDriverStrength.wf r -> IoDriverStrength.decode (IoDriverStrength.encode r) = r.
Proof.
  destruct r. unfold IoDriverStrength.wf, IoDriverStrength.encode, IoDriverStrength.decode.
  simpl. intros. round_trip.
Qed.

Lemma midstate_decode_encode r :
  MidstateConfig.wf r -> MidstateConfig.decode (MidstateConfig.encode r) = r.
Proof.
  destruct r. unfold MidstateConfig.wf, MidstateConfig.encode, MidstateConfig.decode.
  simpl. intros. round_trip.
Qed.

Lemma pll_divider_decode_encode r : PllDivider.decode (PllDivider.encode r) = r.
Proof. destruct r as [[] [] [] [] fb rd pd]; reflexivity. Qed.

Lemma chip_id_decode_encode r : ChipId.decode (ChipId.encode r) = Ok r.
Proof. destruct r as [[] u a]; reflexivity. Qed.

Lemma reverse_bits_range b : uint 8 b -> uint 8 (reverse_bits b).
Proof.
  intros Hb.
  assert (H : (0 <=? reverse_bits b) && (reverse_bits b <? 256) = true).
  { apply (check_uint 8 (fun b => (0 <=? reverse_bits b) && (reverse_bits b <? 256))); [|done].
    vm_compute. reflexivity. }
  unfold uint. change (2 ^ 8) with 256. lia.
Qed.

Lemma reverse_bits_involutive b : uint 8 b -> reverse_bits (reverse_bits b) = b.
Proof.
  intros Hb. apply Z.eqb_eq.
  apply (check_uint 8 (fun b => reverse_bits (reverse_bits b) =? b)); [|done].
  vm_compute. reflexivity.
Qed.

(** Four bytes, named. *)
Lemma four_bytes b : length b = 4%nat -> bytes b ->
  exists b0 b1 b2 b3, b = [b0; b1; b2; b3] /\ uint 8 b0 /\ uint 8 b1 /\ uint 8 b2 /\ uint 8 b3.
Proof.
  destruct b as [|b0 [|b1 [|b2 [|b3 [|]]]]]; try discriminate. intros _ Hb.
  unfold bytes in Hb. rewrite !Forall_cons in Hb. destruct Hb as (? & ? & ? & ? & _).
  by exists b0, b1, b2, b3.
Qed.

Lemma ticket_mask_decode_encode r : TicketMask.wf r -> TicketMask.decode (TicketMask.encode r) = r.
Proof.
  destruct r as [m]. unfold TicketMask.wf. simpl. intros Hm.
  unfold TicketMask.decode, TicketMask.encode, TicketMask.to_wire_bytes, decode_ticket_mask_bytes, byte_at.
  simpl. f_equal. rewrite !reverse_bits_involutive by eauto 20 with word. word_bits 32%nat.
Qed.

Lemma ticket_mask_encode_decode b :
  length b = 4%nat -> bytes b -> TicketMask.encode (TicketMask.decode b) = b.
Proof.
  intros Hl Hb. destruct (four_bytes b Hl Hb) as (b0 & b1 & b2 & b3 & -> & H0 & H1 & H2 & H3).
  unfold TicketMask.decode, TicketMask.encode, TicketMask.to_wire_bytes, decode_ticket_mask_bytes, byte_at.
  simpl.
  pose proof (reverse_bits_involutive b0 H0) as E0. pose proof (reverse_bits_range b0 H0).
  pose proof (reverse_bits_involutive b1 H1) as E1. pose proof (reverse_bits_range b1 H1).
  pose proof (reverse_bits_involutive b2 H2) as E2. pose proof (reverse_bits_range b2 H2).
  pose proof (reverse_bits_involutive b3 H3) as E3. pose proof (reverse_bits_range b3 H3).
  generalize dependent (reverse_bits b0); intros x0 E0 R0.
  generalize dependent (reverse_bits b1); intros x1 E1 R1.
  generalize dependent (reverse_bits b2); intros x2 E2 R2.
  generalize dependent (reverse_bits b3); intros x3 E3 R3.
  rewrite <- E0, <- E1, <- E2, <- E3.
  f_equal; [|f_equal; [|f_equal; [|f_equal]]]; apply (f_equal reverse_bits); word_bits 8%nat.
Qed.

Lemma ticket_mask_new_wf d : 0 <= Log2Difficulty.exponent d -> TicketMask.wf (TicketMask.new d).
Proof.
  intros Hd. unfold TicketMask.wf, TicketMask.new, uint. simpl.
  destruct (Z.leb_spec 32 (Log2Difficulty.exponent d)) as [|Hlt]; [simpl; lia|].
  rewrite Z.shiftl_1_l.
  pose proof (Z.pow_lt_mono_r 2 _ 32 ltac:(lia) ltac:(lia) Hlt).
  pose proof (Z.pow_pos_nonneg 2 (Log2Difficulty.exponent d)). lia.
Qed.

(** From bytes to fields and back: every undecoded bit is held in place. *)
Lemma misc_control_encode_decode b :
  length b = 4%nat -> bytes b -> MiscControl.encode (MiscControl.decode b) = b.
Proof. intros Hl Hb. unfold MiscControl.encode, MiscControl.decode. fields. round_trip_bytes b Hl Hb. Qed.

Lemma uart_baud_encode_decode b :
  length b = 4%nat -> bytes b -> UartBaud.encode (UartBaud.decode b) = b.
Proof. intros Hl Hb. unfold UartBaud.encode, UartBaud.decode. fields. round_trip_bytes b Hl Hb. Qed.

Lemma uart_relay_encode_decode b :
  length b = 4%nat -> bytes b -> UartRelay.encode (UartRelay.decode b) = b.
Proof. intros Hl Hb. unfold UartRelay.encode, UartRelay.decode. fields. round_trip_bytes b Hl Hb. Qed.

Lemma core_register_to_from_u8 b : CoreRegister.to_u8 (CoreRegister.from_u8 b) = b.
Proof. unfold CoreRegister.from_u8. repeat (case_match; [simpl; lia|]). done. Qed.

Lemma core_command_encode_decode b :
  length b = 4%nat -> bytes b -> CoreCommand.encode (CoreCommand.decode b) = b.
Proof.
  intros Hl Hb. unfold CoreCommand.encode, CoreCommand.decode. fields.
  rewrite core_register_to_from_u8. round_trip_bytes b Hl Hb.
Qed.

Lemma analog_mux_encode_decode b :
  length b = 4%nat -> bytes b -> AnalogMux.encode (AnalogMux.decode b) = b.
Proof. intros Hl Hb. unfold AnalogMux.encode, AnalogMux.decode. fields. round_trip_bytes b Hl Hb. Qed.

Lemma io_driver_encode_decode b :
  length b = 4%nat -> bytes b -> IoDriverStrength.encode (IoDriverStrength.decode b) = b.
Proof.
  intros Hl Hb. unfold IoDriverStrength.encode, IoDriverStrength.decode. fields.
  round_trip_bytes b Hl Hb.
Qed.

Lemma midstate_encode_decode b :
  length b = 4%nat -> bytes b -> MidstateConfig.encode (MidstateConfig.decode b) = b.
Proof.
  intros Hl Hb. unfold MidstateConfig.encode, MidstateConfig.decode. fields.
  round_trip_bytes b Hl Hb.
Qed.

Lemma pll_divider_encode_decode b0 b1 b2 b3 : uint 8 b0 -> Z.land b0 0x0f = 0 ->
  PllDivider.encode (PllDivider.decode [b0; b1; b2; b3]) = [b0; b1; b2; b3].
Proof.
  intros H0 Hlow.
  assert (Hall : check_below 256 (fun b0 => negb (Z.land b0 0x0f =? 0) ||
     match PllDivider.encode (PllDivider.decode [b0; 0; 0; 0]) with b :: _ => b =? b0 | [] => false end)
     = true) by (vm_compute; reflexivity).
  pose proof (check_below_spec _ _ Hall b0 H0) as H. cbv beta in H.
  rewrite Hlow in H. apply Z.eqb_eq in H.
  unfold PllDivider.encode, PllDivider.decode, byte_at in *. simpl in *. by rewrite H.
Qed.

Lemma chip_id_encode_decode b r :
  length b = 4%nat -> ChipId.decode b = Ok r -> ChipId.encode r = b.
Proof.
  destruct b as [|b0 [|b1 [|b2 [|b3 [|]]]]]; try discriminate. intros _.
  unfold ChipId.decode, ChipModel.try_from, byte_at, res_bind. simpl.
  repeat case_match; intros; simplify_eq; reflexivity.
Qed.

Lemma encode_length_wf r : Register.wf r -> length (Register.encode r) = 4%nat.
Proof.
  destruct r as [[[] ? ?]| | | |[[[[? ?] ?] ?] ? ?]| | | | | | | | |]; simpl; try reflexivity; by intros [].
Qed.

Lemma put_u32_bytes v : bytes (put_u32 v).
Proof. apply be_bytes_bytes. Qed.

Lemma encode_bytes_wf r : Register.wf r -> bytes (Register.encode r).
Proof.
  destruct r as [r|r| |r|r| | | | | | | | |]; simpl; intros Hwf; try apply put_u32_bytes.
  - destruct r as [[] ? ?], Hwf; simpl in *; repeat apply Forall_cons_2; eauto with word.
  - destruct r as [[] [] [] [] ? ? ?], Hwf as (? & ? & ?);
      unfold PllDivider.encode; fields; repeat apply Forall_cons_2; try done;
      vm_compute; intuition discriminate.
  - unfold TicketMask.encode, TicketMask.to_wire_bytes. simpl.
    repeat apply Forall_cons_2; try done; apply reverse_bits_range; eauto with word.
  - destruct r as [[[[? ?] ?] ?] ? ?]. apply put_u32_bytes.
  - apply Hwf.
  - apply Hwf.
Qed.
#[export] Hint Resolve put_u32_bytes : word.

Lemma register_roundtrip r :
  Register.wf r ->
  length (Register.encode r) = 4%nat /\ bytes (Register.encode r) /\
  Register.decode (Register.address r) (Register.encode r) = Ok r.
Proof.
  intros Hwf. split; [by apply encode_length_wf|]. split; [by apply encode_bytes_wf|].
  destruct r; simpl in *; unfold res_bind; rewrite ?chip_id_decode_encode, ?pll_divider_decode_encode,
    ?ticket_mask_decode_encode, ?misc_control_decode_encode, ?uart_baud_decode_encode,
    ?uart_relay_decode_encode, ?core_command_decode_encode, ?analog_mux_decode_encode,
    ?io_driver_decode_encode, ?midstate_decode_encode by done; try done.
  - destruct r as [x]. unfold HashCountingNumber.decode, HashCountingNumber.encode. simpl in *.
    by rewrite from_be_put_u32.
  - destruct r; done.
  - destruct r as [x]. unfold SoftResetControl.decode, SoftResetControl.encode. simpl in *.
    by rewrite from_be_put_u32.
  - destruct r; done.
Qed.

Lemma addr_to_u8_range a : uint 8 (addr_to_u8 a).
Proof. destruct a; by vm_compute. Qed.

Lemma addr_to_from_u8 a : addr_from_u8 (addr_to_u8 a) = Some a.
Proof. by destruct a. Qed.

Lemma addr_to_u8_inj a1 a2 : addr_to_u8 a1 = addr_to_u8 a2 -> a1 = a2.
Proof.
  intros H. pose proof (addr_to_from_u8 a1) as H1. rewrite H, addr_to_from_u8 in H1. congruence.
Qed.

Lemma from_le_u32 x : uint 32 x -> from_le (le_bytes 4 x) = x.
Proof. intros. rewrite from_le_le_bytes. by apply wrap_id. Qed.

(** ** What the register layer promises *)

(** C8 Every register value the program can hold survives the wire: encoding
    it gives four bytes, and decoding those bytes at its own address gives the
    value back, for each of the fourteen registers. *)
Theorem register_decode_encode r :
  Register.wf r ->
  length (Register.encode r) = 4%nat /\ bytes (Register.encode r) /\
  Register.decode (Register.address r) (Register.encode r) = Ok r.
Proof. apply register_roundtrip. Qed.

Lemma register_decode_encode_witness :
  Register.decode AddrCoreMailbox
    (Register.encode (Register.CoreMailbox (CoreCommand.nonce_bin_overflow true))) =
  Ok (Register.CoreMailbox (CoreCommand.nonce_bin_overflow true)).
Proof.
  apply (register_decode_encode (Register.CoreMailbox (CoreCommand.nonce_bin_overflow true))).
  vm_compute. intuition discriminate.
Defined.

(** Reading loses nothing: whatever four bytes a chip answers, if they
    decode then encoding the decoded register gives the same bytes back,
    undecoded bits included.  The one exception is the low half of PLL_DIVIDER's
    flag byte, which the code drops; decoding fails only for an unknown chip id. *)
Theorem register_encode_decode address b :
  length b = 4%nat -> bytes b ->
  (address = AddrPllDivider -> Z.land (byte_at b 0) 0x0f = 0) ->
  match Register.decode address b with
  | Ok r => Register.address r = address /\ Register.encode r = b
  | Err e => address = AddrChipId /\ e = UnknownChipId [byte_at b 0; byte_at b 1]
  end.
Proof.
  intros Hl Hb Hpll. destruct address; simpl; try (split; [done|]);
    auto using ticket_mask_encode_decode, misc_control_encode_decode, uart_baud_encode_decode,
      uart_relay_encode_decode, core_command_encode_decode, analog_mux_encode_decode,
      io_driver_encode_decode, midstate_encode_decode, put_u32_from_be.
  - unfold res_bind. destruct (ChipId.decode b) as [r|e] eqn:Hd.
    + split; [done|]. by apply chip_id_encode_decode.
    + split; [done|]. revert Hd. unfold ChipId.decode, ChipModel.try_from, res_bind.
      repeat case_match; intros; simplify_eq; done.
  - destruct (four_bytes b Hl Hb) as (b0 & b1 & b2 & b3 & -> & H0 & _).
    by apply pll_divider_encode_decode, Hpll.
  - by apply put_u32_from_be.
  - by apply put_u32_from_be.
Qed.

Lemma register_encode_decode_witness :
  match Register.decode AddrMiscControl [0xF0; 0x12; 0xC1; 0x00] with
  | Ok r => Register.address r = AddrMiscControl /\ Register.encode r = [0xF0; 0x12; 0xC1; 0x00]
  | Err e => AddrMiscControl = AddrChipId /\ e = UnknownChipId [0xF0; 0x12]
  end.
Proof.
  apply (register_encode_decode AddrMiscControl [0xF0; 0x12; 0xC1; 0x00]);
    [reflexivity|repeat constructor; vm_compute; discriminate|discriminate].
Defined.
