(* ===== verification/Chain.v ===== *)
(** * The chip chain (asic/bm13xx/topology.rs, asic/bm13xx/chain.rs)

    Chips and domains are named by their index.  A panic of the source (an
    index out of range, an empty domain) is [None]. *)
From stdpp Require Import base numbers list gmap sets.
From Stdlib Require Import ZArith Lia.
From S2P Require Import Prelude.

(** ** TopologySpec *)
Module Topology.
Record t := Mk { chip_domains : list nat; needs_domain_config : bool }.

Definition uniform_domains (domain_count chips_per_domain : nat) (cfg : bool) : t :=
  Mk (map (fun i => (i / chips_per_domain)%nat) (seq 0 (domain_count * chips_per_domain))) cfg.
Definition individual_domains (chip_count : nat) (cfg : bool) : t := Mk (seq 0 chip_count) cfg.
Definition single_domain (chip_count : nat) : t := Mk (repeat 0%nat chip_count) false.

(** The error carries the set of the ids found. *)
Definition custom (domains : list nat) (cfg : bool) : result (gset nat) t :=
  match domains with
  | [] => Ok (Mk [] cfg)
  | _ =>
      let max_domain := foldr Nat.max 0%nat domains in
      let unique_domains : gset nat := list_to_set domains in
      let expected : gset nat := list_to_set (seq 0 (S max_domain)) in
      if decide (unique_domains = expected) then Ok (Mk domains cfg) else Err unique_domains
  end.

Definition expected_chip_count (s : t) : nat := length (chip_domains s).
Definition domain_count (s : t) : nat :=
  match chip_domains s with [] => 0 | ds => S (foldr Nat.max 0%nat ds) end.
Definition domain_for (s : t) (id : nat) : option nat := chip_domains s !! id.
End Topology.

(** ** Chain *)
Module Chain.
(** Runtime statistics start at their defaults and are not touched here. *)
Record chip := MkChip { address : Z; domain : nat }.
Record dom := MkDom { id : nat; members : list nat }.
Record t := Mk { chips : list chip; domains : list dom }.

Definition push_chip (d : dom) (i : nat) : dom := MkDom (id d) (members d ++ [i]).

(** [domains[chip.domain].chips.push(i)] for each chip in order, from index [i]. *)
Fixpoint fill (i : nat) (cs : list chip) (ds : list dom) : option (list dom) :=
  match cs with
  | [] => Some ds
  | c :: cs =>
      d ← ds !! domain c;
      fill (S i) cs (<[domain c := push_chip d i]> ds)
  end.

Definition from_topology (spec : Topology.t) : option t :=
  let chip_count := Topology.expected_chip_count spec in
  cs ← mapM (fun i => MkChip 0 <$> Topology.domain_for spec i) (seq 0 chip_count);
  let ds := map (fun i => MkDom i []) (seq 0 (Topology.domain_count spec)) in
  ds ← fill 0 cs ds;
  Some (Mk cs ds).

Record AddressOverflowError := MkOverflow { chip_count : nat; interval : Z }.

Definition assign_addresses_with_interval (c : t) (interval : Z) : result AddressOverflowError t :=
  match chips c with
  | [] => Ok c
  | _ =>
      let last_address := (Z.of_nat (length (chips c)) - 1) * interval in
      if 0xFF <? last_address then Err (MkOverflow (length (chips c)) interval)
      else Ok (Mk (imap (fun i ch => MkChip (wrap 8 (Z.of_nat i * interval)) (domain ch)) (chips c)) (domains c))
  end.

Definition assign_addresses (c : t) : result AddressOverflowError t := assign_addresses_with_interval c 2.

Definition get_chip (c : t) (i : nat) : option chip := chips c !! i.
Definition get_domain (c : t) (i : nat) : option dom := domains c !! i.
Definition domain_first (c : t) (i : nat) : option nat := d ← get_domain c i; head (members d).
Definition domain_last (c : t) (i : nat) : option nat := d ← get_domain c i; last (members d).
Definition domains_far_to_near (c : t) : list dom := rev (domains c).
End Chain.

(** ** Building the chain *)

(** The positions of the chips of domain [d], in chain order, from index [i]. *)
Fixpoint positions (d i : nat) (ds : list nat) : list nat :=
  match ds with
  | [] => []
  | x :: ds => (if decide (x = d) then [i] else []) ++ positions d (S i) ds
  end.

Lemma elem_of_positions d i ds k :
  k ∈ positions d i ds <-> exists j, ds !! j = Some d /\ k = (i + j)%nat.
Proof.
  revert i; induction ds as [|x ds IH]; intros i; simpl.
  - split; [intros []%elem_of_nil|intros (j & Hj & _); by rewrite lookup_nil in Hj].
  - rewrite elem_of_app, IH. split.
    + intros [H|(j & Hj & ->)].
      * destruct (decide (x = d)) as [->|]; [|by apply elem_of_nil in H].
        apply list_elem_of_singleton in H as ->. exists 0%nat. split; [done|lia].
      * exists (S j). split; [done|lia].
    + intros ([|j] & Hj & ->).
      * left. simpl in Hj. injection Hj as ->. rewrite decide_True by done.
        apply list_elem_of_singleton. lia.
      * right. exists j. split; [done|lia].
Qed.

Lemma max_domain_bound ds d : d ∈ ds -> (d <= foldr Nat.max 0 ds)%nat.
Proof. induction 1; simpl; lia. Qed.

Lemma chips_from_topology spec :
  mapM (fun i => Chain.MkChip 0 <$> Topology.domain_for spec i)
    (seq 0 (Topology.expected_chip_count spec)) = Some (map (Chain.MkChip 0) (Topology.chip_domains spec)).
Proof.
  apply mapM_Some. unfold Topology.expected_chip_count, Topology.domain_for.
  apply Forall2_same_length_lookup_2; [by rewrite length_seq, length_map|].
  intros i x y Hx Hy. apply lookup_seq in Hx as [-> Hi].
  change (map (Chain.MkChip 0) (Topology.chip_domains spec))
    with (Chain.MkChip 0 <$> Topology.chip_domains spec) in Hy.
  by rewrite list_lookup_fmap in Hy.
Qed.

Lemma fill_spec i ds doms :
  Forall (fun d => d < length doms)%nat ds ->
  exists doms', Chain.fill i (map (Chain.MkChip 0) ds) doms = Some doms' /\
    length doms' = length doms /\
    forall k d, doms !! k = Some d ->
      doms' !! k = Some (Chain.MkDom (Chain.id d) (Chain.members d ++ positions k i ds)).
Proof.
  revert i doms; induction ds as [|x ds IH]; intros i doms Hall.
  - exists doms. split; [done|]. split; [done|]. intros k [n m] ->. simpl. by rewrite app_nil_r.
  - apply Forall_cons in Hall as [Hx Hall]. simpl.
    destruct (lookup_lt_is_Some_2 doms x Hx) as [dx Hdx]. rewrite Hdx. simpl.
    destruct (IH (S i) (<[x:=Chain.push_chip dx i]> doms)) as (doms' & Hf & Hl & Hk).
    { by rewrite length_insert. }
    exists doms'. split; [done|]. split; [by rewrite Hl, length_insert|].
    intros k d Hd. destruct (decide (x = k)) as [->|Hne].
    + assert (d = dx) as -> by congruence.
      specialize (Hk k (Chain.push_chip dx i)). rewrite list_lookup_insert_eq in Hk by done.
      rewrite Hk by done. unfold Chain.push_chip. simpl. by rewrite <- app_assoc.
    + specialize (Hk k d). rewrite list_lookup_insert_ne in Hk by done. by apply Hk.
Qed.

Lemma topology_domains_bounded spec :
  Forall (fun d => d < Topology.domain_count spec)%nat (Topology.chip_domains spec).
Proof.
  unfold Topology.domain_count. apply Forall_forall. intros d Hd.
  pose proof (max_domain_bound _ _ Hd). destruct (Topology.chip_domains spec); [by apply elem_of_nil in Hd|].
  lia.
Qed.


Lemma from_topology_spec spec :
  exists c, Chain.from_topology spec = Some c /\
    map Chain.domain (Chain.chips c) = Topology.chip_domains spec /\
    Forall (fun ch => Chain.address ch = 0) (Chain.chips c) /\
    length (Chain.domains c) = Topology.domain_count spec /\
    (forall k, (k < Topology.domain_count spec)%nat -> exists d, Chain.get_domain c k = Some d /\ Chain.id d = k /\
       Chain.members d = positions k 0 (Topology.chip_domains spec) /\
       forall i, i ∈ Chain.members d <-> Topology.domain_for spec i = Some k).
Proof.
  unfold Chain.from_topology. rewrite chips_from_topology. simpl.
  destruct (fill_spec 0 (Topology.chip_domains spec)
              (map (fun i => Chain.MkDom i []) (seq 0 (Topology.domain_count spec)))) as (ds & Hf & Hl & Hk).
  { rewrite length_map, length_seq. apply topology_domains_bounded. }
  rewrite Hf. simpl. eexists. split; [done|]. simpl.
  rewrite length_map, length_seq in Hl. split_and!; [|..|done|].
  - rewrite map_map. simpl. apply map_id.
  - apply Forall_map, Forall_true. done.
  - intros k Hlt.
    specialize (Hk k (Chain.MkDom k [])).
    change (map (fun i => Chain.MkDom i []) (seq 0 (Topology.domain_count spec)))
      with ((fun i => Chain.MkDom i []) <$> seq 0 (Topology.domain_count spec)) in Hk.
    rewrite list_lookup_fmap, lookup_seq_lt in Hk by done.
    eexists. split; [by apply Hk|]. split; [done|]. split; [done|].
    intros i. simpl. rewrite elem_of_positions. unfold Topology.domain_for. split.
    + intros (j & Hj & ->). done.
    + intros Hi. by exists i.
Qed.

Lemma from_topology_members spec c k :
  Chain.from_topology spec = Some c -> (k < Topology.domain_count spec)%nat ->
  exists d, Chain.get_domain c k = Some d /\
    forall i, i ∈ Chain.members d <-> Topology.domain_for spec i = Some k.
Proof.
  intros Hc Hk. destruct (from_topology_spec spec) as (c' & Hc' & _ & _ & _ & Hd).
  assert (c' = c) as -> by congruence. destruct (Hd k Hk) as (d & ? & _ & _ & ?). by exists d.
Qed.

(** ** What the chain promises *)

(** Building a chain never panics, for any topology: chip [i] of the chain is
    chip [i] of the specification and unaddressed, there is a domain for every id
    up to the largest one used, and domain [d] lists exactly the positions of the
    chips the specification puts in [d], in chain order. *)
Theorem chain_from_topology spec :
  exists c, Chain.from_topology spec = Some c /\
    map Chain.domain (Chain.chips c) = Topology.chip_domains spec /\
    Forall (fun ch => Chain.address ch = 0) (Chain.chips c) /\
    length (Chain.domains c) = Topology.domain_count spec /\
    (forall k, (k < Topology.domain_count spec)%nat -> exists d, Chain.get_domain c k = Some d /\ Chain.id d = k /\
       Chain.members d = positions k 0 (Topology.chip_domains spec) /\
       forall i, i ∈ Chain.members d <-> Topology.domain_for spec i = Some k).
Proof. apply from_topology_spec. Qed.

(** Address assignment: it fails exactly when the last chip's address would not
    fit a byte, and otherwise gives chip [i] the address [i * interval], so the
    addresses of different chips differ; with the standard interval of 2 the limit
    is 128 chips and every address is even, which is what the address field of a
    BM1362 nonce needs. *)
Theorem chain_addresses c n :
  uint 8 n -> 0 < n ->
  match Chain.assign_addresses_with_interval c n with
  | Ok c' =>
      (length (Chain.chips c) = 0%nat \/ (Z.of_nat (length (Chain.chips c)) - 1) * n <= 0xFF) /\
      Chain.domains c' = Chain.domains c /\
      (forall i ch, Chain.chips c !! i = Some ch ->
         Chain.chips c' !! i = Some (Chain.MkChip (Z.of_nat i * n) (Chain.domain ch)) /\ uint 8 (Z.of_nat i * n)) /\
      NoDup (map Chain.address (Chain.chips c')) /\
      (n = 2 -> (length (Chain.chips c) <= 128)%nat /\ Forall (fun ch => Z.even (Chain.address ch) = true) (Chain.chips c'))
  | Err e => 0xFF < (Z.of_nat (length (Chain.chips c)) - 1) * n /\
      e = Chain.MkOverflow (length (Chain.chips c)) n /\ (n = 2 -> (128 < length (Chain.chips c))%nat)
  end.
Proof.
  intros Hn Hpos. unfold Chain.assign_addresses_with_interval.
  destruct (Chain.chips c) as [|ch0 cs] eqn:Hcs.
  { rewrite Hcs. split; [by left|]. split; [done|]. split; [by intros i ch; rewrite lookup_nil|].
    split; [constructor|]. intros _. split; [simpl; lia|constructor]. }
  rewrite <- Hcs. clear ch0 cs Hcs.
  destruct (Z.ltb_spec 0xFF ((Z.of_nat (length (Chain.chips c)) - 1) * n)) as [Hover|Hfit].
  { split; [done|]. split; [done|]. intros ->. lia. }
  assert (Haddr : forall i ch, Chain.chips c !! i = Some ch -> uint 8 (Z.of_nat i * n)).
  { intros i ch Hi. apply lookup_lt_Some in Hi. unfold uint. change (2 ^ 8) with 256. nia. }
  split; [by right|]. split; [done|]. simpl.
  assert (Hlk : forall i ch, Chain.chips c !! i = Some ch ->
     imap (fun i ch => Chain.MkChip (wrap 8 (Z.of_nat i * n)) (Chain.domain ch)) (Chain.chips c) !! i =
     Some (Chain.MkChip (Z.of_nat i * n) (Chain.domain ch))).
  { intros i ch Hi. rewrite list_lookup_imap, Hi. simpl. by rewrite wrap_id by eauto. }
  assert (Hinv : forall i ch, imap (fun i ch => Chain.MkChip (wrap 8 (Z.of_nat i * n)) (Chain.domain ch)) (Chain.chips c) !! i
     = Some ch -> Chain.address ch = Z.of_nat i * n).
  { intros i ch Hi. rewrite list_lookup_imap in Hi.
    destruct (Chain.chips c !! i) as [x|] eqn:Hx; [|done]. simpl in Hi. injection Hi as <-.
    simpl. by rewrite wrap_id by eauto. }
  split; [|split].
  - intros i ch Hi. split; [by apply Hlk|by eapply Haddr].
  - apply NoDup_alt. intros i j x Hi Hj.
    apply list_lookup_fmap_Some in Hi as (chi & -> & Hi). apply list_lookup_fmap_Some in Hj as (chj & He & Hj).
    rewrite (Hinv i chi Hi), (Hinv j chj Hj) in He. nia.
  - intros ->. split; [lia|]. apply Forall_lookup. intros i ch Hi. rewrite (Hinv i ch Hi).
    by rewrite Z.even_mul, orb_true_r.
Qed.

Lemma chain_addresses_witness :
  let c := Chain.Mk (repeat (Chain.MkChip 0 0) 128) [] in
  match Chain.assign_addresses_with_interval c 2 with
  | Ok c' =>
      (length (Chain.chips c) = 0%nat \/ (Z.of_nat (length (Chain.chips c)) - 1) * 2 <= 0xFF) /\
      Chain.domains c' = Chain.domains c /\
      (forall i ch, Chain.chips c !! i = Some ch ->
         Chain.chips c' !! i = Some (Chain.MkChip (Z.of_nat i * 2) (Chain.domain ch)) /\ uint 8 (Z.of_nat i * 2)) /\
      NoDup (map Chain.address (Chain.chips c')) /\
      (2 = 2 -> (length (Chain.chips c) <= 128)%nat /\ Forall (fun ch => Z.even (Chain.address ch) = true) (Chain.chips c'))
  | Err e => 0xFF < (Z.of_nat (length (Chain.chips c)) - 1) * 2 /\
      e = Chain.MkOverflow (length (Chain.chips c)) 2 /\ (2 = 2 -> (128 < length (Chain.chips c))%nat)
  end.
Proof.
  exact (chain_addresses (Chain.Mk (repeat (Chain.MkChip 0 0) 128) []) 2
           (conj (Z.le_0_2) eq_refl) Z.lt_0_2).
Defined.

Lemma head_is_Some {A} (l : list A) x : x ∈ l -> is_Some (head l) /\ is_Some (last l).
Proof.
  intros Hx. destruct l as [|y l]; [by apply elem_of_nil in Hx|]. split; [done|].
  destruct (last (y :: l)) eqn:H; [done|]. by apply last_None in H.
Qed.

(** A checked topology has no empty domain: [custom] accepts exactly the lists
    whose domain ids are 0 to some maximum without a gap, and on the chain of such
    a topology looking up the first and last chip of any domain never panics and
    gives a chip of that domain. *)
Theorem custom_topology_no_gaps domains cfg :
  match Topology.custom domains cfg with
  | Ok spec =>
      Topology.chip_domains spec = domains /\
      (forall k, (k < Topology.domain_count spec)%nat -> k ∈ domains) /\
      (forall c k, Chain.from_topology spec = Some c -> (k < Topology.domain_count spec)%nat ->
         exists i j, Chain.domain_first c k = Some i /\ Chain.domain_last c k = Some j /\
           Topology.domain_for spec i = Some k /\ Topology.domain_for spec j = Some k)
  | Err found => exists k, (k <= foldr Nat.max 0 domains)%nat /\ ~ (k ∈ domains) /\ found = list_to_set domains
  end.
Proof.
  destruct (Topology.custom domains cfg) as [spec|found] eqn:Hc.
  - assert (Hspec : spec = Topology.Mk domains cfg /\
              (domains = [] \/ ((list_to_set domains : gset nat) = list_to_set (seq 0 (S (foldr Nat.max 0%nat domains)))))).
    { destruct domains as [|d ds]; [by injection Hc as <-; split; [|left]|].
      unfold Topology.custom in Hc. case_decide; [|done]. injection Hc as <-. split; [done|by right]. }
    destruct Hspec as [-> Hset].
    assert (Hin : forall k, (k < Topology.domain_count (Topology.Mk domains cfg))%nat -> k ∈ domains).
    { intros k Hk. unfold Topology.domain_count in Hk. simpl in Hk.
      destruct Hset as [->|Hset]; [lia|]. destruct domains as [|d ds]; [lia|].
      assert (Hks : k ∈ (list_to_set (seq 0 (S (foldr Nat.max 0%nat (d :: ds)))) : gset nat))
        by (apply elem_of_list_to_set, elem_of_seq; simpl in *; lia).
      rewrite <- Hset in Hks. by apply elem_of_list_to_set in Hks. }
    split; [done|]. split; [done|]. intros c k Hfrom Hk.
    pose proof (from_topology_members _ _ _ Hfrom Hk) as (d & Hd & Hmem).
    specialize (Hin k Hk). apply list_elem_of_lookup in Hin as [i Hi].
    pose proof (proj2 (Hmem i) Hi) as Hi'.
    destruct (head_is_Some _ _ Hi') as [[x Hx] [y Hy]].
    exists x, y. unfold Chain.domain_first, Chain.domain_last. rewrite Hd. simpl.
    split; [done|]. split; [done|]. split; apply Hmem.
    + destruct (Chain.members d); [done|]. injection Hx as ->. left.
    + by apply last_Some_elem_of.
  - destruct domains as [|d ds]; [done|]. unfold Topology.custom in Hc.
    case_decide as Hne; [done|]. injection Hc as <-.
    destruct (decide (Forall (fun k => k ∈ d :: ds) (seq 0 (S (foldr Nat.max 0%nat (d :: ds)))))) as [Hall|Hnot].
    + destruct Hne. apply set_eq. intros k. rewrite !elem_of_list_to_set, elem_of_seq. split.
      * intros Hk%max_domain_bound. lia.
      * intros Hk. rewrite Forall_forall in Hall. apply Hall, elem_of_seq. lia.
    + apply not_Forall_Exists in Hnot; [|apply _]. apply Exists_exists in Hnot as (k & Hk & Hnk).
      apply elem_of_seq in Hk. exists k. split; [lia|]. split; [done|]. done.
Qed.
