(* ===== verification/ChipConfig.v ===== *)
(** * Chip configuration and the PLL search (asic/bm13xx/chip_config.rs, types/frequency.rs, the ramp of thread.rs)

    The search runs in f32 arithmetic, as the program's does. *)
From stdpp Require Import base numbers list sets.
From Stdlib Require Import ZArith Lia SpecFloat.
From S2P Require Import Prelude Float U256 Estimator Register.

(** ** Frequency: Hz, a u64 *)
Module Frequency.
Definition t : Type := Z.
Definition from_hz (hz : Z) : t := hz.
Definition from_khz (khz : Z) : t := khz * 1000.
Definition from_mhz (mhz : float) : t := f_to_uint 64 (f_mul f32 mhz (f_of_Z f32 1000000)).
Definition hz (f : t) : Z := f.
Definition khz (f : t) : Z := wrap 32 (f / 1000).
Definition mhz (f : t) : float := f_div f32 (f_of_Z f32 f) (f_of_Z f32 1000000).
End Frequency.

Module ChipConfig.
Record PllParams := MkPllParams {
  fb_div_min : Z; fb_div_max : Z; vco_min_mhz : float; vco_max_mhz : float }.

Record t := Mk {
  model : ChipModel.t;
  freq_range : Frequency.t * Frequency.t;
  default_freq : Frequency.t;
  ramp_step : Frequency.t;
  hash_counting_number : HashCountingNumber.t;
  nameplate : HashRate.t;
  soft_reset_defaults : SoftResetControl.t;
  core_reset : SoftResetControl.t;
  misc_control : MiscControl.t;
  analog_mux : AnalogMux.t;
  clock_select : CoreCommand.t;
  pll_params : PllParams }.

#[global] Instance ChipModel_eq_dec : EqDecision ChipModel.t.
Proof. solve_decision. Defined.
Definition verify_model (c : t) (m : ChipModel.t) : bool := bool_decide (model c = m).

(** ** The PLL search *)

(** The divider triples in the order of the three loops. *)
Definition down_to (n lo : Z) : list Z := rev (seqZ lo (n - lo + 1)).
Definition candidates : list (Z * Z * Z) :=
  flat_map (fun ref_div => flat_map (fun p1 => map (fun p2 => (ref_div, p1, p2)) (down_to p1 1)) (down_to 7 1)) [2; 1].

Definition f32_MAX : float := f_of_Z f32 ((2 ^ 24 - 1) * 2 ^ 104).
Definition CRYSTAL : float := PllDivider.CRYSTAL_MHZ.

Definition fb_div_of (target_mhz : float) (c : Z * Z * Z) : Z :=
  let '(ref_div, p1, p2) := c in
  f_round_to_uint 8
    (f_div f32 (f_mul f32 (f_mul f32 (f_of_Z f32 (p1 * p2)) target_mhz) (f_of_Z f32 ref_div)) CRYSTAL).
Definition actual_mhz_of (fb : Z) (c : Z * Z * Z) : float :=
  let '(ref_div, p1, p2) := c in
  f_div f32 (f_mul f32 CRYSTAL (f_of_Z f32 fb))
    (f_mul f32 (f_mul f32 (f_of_Z f32 ref_div) (f_of_Z f32 p1)) (f_of_Z f32 p2)).
Definition error_of (target_mhz : float) (c : Z * Z * Z) : float :=
  f_abs (f_sub f32 target_mhz (actual_mhz_of (fb_div_of target_mhz c) c)).
Definition vco_of (target_mhz : float) (c : Z * Z * Z) : float :=
  f_div f32 (f_mul f32 CRYSTAL (f_of_Z f32 (fb_div_of target_mhz c))) (f_of_Z f32 c.1.1).
Definition divider_of (target_mhz : float) (c : Z * Z * Z) : PllDivider.t :=
  let '(ref_div, p1, p2) := c in
  PllDivider.new (fb_div_of target_mhz c) ref_div (Z.lor (wrap 8 (Z.shiftl (p1 - 1) 4)) (p2 - 1)).

(** [error < min_error || (error == min_error && vco < best_vco)]. *)
Definition improves (e v e0 v0 : float) : bool := f_lt e e0 || (f_eq e e0 && f_lt v v0).

Record search := MkSearch { best_config : option PllDivider.t; min_error : float; best_vco : float }.

(** The body of the innermost loop. *)
Definition consider (p : PllParams) (target_mhz : float) (s : search) (c : Z * Z * Z) : search :=
  let fb_div := fb_div_of target_mhz c in
  if (fb_div <? fb_div_min p) || (fb_div_max p <? fb_div) then s
  else
    let error := error_of target_mhz c in
    let vco := vco_of target_mhz c in
    if f_lt vco (vco_min_mhz p) || f_lt (vco_max_mhz p) vco then s
    else if f_lt error (f_of_Z f32 1) && improves error vco (min_error s) (best_vco s)
         then MkSearch (Some (divider_of target_mhz c)) error vco
         else s.

Definition calculate_pll (cfg : t) (freq : Frequency.t) : option PllDivider.t :=
  if negb ((freq_range cfg).1 <=? freq) || negb (freq <=? (freq_range cfg).2) then None
  else best_config (fold_left (consider (pll_params cfg) (Frequency.mhz freq)) candidates
                      (MkSearch None f32_MAX f32_MAX)).

(** ** The two models *)
Definition bm1362 : t :=
  Mk ChipModel.BM1362
    (Frequency.from_mhz (f_lit f32 5625 100), Frequency.from_mhz (f_of_Z f32 525))
    (Frequency.from_mhz (f_of_Z f32 525)) (Frequency.from_mhz (f_lit f32 625 100))
    (HashCountingNumber.from_u32 0x1381) (HashRate.from_gigahashes (f_of_Z f64 275))
    (SoftResetControl.defaults ChipModel.BM1362) (SoftResetControl.core_reset ChipModel.BM1362)
    (MiscControl.reporting_enabled ChipModel.BM1362) (AnalogMux.bring_up ChipModel.BM1362)
    (CoreCommand.write_all CoreRegister.ClockSelectBM1362 0x40)
    (MkPllParams 0x10 0xfa (f_of_Z f32 2000) (f_of_Z f32 3200)).

Definition bm1370 : t :=
  Mk ChipModel.BM1370
    (Frequency.from_mhz (f_lit f32 5625 100), Frequency.from_mhz (f_of_Z f32 600))
    (Frequency.from_mhz (f_of_Z f32 525)) (Frequency.from_mhz (f_lit f32 625 100))
    (HashCountingNumber.from_u32 0x1EB5) (HashRate.from_terahashes (f_lit f64 12 10))
    (SoftResetControl.defaults ChipModel.BM1370) (SoftResetControl.core_reset ChipModel.BM1370)
    (MiscControl.reporting_enabled ChipModel.BM1370) (AnalogMux.bring_up ChipModel.BM1370)
    (CoreCommand.write_all CoreRegister.ClockSelectBM1368 0x00)
    (MkPllParams 0xa0 0xef (f_of_Z f32 1600) (f_of_Z f32 3200)).

(** ** The frequency ramp (thread.rs) *)

(** The frequencies the loop visits, while [fuel] lasts. *)
Fixpoint ramp_frequencies (fuel : nat) (current target step : Frequency.t) : list Frequency.t :=
  match fuel with
  | O => []
  | S fuel =>
      if current <=? target then
        let next := Frequency.from_hz (wrap 64 (current + step)) in
        current :: ramp_frequencies fuel
                     (if (target <? next) && (current <? target) then target else next) target step
      else []
  end.

(** Enough turns for a ramp of positive steps. *)
Definition ramp_fuel (start target step : Frequency.t) : nat := Z.to_nat ((target - start) / step + 3).

Definition generate_frequency_ramp_steps (cfg : t) (start target step : Frequency.t) : list PllDivider.t :=
  omap (calculate_pll cfg) (ramp_frequencies (ramp_fuel start target step) start target step).
End ChipConfig.

Import ChipConfig.

(** ** The search finds the best divider *)
Section Search.
Context (p : PllParams) (target_mhz : float).

(** What the loop accepts. *)
Definition acceptable (c : Z * Z * Z) : bool :=
  (fb_div_min p <=? fb_div_of target_mhz c) && (fb_div_of target_mhz c <=? fb_div_max p) &&
  negb (f_lt (vco_of target_mhz c) (vco_min_mhz p)) && negb (f_lt (vco_max_mhz p) (vco_of target_mhz c)) &&
  f_lt (error_of target_mhz c) (f_of_Z f32 1).

(** Smaller error, or the same error and a lower VCO. *)
Definition better (c c' : Z * Z * Z) : bool :=
  improves (error_of target_mhz c) (vco_of target_mhz c) (error_of target_mhz c') (vco_of target_mhz c').

Lemma consider_spec s c :
  consider p target_mhz s c =
  if acceptable c && improves (error_of target_mhz c) (vco_of target_mhz c) (min_error s) (best_vco s)
  then MkSearch (Some (divider_of target_mhz c)) (error_of target_mhz c) (vco_of target_mhz c) else s.
Proof.
  unfold consider, acceptable. rewrite !Z.leb_antisym.
  destruct (fb_div_of target_mhz c <? fb_div_min p); [done|].
  destruct (fb_div_max p <? fb_div_of target_mhz c); [done|]. simpl.
  destruct (f_lt (vco_of target_mhz c) (vco_min_mhz p)); [done|].
  destruct (f_lt (vco_max_mhz p) (vco_of target_mhz c)); [done|]. simpl.
  by destruct (f_lt _ _).
Qed.

Lemma improves_trans e1 v1 e2 v2 e3 v3 :
  improves e1 v1 e2 v2 = true -> improves e2 v2 e3 v3 = true -> improves e1 v1 e3 v3 = true.
Proof.
  unfold improves. rewrite !orb_true_iff, !andb_true_iff.
  intros [H1|[H1 H1']] [H2|[H2 H2']].
  - left. by eapply f_lt_trans.
  - left. by eapply f_lt_eq_r.
  - left. by eapply f_lt_eq_l.
  - right. split; [by eapply f_eq_trans|by eapply f_lt_trans].
Qed.

Lemma improves_irrefl e v : improves e v e v = false.
Proof. unfold improves. by rewrite !f_lt_irrefl, andb_false_r. Qed.

(** The state of the loop after the candidates [l]. *)
Definition searched (l : list (Z * Z * Z)) (s : search) : Prop :=
  (best_config s = None /\ min_error s = f32_MAX /\ Forall (fun c => acceptable c = false) l) \/
  exists c, c ∈ l /\ acceptable c = true /\
    s = MkSearch (Some (divider_of target_mhz c)) (error_of target_mhz c) (vco_of target_mhz c) /\
    Forall (fun c' => acceptable c' = true -> better c' c = false) l.

Lemma acceptable_beats_start c v : acceptable c = true -> improves (error_of target_mhz c) v f32_MAX f32_MAX = true.
Proof.
  unfold acceptable. rewrite !andb_true_iff. intros [_ He]. unfold improves.
  rewrite (f_lt_trans _ _ _ He); [done|]. vm_compute. reflexivity.
Qed.

Lemma in_snoc (l : list (Z * Z * Z)) c : c ∈ l ++ [c].
Proof. apply elem_of_app. right. by apply list_elem_of_singleton. Qed.

Lemma searched_found l s c :
  acceptable c = true -> improves (error_of target_mhz c) (vco_of target_mhz c) (min_error s) (best_vco s) = true ->
  searched l s ->
  searched (l ++ [c]) (MkSearch (Some (divider_of target_mhz c)) (error_of target_mhz c) (vco_of target_mhz c)).
Proof.
  intros Hacc Himp Hs. right. exists c.
  split; [apply in_snoc|]. split; [exact Hacc|]. split; [reflexivity|].
  apply Forall_app. split; [|constructor; [intros _; apply improves_irrefl|constructor]].
  destruct Hs as [(_ & _ & Hl)|(c0 & _ & _ & -> & Hl)]; (eapply Forall_impl; [exact Hl|]); intros c' Hc' Ha'.
  - congruence.
  - specialize (Hc' Ha'). apply not_true_iff_false. intros Hb. enough (better c' c0 = true) by congruence.
    eapply improves_trans; [exact Hb|exact Himp].
Qed.

Lemma searched_step l s c : best_vco s = f32_MAX \/ best_config s <> None ->
  searched l s -> searched (l ++ [c]) (consider p target_mhz s c).
Proof.
  intros Hv Hs. rewrite consider_spec. destruct (acceptable c) eqn:Hacc; simpl.
  - destruct (improves _ _ (min_error s) (best_vco s)) eqn:Himp; [exact (searched_found l s c Hacc Himp Hs)|].
    destruct Hs as [(Hn & He & Hl)|(c0 & Hin & Hacc0 & -> & Hl)].
    + rewrite He in Himp. destruct Hv as [Hv|]; [|contradiction]. rewrite Hv in Himp.
      rewrite acceptable_beats_start in Himp by exact Hacc. discriminate.
    + right. exists c0. split; [apply elem_of_app; left; exact Hin|]. split; [exact Hacc0|]. split; [reflexivity|].
      apply Forall_app. split; [exact Hl|]. constructor; [intros _; exact Himp|constructor].
  - destruct Hs as [(Hn & He & Hl)|(c0 & Hin & Hacc0 & -> & Hl)].
    + left. split; [exact Hn|]. split; [exact He|]. apply Forall_app. split; [exact Hl|].
      constructor; [exact Hacc|constructor].
    + right. exists c0. split; [apply elem_of_app; left; exact Hin|]. split; [exact Hacc0|]. split; [reflexivity|].
      apply Forall_app. split; [exact Hl|]. constructor; [intros Hx; congruence|constructor].
Qed.

Lemma search_spec l :
  searched l (fold_left (consider p target_mhz) l (MkSearch None f32_MAX f32_MAX)).
Proof.
  set (s0 := MkSearch None f32_MAX f32_MAX).
  enough (H : searched l (fold_left (consider p target_mhz) l s0) /\
              (best_vco (fold_left (consider p target_mhz) l s0) = f32_MAX \/
               best_config (fold_left (consider p target_mhz) l s0) <> None)) by apply H.
  induction l as [|c l [IH Hv]] using rev_ind.
  - split; [left; split_and!; [done|done|constructor]|by left].
  - rewrite fold_left_app. simpl. split; [by apply searched_step|].
    rewrite consider_spec. destruct (_ && _); [by right|done].
Qed.
End Search.

Lemma In_down_to n lo x : In x (down_to n lo) <-> lo <= x <= n.
Proof. unfold down_to. rewrite <- in_rev, <- list_elem_of_In, elem_of_seqZ. lia. Qed.

(** The loops run over all the dividers of the hardware's ranges. *)
Lemma elem_of_candidates r p1 p2 :
  (r, p1, p2) ∈ candidates <-> (r = 1 \/ r = 2) /\ 1 <= p2 <= p1 /\ p1 <= 7.
Proof.
  unfold candidates. rewrite list_elem_of_In, in_flat_map. setoid_rewrite in_flat_map. setoid_rewrite in_map_iff.
  setoid_rewrite In_down_to. simpl. split.
  - intros (r' & Hr & p1' & Hp1 & p2' & [= <- <- <-] & Hp2). lia.
  - intros (Hr & Hp2 & Hp1). exists r. split; [lia|]. exists p1. split; [lia|]. exists p2. split; [done|lia].
Qed.

(** ** The dividers of the hardware, and what they give *)
Module Pll.
Declare Scope float_scope.
Delimit Scope float_scope with float.
Section Pll.
(** The limits of the model and the frequency wanted, in MHz. *)
Context (p : PllParams) (f : float).
#[local] Infix "*" := (f_mul f32) : float_scope.
#[local] Infix "/" := (f_div f32) : float_scope.
#[local] Notation "# n" := (f_of_Z f32 n) (at level 5) : float_scope.

(** The feedback divider is the nearest to f * r * p1 * p2 / 25. *)
Definition fb (r p1 p2 : Z) : Z := f_round_to_uint 8 (#(p1 * p2) * f * #r / #25)%float.
(** The 25 MHz crystal's frequency times fb / r, and that over p1 * p2. *)
Definition vco (r p1 p2 : Z) : float := (#25 * #(fb r p1 p2) / #r)%float.
Definition output (r p1 p2 : Z) : float := (#25 * #(fb r p1 p2) / (#r * #p1 * #p2))%float.
Definition miss (r p1 p2 : Z) : float := f_abs (f_sub f32 f (output r p1 p2)).

Record allowed (r p1 p2 : Z) : Prop := {
  a_ref : r = 1 \/ r = 2;
  a_post : 1 <= p2 <= p1 /\ p1 <= 7;
  a_fb : fb_div_min p <= fb r p1 p2 <= fb_div_max p;
  a_vco : f_lt (vco r p1 p2) (vco_min_mhz p) = false /\ f_lt (vco_max_mhz p) (vco r p1 p2) = false;
  a_near : f_lt (miss r p1 p2) (f_of_Z f32 1) = true }.
End Pll.
End Pll.

Lemma allowed_acceptable p f r p1 p2 :
  Pll.allowed p f r p1 p2 <-> (r, p1, p2) ∈ candidates /\ acceptable p f (r, p1, p2) = true.
Proof.
  rewrite elem_of_candidates. unfold acceptable. rewrite !andb_true_iff, !negb_true_iff, !Z.leb_le.
  change (fb_div_of f (r, p1, p2)) with (Pll.fb f r p1 p2). change (vco_of f (r, p1, p2)) with (Pll.vco f r p1 p2).
  change (error_of f (r, p1, p2)) with (Pll.miss f r p1 p2).
  split; [intros [H1 H2 H3 [] H5]|intros [[]]; constructor]; naive_solver lia.
Qed.

Lemma divider_fields f r p1 p2 : 1 <= p2 <= p1 -> p1 <= 7 ->
  divider_of f (r, p1, p2) = PllDivider.new (Pll.fb f r p1 p2) r (16 * (p1 - 1) + (p2 - 1)).
Proof.
  intros H1 H2. unfold divider_of. change (fb_div_of f (r, p1, p2)) with (Pll.fb f r p1 p2). f_equal.
  assert (Hall : forallb (fun p1 => forallb (fun p2 =>
    Z.lor (wrap 8 (Z.shiftl (p1 - 1) 4)) (p2 - 1) =? 16 * (p1 - 1) + (p2 - 1)) (seqZ 1 7)) (seqZ 1 7) = true)
    by (vm_compute; reflexivity).
  rewrite forallb_forall in Hall. specialize (Hall p1). rewrite forallb_forall in Hall.
  setoid_rewrite <- list_elem_of_In in Hall. apply Z.eqb_eq, Hall; apply elem_of_seqZ; lia.
Qed.

(** C35 The PLL search returns the best divider there is.  For a frequency in the
    chip's range, take all reference dividers 1 and 2 and post dividers
    7 >= p1 >= p2 >= 1 whose nearest feedback divider and whose VCO frequency are
    within the model's limits and whose output misses the frequency by less than
    1 MHz.  If there are any, the search returns one of them, and no other misses
    the frequency by less, or by as much with a lower VCO frequency; it fails
    exactly when there are none or the frequency is out of range.  All quantities
    are the f32 values of their formulas. *)
Theorem pll_search_optimal cfg freq :
  let p := pll_params cfg in
  let f := Frequency.mhz freq in
  match calculate_pll cfg freq with
  | Some d =>
      (freq_range cfg).1 <= freq <= (freq_range cfg).2 /\
      exists r p1 p2, Pll.allowed p f r p1 p2 /\
        d = PllDivider.new (Pll.fb f r p1 p2) r (16 * (p1 - 1) + (p2 - 1)) /\
        forall r' p1' p2', Pll.allowed p f r' p1' p2' ->
          f_lt (Pll.miss f r' p1' p2') (Pll.miss f r p1 p2) = false /\
          (f_eq (Pll.miss f r' p1' p2') (Pll.miss f r p1 p2) = true ->
           f_lt (Pll.vco f r' p1' p2') (Pll.vco f r p1 p2) = false)
  | None =>
      ~ (freq_range cfg).1 <= freq <= (freq_range cfg).2 \/ forall r p1 p2, ~ Pll.allowed p f r p1 p2
  end.
Proof.
  cbv zeta. unfold calculate_pll.
  destruct (Z.leb_spec (freq_range cfg).1 freq); [|left; lia].
  destruct (Z.leb_spec freq (freq_range cfg).2); [cbn [negb orb]|left; lia].
  destruct (search_spec (pll_params cfg) (Frequency.mhz freq) candidates)
    as [(Hn & _ & Hl)|([[r p1] p2] & Hin & Hacc & -> & Hl)]; rewrite Forall_forall in Hl.
  - rewrite Hn. right. intros r p1 p2 [Hin Ha]%allowed_acceptable. specialize (Hl _ Hin). congruence.
  - cbn [best_config]. split; [lia|]. exists r, p1, p2.
    assert (Ha : Pll.allowed (pll_params cfg) (Frequency.mhz freq) r p1 p2) by (by apply allowed_acceptable).
    split; [exact Ha|]. split; [f_equal; by apply divider_fields; apply Ha|].
    intros r' p1' p2' [Hin' Ha']%allowed_acceptable. specialize (Hl _ Hin' Ha').
    unfold better, improves in Hl. apply orb_false_iff in Hl as [H1 H2]. split; [exact H1|].
    intros He. apply andb_false_iff in H2 as [H2|H2]; [|exact H2].
    discriminate (eq_trans (eq_sym He) H2).
Qed.

(** ** The ramp *)

(** The frequencies of a ramp: every [step] from [start], then the target. *)
Lemma ramp_spec fuel start target step :
  0 < step -> 0 <= start -> target + step < 2 ^ 64 ->
  (Z.to_nat ((target - start) / step + 3) <= fuel)%nat -> start <= target ->
  exists n, let l := map (fun i => start + Z.of_nat i * step) (seq 0 n) ++ [target] in
    ramp_frequencies fuel start target step = l /\
    start + Z.of_nat n * step - step < target <= start + Z.of_nat n * step.
Proof.
  intros Hstep. revert start. induction fuel as [|fuel IH]; intros start Hs Hmax Hfuel Hle.
  { assert (0 <= (target - start) / step) by (apply Z.div_pos; lia). lia. }
  simpl. destruct (Z.leb_spec start target); [|lia]. unfold Frequency.from_hz.
  rewrite wrap_id by (unfold uint; lia).
  destruct (Z.eq_dec start target) as [->|Hne].
  - exists 0%nat. rewrite Z.ltb_irrefl, andb_false_r. simpl. split; [|lia]. f_equal.
    destruct fuel; simpl; [done|]. destruct (Z.leb_spec (target + step) target); [lia|done].
  - destruct (Z.ltb_spec start target); [|lia]. destruct (Z.ltb_spec target (start + step)); simpl.
    + exists 1%nat. simpl. split; [|lia]. rewrite Z.add_0_r. f_equal.
      assert (0 <= (target - start) / step) by (apply Z.div_pos; lia).
      destruct fuel as [|[|fuel]]; [lia|lia|]. cbn [ramp_frequencies]. rewrite Z.leb_refl, Z.ltb_irrefl, andb_false_r.
      unfold Frequency.from_hz. rewrite wrap_id by (unfold uint; lia).
      destruct (Z.leb_spec (target + step) target); [lia|done].
    + destruct (IH (start + step)) as (n & Hl & Hb); [lia|done| |lia|].
      { replace (target - (start + step)) with (target - start + (-1) * step) in * by lia.
        rewrite Z.div_add in * by lia. assert (0 <= (target - start) / step) by (apply Z.div_pos; lia). lia. }
      exists (S n). rewrite Hl. split; [|lia]. simpl. rewrite Z.add_0_r. f_equal. f_equal.
      rewrite <- seq_shift, map_map. apply map_ext. intros i. lia.
Qed.

(** The last divider of a ramp is its target's. *)
Lemma ramp_last cfg start target step pll :
  0 < step -> 0 <= start <= target -> target + step < 2 ^ 64 -> calculate_pll cfg target = Some pll ->
  exists l, generate_frequency_ramp_steps cfg start target step = l ++ [pll].
Proof.
  intros Hstep Hst Hmax Hp. unfold generate_frequency_ramp_steps.
  destruct (ramp_spec (ramp_fuel start target step) start target step Hstep) as (n & -> & _);
    [lia|done|unfold ramp_fuel; lia|lia|].
  rewrite omap_app. cbn [omap list_omap]. rewrite Hp. by eexists.
Qed.

(** C40 The bring-up ramp ends and is gentle: for a positive step and no 64-bit
    overflow, the loop stops on its own whatever more fuel it is given, having
    visited frequencies that begin at the start, end exactly on the target, and
    always rise by at most one step. *)
Theorem ramp_rises_to_target fuel start target step :
  0 < step -> 0 <= start <= target -> target + step < 2 ^ 64 ->
  (ramp_fuel start target step <= fuel)%nat ->
  let l := ramp_frequencies fuel start target step in
  l = ramp_frequencies (ramp_fuel start target step) start target step /\
  head l = Some start /\ last l = Some target /\
  (forall i a b, l !! i = Some a -> l !! S i = Some b -> a < b <= a + step).
Proof.
  intros Hstep Hst Hmax Hfuel. cbv zeta.
  destruct (ramp_spec fuel start target step Hstep) as (n & Hl & Hn); [lia|done|exact Hfuel|lia|].
  destruct (ramp_spec (ramp_fuel start target step) start target step Hstep) as (n' & Hl' & Hn');
    [lia|done|unfold ramp_fuel; lia|lia|].
  assert (n = n') as <- by nia. rewrite Hl, Hl'. split; [done|]. split; [|split].
  - destruct n; simpl; [f_equal; lia|f_equal; lia].
  - by rewrite last_snoc.
  - set (f := fun i => start + Z.of_nat i * step). intros i a b Ha Hb.
    assert (Hlen : length (map f (seq 0 n)) = n) by (by rewrite length_map, length_seq).
    assert (Hi : (i < n)%nat).
    { apply lookup_lt_Some in Hb. rewrite length_app, Hlen in Hb. simpl in Hb. lia. }
    rewrite lookup_app_l in Ha by lia. apply list_lookup_fmap_Some in Ha as (j & -> & Hj).
    apply lookup_seq in Hj as [-> _]. simpl. unfold f.
    destruct (decide (S i < n)%nat).
    + rewrite lookup_app_l in Hb by lia. apply list_lookup_fmap_Some in Hb as (j & -> & Hj).
      apply lookup_seq in Hj as [-> _]. simpl. unfold f. lia.
    + rewrite lookup_app_r in Hb by lia. rewrite Hlen in Hb. replace (S i - n)%nat with 0%nat in Hb by lia.
      simpl in Hb. injection Hb as <-. replace i with (n - 1)%nat by lia. nia.
Qed.

Lemma ramp_rises_to_target_witness :
  head (ramp_frequencies 5 56250000 60000000 6250000) = Some 56250000 /\
  last (ramp_frequencies 5 56250000 60000000 6250000) = Some 60000000.
Proof.
  destruct (ramp_rises_to_target 5 56250000 60000000 6250000) as (_ & H1 & H2 & _); [lia|lia|lia| |by split].
  vm_compute. lia.
Defined.

Lemma omap_all_some {A B} (f : A -> option B) l :
  forallb (fun x => bool_decide (is_Some (f x))) l = true -> map Some (omap f l) = map f l.
Proof.
  induction l as [|x l IH]; simpl; [done|]. rewrite andb_true_iff, bool_decide_eq_true.
  intros [[y Hy] Hl]. rewrite Hy. simpl. f_equal. exact (IH Hl).
Qed.

Lemma last_76 {A} (f : nat -> A) : last (map f (seq 0 76)) = Some (f 75%nat).
Proof. reflexivity. Qed.

Lemma omap_complete {B} (f : Z -> option B) (g : nat -> Z) fs :
  fs = map g (seq 0 76) -> forallb (fun i => bool_decide (is_Some (f (g i)))) (seq 0 76) = true ->
  length (omap f fs) = 76%nat /\ map Some (omap f fs) = map (fun i => f (g i)) (seq 0 76) /\
  last (omap f fs) = f (g 75%nat).
Proof.
  intros -> Hall.
  assert (Hmap : map Some (omap f (map g (seq 0 76))) = map (fun i => f (g i)) (seq 0 76)).
  { rewrite omap_all_some; [apply map_map|]. revert Hall. induction (seq 0 76) as [|i l IH]; [done|].
    cbn [map forallb]. rewrite !andb_true_iff. intros [H1 H2]. split; [exact H1|exact (IH H2)]. }
  split; [|split; [exact Hmap|]].
  - rewrite <- (length_map Some), Hmap, length_map. apply length_seq.
  - assert (Hlast : last (map Some (omap f (map g (seq 0 76)))) = Some (f (g 75%nat)))
      by (rewrite Hmap; apply (last_76 (fun i => f (g i)))).
    generalize dependent (omap f (map g (seq 0 76))). intros l _ Hl.
    assert (Hx : last (map Some l) = Some <$> last l) by apply fmap_last.
    rewrite Hx in Hl. destruct (last l); [|discriminate]. by injection Hl.
Qed.

(** Both supported chips can be brought up: from the reset frequency to the
    default one, in the configured steps, the search solves every frequency, so
    the ramp writes 76 dividers, the last of them the default frequency's, and
    each the solution for its multiple of 6.25 MHz. *)
Theorem default_ramps_complete :
  Forall (fun cfg =>
    let steps := generate_frequency_ramp_steps cfg (freq_range cfg).1 (default_freq cfg) (ramp_step cfg) in
    length steps = 76%nat /\
    map Some steps = map (fun i => calculate_pll cfg (56250000 + Z.of_nat i * 6250000)) (seq 0 76) /\
    last steps = calculate_pll cfg (56250000 + Z.of_nat 75 * 6250000) /\
    default_freq cfg = 56250000 + Z.of_nat 75 * 6250000) [bm1362; bm1370].
Proof.
  apply Forall_cons; split; [|apply Forall_singleton];
    (match goal with |- let steps := generate_frequency_ramp_steps ?cfg _ _ _ in _ =>
       destruct (omap_complete (calculate_pll cfg) (fun i => 56250000 + Z.of_nat i * 6250000)
         (ramp_frequencies (ramp_fuel (freq_range cfg).1 (default_freq cfg) (ramp_step cfg))
            (freq_range cfg).1 (default_freq cfg) (ramp_step cfg))) as (H1 & H2 & H3)
     end; [vm_compute; reflexivity|vm_compute; reflexivity|
           split; [exact H1|split; [exact H2|split; [exact H3|vm_compute; reflexivity]]]]).
Qed.
