(* ===== verification/Command.v ===== *)
(** * Frames from the host to the chips (asic/bm13xx/command.rs, encoder of codec.rs)

    Register commands carry a CRC-5, jobs a CRC-16.  [encode] functions give the
    bytes appended to the output buffer; [FrameCodec.encode_register] and
    [FrameCodec.encode_job] append a whole frame to it. *)
From stdpp Require Import base numbers list.
From Stdlib Require Import ZArith Lia.
From S2P Require Import Prelude Crc Float U256 Register.

(** ** The type/flags byte *)
Module TypeFlags.
Inductive Kind := Job | Command.
Inductive Cmd := SetChipAddress | WriteRegisterOrJob | ReadRegister | ChainInactive.

Definition kind_u8 (k : Kind) : Z := match k with Job => 1 | Command => 2 end.
Definition cmd_u8 (c : Cmd) : Z :=
  match c with SetChipAddress => 0 | WriteRegisterOrJob => 1 | ReadRegister => 2 | ChainInactive => 3 end.

Record t := Mk { kind : Kind; broadcast : bool; cmd : Cmd }.

(** Stores the low bits of [v] in bits [lo, hi) of [byte]. *)
Definition store (byte lo hi v : Z) : Z :=
  let mask := Z.shiftl (2 ^ (hi - lo) - 1) lo in
  Z.lor (Z.land byte (Z.lxor 0xff mask)) (Z.land (Z.shiftl v lo) mask).

Definition encode (f : t) : list Z :=
  let byte := 0 in
  let byte := store byte 5 7 (kind_u8 (kind f)) in
  let byte := store byte 4 5 (b2z (broadcast f)) in
  let byte := store byte 0 4 (cmd_u8 (cmd f)) in
  [byte].
End TypeFlags.

(** ** Destinations *)
Module Destination.
Inductive t := Broadcast | Chip (addr : Z).
Definition is_broadcast (d : t) : bool := match d with Broadcast => true | Chip _ => false end.
Definition address_byte (d : t) : Z := match d with Broadcast => 0x00 | Chip addr => addr end.
Definition wf (d : t) : Prop := match d with Broadcast => True | Chip addr => uint 8 addr end.
End Destination.

(** ** Register commands *)
Module RegisterCommand.
Inductive t :=
| SetChipAddress (chip_address : Z)
| ChainInactive
| ReadRegister (destination : Destination.t) (register_address : RegisterAddress)
| WriteRegister (destination : Destination.t) (register : Register.t).

Definition encode_set_chip_address (chip_address : Z) : list Z :=
  TypeFlags.encode (TypeFlags.Mk TypeFlags.Command false TypeFlags.SetChipAddress)
  ++ [5; chip_address; 0x00].

Definition encode_chain_inactive : list Z :=
  TypeFlags.encode (TypeFlags.Mk TypeFlags.Command true TypeFlags.ChainInactive)
  ++ [5; 0x00; 0x00].

Definition encode_read_register (d : Destination.t) (a : RegisterAddress) : list Z :=
  TypeFlags.encode (TypeFlags.Mk TypeFlags.Command (Destination.is_broadcast d) TypeFlags.ReadRegister)
  ++ [5; Destination.address_byte d; addr_to_u8 a].

Definition encode_write_register (d : Destination.t) (r : Register.t) : list Z :=
  TypeFlags.encode (TypeFlags.Mk TypeFlags.Command (Destination.is_broadcast d) TypeFlags.WriteRegisterOrJob)
  ++ [9; Destination.address_byte d; addr_to_u8 (Register.address r)] ++ Register.encode r.

Definition encode (c : t) : list Z :=
  match c with
  | SetChipAddress a => encode_set_chip_address a
  | ChainInactive => encode_chain_inactive
  | ReadRegister d a => encode_read_register d a
  | WriteRegister d r => encode_write_register d r
  end.

Definition wf (c : t) : Prop :=
  match c with
  | SetChipAddress a => uint 8 a
  | ChainInactive => True
  | ReadRegister d _ => Destination.wf d
  | WriteRegister d r => Destination.wf d /\ Register.wf r
  end.
End RegisterCommand.

(** ** Job commands *)

(** [dst[at..at + src.len()].copy_from_slice(src)]. *)
Definition copy_into (dst : list Z) (at_ : nat) (src : list Z) : list Z :=
  take at_ dst ++ src ++ drop (at_ + length src) dst.

(** Moves 4-byte word [i] of [hash] to position [7 - i]. *)
Definition hash_to_wire_bytes (hash : list Z) : list Z :=
  fold_left (fun wire i => copy_into wire ((7 - i) * 4) (take 4 (drop (i * 4) hash)))
    (seq 0 8) (repeat 0 32).

Definition hash_from_wire_bytes (wire_bytes : list Z) : list Z :=
  fold_left (fun hash i => copy_into hash ((7 - i) * 4) (take 4 (drop (i * 4) wire_bytes)))
    (seq 0 8) (repeat 0 32).

Module JobFull.
Record t := Mk {
  job_id : Z; num_midstates : Z; starting_nonce : Z; nbits : Z; ntime : Z;
  merkle_root : list Z; prev_block_hash : list Z; version : Z }.

Definition encode (j : t) : list Z :=
  TypeFlags.encode (TypeFlags.Mk TypeFlags.Job false TypeFlags.WriteRegisterOrJob)
  ++ [54; wrap 8 (Z.shiftl (job_id j) 3); num_midstates j]
  ++ le_bytes 4 (starting_nonce j) ++ le_bytes 4 (nbits j) ++ le_bytes 4 (ntime j)
  ++ hash_to_wire_bytes (merkle_root j) ++ hash_to_wire_bytes (prev_block_hash j)
  ++ le_bytes 4 (wrap 32 (version j)).

(** The field types; job ids are 4 bits wide by the debug assertion. [version] is an i32. *)
Definition wf (j : t) : Prop :=
  uint 4 (job_id j) /\ uint 8 (num_midstates j) /\ uint 32 (starting_nonce j) /\
  uint 32 (nbits j) /\ uint 32 (ntime j) /\
  (length (merkle_root j) = 32%nat /\ bytes (merkle_root j)) /\
  (length (prev_block_hash j) = 32%nat /\ bytes (prev_block_hash j)) /\
  - 2 ^ 31 <= version j < 2 ^ 31.
End JobFull.

Module JobMidstate.
Record t := Mk {
  job_id : Z; num_midstates : Z; starting_nonce : list Z; nbits : list Z; ntime : list Z;
  merkle4 : list Z; midstate0 : list Z; midstate1 : option (list Z);
  midstate2 : option (list Z); midstate3 : option (list Z) }.

Definition put_opt (m : option (list Z)) : list Z := match m with Some m => m | None => [] end.

Definition encode (j : t) : list Z :=
  TypeFlags.encode (TypeFlags.Mk TypeFlags.Job false TypeFlags.WriteRegisterOrJob)
  ++ [wrap 8 (1 + 1 + 18 + num_midstates j * 32 + 2);
      wrap 8 (Z.shiftl (job_id j) 3); num_midstates j]
  ++ starting_nonce j ++ nbits j ++ ntime j ++ merkle4 j ++ midstate0 j
  ++ put_opt (midstate1 j) ++ put_opt (midstate2 j) ++ put_opt (midstate3 j).
End JobMidstate.

Module JobCommand.
Inductive t := JobFull (j : JobFull.t) | JobMidstate (j : JobMidstate.t).
Definition encode (c : t) : list Z :=
  match c with JobFull j => JobFull.encode j | JobMidstate j => JobMidstate.encode j end.
End JobCommand.

(** ** The frame encoders of FrameCodec *)
Module FrameEncoder.
Definition PREAMBLE : list Z := [0x55; 0xaa].

Definition encode_register (dst : list Z) (c : RegisterCommand.t) : list Z :=
  let dst := dst ++ PREAMBLE in
  let start_pos := length dst in
  let dst := dst ++ RegisterCommand.encode c in
  let crc := crc5 (drop start_pos dst) in
  dst ++ [crc].

Definition encode_job (dst : list Z) (c : JobCommand.t) : list Z :=
  let dst := dst ++ PREAMBLE in
  let start_pos := length dst in
  let dst := dst ++ JobCommand.encode c in
  let crc := crc16 (drop start_pos dst) in
  dst ++ be_bytes 2 crc.
End FrameEncoder.

(** ** Lemmas *)
Lemma encode_register_frame dst c :
  FrameEncoder.encode_register dst c =
    dst ++ FrameEncoder.PREAMBLE ++ RegisterCommand.encode c ++ [crc5 (RegisterCommand.encode c)].
Proof. unfold FrameEncoder.encode_register. by rewrite drop_app_length, <- !app_assoc. Qed.

Lemma encode_job_frame dst c :
  FrameEncoder.encode_job dst c =
    dst ++ FrameEncoder.PREAMBLE ++ JobCommand.encode c ++ be_bytes 2 (crc16 (JobCommand.encode c)).
Proof. unfold FrameEncoder.encode_job. by rewrite drop_app_length, <- !app_assoc. Qed.

Lemma flags_bytes f : bytes (TypeFlags.encode f).
Proof. destruct f as [[] [] []]; repeat apply Forall_cons_2; by vm_compute. Qed.

Lemma address_byte_range d : Destination.wf d -> uint 8 (Destination.address_byte d).
Proof. destruct d; [intros _; by vm_compute|done]. Qed.

Lemma register_command_bytes c : RegisterCommand.wf c -> bytes (RegisterCommand.encode c).
Proof.
  intros Hwf. unfold bytes.
  destruct c as [a| |d a|d r]; cbn [RegisterCommand.encode RegisterCommand.wf] in *;
    apply Forall_app_2; try apply flags_bytes; repeat apply Forall_cons_2; try apply Forall_nil_2;
    try done; try apply addr_to_u8_range; try (apply address_byte_range; apply Hwf).
  apply encode_bytes_wf, Hwf.
Qed.

Lemma register_command_length c : RegisterCommand.wf c ->
  exists rest, RegisterCommand.encode c =
    byte_at (RegisterCommand.encode c) 0 :: Z.of_nat (length (RegisterCommand.encode c)) + 1 :: rest.
Proof.
  destruct c as [a| |d a|d r]; cbn [RegisterCommand.encode RegisterCommand.wf];
    intros Hwf; try (eexists; reflexivity).
  unfold RegisterCommand.encode_write_register.
  rewrite !length_app, (encode_length_wf r) by apply Hwf. eexists. reflexivity.
Qed.

Lemma register_encode_inj r1 r2 :
  Register.wf r1 -> Register.wf r2 -> Register.address r1 = Register.address r2 ->
  Register.encode r1 = Register.encode r2 -> r1 = r2.
Proof.
  intros H1 H2 Ha He.
  destruct (register_roundtrip r1 H1) as (_ & _ & D1). destruct (register_roundtrip r2 H2) as (_ & _ & D2).
  rewrite Ha, He, D2 in D1. congruence.
Qed.

(** Names the 32 bytes of a hash. *)
Ltac explode32 l H :=
  do 32 (destruct l as [|? l]; [discriminate H|]); destruct l as [|]; [clear H|discriminate H].

Lemma hash_wire_roundtrip h : length h = 32%nat ->
  hash_from_wire_bytes (hash_to_wire_bytes h) = h /\ hash_to_wire_bytes (hash_from_wire_bytes h) = h.
Proof. intros H. explode32 h H. split; reflexivity. Qed.

Lemma hash_to_wire_length h : length h = 32%nat -> length (hash_to_wire_bytes h) = 32%nat.
Proof. intros H. explode32 h H. reflexivity. Qed.

Lemma hash_to_wire_bytes_ok h : length h = 32%nat -> bytes h -> bytes (hash_to_wire_bytes h).
Proof.
  intros H. explode32 h H. intros Hb. unfold bytes in *. rewrite !Forall_cons in Hb.
  destruct_and!. repeat apply Forall_cons_2; done.
Qed.

(** The four bytes from offset [at_] of a frame. *)
Definition slice (f : list Z) (at_ n : nat) : list Z := take n (drop at_ f).

Lemma slice_app_skip l1 l2 at_ n : slice (l1 ++ l2) (length l1 + at_) n = slice l2 at_ n.
Proof. unfold slice. by rewrite drop_app_add. Qed.

Lemma slice_app_here l1 l2 n : length l1 = n -> slice (l1 ++ l2) 0 n = l1.
Proof. intros <-. unfold slice. rewrite drop_0. apply take_app_length. Qed.

Lemma slice_skip l1 l2 k at_ n : length l1 = k -> (k <= at_)%nat ->
  slice (l1 ++ l2) at_ n = slice l2 (at_ - k) n.
Proof. intros <- Hle. rewrite <- (slice_app_skip l1 l2). f_equal. lia. Qed.

Lemma destination_inj d1 d2 :
  Destination.is_broadcast d1 = Destination.is_broadcast d2 ->
  Destination.address_byte d1 = Destination.address_byte d2 -> d1 = d2.
Proof. destruct d1, d2; simpl; congruence. Qed.

Lemma flags_inj f1 f2 : TypeFlags.encode f1 = TypeFlags.encode f2 -> f1 = f2.
Proof. destruct f1 as [[] [] []], f2 as [[] [] []]; vm_compute; congruence. Qed.

Lemma flags_cons_inj f1 f2 l1 l2 :
  TypeFlags.encode f1 ++ l1 = TypeFlags.encode f2 ++ l2 -> f1 = f2 /\ l1 = l2.
Proof.
  intros H. assert (TypeFlags.encode f1 = TypeFlags.encode f2 /\ l1 = l2) as [Hf Hl]
    by (injection H as H1 H2; unfold TypeFlags.encode; split; congruence).
  split; [by apply flags_inj|done].
Qed.

Lemma register_command_inj c1 c2 :
  RegisterCommand.wf c1 -> RegisterCommand.wf c2 ->
  RegisterCommand.encode c1 = RegisterCommand.encode c2 -> c1 = c2.
Proof.
  destruct c1 as [a1| |d1 a1|d1 r1], c2 as [a2| |d2 a2|d2 r2]; intros H1 H2 He;
    apply flags_cons_inj in He as [Hf Hl]; try discriminate Hf; injection Hf as Hb || clear Hf.
  - congruence.
  - done.
  - injection Hl as Hd Ha. f_equal; [by apply destination_inj|by apply addr_to_u8_inj].
  - injection Hl as Hd Ha Hr. f_equal; [by apply destination_inj|].
    apply register_encode_inj; [apply H1|apply H2|by apply addr_to_u8_inj|done].
Qed.

Lemma job_id_field id : uint 4 id -> Z.shiftr (wrap 8 (Z.shiftl id 3)) 3 = id.
Proof. intros H. word_bits 8%nat. Qed.

Lemma job_full_bytes j : JobFull.wf j -> bytes (JobFull.encode j).
Proof.
  intros (Hid & Hnm & Hsn & Hnb & Hnt & [Hml Hmb] & [Hpl Hpb] & Hv).
  unfold JobFull.encode. bytes_tac; try by apply hash_to_wire_bytes_ok.
  - apply flags_bytes.
  - by vm_compute.
Qed.

(** ** What the command encoders promise *)

(** The frame of a register command: it is appended to the buffer after the
    55 AA preamble, every byte of it fits a byte, the length byte counts the
    flags byte through the CRC, the last byte is the CRC-5 of everything between
    preamble and CRC, and two commands with the same frame are the same command. *)
Theorem register_command_frame dst c :
  RegisterCommand.wf c ->
  let p := RegisterCommand.encode c in
  FrameEncoder.encode_register dst c = dst ++ [0x55; 0xaa] ++ p ++ [crc5 p] /\
  bytes (p ++ [crc5 p]) /\
  byte_at p 1 = Z.of_nat (length (p ++ [crc5 p])) /\
  (forall c', RegisterCommand.wf c' ->
     FrameEncoder.encode_register dst c' = FrameEncoder.encode_register dst c -> c' = c).
Proof.
  intros Hwf p. split; [apply encode_register_frame|].
  assert (Hp : bytes p) by (by apply register_command_bytes). split.
  { apply Forall_app_2; [done|]. apply Forall_cons_2; [|constructor].
    apply (uint_mono 5); [lia|apply crc5_range]. }
  split.
  { rewrite length_app. simpl. destruct (register_command_length c Hwf) as [rest Hr].
    unfold p at 1. rewrite Hr. unfold byte_at. simpl. unfold p. lia. }
  intros c' Hwf'. rewrite !encode_register_frame.
  intros Heq%app_inv_head%app_inv_head%app_inj_tail.
  apply register_command_inj; [done|done|apply Heq].
Qed.

(** The version mask write of the captured bring-up traffic. *)
Lemma register_command_frame_witness :
  let c := RegisterCommand.WriteRegister Destination.Broadcast
             (Register.MidstateConfig MidstateConfig.full_rolling) in
  FrameEncoder.encode_register [] c = [0x55; 0xaa; 0x51; 0x09; 0x00; 0xa4; 0x90; 0x00; 0xff; 0xff; 0x1c] /\
  FrameEncoder.encode_register [] c = [] ++ [0x55; 0xaa] ++ RegisterCommand.encode c ++ [crc5 (RegisterCommand.encode c)].
Proof.
  split; [vm_compute; reflexivity|].
  apply (register_command_frame [] (RegisterCommand.WriteRegister Destination.Broadcast
           (Register.MidstateConfig MidstateConfig.full_rolling))).
  vm_compute. intuition discriminate.
Defined.

(** The frame of a full-format job is 88 bytes and every field can be read
    back from its offset: the hashes after undoing the word reversal, integers
    little-endian, the job id above bit 3 of its byte, and the CRC-16 of the 84
    bytes between preamble and CRC, high byte first. *)
Theorem job_full_frame_layout j :
  JobFull.wf j ->
  let f := FrameEncoder.encode_job [] (JobCommand.JobFull j) in
  length f = 88%nat /\ bytes f /\ slice f 0 2 = [0x55; 0xaa] /\ byte_at f 2 = 0x21 /\
  Z.shiftr (byte_at f 4) 3 = JobFull.job_id j /\
  byte_at f 5 = JobFull.num_midstates j /\
  from_le (slice f 6 4) = JobFull.starting_nonce j /\
  from_le (slice f 10 4) = JobFull.nbits j /\
  from_le (slice f 14 4) = JobFull.ntime j /\
  hash_from_wire_bytes (slice f 18 32) = JobFull.merkle_root j /\
  hash_from_wire_bytes (slice f 50 32) = JobFull.prev_block_hash j /\
  from_le (slice f 82 4) = wrap 32 (JobFull.version j) /\
  from_be (slice f 86 2) = crc16 (slice f 2 84).
Proof.
  intros (Hid & Hnm & Hsn & Hnb & Hnt & [Hml Hmb] & [Hpl Hpb] & Hv) f.
  assert (Hf : f = [0x55; 0xaa] ++ JobFull.encode j ++ be_bytes 2 (crc16 (JobFull.encode j)))
    by apply encode_job_frame.
  pose proof (crc16_range (JobFull.encode j)) as Hcr. remember (crc16 (JobFull.encode j)) as crc eqn:Hcrc.
  assert (Hbytes : bytes (JobFull.encode j)) by (by apply job_full_bytes).
  assert (Hall : bytes f) by (rewrite Hf; bytes_tac; by vm_compute).
  clearbody f. subst f.
  destruct j as [id nm sn nb nt mr ph v]. simpl in *.
  explode32 mr Hml. explode32 ph Hpl.
  split; [reflexivity|]. split; [exact Hall|]. clear Hall Hbytes.
  split; [reflexivity|]. split; [reflexivity|]. split; [by apply job_id_field|]. split; [reflexivity|].
  split; [by apply (from_le_u32 sn)|]. split; [by apply (from_le_u32 nb)|].
  split; [by apply (from_le_u32 nt)|].
  split; [reflexivity|]. split; [reflexivity|].
  split; [apply (from_le_u32 (wrap 32 v)), wrap_uint; lia|].
  rewrite Hcrc. transitivity (from_be (be_bytes 2 crc)); [subst crc; reflexivity|].
  rewrite from_be_be_bytes, wrap_id by done. subst crc. reflexivity.
Qed.

Definition sample_job : JobFull.t :=
  JobFull.Mk 5 1 0 0x1702fa3c 0x66a0b1c2 (seqZ 0 32) (seqZ 100 32) 0x20000000.

Lemma job_full_frame_layout_witness :
  let f := FrameEncoder.encode_job [] (JobCommand.JobFull sample_job) in
  byte_at f 4 = 0x28 /\ Z.shiftr (byte_at f 4) 3 = JobFull.job_id sample_job.
Proof.
  split; [vm_compute; reflexivity|].
  apply (job_full_frame_layout sample_job).
  unfold JobFull.wf, sample_job. simpl. split_and!; try by vm_compute.
  - repeat constructor; vm_compute; discriminate.
  - repeat constructor; vm_compute; discriminate.
Defined.
