(* ===== verification/Response.v ===== *)
(** * Frames from the chips to the host (asic/bm13xx/response.rs, decoder of codec.rs)

    [Response.decode] reads the nine bytes after the preamble;
    [FrameDecoder.decode] is one call of the codec on the receive buffer.  A
    panic of the source (a read past the end of the buffer) is [None]. *)
From stdpp Require Import base numbers list.
From Stdlib Require Import ZArith Lia.
From S2P Require Import Prelude Crc Float U256 Version Register.

(** ** The fields a chip packs into a nonce *)
Module NonceFields.
Inductive t :=
| BM1362 (core_id chip_address counter : Z)
| BM1370 (core_id counter : Z).

Definition swap_bytes (x : Z) : Z := from_be (le_bytes 4 x).

Definition from_nonce (model : ChipModel.t) (nonce : Z) : t :=
  let value := swap_bytes nonce in
  let core_id := wrap 8 (Z.shiftr value 25) in
  match model with
  | ChipModel.BM1362 | ChipModel.BM1366 =>
      BM1362 core_id (wrap 8 (wrap 8 (Z.land (Z.shiftr value 18) 0x7f) * 2)) (Z.land value 0x3ffff)
  | ChipModel.BM1370 => BM1370 core_id (Z.land value 0x1ffffff)
  end.

(** The chip-order value the fields come from. *)
Definition to_value (f : t) : Z :=
  match f with
  | BM1362 core chip counter => core * 2 ^ 25 + chip / 2 * 2 ^ 18 + counter
  | BM1370 core counter => core * 2 ^ 25 + counter
  end.
End NonceFields.

(** ** Responses *)
Module Response.
Record register_response := MkReg { chip_address : Z; register : Register.t }.
Record nonce_response := MkNonce {
  nonce : Z; job_id : Z; excess_difficulty : Z; version : GpBits.t; subcore_id : Z }.
Inductive t :=
| ReadRegister (r : register_response)
| Nonce (n : nonce_response).

Definition decompose (n : nonce_response) (model : ChipModel.t) : NonceFields.t :=
  NonceFields.from_nonce model (nonce n).

Inductive ResponseType := TReadRegister | TNonce.
Definition type_from_u8 (b : Z) : option ResponseType :=
  if b =? 0 then Some TReadRegister else if b =? 4 then Some TNonce else None.

(** Reads of the [bytes] crate: the value and the rest of the buffer. *)
Definition get_u8 (b : list Z) : option (Z * list Z) :=
  match b with x :: b => Some (x, b) | [] => None end.
Definition split_to (n : nat) (b : list Z) : option (list Z * list Z) :=
  if (n <=? length b)%nat then Some (take n b, drop n b) else None.
Definition get_u32_le (b : list Z) : option (Z * list Z) :=
  '(v, b) ← split_to 4 b; Some (from_le v, b).

Definition decode (b : list Z) (model : ChipModel.t) : option (result ProtocolError t) :=
  type_and_crc ← last b;
  let type_repr := Z.shiftr type_and_crc 5 in
  match type_from_u8 type_repr with
  | Some TReadRegister =>
      '(value, b) ← split_to 4 b;
      '(chip_address, b) ← get_u8 b;
      '(register_address_repr, b) ← get_u8 b;
      Some
        match addr_from_u8 register_address_repr with
        | Some register_address =>
            (let? register := Register.decode register_address value in
             Ok (ReadRegister (MkReg chip_address register)))%res
        | None => Err (InvalidRegisterAddress register_address_repr)
        end
  | Some TNonce =>
      '(nonce, b) ← get_u32_le b;
      '(excess_difficulty, b) ← get_u8 b;
      '(result_header, b) ← get_u8 b;
      '(v0, b) ← get_u8 b;
      '(v1, b) ← get_u8 b;
      let version := GpBits.new v0 v1 in
      let '(job_id, subcore_id) :=
        match model with
        | ChipModel.BM1362 | ChipModel.BM1366 =>
            (Z.shiftr result_header 3, Z.land result_header 0x07)
        | ChipModel.BM1370 =>
            (Z.land (Z.shiftr result_header 4) 0x0f, Z.land result_header 0x0f)
        end in
      Some (Ok (Nonce (MkNonce nonce job_id excess_difficulty version subcore_id)))
  | None => Some (Err (InvalidResponseType type_repr))
  end.
End Response.

(** ** The frame decoder *)
Module FrameDecoder.
Definition PREAMBLE : list Z := [0xaa; 0x55].
Definition FRAME_LEN : nat := 11.

(** One call: the item, and what is left in the buffer. *)
Definition decode (model : ChipModel.t) (src : list Z) : option (option Response.t * list Z) :=
  if (length src <? FRAME_LEN)%nat then Some (None, src)
  else if negb (byte_at src 0 =? byte_at PREAMBLE 0) then Some (None, drop 1 src)
  else if negb (byte_at src 1 =? byte_at PREAMBLE 1) then Some (None, drop 1 src)
  else if negb (crc5_is_valid (take (FRAME_LEN - 2) (drop 2 src))) then Some (None, drop 1 src)
  else
    let decode_buf := drop 2 (take FRAME_LEN src) in
    r ← Response.decode decode_buf model;
    match r with
    | Ok response => Some (Some response, drop FRAME_LEN src)
    | Err _ => Some (None, drop 1 src)
    end.

(** Calls [decode] on a buffer that no longer grows until it asks for more
    input than there is; each other call shortens the buffer, so as many calls as
    it has bytes are enough. *)
Fixpoint drain (fuel : nat) (model : ChipModel.t) (src : list Z) : option (list Response.t * list Z) :=
  match fuel with
  | O => Some ([], src)
  | S fuel =>
      if (length src <? FRAME_LEN)%nat then Some ([], src)
      else
        '(item, src) ← decode model src;
        '(items, src) ← drain fuel model src;
        Some (option_list item ++ items, src)
  end.

(** A complete frame that carries response [r]. *)
Definition valid_frame (model : ChipModel.t) (f : list Z) (r : Response.t) : Prop :=
  length f = FRAME_LEN /\ take 2 f = PREAMBLE /\ crc5_is_valid (drop 2 f) = true /\
  Response.decode (drop 2 f) model = Some (Ok r).
End FrameDecoder.

(** ** Lemmas *)
Lemma nine_bytes (b : list Z) : length b = 9%nat ->
  exists b0 b1 b2 b3 b4 b5 b6 b7 b8, b = [b0; b1; b2; b3; b4; b5; b6; b7; b8].
Proof.
  intros H. do 9 (destruct b as [|? b]; [discriminate|]). destruct b; [|discriminate].
  do 9 eexists. reflexivity.
Qed.

(** Nine bytes are enough: decoding them never reads past the end. *)
Lemma response_decode_total b model : length b = 9%nat -> is_Some (Response.decode b model).
Proof.
  intros H. destruct (nine_bytes b H) as (b0 & b1 & b2 & b3 & b4 & b5 & b6 & b7 & b8 & ->).
  unfold Response.decode. simpl. destruct (Response.type_from_u8 _) as [[]|]; simpl; try (eexists; reflexivity).
  destruct model; eexists; reflexivity.
Qed.

Lemma decode_cases model src :
  (11 <= length src)%nat ->
  (exists r, FrameDecoder.valid_frame model (take 11 src) r /\
     FrameDecoder.decode model src = Some (Some r, drop 11 src)) \/
  ((forall r, ~ FrameDecoder.valid_frame model (take 11 src) r) /\
     FrameDecoder.decode model src = Some (None, drop 1 src)).
Proof.
  intros Hlen. unfold FrameDecoder.decode, FrameDecoder.valid_frame, FrameDecoder.FRAME_LEN.
  rewrite (proj2 (Nat.ltb_ge _ _)) by done.
  assert (Htl : length (take 11 src) = 11%nat) by (rewrite length_take; lia).
  assert (Hcrc : take (11 - 2) (drop 2 src) = drop 2 (take 11 src)) by (rewrite skipn_firstn_comm; done).
  rewrite Hcrc.
  assert (Hbl : length (drop 2 (take 11 src)) = 9%nat) by (rewrite length_drop, Htl; done).
  remember (drop 2 (take 11 src)) as buf eqn:Hbuf. clear Hcrc Hbuf.
  destruct src as [|x0 [|x1 rest]]; [simpl in Hlen; lia|simpl in Hlen; lia|].
  change (byte_at (x0 :: x1 :: rest) 0) with x0. change (byte_at (x0 :: x1 :: rest) 1) with x1.
  change (byte_at FrameDecoder.PREAMBLE 0) with 0xaa. change (byte_at FrameDecoder.PREAMBLE 1) with 0x55.
  assert (Hpre : take 2 (take 11 (x0 :: x1 :: rest)) = [x0; x1]) by done. rewrite Hpre.
  destruct (Z.eqb_spec x0 0xaa) as [->|]; simpl negb; cbn [negb];
    [|right; split; [intros r (_ & Hp & _); unfold FrameDecoder.PREAMBLE in Hp; congruence|done]].
  destruct (Z.eqb_spec x1 0x55) as [->|]; cbn [negb];
    [|right; split; [intros r (_ & Hp & _); unfold FrameDecoder.PREAMBLE in Hp; congruence|done]].
  destruct (crc5_is_valid buf); cbn [negb]; [|right; split; [intros r (_ & _ & ? & _); congruence|done]].
  destruct (response_decode_total buf model Hbl) as [[r|e] Hr].
  - left. exists r. rewrite Hr. done.
  - right. rewrite Hr. split; [intros r (_ & _ & _ & ?); congruence|done].
Qed.

Lemma decode_valid model f r rest :
  FrameDecoder.valid_frame model f r -> FrameDecoder.decode model (f ++ rest) = Some (Some r, rest).
Proof.
  intros Hv. pose proof Hv as (Hl & _ & _ & Hd).
  assert (Ht : take 11 (f ++ rest) = f) by (by apply take_app_length').
  assert (Hdr : drop 11 (f ++ rest) = rest) by (by apply drop_app_length').
  destruct (decode_cases model (f ++ rest)) as [(r' & Hv' & He)|[Hn _]].
  - rewrite length_app, Hl. unfold FrameDecoder.FRAME_LEN. lia.
  - rewrite Ht in Hv'. destruct Hv' as (_ & _ & _ & Hd').
    assert (r' = r) as -> by congruence. by rewrite He, Hdr.
  - rewrite Ht in Hn. by destruct (Hn r).
Qed.

Lemma decode_junk model x src : (10 <= length src)%nat -> x <> 0xaa ->
  FrameDecoder.decode model (x :: src) = Some (None, src).
Proof.
  intros Hl Hx. unfold FrameDecoder.decode, FrameDecoder.FRAME_LEN.
  rewrite (proj2 (Nat.ltb_ge _ _)) by (simpl; lia).
  change (byte_at (x :: src) 0) with x. change (byte_at FrameDecoder.PREAMBLE 0) with 0xaa.
  by rewrite (proj2 (Z.eqb_neq x 0xaa) Hx).
Qed.

(** Every call with a frame's worth of bytes consumes at least one. *)
Lemma decode_progress model src : (11 <= length src)%nat ->
  exists item src', FrameDecoder.decode model src = Some (item, src') /\ (length src' < length src)%nat.
Proof.
  intros Hl. destruct (decode_cases model src Hl) as [(r & _ & ->)|[_ ->]];
    do 2 eexists; (split; [reflexivity|]); rewrite length_drop; lia.
Qed.

Lemma drain_step fuel model src item src' :
  (11 <= length src)%nat -> FrameDecoder.decode model src = Some (item, src') ->
  FrameDecoder.drain (S fuel) model src =
    '(items, rest) ← FrameDecoder.drain fuel model src'; Some (option_list item ++ items, rest).
Proof.
  intros Hl Hd. simpl. unfold FrameDecoder.FRAME_LEN. rewrite (proj2 (Nat.ltb_ge _ _)) by done.
  by rewrite Hd.
Qed.

Lemma drain_short fuel model src : (length src < 11)%nat -> FrameDecoder.drain fuel model src = Some ([], src).
Proof.
  intros Hl. destruct fuel; [done|]. simpl. unfold FrameDecoder.FRAME_LEN.
  by rewrite (proj2 (Nat.ltb_lt _ _)).
Qed.

Lemma drain_frames model fs rs rest fuel :
  Forall2 (FrameDecoder.valid_frame model) fs rs -> (length rest < 11)%nat ->
  (length (mjoin fs ++ rest) <= fuel)%nat ->
  FrameDecoder.drain fuel model (mjoin fs ++ rest) = Some (rs, rest).
Proof.
  intros Hv Hr. revert fuel. induction Hv as [|f r fs rs Hf Hv IH]; intros fuel Hfuel.
  - by apply drain_short.
  - simpl in *. rewrite <- app_assoc in *. pose proof Hf as (Hl & _).
    rewrite length_app, Hl in Hfuel. unfold FrameDecoder.FRAME_LEN in *.
    destruct fuel as [|fuel]; [lia|].
    rewrite (drain_step _ _ _ (Some r) (mjoin fs ++ rest));
      [|rewrite length_app; lia|by apply decode_valid].
    by rewrite IH by lia.
Qed.

Lemma drain_junk model junk src items rest fuel :
  Forall (fun x => x <> 0xaa) junk -> (11 <= length src)%nat ->
  FrameDecoder.drain fuel model src = Some (items, rest) ->
  FrameDecoder.drain (length junk + fuel) model (junk ++ src) = Some (items, rest).
Proof.
  intros Hj Hl Hd. induction Hj as [|x junk Hx Hj IH]; [done|]. simpl length. simpl app.
  change (S (length junk) + fuel)%nat with (S (length junk + fuel)).
  rewrite (drain_step _ _ _ None (junk ++ src));
    [|simpl; rewrite length_app; lia|apply decode_junk; [rewrite length_app; lia|done]].
  by rewrite IH.
Qed.

(** ** What the decoder promises *)

(** C9 One call of the decoder, on any buffer: it never reads out of bounds;
    with fewer than eleven bytes it waits and keeps them; otherwise it either
    yields the response of the complete valid frame at the head and consumes
    exactly that frame, or - when the head is no valid frame - drops exactly one
    byte.  So calling it until it waits terminates within as many calls as there
    are bytes and leaves less than a frame. *)
Theorem decoder_call model src :
  ((length src < 11)%nat -> FrameDecoder.decode model src = Some (None, src)) /\
  ((11 <= length src)%nat ->
     (exists r, FrameDecoder.valid_frame model (take 11 src) r /\
        FrameDecoder.decode model src = Some (Some r, drop 11 src)) \/
     ((forall r, ~ FrameDecoder.valid_frame model (take 11 src) r) /\
        FrameDecoder.decode model src = Some (None, drop 1 src))) /\
  (forall fuel, (length src <= fuel)%nat -> exists items rest,
     FrameDecoder.drain fuel model src = Some (items, rest) /\ (length rest < 11)%nat).
Proof.
  split; [|split].
  - intros Hl. unfold FrameDecoder.decode, FrameDecoder.FRAME_LEN.
    by rewrite (proj2 (Nat.ltb_lt _ _)).
  - apply decode_cases.
  - intros fuel. revert src; induction fuel as [|fuel IH]; intros src Hf.
    + exists [], src. rewrite drain_short by lia. split; [done|lia].
    + destruct (decide (length src < 11)%nat) as [Hs|Hs].
      * exists [], src. by rewrite drain_short.
      * destruct (decode_progress model src) as (item & src' & Hd & Hlt); [lia|].
        destruct (IH src') as (items & rest & Hdr & Hrest); [lia|].
        exists (option_list item ++ items), rest.
        rewrite (drain_step _ _ _ item src') by (done || lia). by rewrite Hdr.
Qed.

(** Resynchronisation: after any amount of line noise that holds no 0xAA
    byte, a sequence of valid frames is decoded completely and in order, and a
    trailing partial frame is kept for the next read. *)
Theorem decoder_resynchronises model junk fs rs rest fuel :
  Forall (fun x => x <> 0xaa) junk -> Forall2 (FrameDecoder.valid_frame model) fs rs -> fs <> [] ->
  (length rest < 11)%nat -> (length (mjoin fs ++ rest) <= fuel)%nat ->
  FrameDecoder.drain (length junk + fuel) model (junk ++ mjoin fs ++ rest) = Some (rs, rest).
Proof.
  intros Hj Hv Hne Hr Hf. apply drain_junk; [done| |by apply drain_frames].
  destruct Hv as [|f r fs rs (Hl & _)]; [done|].
  simpl. rewrite !length_app, Hl. unfold FrameDecoder.FRAME_LEN. lia.
Qed.

(** The nonce report of the captured traffic, behind two bytes of noise. *)
Definition sample_nonce_frame : list Z := [0xAA; 0x55; 0x18; 0x00; 0xA6; 0x40; 0x02; 0x99; 0x22; 0xF9; 0x91].
Definition sample_nonce : Response.t :=
  Response.Nonce (Response.MkNonce 0x40a60018 9 2 (GpBits.Mk 0x22 0xF9) 9).

Lemma decoder_resynchronises_witness :
  FrameDecoder.drain 24 ChipModel.BM1370 ([0x00; 0x55] ++ sample_nonce_frame ++ sample_nonce_frame)
    = Some ([sample_nonce; sample_nonce], []).
Proof.
  apply (decoder_resynchronises ChipModel.BM1370 [0x00; 0x55] [sample_nonce_frame; sample_nonce_frame]
           [sample_nonce; sample_nonce] [] 22).
  - repeat constructor; discriminate.
  - assert (H : FrameDecoder.valid_frame ChipModel.BM1370 sample_nonce_frame sample_nonce)
      by (split; [reflexivity|split; [reflexivity|split; vm_compute; reflexivity]]).
    repeat constructor; exact H.
  - discriminate.
  - simpl. lia.
  - simpl. lia.
Defined.

(** One call handles at most one byte of noise: with a byte of noise in
    front of a complete valid frame it returns no item although the frame is all
    there, and only a further call yields it. *)
Theorem decoder_defers_frame model x f r :
  x <> 0xaa -> FrameDecoder.valid_frame model f r ->
  FrameDecoder.decode model (x :: f) = Some (None, f) /\
  FrameDecoder.decode model f = Some (Some r, []).
Proof.
  intros Hx Hv. split.
  - apply decode_junk; [|done]. destruct Hv as [-> _]. unfold FrameDecoder.FRAME_LEN. lia.
  - rewrite <- (app_nil_r f). by apply decode_valid.
Qed.

Lemma decoder_defers_frame_witness :
  FrameDecoder.decode ChipModel.BM1370 (0x00 :: sample_nonce_frame) = Some (None, sample_nonce_frame) /\
  FrameDecoder.decode ChipModel.BM1370 sample_nonce_frame = Some (Some sample_nonce, []).
Proof.
  apply decoder_defers_frame; [discriminate|].
  split; [reflexivity|split; [reflexivity|split; vm_compute; reflexivity]].
Defined.

(** ** The chips' side of the protocol: the frame that carries a response *)
Definition result_header (model : ChipModel.t) (job_id subcore_id : Z) : Z :=
  match model with
  | ChipModel.BM1362 | ChipModel.BM1366 => Z.lor (Z.shiftl job_id 3) subcore_id
  | ChipModel.BM1370 => Z.lor (Z.shiftl job_id 4) subcore_id
  end.

(** The eight bytes before the type and CRC byte, and the type. *)
Definition response_payload (model : ChipModel.t) (r : Response.t) : list Z * Z :=
  match r with
  | Response.ReadRegister r =>
      (Register.encode (Response.register r) ++
         [Response.chip_address r; addr_to_u8 (Register.address (Response.register r)); 0; 0], 0)
  | Response.Nonce n =>
      (le_bytes 4 (Response.nonce n) ++
         [Response.excess_difficulty n;
          result_header model (Response.job_id n) (Response.subcore_id n);
          GpBits.hi (Response.version n); GpBits.lo (Response.version n)], 4)
  end.

Definition response_wf (model : ChipModel.t) (r : Response.t) : Prop :=
  match r with
  | Response.ReadRegister r => Register.wf (Response.register r)
  | Response.Nonce n =>
      uint 32 (Response.nonce n) /\
      match model with
      | ChipModel.BM1362 | ChipModel.BM1366 => uint 5 (Response.job_id n) /\ uint 3 (Response.subcore_id n)
      | ChipModel.BM1370 => uint 4 (Response.job_id n) /\ uint 4 (Response.subcore_id n)
      end
  end.

Lemma type_field t c : uint 3 t -> uint 5 c -> Z.shiftr (Z.lor (Z.shiftl t 5) c) 5 = t.
Proof. intros Ht Hc. word_bits 8%nat. Qed.

Lemma header_split model job sub :
  response_wf model (Response.Nonce (Response.MkNonce 0 job 0 GpBits.none sub)) ->
  match model with
  | ChipModel.BM1362 | ChipModel.BM1366 =>
      (Z.shiftr (result_header model job sub) 3, Z.land (result_header model job sub) 0x07)
  | ChipModel.BM1370 =>
      (Z.land (Z.shiftr (result_header model job sub) 4) 0x0f, Z.land (result_header model job sub) 0x0f)
  end = (job, sub).
Proof. destruct model; simpl; intros (_ & Hj & Hs); f_equal; word_bits 8%nat. Qed.

Lemma response_payload_decode model r c :
  response_wf model r -> uint 5 c ->
  let '(payload, t) := response_payload model r in
  Response.decode (payload ++ [Z.lor (Z.shiftl t 5) c]) model = Some (Ok r).
Proof.
  intros Hwf Hc. destruct r as [[chip reg]|[nonce job exc [v0 v1] sub]]; simpl response_payload;
    unfold Response.decode; rewrite last_snoc; cbn [mbind option_bind];
    (rewrite type_field; [|by vm_compute|done]).
  - simpl in Hwf. destruct (register_roundtrip reg Hwf) as (Hl & _ & Hd).
    change (Response.type_from_u8 0) with (Some Response.TReadRegister).
    set (b := Register.encode reg) in *. clearbody b.
    destruct b as [|b0 [|b1 [|b2 [|b3 [|]]]]]; try discriminate Hl.
    simpl. rewrite addr_to_from_u8, Hd. done.
  - pose proof (header_split model job sub) as Hs. simpl in Hwf, Hs.
    destruct Hwf as [Hn Hm].
    change (Response.type_from_u8 4) with (Some Response.TNonce). simpl.
    rewrite Hs by (split; [unfold uint; lia|done]).
    pose proof (from_le_le_bytes 4 nonce) as Hle. simpl in Hle. rewrite Hle, wrap_id by done. done.
Qed.

(** Every response a chip can report is received: for each register value at
    each address, and for each nonce with its job id, subcore id and rolled
    version bits, on each chip model, there is exactly one check value for which
    the chip's eleven-byte frame is valid, and the decoder turns that frame into
    that response, consuming the frame and nothing after it. *)
Theorem response_roundtrip model r rest :
  response_wf model r ->
  let '(payload, t) := response_payload model r in
  exists c, uint 5 c /\
    FrameDecoder.decode model ([0xaa; 0x55] ++ payload ++ [Z.lor (Z.shiftl t 5) c] ++ rest)
      = Some (Some r, rest) /\
    (forall c', uint 5 c' -> crc5_is_valid (payload ++ [Z.lor (Z.shiftl t 5) c']) = true -> c' = c).
Proof.
  intros Hwf. pose proof (response_payload_decode model r) as Hd.
  assert (Hlen : length (response_payload model r).1 = 8%nat /\ uint 3 (response_payload model r).2).
  { destruct r as [[chip reg]|n]; simpl.
    - rewrite length_app, (encode_length_wf reg Hwf). split; [done|by vm_compute].
    - split; [done|by vm_compute]. }
  destruct (response_payload model r) as [payload t]. simpl in Hlen. destruct Hlen as [Hl Ht].
  destruct (crc5_complete payload t Ht) as (c & Hc & Hval & Huniq).
  exists c. split; [done|]. split; [|done].
  rewrite !app_assoc. apply decode_valid. split; [|split; [done|]].
  - rewrite !length_app, Hl. done.
  - rewrite <- app_assoc. change (drop 2 ([0xaa; 0x55] ++ payload ++ [Z.lor (Z.shiftl t 5) c]))
      with (payload ++ [Z.lor (Z.shiftl t 5) c]). split; [done|]. by apply Hd.
Qed.

Definition sample_response : Response.t :=
  Response.Nonce (Response.MkNonce 0x40a60018 2 9 (GpBits.Mk 0x22 0xF9) 9).

Lemma response_roundtrip_witness :
  let '(payload, t) := response_payload ChipModel.BM1370 sample_response in
  exists c, uint 5 c /\
    FrameDecoder.decode ChipModel.BM1370 ([0xaa; 0x55] ++ payload ++ [Z.lor (Z.shiftl t 5) c] ++ [])
      = Some (Some sample_response, []) /\
    (forall c', uint 5 c' -> crc5_is_valid (payload ++ [Z.lor (Z.shiftl t 5) c']) = true -> c' = c).
Proof.
  refine (response_roundtrip ChipModel.BM1370 sample_response [] _).
  unfold response_wf, sample_response, uint. simpl. lia.
Defined.

(** The fields of a nonce are all of it: on every model the core id, the chip
    address (always even) and the counter are in range and put together give the
    byte-swapped nonce back, so distinct nonces have distinct fields. *)
Theorem nonce_fields_lossless model nonce :
  uint 32 nonce ->
  let f := NonceFields.from_nonce model nonce in
  NonceFields.to_value f = NonceFields.swap_bytes nonce /\
  NonceFields.swap_bytes (NonceFields.swap_bytes nonce) = nonce /\
  match f with
  | NonceFields.BM1362 core chip counter =>
      uint 7 core /\ uint 8 chip /\ Z.even chip = true /\ uint 18 counter
  | NonceFields.BM1370 core counter => uint 7 core /\ uint 25 counter
  end.
Proof.
  intros Hn.
  assert (Hv : uint 32 (NonceFields.swap_bytes nonce)).
  { apply (from_be_range (le_bytes 4 nonce)), le_bytes_bytes. }
  assert (Hinv : NonceFields.swap_bytes (NonceFields.swap_bytes nonce) = nonce).
  { unfold NonceFields.swap_bytes, from_be.
    assert (Hl : forall l, length l = 4%nat -> bytes l -> rev (le_bytes 4 (from_le (rev l))) = l).
    { intros l Hl Hb. pose proof (be_bytes_from_be l Hb) as H. rewrite Hl in H. exact H. }
    rewrite Hl by (apply le_bytes_length || apply le_bytes_bytes). by apply from_le_u32. }
  unfold NonceFields.from_nonce. generalize dependent (NonceFields.swap_bytes nonce). intros v Hv Hinv.
  unfold uint in Hv.
  assert (Hcore : wrap 8 (Z.shiftr v 25) = v / 2 ^ 25).
  { rewrite Z.shiftr_div_pow2 by lia. apply wrap_id. unfold uint.
    split; [apply Z.div_pos; lia|apply Z.div_lt_upper_bound; lia]. }
  pose proof (Z.div_mod v (2 ^ 25) ltac:(lia)). pose proof (Z.mod_pos_bound v (2 ^ 25) ltac:(lia)).
  pose proof (Z.div_mod v (2 ^ 18) ltac:(lia)). pose proof (Z.mod_pos_bound v (2 ^ 18) ltac:(lia)).
  destruct model; cbv beta iota zeta delta [NonceFields.to_value]; rewrite Hcore.
  all: change 0x3ffff with (Z.ones 18); change 0x7f with (Z.ones 7); change 0x1ffffff with (Z.ones 25).
  all: rewrite ?Z.land_ones, ?Z.shiftr_div_pow2 by lia.
  1,2: set (x := (v / 2 ^ 18) mod 2 ^ 7);
    assert (Hx : 0 <= x < 2 ^ 7) by (apply Z.mod_pos_bound; lia);
    assert (Hdiv : v / 2 ^ 25 * 2 ^ 7 + x = v / 2 ^ 18)
      by (change (2 ^ 25) with (2 ^ 18 * 2 ^ 7); rewrite <- Z.div_div by lia;
          pose proof (Z.div_mod (v / 2 ^ 18) (2 ^ 7) ltac:(lia)); unfold x; lia);
    rewrite (wrap_id 8 x) by (unfold uint; lia);
    rewrite (wrap_id 8 (x * 2)) by (unfold uint; lia);
    rewrite Z.div_mul by lia;
    (split_and!; [lia|done|unfold uint; lia|unfold uint; lia|by rewrite Z.even_mul, orb_true_r|done]).
  split_and!; [lia|done|unfold uint; lia|done].
Qed.

Lemma nonce_fields_lossless_witness :
  NonceFields.from_nonce ChipModel.BM1362 0x40a60018 = NonceFields.BM1362 12 0 42560 /\
  NonceFields.to_value (NonceFields.from_nonce ChipModel.BM1362 0x40a60018) = NonceFields.swap_bytes 0x40a60018.
Proof.
  split; [vm_compute; reflexivity|].
  refine (proj1 (nonce_fields_lossless ChipModel.BM1362 0x40a60018 _)). unfold uint. lia.
Defined.
