(* ===== verification/RegisterClient.v ===== *)
(** * Conversations on the chip bus (asic/bm13xx/register_client.rs, reader.rs)

    Code that awaits is a function of the outcomes of its awaits, in the order
    they happen ([event]): a send is done or fails, a receive delivers a
    response, finds nothing queued, runs into its deadline or finds the channel
    closed, or the caller gives up ([Cancelled]).  It yields its result, the
    outcomes it has not used and what it did to the world ([action]); it is
    [None] when the outcomes run out or do not fit the await. *)
From stdpp Require Import base numbers list.
From Stdlib Require Import ZArith Lia.
From S2P Require Import Prelude Float U256 Version Register Command Response.

Inductive event :=
| Done
| Failed
| Received (r : Response.register_response)
| NothingQueued
| Elapsed
| Closed
| Cancelled.

(** What a thread does to its chips and its board. *)
Inductive action :=
| SendRegister (c : RegisterCommand.t)
| SendJob (j : JobFull.t)
| EnableRail
| DisableRail
| AssertReset
| ReleaseReset.

Inductive error :=
| SendError
| NoResponse (chip_address : Z) (register_address : RegisterAddress) (attempts : nat)
| ResponsesClosed
| ReadbackMismatch (expected actual : Register.t)
| RailFailed
| ResetFailed
| ChipCount (found declared : nat)
| AddressingFailed
| NoPllSolution
| ChipMismatch (address : Z) (expected actual : Register.t)
| Interrupted.

(** ** The monad *)
Definition M (S A : Type) : Type := S -> list event -> option (result error A * S * list event * list action).

Definition ret {S A} (a : A) : M S A := fun s es => Some (Ok a, s, es, []).
Definition fail {S A} (e : error) : M S A := fun s es => Some (Err e, s, es, []).
Definition bind {S A B} (m : M S A) (k : A -> M S B) : M S B := fun s es =>
  match m s es with
  | None => None
  | Some (Err e, s, es, tr) => Some (Err e, s, es, tr)
  | Some (Ok a, s, es, tr) =>
      match k a s es with
      | None => None
      | Some (r, s, es, tr') => Some (r, s, es, tr ++ tr')
      end
  end.
Definition get {S} : M S S := fun s es => Some (Ok s, s, es, []).
Definition put {S} (s : S) : M S unit := fun _ es => Some (Ok tt, s, es, []).

Declare Scope bus_scope.
Delimit Scope bus_scope with bus.
Notation "'do!' x ':=' m 'in' k" := (bind m (fun x => k))
  (at level 10, x pattern, m at level 100, k at level 200) : bus_scope.
Notation "m ';!' k" := (bind m (fun _ => k)) (at level 199, right associativity) : bus_scope.
#[local] Open Scope bus_scope.

(** An await that performs [a] and fails with [e]. *)
Definition perform {S} (a : action) (e : error) : M S unit := fun s es =>
  match es with
  | Done :: es => Some (Ok tt, s, es, [a])
  | Failed :: es => Some (Err e, s, es, [a])
  | Cancelled :: es => Some (Err Interrupted, s, es, [])
  | _ => None
  end.
Definition send {S} (c : RegisterCommand.t) : M S unit := perform (SendRegister c) SendError.

(** A sleep, during which the caller can give up. *)
Definition sleep {S} : M S unit := fun s es =>
  match es with
  | Cancelled :: es => Some (Err Interrupted, s, es, [])
  | _ => Some (Ok tt, s, es, [])
  end.

Fixpoint for_each {S A} (f : A -> M S unit) (l : list A) : M S unit :=
  match l with
  | [] => ret tt
  | a :: l => f a ;! for_each f l
  end.

(** ** Decidable equality of registers *)
#[global] Instance PllDivider_eq_dec : EqDecision PllDivider.t.
Proof. unfold EqDecision. intros [] []. assert (EqDecision PllDivider.VcoSel) by solve_decision. solve_decision. Defined.
#[global] Instance register_eq_dec : EqDecision Register.t.
Proof.
  assert (EqDecision ChipModel.t) by solve_decision.
  assert (EqDecision ChipId.t) by solve_decision.
  assert (EqDecision HashCountingNumber.t) by solve_decision.
  assert (EqDecision TicketMask.t) by solve_decision.
  assert (EqDecision MiscControl.t) by solve_decision.
  assert (EqDecision UartBaud.t) by solve_decision.
  assert (EqDecision UartRelay.t) by solve_decision.
  assert (EqDecision CoreRegister.t) by solve_decision.
  assert (EqDecision CoreCommand.t) by solve_decision.
  assert (EqDecision AnalogMux.t) by solve_decision.
  assert (EqDecision IoDriverStrength.t) by solve_decision.
  assert (EqDecision Opaque4.t) by solve_decision.
  assert (EqDecision MidstateConfig.t) by solve_decision.
  assert (EqDecision SoftResetControl.t) by solve_decision.
  solve_decision.
Defined.

(** ** The register client *)
Module RegisterClient.
Section Client.
Context {S : Type}.

Definition write (d : Destination.t) (r : Register.t) : M S unit := send (RegisterCommand.WriteRegister d r).

(** [drain_stale]: [try_recv] until it finds nothing. *)
Definition drain_stale : M S unit := fix drain s es :=
  match es with
  | Received _ :: es => drain s es
  | NothingQueued :: es => Some (Ok tt, s, es, [])
  | _ => None
  end.

Definition matches (chip_address : Z) (a : RegisterAddress) (r : Response.register_response) : bool :=
  (Response.chip_address r =? chip_address) && bool_decide (Register.address (Response.register r) = a).

(** [matching_response] under a deadline: [None] when it elapsed. *)
Definition matching_response (chip_address : Z) (a : RegisterAddress) : M S (option Register.t) := fix recv s es :=
  match es with
  | Received r :: es =>
      if matches chip_address a r then Some (Ok (Some (Response.register r)), s, es, []) else recv s es
  | Elapsed :: es => Some (Ok None, s, es, [])
  | Closed :: es => Some (Err ResponsesClosed, s, es, [])
  | Cancelled :: es => Some (Err Interrupted, s, es, [])
  | _ => None
  end.

Definition ATTEMPTS : nat := 3.

(** The attempts left of a read. *)
Fixpoint attempts (remaining : nat) (chip_address : Z) (a : RegisterAddress) : M S Register.t :=
  match remaining with
  | O => fail (NoResponse chip_address a ATTEMPTS)
  | Datatypes.S remaining =>
      send (RegisterCommand.ReadRegister (Destination.Chip chip_address) a) ;!
      do! r := matching_response chip_address a in
      match r with
      | Some register => ret register
      | None => attempts remaining chip_address a
      end
  end.

Definition read (chip_address : Z) (a : RegisterAddress) : M S Register.t :=
  drain_stale ;! attempts ATTEMPTS chip_address a.

(** The replies collected until the quiet window passes. *)
Definition collect (a : RegisterAddress) : list Response.register_response -> M S (list Response.register_response) :=
  fun replies s es => (fix recv replies es :=
    match es with
    | Received r :: es =>
        if bool_decide (Register.address (Response.register r) = a) then recv (replies ++ [r]) es
        else recv replies es
    | Elapsed :: es => Some (Ok replies, s, es, [])
    | Closed :: es => Some (Err ResponsesClosed, s, es, [])
    | Cancelled :: es => Some (Err Interrupted, s, es, [])
    | _ => None
    end) replies es.

Definition broadcast_read (a : RegisterAddress) : M S (list Response.register_response) :=
  drain_stale ;!
  send (RegisterCommand.ReadRegister Destination.Broadcast a) ;!
  collect a [].

Definition write_readback (chip_address : Z) (r : Register.t) : M S unit :=
  write (Destination.Chip chip_address) r ;!
  do! actual := read chip_address (Register.address r) in
  if negb (bool_decide (actual = r)) then fail (ReadbackMismatch r actual) else ret tt.
End Client.
End RegisterClient.

(** ** The demultiplexer (reader.rs) *)
Module Reader.
Inductive item := Item (r : Response.t) | StreamError.

(** Routes a stream that ends, while both receivers live: the two channels' contents. *)
Fixpoint route (l : list item) : list Response.nonce_response * list Response.register_response :=
  match l with
  | [] | StreamError :: _ => ([], [])
  | Item (Response.Nonce n) :: l => let '(ns, rs) := route l in (n :: ns, rs)
  | Item (Response.ReadRegister r) :: l => let '(ns, rs) := route l in (ns, r :: rs)
  end.
End Reader.

(** ** What a read promises *)
Section Spec.
Context {S : Type} (chip : Z) (a : RegisterAddress).
Import RegisterClient.

(** No reply that would answer the read. *)
Definition no_match (es : list event) : Prop :=
  Forall (fun e => match e with Received r => matches chip a r = false | _ => True end) es.
Definition count_elapsed (es : list event) : nat :=
  length (base.filter (fun e => match e with Elapsed => true | _ => false end = true) es).

Lemma drain_spec (s : S) es r s' es' tr :
  drain_stale s es = Some (r, s', es', tr) ->
  exists stale, es = stale ++ NothingQueued :: es' /\ Forall (fun e => exists x, e = Received x) stale /\
    r = Ok tt /\ s' = s /\ tr = [].
Proof.
  revert s. induction es as [|[] es IH]; intros s; simpl; try done.
  - intros H. destruct (IH _ H) as (stale & -> & HF & -> & -> & ->).
    exists (Received r0 :: stale). split_and!; try done. constructor; [by exists r0|done].
  - intros [= <- <- <- <-]. by exists [].
Qed.

(** What ends the wait for a reply. *)
Definition window_end (r : result error (option Register.t)) (e : event) : Prop :=
  match r with
  | Ok (Some v) => exists x, e = Received x /\ matches chip a x = true /\ v = Response.register x
  | Ok None => e = Elapsed
  | Err ResponsesClosed => e = Closed
  | Err Interrupted => e = Cancelled
  | Err _ => False
  end.

Lemma matching_spec (s : S) es r s' es' tr :
  matching_response chip a s es = Some (r, s', es', tr) ->
  exists skipped e, es = skipped ++ e :: es' /\ no_match skipped /\ count_elapsed skipped = 0%nat /\
    window_end r e /\ s' = s /\ tr = [].
Proof.
  revert s. induction es as [|[] es IH]; intros s; simpl; try done.
  - destruct (matches chip a r0) eqn:Hm.
    + intros [= <- <- <- <-]. exists [], (Received r0). split_and!; try done; [constructor|by exists r0].
    + intros H. destruct (IH _ H) as (sk & e & -> & HF & Hc & Hw & -> & ->).
      exists (Received r0 :: sk), e. split_and!; try done. by constructor.
  - intros [= <- <- <- <-]. exists [], Elapsed. by split_and!; [|constructor| | | |].
  - intros [= <- <- <- <-]. exists [], Closed. by split_and!; [|constructor| | | |].
  - intros [= <- <- <- <-]. exists [], Cancelled. by split_and!; [|constructor| | | |].
Qed.

Definition request : action := SendRegister (RegisterCommand.ReadRegister (Destination.Chip chip) a).

(** How a read ends, from the outcomes it used and the requests it sent. *)
Definition read_end (k : nat) (r : result error Register.t) (used : list event) (requests : nat) : Prop :=
  (requests <= k)%nat /\
  match r with
  | Ok v => exists earlier x, used = earlier ++ [Received x] /\ no_match earlier /\
      Response.chip_address x = chip /\ Register.address v = a /\ v = Response.register x
  | Err (NoResponse c b n) => c = chip /\ b = a /\ n = ATTEMPTS /\ no_match used /\
      count_elapsed used = k /\ requests = k
  | Err SendError => no_match used /\ last used = Some Failed
  | Err ResponsesClosed => no_match used /\ last used = Some Closed
  | Err Interrupted => no_match used /\ last used = Some Cancelled
  | Err _ => False
  end.

Lemma matches_spec x : matches chip a x = true <-> Response.chip_address x = chip /\ Register.address (Response.register x) = a.
Proof. unfold matches. by rewrite andb_true_iff, Z.eqb_eq, bool_decide_eq_true. Qed.

Lemma last_app_singleton {A} (l1 l2 : list A) x : last l2 = Some x -> last (l1 ++ l2) = Some x.
Proof. intros H. by rewrite last_app, H. Qed.

Lemma count_elapsed_app l1 l2 : count_elapsed (l1 ++ l2) = (count_elapsed l1 + count_elapsed l2)%nat.
Proof. unfold count_elapsed. by rewrite filter_app, length_app. Qed.

(** An attempt that ran into its deadline, before the outcome of the later ones. *)
Lemma read_end_retry k r skipped used n :
  no_match skipped -> count_elapsed skipped = 0%nat -> read_end k r used n ->
  read_end (Datatypes.S k) r ((Done :: skipped ++ [Elapsed]) ++ used) (Datatypes.S n).
Proof.
  intros Hno Hel [Hle Hr].
  assert (Hpre : no_match (Done :: skipped ++ [Elapsed])).
  { constructor; [done|]. apply Forall_app. split; [done|by repeat constructor]. }
  assert (Hcount : count_elapsed (Done :: skipped ++ [Elapsed]) = 1%nat).
  { change (Done :: skipped ++ [Elapsed]) with ([Done] ++ skipped ++ [Elapsed]). by rewrite !count_elapsed_app, Hel. }
  assert (Hall : no_match used -> no_match ((Done :: skipped ++ [Elapsed]) ++ used)) by (intros; by apply Forall_app).
  split; [lia|]. destruct r as [v|[]]; try done.
  - destruct Hr as (ea & x & -> & Hn & H1 & H2 & H3). exists ((Done :: skipped ++ [Elapsed]) ++ ea), x.
    split_and!; try done; [by rewrite app_assoc|]. by apply Forall_app.
  - destruct Hr as [H1 H2]. split; [auto|by apply last_app_singleton].
  - destruct Hr as (-> & -> & -> & H1 & H2 & H3). split_and!; auto. rewrite count_elapsed_app, Hcount. lia.
  - destruct Hr as [H1 H2]. split; [auto|by apply last_app_singleton].
  - destruct Hr as [H1 H2]. split; [auto|by apply last_app_singleton].
Qed.

(** An attempt that ends the read. *)
Lemma read_end_final k r skipped e :
  no_match skipped -> window_end r e ->
  match r with
  | Ok None => True
  | Ok (Some v) => read_end (Datatypes.S k) (Ok v) (Done :: skipped ++ [e]) 1
  | Err e' => read_end (Datatypes.S k) (Err e') (Done :: skipped ++ [e]) 1
  end.
Proof.
  intros Hno Hend. destruct r as [[v|]|e']; [|done|].
  - destruct Hend as (x & -> & [H1 H2]%matches_spec & ->). split; [lia|].
    exists (Done :: skipped), x. split_and!; try done. by constructor.
  - split; [lia|]. destruct e'; simpl in Hend; try done; subst e;
      (split; [constructor; [done|]; apply Forall_app; split; [done|by repeat constructor]
              |by apply (last_app_singleton (Done :: skipped) [_])]).
Qed.

Lemma attempts_spec k (s : S) es r s' es' tr :
  attempts k chip a s es = Some (r, s', es', tr) ->
  s' = s /\ exists used, es = used ++ es' /\ tr = repeat request (length tr) /\ read_end k r used (length tr).
Proof.
  revert s es r s' es' tr. induction k as [|k IH]; intros s es r s' es' tr.
  - simpl. intros [= <- <- <- <-]. split; [done|]. exists []. split_and!; try done. split; [done|].
    split_and!; try done. constructor.
  - cbn [attempts]. unfold bind at 1. unfold send, perform. destruct es as [|[] es]; try done.
    2: { intros [= <- <- <- <-]. split; [done|]. exists [Failed]. split_and!; try done.
         split; [simpl; lia|]. split; [by repeat constructor|done]. }
    2: { intros [= <- <- <- <-]. split; [done|]. exists [Cancelled]. split_and!; try done.
         split; [simpl; lia|]. split; [by repeat constructor|done]. }
    unfold bind. destruct (matching_response chip a s es) as [[[[r1 s1] es1] tr1]|] eqn:Hm; [|done].
    destruct (matching_spec _ _ _ _ _ _ Hm) as (sk & e & -> & Hno & Hel & Hend & -> & ->).
    pose proof (read_end_final k r1 sk e Hno Hend) as Hfin.
    destruct r1 as [[v|]|e1].
    + intros [= <- <- <- <-]. split; [done|]. exists (Done :: sk ++ [e]). simpl. by rewrite <- app_assoc.
    + simpl in Hend. subst e. destruct (attempts k chip a s es1) as [[[[r2 s2] es2] tr2]|] eqn:Ha; [|done].
      destruct (IH _ _ _ _ _ _ Ha) as (-> & used & -> & Htr & Hr).
      pose proof (read_end_retry _ _ _ _ _ Hno Hel Hr) as Hgoal.
      destruct r2; intros [= <- <- <- <-]; (split; [done|]); exists ((Done :: sk ++ [Elapsed]) ++ used);
        (split; [simpl; by rewrite <- !app_assoc|]); (split; [simpl; f_equal; exact Htr|exact Hgoal]).
    + intros [= <- <- <- <-]. split; [done|]. exists (Done :: sk ++ [e]). simpl. by rewrite <- app_assoc.
Qed.

(** Windows that pass without an answer, then one with it. *)
Lemma attempts_answered k (s : S) windows final x rest :
  Forall (fun w => no_match w /\ Forall (fun e => exists r, e = Received r) w) (windows ++ [final]) ->
  (length windows < k)%nat -> matches chip a x = true ->
  attempts k chip a s (mjoin (map (fun w => Done :: w ++ [Elapsed]) windows) ++ Done :: final ++ Received x :: rest) =
    Some (Ok (Response.register x), s, rest, repeat request (Datatypes.S (length windows))).
Proof.
  intros HF Hk Hx. revert windows HF Hk. induction k as [|k IH]; intros windows HF Hk; [lia|].
  assert (Hskip : forall w es, no_match w -> Forall (fun e => exists r, e = Received r) w ->
            matching_response chip a s (w ++ es) = matching_response chip a s es).
  { intros w es Hno Hall. induction Hall as [|e w [r ->] _ IHw]; [done|]. inversion Hno; subst. simpl.
    by rewrite H1, IHw. }
  destruct windows as [|w windows]; cbn [map mjoin list_join app] in *; unfold attempts; fold (@attempts S);
    unfold bind, send, perform.
  - apply Forall_singleton in HF as [Hn Hr]. rewrite (Hskip final) by done. simpl. by rewrite Hx.
  - apply Forall_cons in HF as [[Hn Hr] HF]. rewrite <- !app_assoc. rewrite (Hskip w) by done. simpl.
    rewrite IH; [done|done|simpl in Hk; lia].
Qed.

(** A register read takes no answer but its own.  Whatever else is on the bus,
    a read first discards what was queued before it; it then sends one to three
    identical requests, and if it returns a value, that is the register asked for,
    in a reply from the chip asked, received after the first request, and no
    earlier such reply was passed over; it gives up only after three deadlines
    with no such reply, or when the bus fails.  Conversely it returns the first
    such reply that comes before the third deadline. *)
Theorem register_read_pairs (s : S) es r s' es' tr :
  read chip a s es = Some (r, s', es', tr) ->
  (exists stale used,
    es = stale ++ NothingQueued :: used ++ es' /\ Forall (fun e => exists x, e = Received x) stale /\
    tr = repeat request (length tr) /\ read_end 3 r used (length tr)) /\
  (forall stale windows final x rest,
    Forall (fun e => exists x, e = Received x) stale ->
    Forall (fun w => no_match w /\ Forall (fun e => exists r, e = Received r) w) (windows ++ [final]) ->
    (length windows < 3)%nat -> matches chip a x = true ->
    exists tr', read chip a s (stale ++ NothingQueued :: mjoin (map (fun w => Done :: w ++ [Elapsed]) windows) ++
                       Done :: final ++ Received x :: rest) = Some (Ok (Response.register x), s, rest, tr')).
Proof.
  intros H. split.
  - revert H. unfold read, bind. destruct (drain_stale s es) as [[[[r0 s0] es0] tr0]|] eqn:Hd; [|done].
    destruct (drain_spec _ _ _ _ _ _ Hd) as (stale & -> & Hst & -> & -> & ->).
    destruct (attempts ATTEMPTS chip a s es0) as [[[[r2 s2] es2] tr2]|] eqn:Ha; [|done].
    destruct (attempts_spec _ _ _ _ _ _ _ Ha) as (-> & used & -> & Htr & Hend).
    intros [= <- <- <- <-]. by exists stale, used.
  - intros stale windows final x rest Hst HF Hlen Hx. unfold read, bind.
    assert (Hdrain : forall es, drain_stale s (stale ++ NothingQueued :: es) = Some (Ok tt, s, es, [])).
    { intros es0. induction Hst as [|e l [y ->] _ IH]; [done|]. simpl. exact IH. }
    rewrite Hdrain, attempts_answered by done. by eexists.
Qed.
End Spec.

(** A stale reply, a deadline, a reply of another chip, then the answer. *)
Lemma register_read_pairs_witness :
  let reply c := Response.MkReg c (Register.TicketMask (TicketMask.Mk 255)) in
  let es := [Received (reply 2); NothingQueued; Done; Elapsed; Done; Received (reply 4); Received (reply 2)] in
  exists r s' es' tr,
    RegisterClient.read 2 AddrTicketMask tt es = Some (r, s', es', tr) /\
    exists stale used,
      es = stale ++ NothingQueued :: used ++ es' /\ Forall (fun e => exists x, e = Received x) stale /\
      tr = repeat (request 2 AddrTicketMask) (length tr) /\ read_end 2 AddrTicketMask 3 r used (length tr).
Proof.
  intros reply es.
  exists (Ok (Register.TicketMask (TicketMask.Mk 255))), tt, [], (repeat (request 2 AddrTicketMask) 2).
  assert (H : RegisterClient.read 2 AddrTicketMask tt es =
            Some (Ok (Register.TicketMask (TicketMask.Mk 255)), tt, [], repeat (request 2 AddrTicketMask) 2))
    by reflexivity.
  split; [exact H|]. exact (proj1 (register_read_pairs 2 AddrTicketMask tt es _ _ _ _ H)).
Defined.
