(* ===== verification/HashThread.v ===== *)
(** * The hash thread of a BM13xx chain (asic/bm13xx/thread.rs)

    The actor's state, its command handlers and its loop.  Handlers that await
    run in the monad of RegisterClient, whose state is the chain.  What the
    bitcoin crate computes is the class [Bitcoin]. *)
From stdpp Require Import base numbers list.
From Stdlib Require Import ZArith Lia.
From S2P Require Import Prelude Float U256 Version Extranonce Job Estimator ShareRate Register Chain ChipConfig Command Response RegisterClient.
#[local] Open Scope bus_scope.

(** ** What the bitcoin crate computes *)
Record BlockHeader := MkHeader {
  h_version : Z; h_prev_blockhash : list Z; h_merkle_root : list Z; h_time : Z; h_bits : Z; h_nonce : Z }.

Class Bitcoin := {
  txid : list Z -> option (list Z);
  sha256d : list Z -> list Z;
  block_hash : BlockHeader -> list Z;
  target_met_by : Z -> list Z -> bool }.

(** A task with the channel its shares go to. *)
Record Task := MkTask { ht : HashTask; share_tx : nat }.

(** ** ChipJobTracker *)
Module ChipJobTracker.
Record t := Mk { tasks : list (option Task); next_id : Z }.
Definition new : t := Mk (repeat None 16) 0.

(** The id, and the tracker with the task stored under it; the array has 16 places. *)
Definition insert (c : t) (task : Task) : Z * t :=
  let chip_job_id := next_id c in
  (chip_job_id,
   Mk (<[Z.to_nat chip_job_id := Some task]> (tasks c)) (wrap 8 (next_id c + 1) mod Z.of_nat (length (tasks c)))).

Definition get (c : t) (chip_job_id : Z) : option Task := mjoin (tasks c !! Z.to_nat chip_job_id).
Definition clear (c : t) : t := Mk (repeat None 16) (next_id c).
End ChipJobTracker.

(** ** Jobs for the chips *)
Section Jobs.
Context `{B : Bitcoin}.

Inductive job_error := ExtranonceRequired | MerkleRootFailed.

Definition task_to_job_full (task : HashTask) (chip_job_id : Z) : result job_error JobFull.t :=
  let tmpl := template task in
  (let? root :=
     match merkle_root tmpl with
     | Computed _ =>
         let? e := ok_or (task_extranonce task) ExtranonceRequired in
         ok_or (job_merkle_root txid sha256d tmpl e) MerkleRootFailed
     | Fixed root => Ok root
     end in
   Ok (JobFull.Mk chip_job_id 1 0 (bits tmpl) (task_ntime task) root (prev_blockhash tmpl)
         (VersionTemplate.base (version tmpl))))%res.
End Jobs.

(** ** The actor *)
Record actor := Actor {
  config : ChipConfig.t;
  chain : Chain.t;
  asic_difficulty : Log2Difficulty.t;
  chain_initialized : bool;
  current_task : option Task;
  chip_jobs : ChipJobTracker.t;
  is_active : bool }.

Definition with_chain (a : actor) x := Actor (config a) x (asic_difficulty a) (chain_initialized a) (current_task a) (chip_jobs a) (is_active a).
Definition with_initialized (a : actor) x := Actor (config a) (chain a) (asic_difficulty a) x (current_task a) (chip_jobs a) (is_active a).
Definition with_task (a : actor) x := Actor (config a) (chain a) (asic_difficulty a) (chain_initialized a) x (chip_jobs a) (is_active a).
Definition with_jobs (a : actor) x := Actor (config a) (chain a) (asic_difficulty a) (chain_initialized a) (current_task a) x (is_active a).
Definition set_active (a : actor) x := Actor (config a) (chain a) (asic_difficulty a) (chain_initialized a) (current_task a) (chip_jobs a) x.

(** [Actor::new]: [ShareRate::per_second(1.0)] never fails, the topology may. *)
Definition new_actor `{Ruint} `{BitcoinPow} `{FloatLib} (integer_decode : float -> Z * Z)
    (cfg : ChipConfig.t) (topology : Topology.t) : option actor :=
  rate ← ShareRate.per_second f64_one;
  difficulty ← ShareRate.to_difficulty integer_decode rate (ChipConfig.nameplate cfg);
  ch ← Chain.from_topology topology;
  Some (Actor cfg ch (Log2Difficulty.from_difficulty difficulty) false None ChipJobTracker.new false).

(** ** Bring-up *)
Definition broadcast (r : Register.t) : RegisterCommand.t := RegisterCommand.WriteRegister Destination.Broadcast r.
Definition directed (chip : Chain.chip) (r : Register.t) : RegisterCommand.t :=
  RegisterCommand.WriteRegister (Destination.Chip (Chain.address chip)) r.

Definition midstate_rolling : Register.t := Register.MidstateConfig MidstateConfig.full_rolling.
Definition clock_delay : Register.t := Register.CoreMailbox (CoreCommand.write_all CoreRegister.ClockDelay 0x0C).
Definition core_enable : Register.t := Register.CoreMailbox (CoreCommand.write_all CoreRegister.CoreEnable 0xAA).

(** What each chip is told on its own. *)
Definition chip_writes (cfg : ChipConfig.t) : list Register.t :=
  [Register.SoftResetControl (ChipConfig.core_reset cfg); Register.MiscControl (ChipConfig.misc_control cfg);
   Register.CoreMailbox (ChipConfig.clock_select cfg); clock_delay; core_enable].

(** What each chip should answer at the end. *)
Definition expected_readback (cfg : ChipConfig.t) (mask : TicketMask.t) (pll : PllDivider.t) : list Register.t :=
  [Register.MiscControl (ChipConfig.misc_control cfg); Register.TicketMask mask;
   Register.PllDivider (PllDivider.Mk true (PllDivider.pll_en pll) (PllDivider.bypass pll) (PllDivider.vco_sel pll)
      (PllDivider.fb_div pll) (PllDivider.ref_div pll) (PllDivider.post_div pll))].

Definition verify (address : Z) (register : Register.t) : M Chain.t unit :=
  do! actual := RegisterClient.read address (Register.address register) in
  if negb (bool_decide (actual = register)) then fail (ChipMismatch address register actual) else ret tt.

Definition initialize_chain (cfg : ChipConfig.t) (difficulty : Log2Difficulty.t) : M Chain.t unit :=
  perform EnableRail RailFailed ;! sleep ;!
  perform ReleaseReset ResetFailed ;! sleep ;!
  for_each (fun _ => send (broadcast midstate_rolling) ;! sleep) (seq 0 3) ;! sleep ;!
  do! replies := RegisterClient.broadcast_read AddrChipId in
  do! c := get in
  (if negb (length replies =? length (Chain.chips c))%nat
   then fail (ChipCount (length replies) (length (Chain.chips c))) else ret tt) ;!
  send (broadcast (Register.SoftResetControl (ChipConfig.soft_reset_defaults cfg))) ;!
  send (broadcast (Register.MiscControl (ChipConfig.misc_control cfg))) ;!
  send RegisterCommand.ChainInactive ;!
  (match Chain.assign_addresses c with Err _ => fail AddressingFailed | Ok c => put c end) ;!
  do! c := get in
  for_each (fun chip => send (RegisterCommand.SetChipAddress (Chain.address chip))) (Chain.chips c) ;!
  send (broadcast (Register.CoreMailbox (ChipConfig.clock_select cfg))) ;!
  send (broadcast clock_delay) ;!
  send (broadcast (Register.TicketMask (TicketMask.new difficulty))) ;!
  send (broadcast (Register.IoDriverStrength IoDriverStrength.normal)) ;!
  for_each (fun chip => for_each (fun r => send (directed chip r)) (chip_writes cfg)) (Chain.chips c) ;!
  send (broadcast (Register.AdcCtrl1 Opaque4.adc_bring_up)) ;!
  send (broadcast (Register.AnalogMux (ChipConfig.analog_mux cfg))) ;!
  send (broadcast (Register.AdcCtrl1 Opaque4.adc_bring_up)) ;!
  send (broadcast (Register.CoreMailbox (CoreCommand.nonce_bin_overflow true))) ;!
  for_each (fun pll => send (broadcast (Register.PllDivider pll)) ;! sleep)
    (ChipConfig.generate_frequency_ramp_steps cfg (ChipConfig.freq_range cfg).1
       (ChipConfig.default_freq cfg) (ChipConfig.ramp_step cfg)) ;!
  send (broadcast (Register.HashCountingNumber (ChipConfig.hash_counting_number cfg))) ;!
  send (broadcast midstate_rolling) ;! sleep ;!
  match ChipConfig.calculate_pll cfg (ChipConfig.default_freq cfg) with
  | None => fail NoPllSolution
  | Some target_pll =>
      for_each (fun address =>
          for_each (verify address) (expected_readback cfg (TicketMask.new difficulty) target_pll))
        (map Chain.address (Chain.chips c))
  end.

(** ** Commands *)

(** What the actor gives to the rest of the program. *)
Inductive output :=
| Act (a : action)
| Tell (e : HashThreadEvent)
| Respond (r : result (error + job_error) (option Task))
| ShareSent (channel : nat) (s : Share).

Inductive flow := Continue | Break.

(** The outcome of a handler: the actor, its outputs in order, the outcomes left, the flow. *)
Definition outcome : Type := actor * list output * list event * flow.

Section Actor.
Context `{B : Bitcoin} `{R : Ruint} `{P : BitcoinPow}.

Definition ensure_chain_initialized (a : actor) (es : list event) :
    option (result error unit * actor * list event * list action) :=
  if chain_initialized a then
    (* the select may still take the shutdown branch first *)
    match es with
    | Cancelled :: es => Some (Err Interrupted, a, es, [])
    | _ => Some (Ok tt, a, es, [])
    end
  else
    match initialize_chain (config a) (asic_difficulty a) (chain a) es with
    | None => None
    | Some (Ok _, c, es, tr) => Some (Ok tt, with_initialized (with_chain a c) true, es, tr)
    | Some (Err e, c, es, tr) => Some (Err e, with_chain a c, es, tr)
    end.

(** Sending a job: the outcome of the one await. *)
Definition send_job (j : JobFull.t) (es : list event) : option (bool * list event) :=
  match es with
  | Done :: es => Some (true, es)
  | Failed :: es => Some (false, es)
  | _ => None
  end.

Definition assign_task (a : actor) (new_task : Task) (replace : bool) (es : list event) : option outcome :=
  '(r, a, es, tr) ← ensure_chain_initialized a es;
  let out := map Act tr in
  match r with
  | Err Interrupted => Some (a, out ++ [Respond (Err (inl Interrupted))], es, Break)
  | Err e => Some (a, out ++ [Respond (Err (inl e))], es, Continue)
  | Ok _ =>
      let a := if replace then with_jobs a (ChipJobTracker.clear (chip_jobs a)) else a in
      let '(chip_job_id, jobs) := ChipJobTracker.insert (chip_jobs a) new_task in
      let a := with_jobs a jobs in
      let old_task := current_task a in
      let a := with_task a (Some new_task) in
      match task_to_job_full (ht new_task) chip_job_id with
      | Ok job =>
          '(sent, es) ← send_job job es;
          if negb sent
          then Some (a, out ++ [Act (SendJob job); Respond (Err (inl SendError))], es, Continue)
          else Some (set_active a true, out ++ [Act (SendJob job); Respond (Ok old_task)], es, Continue)
      | Err e => Some (a, out ++ [Respond (Err (inr e))], es, Continue)
      end
  end.

Definition go_idle (a : actor) : actor * list output :=
  let old_task := current_task a in
  (set_active (with_task a None) false, [Respond (Ok old_task)]).

Definition configure (a : actor) : list output := [Tell (ExpectedHashRate (ChipConfig.nameplate (config a)))].

(** ** Nonces *)
Definition nonce_header (task : HashTask) (root : list Z) (n : Response.nonce_response) : BlockHeader :=
  let tmpl := template task in
  MkHeader (GpBits.apply_to_version (Response.version n) (VersionTemplate.base (version tmpl)))
    (prev_blockhash tmpl) root (task_ntime task) (bits tmpl) (Response.nonce n).

(** [None] when the work of the ticket mask cannot be computed (a division by zero). *)
Definition handle_nonce (a : actor) (n : Response.nonce_response) : option (list output) :=
  match ChipJobTracker.get (chip_jobs a) (Response.job_id n) with
  | None => Some []
  | Some task =>
      let tmpl := template (ht task) in
      match e ← task_extranonce (ht task); job_merkle_root txid sha256d tmpl e with
      | None => Some []
      | Some root =>
          let header := nonce_header (ht task) root n in
          let hash := block_hash header in
          if target_met_by (task_share_target (ht task)) hash then
            asic_work ← Log2Difficulty.to_work_of (asic_difficulty a);
            let expected_work := Z.max asic_work (to_work (task_share_target (ht task))) in
            Some [ShareSent (share_tx task)
                    (MkShare (Response.nonce n) hash (h_version header) (task_ntime (ht task))
                       (task_extranonce (ht task)) expected_work)]
          else Some []
      end
  end.

(** ** Rolling ntime *)
Definition with_ntime (t : Task) (ntime : Z) : Task :=
  MkTask (Job.MkTask (template (ht t)) (extranonce_range (ht t)) (task_extranonce (ht t)) (task_share_target (ht t)) ntime)
    (share_tx t).

Definition roll_ntime (a : actor) (es : list event) : option (actor * list output * list event) :=
  task ← current_task a;
  let task := with_ntime task (wrap 32 (task_ntime (ht task) + 1)) in
  let a := with_task a (Some task) in
  let '(chip_job_id, jobs) := ChipJobTracker.insert (chip_jobs a) task in
  let a := with_jobs a jobs in
  match task_to_job_full (ht task) chip_job_id with
  | Ok job => '(_, es) ← send_job job es; Some (a, [Act (SendJob job)], es)
  | Err _ => Some (a, [], es)
  end.

(** ** The loop *)
Inductive input :=
| ShutdownSignal
| HandleDropped
| Configure
| UpdateTask (t : Task)
| ReplaceTask (t : Task)
| GoIdle
| NonceReport (n : Response.nonce_response)
| RegisterReply (r : Response.register_response)
| StreamEnded
| NtimeTick.

Definition step (a : actor) (i : input) (es : list event) : option outcome :=
  match i with
  | ShutdownSignal => Some (set_active a false, [], es, Break)
  | HandleDropped | StreamEnded => Some (a, [], es, Break)
  | Configure => Some (a, configure a, es, Continue)
  | UpdateTask t => assign_task a t false es
  | ReplaceTask t => assign_task a t true es
  | GoIdle => let '(a, out) := go_idle a in Some (a, out, es, Continue)
  | NonceReport n => out ← handle_nonce a n; Some (a, out, es, Continue)
  | RegisterReply _ => Some (a, [], es, Continue)
  | NtimeTick => '(a, out, es) ← roll_ntime a es; Some (a, out, es, Continue)
  end.

(** [disable_chain]: both writes are tried, whatever their outcome. *)
Definition disable_chain : list output := [Act AssertReset; Act DisableRail].

(** The loop on a list of inputs; [None] when an input cannot be taken. *)
Fixpoint loop (a : actor) (inputs : list input) (es : list event) : option (actor * list output * list event * flow) :=
  match inputs with
  | [] => Some (a, [], es, Continue)
  | i :: inputs =>
      '(a, out, es, f) ← step a i es;
      match f with
      | Break => Some (a, out, es, Break)
      | Continue => '(a, out', es, f) ← loop a inputs es; Some (a, out ++ out', es, f)
      end
  end.

(** The outputs of a run, so far or, after a [Break], to the end. *)
Definition run (a : actor) (inputs : list input) (es : list event) : option (list output) :=
  '(_, out, _, f) ← loop a inputs es;
  Some (Act AssertReset :: out ++ match f with Break => disable_chain | Continue => [] end).
End Actor.
