(* ===== verification/HashThreadProps.v ===== *)
(** * What the hash thread promises

    Chip job ids, the shares made of nonces, bring-up, and the order of it all. *)
From stdpp Require Import base numbers list strings.
From Stdlib Require Import ZArith Lia.
From S2P Require Import Prelude Float U256 Version Extranonce Job Estimator ShareRate Register Chain ChipConfig Command Response RegisterClient HashThread.
#[local] Open Scope bus_scope.

(** ** Chip job ids *)
Inductive tracker_op := Insert (t : Task) | Clear.

Definition tracker_run (c : ChipJobTracker.t) (op : tracker_op) : ChipJobTracker.t :=
  match op with
  | Insert t => (ChipJobTracker.insert c t).2
  | Clear => ChipJobTracker.clear c
  end.

(** The tasks inserted since the last clear, newest first. *)
Definition recent (l : list Task) (op : tracker_op) : list Task :=
  match op with Insert t => t :: l | Clear => [] end.

(** The place of the [i]th newest task. *)
Definition tracks (c : ChipJobTracker.t) (l : list Task) : Prop :=
  length (ChipJobTracker.tasks c) = 16%nat /\ 0 <= ChipJobTracker.next_id c < 16 /\
  forall i, (i < 16)%nat ->
    ChipJobTracker.tasks c !! Z.to_nat ((ChipJobTracker.next_id c - 1 - Z.of_nat i) mod 16) = Some (l !! i).

Lemma tracks_clear c l : tracks c l -> tracks (ChipJobTracker.clear c) [].
Proof.
  intros (_ & Hn & _). split_and!; [done|simpl; lia|simpl; lia|]. intros i Hi. simpl.
  pose proof (Z.mod_pos_bound (ChipJobTracker.next_id c - 1 - Z.of_nat i) 16 ltac:(lia)).
  change [None; None; None; None; None; None; None; None; None; None; None; None; None; None; None; None]
    with (replicate 16 (None : option Task)).
  rewrite lookup_replicate_2 by lia. done.
Qed.

Lemma tracks_insert c l t :
  tracks c l -> (ChipJobTracker.insert c t).1 = ChipJobTracker.next_id c /\
  tracks (ChipJobTracker.insert c t).2 (t :: l).
Proof.
  intros (Hlen & Hn & Ht). split; [done|]. unfold ChipJobTracker.insert. simpl.
  assert (Hw : wrap 8 (ChipJobTracker.next_id c + 1) = ChipJobTracker.next_id c + 1) by (apply wrap_id; unfold uint; lia).
  split_and!; simpl; rewrite ?length_insert, ?Hlen, ?Hw; change (Z.of_nat 16) with 16; [done| | |].
  1,2: pose proof (Z.mod_pos_bound (ChipJobTracker.next_id c + 1) 16 ltac:(lia)); lia.
  intros i Hi.
  assert (Hmod : forall x y, (x mod 16 - 1 - y) mod 16 = (x - 1 - y) mod 16)
    by (intros x y; rewrite <- !Z.sub_add_distr; apply Zminus_mod_idemp_l).
  rewrite Hmod.
  destruct i as [|i].
  - replace (ChipJobTracker.next_id c + 1 - 1 - Z.of_nat 0) with (ChipJobTracker.next_id c) by lia.
    rewrite Z.mod_small by lia. rewrite list_lookup_insert_eq by lia. done.
  - replace (ChipJobTracker.next_id c + 1 - 1 - Z.of_nat (S i)) with (ChipJobTracker.next_id c - 1 - Z.of_nat i) by lia.
    rewrite list_lookup_insert_ne; [apply Ht; lia|]. intros Heq. apply Z2Nat.inj in Heq; [|lia|apply Z.mod_pos_bound; lia].
    pose proof (Z.div_mod (ChipJobTracker.next_id c - 1 - Z.of_nat i) 16 ltac:(lia)) as Hd. lia.
Qed.

Lemma tracks_run ops :
  tracks (fold_left tracker_run ops ChipJobTracker.new) (fold_left recent ops []).
Proof.
  induction ops as [|op ops IH] using rev_ind.
  - split_and!; [done|simpl; lia|simpl; lia|]. intros i Hi. do 16 (destruct i as [|i]; [done|]). lia.
  - rewrite !fold_left_app. simpl. destruct op as [t|]; simpl; [by apply tracks_insert|by eapply tracks_clear].
Qed.

Lemma tracks_get c l id t :
  tracks c l -> 0 <= id ->
  ChipJobTracker.get c id = Some t <->
  exists i, (i < 16)%nat /\ l !! i = Some t /\ id = (ChipJobTracker.next_id c - 1 - Z.of_nat i) mod 16.
Proof.
  intros (Hlen & Hn & Ht) Hid. unfold ChipJobTracker.get. split.
  - intros Hg. destruct (ChipJobTracker.tasks c !! Z.to_nat id) as [o|] eqn:Hl; [|done]. simpl in Hg. subst o.
    assert (Hlt : id < 16) by (apply lookup_lt_Some in Hl; lia).
    set (i := (ChipJobTracker.next_id c - 1 - id) mod 16).
    pose proof (Z.mod_pos_bound (ChipJobTracker.next_id c - 1 - id) 16 ltac:(lia)) as Hi. fold i in Hi.
    assert (Hid' : id = (ChipJobTracker.next_id c - 1 - Z.of_nat (Z.to_nat i)) mod 16).
    { rewrite Z2Nat.id by lia. unfold i. rewrite Zminus_mod_idemp_r.
      replace (ChipJobTracker.next_id c - 1 - (ChipJobTracker.next_id c - 1 - id)) with id by lia.
      by rewrite Z.mod_small by lia. }
    exists (Z.to_nat i). split_and!; [lia| |done].
    specialize (Ht (Z.to_nat i) ltac:(lia)). rewrite <- Hid', Hl in Ht. by injection Ht as ->.
  - intros (i & Hi & Hl & ->). rewrite (Ht i Hi), Hl. done.
Qed.

Lemma insert_get c l t : tracks c l ->
  ChipJobTracker.get (ChipJobTracker.insert c t).2 (ChipJobTracker.insert c t).1 = Some t.
Proof.
  intros (Hlen & Hn & _). unfold ChipJobTracker.insert, ChipJobTracker.get. simpl.
  by rewrite list_lookup_insert_eq by lia.
Qed.

(** Chip job ids stand for the last sixteen jobs.  However jobs are sent and
    forgotten, the job under an id is the one it was last given to, provided that
    is among the sixteen newest jobs since the last clearing, and none otherwise:
    the newest job has the id handed out last, the one before it the id before,
    and so on round the sixteen ids. *)
Theorem chip_jobs_keep_last_16 ops id t :
  0 <= id ->
  let c := fold_left tracker_run ops ChipJobTracker.new in
  ChipJobTracker.get c id = Some t <->
  exists i, (i < 16)%nat /\ fold_left recent ops [] !! i = Some t /\
    id = (ChipJobTracker.next_id c - 1 - Z.of_nat i) mod 16.
Proof. intros Hid. apply tracks_get; [apply tracks_run|done]. Qed.

Lemma chip_jobs_keep_last_16_witness :
  let t := MkTask (Job.MkTask (MkJob "a"%string [] (VersionTemplate.Mk 0 GpBits.none) 0 0 0 (Fixed [])) None None 0 7) 0 in
  let ops := repeat (Insert t) 17 in
  let c := fold_left tracker_run ops ChipJobTracker.new in
  ChipJobTracker.get c 0 = Some t <->
  exists i, (i < 16)%nat /\ fold_left recent ops [] !! i = Some t /\
    0 = (ChipJobTracker.next_id c - 1 - Z.of_nat i) mod 16.
Proof. intros t ops c. apply (chip_jobs_keep_last_16 ops 0 t). lia. Defined.

(** ** Shares *)
Section Shares.
Context `{B : Bitcoin} `{R : Ruint} `{P : BitcoinPow}.

(** The header a chip hashes: the job's, with its nonce and rolled version bits. *)
Definition mined_header (j : JobFull.t) (n : Response.nonce_response) : BlockHeader :=
  MkHeader (GpBits.apply_to_version (Response.version n) (JobFull.version j)) (JobFull.prev_block_hash j)
    (JobFull.merkle_root j) (JobFull.ntime j) (JobFull.nbits j) (Response.nonce n).

(** The merkle root of a task's own extranonce. *)
Definition task_root (task : HashTask) : option (list Z) :=
  e ← task_extranonce task; job_merkle_root txid sha256d (template task) e.

Definition job_of (task : HashTask) (id : Z) (root : list Z) : JobFull.t :=
  JobFull.Mk id 1 0 (bits (template task)) (task_ntime task) root (prev_blockhash (template task))
    (VersionTemplate.base (version (template task))).

Lemma task_to_job_spec task id job :
  task_to_job_full task id = Ok job /\ (exists m, merkle_root (template task) = Computed m) <->
  exists root, task_root task = Some root /\ job = job_of task id root.
Proof.
  unfold task_to_job_full, task_root, job_merkle_root. split.
  - intros [Hj [m Hm]]. rewrite Hm in *. destruct (task_extranonce task) as [e|]; simpl in *; [|done].
    destruct (MerkleRootTemplate.compute_merkle_root txid sha256d m e) as [root|]; simpl in *; [|done].
    exists root. split; [done|]. by injection Hj as <-.
  - intros (root & Hr & ->). destruct (task_extranonce task) as [e|]; simpl in *; [|done].
    destruct (merkle_root (template task)) as [|m]; [done|]. rewrite Hr. split; [done|by exists m].
Qed.

Lemma handle_nonce_eq a n :
  handle_nonce a n =
  match (task ← ChipJobTracker.get (chip_jobs a) (Response.job_id n);
         root ← task_root (ht task); Some (task, job_of (ht task) (Response.job_id n) root)) with
  | None => Some []
  | Some (task, job) =>
      if target_met_by (task_share_target (ht task)) (block_hash (mined_header job n)) then
        work ← Log2Difficulty.to_work_of (asic_difficulty a);
        Some [ShareSent (share_tx task)
                (MkShare (Response.nonce n) (block_hash (mined_header job n)) (h_version (mined_header job n))
                   (JobFull.ntime job) (task_extranonce (ht task))
                   (Z.max work (to_work (task_share_target (ht task)))))]
      else Some []
  end.
Proof.
  unfold handle_nonce. destruct (ChipJobTracker.get _ _) as [task|]; [|done]. simpl.
  unfold task_root. destruct (task_extranonce (ht task)) as [e|] eqn:He; [|done]. simpl.
  destruct (job_merkle_root _ _ _ e); simpl; rewrite ?He; reflexivity.
Qed.

(** C11 A share is a solution of the job the chip was given.  A nonce report leads
    to a share exactly when a task with a computed merkle root is known under its
    job id and the hash of the very header encoded in the job frame for that task
    - with the reported nonce and the rolled version bits - meets the task's
    target; the share goes to that task's own channel and carries that hash and the
    header's nonce, time and version. *)
Theorem nonce_share_solves_job a n out :
  handle_nonce a n = Some out ->
  (forall ch s, ShareSent ch s ∈ out <->
    exists task job work,
      ChipJobTracker.get (chip_jobs a) (Response.job_id n) = Some task /\ ch = share_tx task /\
      task_to_job_full (ht task) (Response.job_id n) = Ok job /\
      (exists m, merkle_root (template (ht task)) = Computed m) /\
      target_met_by (task_share_target (ht task)) (block_hash (mined_header job n)) = true /\
      Log2Difficulty.to_work_of (asic_difficulty a) = Some work /\
      s = MkShare (Response.nonce n) (block_hash (mined_header job n)) (h_version (mined_header job n))
            (JobFull.ntime job) (task_extranonce (ht task))
            (Z.max work (to_work (task_share_target (ht task))))) /\
  (length out <= 1)%nat.
Proof.
  rewrite handle_nonce_eq. intros H.
  destruct (ChipJobTracker.get _ _) as [task|] eqn:Hg; simpl in H.
  2: { injection H as <-. split; [|simpl; lia]. intros ch s. split; [by intros ?%elem_of_nil|].
       intros (task & job & w & ? & _). congruence. }
  destruct (task_root (ht task)) as [root|] eqn:Hroot; simpl in H.
  2: { injection H as <-. split; [|simpl; lia]. intros ch s. split; [by intros ?%elem_of_nil|].
       intros (task' & job & w & [= <-] & _ & Hj & Hm & _).
       destruct (proj1 (task_to_job_spec _ _ _) (conj Hj Hm)) as (root & Hr & _). congruence. }
  destruct (proj2 (task_to_job_spec (ht task) (Response.job_id n) _) (ex_intro _ root (conj Hroot eq_refl))) as [Hjob Hm].
  set (job := job_of (ht task) (Response.job_id n) root) in *.
  destruct (target_met_by _ _) eqn:Hmet.
  - destruct (Log2Difficulty.to_work_of _) as [w|] eqn:Hw; [|done]. injection H as <-.
    split; [|simpl; lia]. intros ch s. rewrite list_elem_of_singleton. split.
    + intros [= -> ->]. by exists task, job, w.
    + intros (task' & job' & w' & [= <-] & -> & Hj' & _ & _ & [= <-] & ->).
      rewrite Hjob in Hj'. by injection Hj' as <-.
  - injection H as <-. split; [|simpl; lia]. intros ch s. split; [by intros ?%elem_of_nil|].
    intros (task' & job' & w' & [= <-] & _ & Hj' & _ & Hmet' & _).
    rewrite Hjob in Hj'. injection Hj' as <-. congruence.
Qed.

(** The version bits a pool allows are not looked at: if a nonce report's
    version bits go beyond the mask of the job's template, which the template's own
    check would refuse, a share with that version is sent all the same. *)
Theorem share_version_beyond_mask a n task root work :
  ChipJobTracker.get (chip_jobs a) (Response.job_id n) = Some task ->
  task_root (ht task) = Some root ->
  Log2Difficulty.to_work_of (asic_difficulty a) = Some work ->
  target_met_by (task_share_target (ht task))
    (block_hash (mined_header (job_of (ht task) (Response.job_id n) root) n)) = true ->
  GpBits.contains (VersionTemplate.gp_bits_mask (version (template (ht task)))) (Response.version n) = false ->
  VersionTemplate.apply_gp_bits (version (template (ht task))) (Response.version n) =
    Err (VersionTemplate.GpBitsExceedMask (Response.version n)
           (VersionTemplate.gp_bits_mask (version (template (ht task))))) /\
  exists s, handle_nonce a n = Some [ShareSent (share_tx task) s] /\
    s_version s = GpBits.apply_to_version (Response.version n) (VersionTemplate.base (version (template (ht task)))).
Proof.
  intros Hg Hroot Hw Hmet Hc. split.
  - unfold VersionTemplate.apply_gp_bits. by rewrite Hc.
  - rewrite handle_nonce_eq, Hg. simpl. rewrite Hroot. simpl. rewrite Hmet, Hw. simpl. by eexists.
Qed.

(** A job with a fixed merkle root is sent to the chips, but no nonce they find
    for it is ever made a share. *)
Theorem fixed_root_never_shares a n task root :
  ChipJobTracker.get (chip_jobs a) (Response.job_id n) = Some task ->
  merkle_root (template (ht task)) = Fixed root ->
  is_ok (task_to_job_full (ht task) (Response.job_id n)) = true /\ handle_nonce a n = Some [].
Proof.
  intros Hg Hm. split.
  - unfold task_to_job_full. by rewrite Hm.
  - rewrite handle_nonce_eq, Hg. simpl. unfold task_root, job_merkle_root. rewrite Hm.
    by destruct (task_extranonce (ht task)).
Qed.

(** Going idle does not stop the chips: nothing is sent to them, they keep the job
    they have, and a nonce they report still becomes a share; only the rolling of
    ntime stops. *)
Theorem go_idle_leaves_chips_mining a es n :
  exists a', step a GoIdle es = Some (a', [Respond (Ok (current_task a))], es, Continue) /\
    current_task a' = None /\ is_active a' = false /\ roll_ntime a' es = None /\
    handle_nonce a' n = handle_nonce a n.
Proof. by eexists. Qed.
End Shares.

(** ** Assignments and the order of things *)
Section Order.
Context `{B : Bitcoin} `{R : Ruint} `{P : BitcoinPow}.

Definition is_response (o : output) : bool := match o with Respond _ => true | _ => false end.
Definition responses (out : list output) : nat := length (List.filter is_response out).

(** The last output answers the command, the others do not. *)
Definition answers_last (out : list output) (r : result (error + job_error) (option Task)) : Prop :=
  exists before, out = before ++ [Respond r] /\ responses before = 0%nat.

Lemma responses_acts tr : responses (map Act tr) = 0%nat.
Proof. unfold responses. by induction tr. Qed.

Lemma responses_app l1 l2 : responses (l1 ++ l2) = (responses l1 + responses l2)%nat.
Proof. unfold responses. by rewrite List.filter_app, length_app. Qed.

Lemma ensure_keeps a es r a' es' tr :
  ensure_chain_initialized a es = Some (r, a', es', tr) ->
  current_task a' = current_task a /\ chip_jobs a' = chip_jobs a /\ is_active a' = is_active a /\
  (r = Ok tt -> chain_initialized a' = true).
Proof.
  unfold ensure_chain_initialized. destruct (chain_initialized a) eqn:Hi.
  - destruct es as [|[] es]; intros [= <- <- <- <-]; split_and!; try done; by intros.
  - destruct (initialize_chain _ _ _ _) as [[[[[u|e] c] es1] tr1]|]; [| |done]; intros [= <- <- <- <-]; by split_and!.
Qed.

(** An assignment is answered exactly once, as the last thing it does.  The
    answer is the old task when the job went out, and then the new task is the
    current one, the thread is active and the job was the last thing sent to the
    chips; after a replacement the chip job ids know no other task.  The loop ends
    only when a shutdown cut the bring-up short. *)
Theorem assignment_answered a l task replace es a' out es' f :
  tracks (chip_jobs a) l -> assign_task a task replace es = Some (a', out, es', f) ->
  exists r, answers_last out r /\
    (f = Break <-> r = Err (inl Interrupted)) /\
    match r with
    | Ok old =>
        old = current_task a /\ current_task a' = Some task /\ is_active a' = true /\
        chain_initialized a' = true /\
        (exists before id job, task_to_job_full (ht task) id = Ok job /\
           ChipJobTracker.get (chip_jobs a') id = Some task /\
           out = before ++ [Act (SendJob job); Respond r]) /\
        (replace = true -> forall id t, 0 <= id -> ChipJobTracker.get (chip_jobs a') id = Some t -> t = task)
    | Err _ => True
    end.
Proof.
  intros Htr. unfold assign_task.
  destruct (ensure_chain_initialized a es) as [[[[r a1] es1] tr]|] eqn:He; [|done].
  destruct (ensure_keeps _ _ _ _ _ _ He) as (Hct & Hcj & Hact & Hinit). cbn [mbind option_bind].
  assert (Hans : forall x, answers_last (map Act tr ++ [Respond x]) x)
    by (intros x; exists (map Act tr); split; [done|apply responses_acts]).
  destruct r as [[]|e].
  2: { destruct e; intros [= <- <- <- <-]; eexists; (split; [apply Hans|]); by split. }
  set (a2 := if replace then with_jobs a1 _ else a1).
  assert (H2 : exists l2, tracks (chip_jobs a2) l2 /\ current_task a2 = current_task a /\
            chain_initialized a2 = true /\ (replace = true -> l2 = [])).
  { unfold a2. destruct replace.
    - exists []. split_and!; [|done|by apply Hinit|done]. simpl. rewrite Hcj. by eapply tracks_clear.
    - exists l. rewrite Hcj. split_and!; [done|done|by apply Hinit|done]. }
  destruct H2 as (l2 & Htr2 & Hct2 & Hinit2 & Hrep).
  destruct (tracks_insert _ _ task Htr2) as [_ Htr3]. pose proof (insert_get _ _ task Htr2) as Hget.
  destruct (ChipJobTracker.insert (chip_jobs a2) task) as [id jobs]. simpl in Htr3, Hget.
  destruct (task_to_job_full (ht task) _) as [job|e] eqn:Hj.
  2: { intros [= <- <- <- <-]. eexists. split; [apply Hans|]. by split. }
  destruct (send_job job es1) as [[sent es2]|]; [|done]. cbn [mbind option_bind].
  destruct sent; simpl; intros [= <- <- <- <-].
  - exists (Ok (current_task a2)). split; [|split; [done|]].
    { exists (map Act tr ++ [Act (SendJob job)]). rewrite <- app_assoc. split; [done|].
      by rewrite responses_app, responses_acts. }
    split_and!; try done.
    + by exists (map Act tr), id, job.
    + intros Hr id' t Hid0 Hg. rewrite (Hrep Hr) in Htr3. apply (tracks_get _ _ id' t Htr3) in Hg as (i & _ & Hi & _); [|done].
      destruct i; simpl in Hi; [by injection Hi as ->|done].
  - exists (Err (inl SendError)). split; [|by split].
    exists (map Act tr ++ [Act (SendJob job)]). rewrite <- app_assoc. split; [done|].
    by rewrite responses_app, responses_acts.
Qed.
End Order.

(** ** The theorems at work *)
Section Examples.

(** A coinbase is its own id, a header hashes to its nonce, a small nonce is a solution. *)
Definition bitcoin_ref : Bitcoin := {|
  txid := Some; sha256d := fun l => l; block_hash := fun h => [h_nonce h];
  target_met_by := fun t hash => match hash with x :: _ => x <=? t | [] => false end |}.
Definition pow_ref : BitcoinPow :=
  {| target_max := 0xFFFF * 2 ^ 208; difficulty_float := fun _ => f_of_Z f64 1; to_work := fun t => 2 ^ 256 / (t + 1) |}.
#[local] Existing Instance bitcoin_ref.
#[local] Existing Instance ruint_ref.
#[local] Existing Instance pow_ref.

Definition template_ref (root : MerkleRootKind) : JobTemplate :=
  MkJob "a"%string [] (VersionTemplate.Mk 0x20000000 GpBits.none) 0x1d00ffff 1000 100 root.
Definition computed_ref : MerkleRootKind :=
  Computed (MerkleRootTemplate.Mk [1] [2] (ExtranonceRange.Mk 0 255 1) [3] []).
Definition task_ref (root : MerkleRootKind) : Task :=
  MkTask (Job.MkTask (template_ref root) None (Some (Extranonce.Mk 7 1)) 1000 100) 4.

(** A thread that is up and mines one task, as job 0. *)
Definition actor_ref (root : MerkleRootKind) : actor :=
  Actor ChipConfig.bm1370 (Chain.Mk [] []) (Log2Difficulty.Mk 8) true (Some (task_ref root))
    (ChipJobTracker.insert ChipJobTracker.new (task_ref root)).2 true.
Definition report_ref (nonce : Z) : Response.nonce_response := Response.MkNonce nonce 0 0 (GpBits.Mk 0 1) 0.

Definition share_ref : Share := MkShare 5 [5] 0x20002000 100 (Some (Extranonce.Mk 7 1)) (2 ^ 256 / 1001).

Lemma nonce_share_solves_job_witness :
  handle_nonce (actor_ref computed_ref) (report_ref 5) = Some [ShareSent 4 share_ref] /\
  exists task, ChipJobTracker.get (chip_jobs (actor_ref computed_ref)) 0 = Some task /\ share_tx task = 4%nat.
Proof.
  assert (H : handle_nonce (actor_ref computed_ref) (report_ref 5) = Some [ShareSent 4 share_ref])
    by (vm_compute; reflexivity).
  split; [exact H|].
  destruct (proj1 (proj1 (nonce_share_solves_job _ _ _ H) 4%nat share_ref)) as (task & _ & _ & Hg & Hc & _);
    [by left|]. exists task. split; [exact Hg|by rewrite Hc].
Defined.

Lemma share_version_beyond_mask_witness :
  exists s, handle_nonce (actor_ref computed_ref) (report_ref 5) = Some [ShareSent 4 s] /\ s_version s = 0x20002000.
Proof.
  exact (proj2 (share_version_beyond_mask (actor_ref computed_ref) (report_ref 5) (task_ref computed_ref) [1; 2; 7; 3] (2 ^ 256 / (0xFFFF * 2 ^ 200 + 1))
    eq_refl eq_refl eq_refl eq_refl eq_refl)).
Defined.

Lemma fixed_root_never_shares_witness :
  handle_nonce (actor_ref (Fixed [9])) (report_ref 5) = Some [].
Proof.
  exact (proj2 (fixed_root_never_shares (actor_ref (Fixed [9])) (report_ref 5) (task_ref (Fixed [9])) [9] eq_refl eq_refl)).
Defined.

Lemma assignment_answered_witness :
  let job := job_of (ht (task_ref computed_ref)) 1 [1; 2; 7; 3] in
  let answer := Ok (Some (task_ref computed_ref)) in
  exists a', assign_task (actor_ref computed_ref) (task_ref computed_ref) false [Done] =
      Some (a', [Act (SendJob job); Respond answer], [], Continue) /\
    answers_last [Act (SendJob job); Respond answer] answer.
Proof.
  intros job answer.
  assert (H : exists a', assign_task (actor_ref computed_ref) (task_ref computed_ref) false [Done] =
    Some (a', [Act (SendJob job); Respond answer], [], Continue)) by (eexists; vm_compute; reflexivity).
  destruct H as [a' H]. exists a'. split; [exact H|].
  destruct (assignment_answered (actor_ref computed_ref) _ _ _ _ _ _ _ _
    (proj2 (tracks_insert _ _ (task_ref computed_ref) (tracks_run []))) H) as (r & Hr & _).
  pose proof Hr as (before & Heq & _). apply (f_equal last) in Heq. rewrite last_snoc in Heq.
  injection Heq as Heq. subst r. exact Hr.
Defined.
End Examples.
