(* ===== verification/BringUp.v ===== *)
(** * Bring-up of a chain (initialize_chain of asic/bm13xx/thread.rs)

    What a successful bring-up has done and been answered ([bring_up_verified]), and
    that jobs come only after one ([jobs_only_after_bring_up]). *)
From stdpp Require Import base numbers list sets.
From Stdlib Require Import ZArith Lia.
From S2P Require Import Prelude Float U256 Version Extranonce Job Estimator ShareRate Register Chain ChipConfig Command Response RegisterClient HashThread HashThreadProps.
#[local] Open Scope bus_scope.

(** ** Programs that succeed in one way *)

Definition is_read (a : action) : bool :=
  match a with SendRegister (RegisterCommand.ReadRegister _ _) => true | _ => false end.
(** What was done to the chips and the board other than asking. *)
Definition writes (tr : list action) : list action := List.filter (fun a => negb (is_read a)) tr.

Lemma writes_app l1 l2 : writes (l1 ++ l2) = writes l1 ++ writes l2.
Proof. apply List.filter_app. Qed.

Section Emits.
Context {S : Type}.

Lemma bind_ok {A B} (m : M S A) (k : A -> M S B) s es b s' es' tr :
  bind m k s es = Some (Ok b, s', es', tr) ->
  exists a s1 es1 tr1 tr2, m s es = Some (Ok a, s1, es1, tr1) /\ k a s1 es1 = Some (Ok b, s', es', tr2) /\
    tr = tr1 ++ tr2.
Proof.
  unfold bind. destruct (m s es) as [[[[[a|e] s1] es1] tr1]|]; [|done|done].
  destruct (k a s1 es1) as [[[[r s2] es2] tr2]|] eqn:Hk; [|done]. intros [= -> <- <- <-].
  by exists a, s1, es1, tr1, tr2.
Qed.

(** When it succeeds, the state is as before and the writes are [ws]. *)
Definition Emits {A} (m : M S A) (ws : list action) : Prop :=
  forall s es b s' es' tr, m s es = Some (Ok b, s', es', tr) ->
    s' = s /\ writes tr = ws /\ exists used, es = used ++ es'.

Lemma emits_bind {A B} (m : M S A) (k : A -> M S B) w1 w2 :
  Emits m w1 -> (forall a, Emits (k a) w2) -> Emits (bind m k) (w1 ++ w2).
Proof.
  intros Hm Hk s es b s' es' tr (a & s1 & es1 & tr1 & tr2 & H1 & H2 & ->)%bind_ok.
  apply Hm in H1 as (-> & <- & used1 & ->). apply Hk in H2 as (-> & <- & used2 & ->).
  split_and!; [done|by rewrite writes_app|]. exists (used1 ++ used2). by rewrite app_assoc.
Qed.

Lemma emits_ret {A} (a : A) : Emits (ret a) [].
Proof. intros s es b s' es' tr [= <- <- <- <-]. split_and!; try done. by exists []. Qed.

Lemma emits_fail {A} e ws : Emits (fail e : M S A) ws.
Proof. intros s es b s' es' tr [=]. Qed.

Lemma emits_perform a e : is_read a = false -> Emits (perform a e) [a].
Proof.
  intros Ha s es b s' es' tr. unfold perform. destruct es as [|[] es]; try done. intros [= <- <- <- <-].
  split_and!; [done|simpl; by rewrite Ha|by exists [Done]].
Qed.

Lemma emits_send c : is_read (SendRegister c) = false -> Emits (send c) [SendRegister c].
Proof. apply emits_perform. Qed.

Lemma emits_sleep : Emits sleep [].
Proof.
  intros s es b s' es' tr. unfold sleep.
  assert (H : @Some (result error unit * S * list event * list action) (Ok tt, s, es, []) = Some (Ok b, s', es', tr) -> s' = s /\ writes tr = [] /\ exists used, es = used ++ es').
  { intros [= <- <- <- <-]. split_and!; try done. by exists []. }
  destruct es as [|[] es]; done.
Qed.

Lemma emits_for_each {A} (f : A -> M S unit) g l :
  (forall x, Emits (f x) (g x)) -> Emits (for_each f l) (flat_map g l).
Proof.
  intros Hf. induction l as [|x l IH]; simpl; [apply emits_ret|]. apply emits_bind; [apply Hf|]. by intros.
Qed.

Lemma emits_if {A} (b : bool) (m1 m2 : M S A) ws : Emits m1 ws -> Emits m2 ws -> Emits (if b then m1 else m2) ws.
Proof. by destruct b. Qed.

Lemma emits_drain : Emits RegisterClient.drain_stale [].
Proof.
  intros s es b s' es' tr H. destruct (drain_spec _ _ _ _ _ _ H) as (stale & -> & _ & _ & -> & ->).
  split_and!; try done. exists (stale ++ [NothingQueued]). by rewrite <- app_assoc.
Qed.

Lemma emits_read chip a : Emits (RegisterClient.read chip a) [].
Proof.
  change [] with ([] ++ [] : list action). apply emits_bind; [apply emits_drain|]. intros _ s es b s' es' tr H.
  destruct (attempts_spec _ _ _ _ _ _ _ _ _ H) as (-> & used & -> & -> & _). split_and!; [done| |by exists used].
  unfold writes. by induction (length tr) as [|n IH].
Qed.

Lemma emits_collect a replies : Emits (RegisterClient.collect a replies) [].
Proof.
  intros s es. unfold RegisterClient.collect. revert replies.
  induction es as [|[] es IH]; intros replies b s' es' tr; try done.
  - destruct (bool_decide _); intros H; apply IH in H as (-> & Hw & used & ->);
      (split_and!; [done|done|by exists (Received r :: used)]).
  - intros [= <- <- <- <-]. split_and!; try done. by exists [Elapsed].
Qed.

(** When it succeeds, it did just [ws], and each was done. *)
Definition Commands {A} (m : M S A) (ws : list action) : Prop :=
  forall s es b s' es' tr, m s es = Some (Ok b, s', es', tr) ->
    s' = s /\ tr = ws /\ es = repeat Done (length ws) ++ es'.

Lemma commands_bind {A B} (m : M S A) (k : A -> M S B) w1 w2 :
  Commands m w1 -> (forall a, Commands (k a) w2) -> Commands (bind m k) (w1 ++ w2).
Proof.
  intros Hm Hk s es b s' es' tr (a & s1 & es1 & tr1 & tr2 & H1 & H2 & ->)%bind_ok.
  apply Hm in H1 as (-> & -> & ->). apply Hk in H2 as (-> & -> & ->).
  by rewrite length_app, repeat_app, <- app_assoc.
Qed.
Lemma commands_ret {A} (a : A) : Commands (ret a) [].
Proof. by intros s es b s' es' tr [= <- <- <- <-]. Qed.
Lemma commands_perform a e : Commands (perform a e) [a].
Proof. intros s es b s' es' tr. unfold perform. destruct es as [|[] es]; try done. by intros [= <- <- <- <-]. Qed.
Lemma commands_sleep : Commands sleep [].
Proof.
  intros s es b s' es' tr. unfold sleep.
  assert (H : @Some (result error unit * S * list event * list action) (Ok tt, s, es, []) = Some (Ok b, s', es', tr) ->
    s' = s /\ tr = [] /\ es = es') by (by intros [= <- <- <- <-]).
  destruct es as [|[] es]; done.
Qed.
Lemma commands_for_each {A} (f : A -> M S unit) g l :
  (forall x, Commands (f x) (g x)) -> Commands (for_each f l) (flat_map g l).
Proof.
  intros Hf. induction l as [|x l IH]; simpl; [apply commands_ret|]. apply commands_bind; [apply Hf|]. by intros.
Qed.

(** The answer a successful read got. *)
Lemma read_ok chip a (s : S) es v s' es' tr :
  RegisterClient.read chip a s es = Some (Ok v, s', es', tr) ->
  exists x used, es = used ++ es' /\ Received x ∈ used /\ Response.chip_address x = chip /\ Response.register x = v.
Proof.
  intros (u & s1 & es1 & tr1 & tr2 & Hd & Ha & ->)%bind_ok.
  destruct (drain_spec _ _ _ _ _ _ Hd) as (stale & -> & _ & _ & -> & ->).
  destruct (attempts_spec _ _ _ _ _ _ _ _ _ Ha) as (-> & used & -> & _ & _ & earlier & x & -> & _ & Hc & _ & ->).
  exists x, (stale ++ NothingQueued :: earlier ++ [Received x]). split_and!; try done.
  - rewrite <- !app_assoc. simpl. by rewrite <- !app_assoc.
  - set_solver.
Qed.
End Emits.

(** ** What a successful bring-up has done *)
Section Sound.
Context (cfg : ChipConfig.t) (difficulty : Log2Difficulty.t).

Definition ramp : list PllDivider.t :=
  ChipConfig.generate_frequency_ramp_steps cfg (ChipConfig.freq_range cfg).1 (ChipConfig.default_freq cfg)
    (ChipConfig.ramp_step cfg).

(** Everything written, for a chain with its addresses: the rail and the reset; the
    response format, three times; the resets, the addresses and the registers for all
    chips; those of each chip; the ramp; the start of counting. *)
Definition bring_up_writes (c : Chain.t) : list action :=
  let version_mask := Register.MidstateConfig MidstateConfig.full_rolling in
  let clock_delay := Register.CoreMailbox (CoreCommand.write_all CoreRegister.ClockDelay 0x0C) in
  let all r := SendRegister (RegisterCommand.WriteRegister Destination.Broadcast r) in
  let one chip r := SendRegister (RegisterCommand.WriteRegister (Destination.Chip (Chain.address chip)) r) in
  [EnableRail; ReleaseReset] ++
  [all version_mask; all version_mask; all version_mask] ++
  [all (Register.SoftResetControl (ChipConfig.soft_reset_defaults cfg));
   all (Register.MiscControl (ChipConfig.misc_control cfg)); SendRegister RegisterCommand.ChainInactive] ++
  map (fun chip => SendRegister (RegisterCommand.SetChipAddress (Chain.address chip))) (Chain.chips c) ++
  [all (Register.CoreMailbox (ChipConfig.clock_select cfg)); all clock_delay;
   all (Register.TicketMask (TicketMask.new difficulty)); all (Register.IoDriverStrength IoDriverStrength.normal)] ++
  flat_map (fun chip =>
      [one chip (Register.SoftResetControl (ChipConfig.core_reset cfg));
       one chip (Register.MiscControl (ChipConfig.misc_control cfg));
       one chip (Register.CoreMailbox (ChipConfig.clock_select cfg)); one chip clock_delay;
       one chip (Register.CoreMailbox (CoreCommand.write_all CoreRegister.CoreEnable 0xAA))]) (Chain.chips c) ++
  [all (Register.AdcCtrl1 Opaque4.adc_bring_up); all (Register.AnalogMux (ChipConfig.analog_mux cfg));
   all (Register.AdcCtrl1 Opaque4.adc_bring_up); all (Register.CoreMailbox (CoreCommand.nonce_bin_overflow true))] ++
  map (fun pll => all (Register.PllDivider pll)) ramp ++
  [all (Register.HashCountingNumber (ChipConfig.hash_counting_number cfg)); all version_mask].

(** The reads at the end. *)
Definition verify_chain (c : Chain.t) (pll : PllDivider.t) : M Chain.t unit :=
  for_each (fun address => for_each (verify address) (expected_readback cfg (TicketMask.new difficulty) pll))
    (map Chain.address (Chain.chips c)).

Lemma emits_verify address r : Emits (verify address r) [].
Proof.
  unfold verify. change [] with ([] ++ [] : list action). apply emits_bind; [apply emits_read|].
  intros v. apply emits_if; [apply emits_fail|apply emits_ret].
Qed.

Lemma flat_map_nil {A B} (l : list A) : flat_map (fun _ => []) l = [] :> list B.
Proof. by induction l. Qed.

Lemma emits_verify_chain c pll : Emits (verify_chain c pll) [].
Proof.
  unfold verify_chain. rewrite <- (flat_map_nil (map Chain.address (Chain.chips c))).
  apply emits_for_each. intros address.
  rewrite <- (flat_map_nil (expected_readback cfg (TicketMask.new difficulty) pll)).
  apply emits_for_each, emits_verify.
Qed.

Lemma verify_ok address r (s : Chain.t) es b s' es' tr :
  verify address r s es = Some (Ok b, s', es', tr) ->
  exists x used, es = used ++ es' /\ Received x ∈ used /\ Response.chip_address x = address /\ Response.register x = r.
Proof.
  intros (v & s1 & es1 & tr1 & tr2 & Hr & Hk & ->)%bind_ok.
  destruct (read_ok _ _ _ _ _ _ _ _ Hr) as (x & used & -> & Hin & Hc & Hv).
  revert Hk. destruct (bool_decide_reflect (v = r)) as [->|]; simpl; [|done]. intros [= <- <- <- <-].
  by exists x, used.
Qed.

(** Every element of a loop that succeeds has succeeded. *)
Lemma for_each_ok {A} (f : A -> M Chain.t unit) (P : A -> list event -> Prop) l s es b s' es' tr :
  (forall x used es, P x used -> P x (es ++ used)) -> (forall x used es, P x used -> P x (used ++ es)) ->
  (forall x s es b s' es' tr, f x s es = Some (Ok b, s', es', tr) -> exists used, es = used ++ es' /\ P x used) ->
  for_each f l s es = Some (Ok b, s', es', tr) ->
  exists used, es = used ++ es' /\ Forall (fun x => P x used) l.
Proof.
  intros Hpre Hpost Hf. revert s es b s' es' tr. induction l as [|x l IH]; intros s es b s' es' tr.
  - intros [= <- <- <- <-]. exists []. split; [done|constructor].
  - cbn [for_each]. intros (u & s1 & es1 & tr1 & tr2 & H1 & H2 & ->)%bind_ok.
    destruct (Hf _ _ _ _ _ _ _ H1) as (used1 & -> & HP). destruct (IH _ _ _ _ _ _ H2) as (used2 & -> & HF).
    exists (used1 ++ used2). split; [by rewrite app_assoc|]. constructor; [by apply Hpost|].
    eapply Forall_impl; [exact HF|]. intros y. apply Hpre.
Qed.

(** A reply with this register of this chip was among the outcomes. *)
Definition answered (used : list event) (address : Z) (r : Register.t) : Prop :=
  exists x, Received x ∈ used /\ Response.chip_address x = address /\ Response.register x = r.

Lemma answered_after used before address r : answered used address r -> answered (before ++ used) address r.
Proof. intros (x & Hx & H). exists x. split; [set_solver|done]. Qed.

Lemma verify_chain_ok c pll s es b s' es' tr :
  verify_chain c pll s es = Some (Ok b, s', es', tr) ->
  exists used, es = used ++ es' /\
    Forall (fun address => Forall (answered used address) (expected_readback cfg (TicketMask.new difficulty) pll))
      (map Chain.address (Chain.chips c)).
Proof.
  assert (Hmono : forall a r u1 u2 u3, answered u2 a r -> answered (u1 ++ u2 ++ u3) a r).
  { intros a r u1 u2 u3 (x & Hx & Hc). exists x. split; [|done]. set_solver. }
  apply (for_each_ok _ (fun address used =>
    Forall (answered used address) (expected_readback cfg (TicketMask.new difficulty) pll))).
  - intros a used es0 HF. eapply Forall_impl; [exact HF|]. intros r Hr.
    rewrite <- (app_nil_r (es0 ++ used)), <- app_assoc. by apply Hmono.
  - intros a used es0 HF. eapply Forall_impl; [exact HF|]. intros r Hr. by apply (Hmono a r []).
  - intros a s0 es0 b0 s0' es0' tr0. apply (for_each_ok _ (fun r used => answered used a r)).
    + intros r used es1 Hr. rewrite <- (app_nil_r (es1 ++ used)), <- app_assoc. by apply Hmono.
    + intros r used es1 Hr. by apply (Hmono a r []).
    + intros r s1 es1 b1 s1' es1' tr1 Hv.
      destruct (verify_ok _ _ _ _ _ _ _ _ Hv) as (x & used & -> & Hin & Hc & Hr).
      exists used. split; [done|by exists x].
Qed.
End Sound.

(** ** Taking a program apart *)
Section Steps.
Context {S : Type}.

Lemma emits_apply {A} (m : M S A) ws s es b s' es' tr :
  m s es = Some (Ok b, s', es', tr) -> Emits m ws ->
  s' = s /\ writes tr = ws /\ exists used, es = used ++ es'.
Proof. intros H He. by eapply He. Qed.

Lemma emits_send_sleep c : is_read (SendRegister c) = false ->
  Emits (S := S) (send c ;! sleep) [SendRegister c].
Proof.
  intros Hc. change [SendRegister c] with ([SendRegister c] ++ []).
  apply emits_bind; [by apply emits_send|intros _; apply emits_sleep].
Qed.

Lemma emits_for_each_map {A} (f : A -> M S unit) g l :
  (forall x, Emits (f x) [g x]) -> Emits (for_each f l) (map g l).
Proof.
  intros Hf. induction l as [|x l IH]; simpl; [apply emits_ret|].
  change (g x :: map g l) with ([g x] ++ map g l). apply emits_bind; [apply Hf|]. by intros.
Qed.

Lemma emits_broadcast_read a : Emits (S := S) (RegisterClient.broadcast_read a) [].
Proof.
  intros s es b s' es' tr (u & s1 & es1 & tr1 & tr2 & Hd & H & ->)%bind_ok.
  apply emits_drain in Hd as (-> & Hw1 & used1 & ->).
  apply bind_ok in H as (u2 & s2 & es2 & tr3 & tr4 & Hs & Hc & ->).
  apply emits_collect in Hc as (-> & Hw3 & used3 & ->).
  revert Hs. unfold send, perform. destruct es1 as [|[] es1]; try done. intros [= _ <- -> <-].
  split_and!; [done|by rewrite !writes_app, Hw1, Hw3|].
  exists (used1 ++ Done :: used3). by rewrite <- app_assoc.
Qed.
End Steps.

Ltac solve_emits :=
  first
    [ apply emits_sleep | apply emits_broadcast_read
    | apply emits_perform; reflexivity | apply emits_send; reflexivity
    | eapply emits_for_each_map; intros ?; first [apply emits_send_sleep; reflexivity | apply emits_send; reflexivity]
    | eapply emits_for_each; intros ?; solve_emits
    | apply emits_if; [apply emits_fail | apply emits_ret] ].

(** Takes the first step off the program that [H] runs. *)
Ltac peel H :=
  let Hs := fresh "Hs" in let Hw := fresh "Hw" in
  apply bind_ok in H as (? & ? & ? & ? & ? & Hs & H & ->);
  eapply emits_apply in Hs; [|solve_emits];
  destruct Hs as (-> & Hw & ? & ->).

(** The chip ids among what was received. *)
Definition chip_ids (l : list Response.register_response) : list Response.register_response :=
  base.filter (fun r => Register.address (Response.register r) = AddrChipId) l.

Lemma collect_ok {S} acc (s : S) es replies s' es' tr :
  RegisterClient.collect AddrChipId acc s es = Some (Ok replies, s', es', tr) ->
  s' = s /\ tr = [] /\ exists window, es = map Received window ++ Elapsed :: es' /\ replies = acc ++ chip_ids window.
Proof.
  unfold RegisterClient.collect. revert acc. induction es as [|[] es IH]; intros acc; try done.
  - unfold chip_ids. destruct (bool_decide_reflect (Register.address (Response.register r) = AddrChipId)); intros H;
      apply IH in H as (-> & -> & window & -> & ->); (split_and!; [done|done|]); exists (r :: window); (split; [done|]).
    + rewrite filter_cons_True by done. by rewrite <- app_assoc.
    + by rewrite filter_cons_False.
  - intros [= <- <- <- <-]. split_and!; [done|done|]. exists []. by rewrite app_nil_r.
Qed.

Lemma enumeration_ok {S} (s : S) es replies s' es' tr :
  RegisterClient.broadcast_read AddrChipId s es = Some (Ok replies, s', es', tr) ->
  s' = s /\ tr = [SendRegister (RegisterCommand.ReadRegister Destination.Broadcast AddrChipId)] /\
  exists stale window, es = map Received stale ++ NothingQueued :: Done :: map Received window ++ Elapsed :: es' /\
    replies = chip_ids window.
Proof.
  intros (u & s1 & es1 & tr1 & tr2 & Hd & H & ->)%bind_ok.
  destruct (drain_spec _ _ _ _ _ _ Hd) as (stale & -> & Hst & _ & -> & ->).
  apply bind_ok in H as (u2 & s2 & es2 & tr3 & tr4 & Hs & Hc & ->).
  apply collect_ok in Hc as (-> & -> & window & -> & ->). apply commands_perform in Hs as (-> & -> & ->).
  split_and!; [done|done|].
  assert (Hmap : exists l, stale = map Received l).
  { clear -Hst. induction Hst as [|e l [x ->] _ [l' ->]]; [by exists []|by exists (x :: l')]. }
  destruct Hmap as [l ->]. by exists l, window.
Qed.

(** The sequence, as the steps write it. *)
Lemma bring_up_writes_flat cfg difficulty c :
  [EnableRail] ++ [] ++ [ReleaseReset] ++ [] ++
  map (fun _ => SendRegister (broadcast midstate_rolling)) (seq 0 3) ++ [] ++ [] ++ writes [] ++ writes [] ++
  [SendRegister (broadcast (Register.SoftResetControl (ChipConfig.soft_reset_defaults cfg)))] ++
  [SendRegister (broadcast (Register.MiscControl (ChipConfig.misc_control cfg)))] ++
  [SendRegister RegisterCommand.ChainInactive] ++ writes [] ++ writes [] ++
  map (fun chip => SendRegister (RegisterCommand.SetChipAddress (Chain.address chip))) (Chain.chips c) ++
  [SendRegister (broadcast (Register.CoreMailbox (ChipConfig.clock_select cfg)))] ++
  [SendRegister (broadcast clock_delay)] ++
  [SendRegister (broadcast (Register.TicketMask (TicketMask.new difficulty)))] ++
  [SendRegister (broadcast (Register.IoDriverStrength IoDriverStrength.normal))] ++
  flat_map (fun chip => map (fun r => SendRegister (directed chip r)) (chip_writes cfg)) (Chain.chips c) ++
  [SendRegister (broadcast (Register.AdcCtrl1 Opaque4.adc_bring_up))] ++
  [SendRegister (broadcast (Register.AnalogMux (ChipConfig.analog_mux cfg)))] ++
  [SendRegister (broadcast (Register.AdcCtrl1 Opaque4.adc_bring_up))] ++
  [SendRegister (broadcast (Register.CoreMailbox (CoreCommand.nonce_bin_overflow true)))] ++
  map (fun pll => SendRegister (broadcast (Register.PllDivider pll))) (ramp cfg) ++
  [SendRegister (broadcast (Register.HashCountingNumber (ChipConfig.hash_counting_number cfg)))] ++
  [SendRegister (broadcast midstate_rolling)] ++ [] ++ [] = bring_up_writes cfg difficulty c.
Proof.
  reflexivity.
Qed.

Ltac solve_commands :=
  first
    [ apply commands_sleep | apply commands_perform
    | eapply commands_for_each; intros ?; eapply commands_bind; [apply commands_perform|intros ?; apply commands_sleep] ].
Lemma commands_apply {S A} (m : M S A) ws s es b s' es' tr :
  m s es = Some (Ok b, s', es', tr) -> Commands m ws -> s' = s /\ tr = ws /\ es = repeat Done (length ws) ++ es'.
Proof. intros H Hc. by eapply Hc. Qed.
(** Takes the first command off the program that [H] runs, with its outcomes. *)
Ltac command H :=
  let Hs := fresh "Hs" in
  apply bind_ok in H as (? & ? & ? & ? & ? & Hs & H & ->);
  eapply commands_apply in Hs; [|solve_commands]; destruct Hs as (-> & -> & ->).


(** ** A run: the Bitaxe Gamma, one BM1370 chip *)
Definition gamma_chain : Chain.t := Chain.Mk [Chain.MkChip 0 0] [Chain.MkDom 0 [0%nat]].
Definition gamma_reply : Response.register_response :=
  Response.MkReg 0 (Register.ChipId (ChipId.Mk ChipModel.BM1370 0 0)).

(** Every send is done, the chip gives its id and answers the three reads. *)
Definition gamma_bring_up : list event :=
  let answer r := [NothingQueued; Done; Received (Response.MkReg 0 r)] in
  repeat Done 5 ++ [NothingQueued; Done; Received gamma_reply; Elapsed] ++ repeat Done 95 ++
  answer (Register.MiscControl (ChipConfig.misc_control ChipConfig.bm1370)) ++
  answer (Register.TicketMask (TicketMask.Mk 0xFF)) ++
  answer (Register.PllDivider (PllDivider.Mk true true false PllDivider.Low 168 2 48)).

Lemma gamma_runs : exists tr,
  initialize_chain ChipConfig.bm1370 (Log2Difficulty.Mk 8) gamma_chain gamma_bring_up = Some (Ok tt, gamma_chain, [], tr).
Proof. eexists. vm_compute. reflexivity. Qed.


(** ** Jobs are sent to chips that were brought up *)

Definition is_job (x : action) : bool := match x with SendJob _ => true | _ => false end.
Definition no_job (tr : list action) : Prop := Forall (fun x => is_job x = false) tr.

Section NoJob.
Context {S : Type}.

(** Whatever the result, no job is sent. *)
Definition NoJob {A} (m : M S A) : Prop := forall s es r s' es' tr, m s es = Some (r, s', es', tr) -> no_job tr.

Lemma nojob_bind {A B} (m : M S A) (k : A -> M S B) : NoJob m -> (forall a, NoJob (k a)) -> NoJob (bind m k).
Proof.
  intros Hm Hk s es r s' es' tr. unfold bind.
  destruct (m s es) as [[[[[a|e] s1] es1] tr1]|] eqn:H1; [| |done].
  - destruct (k a s1 es1) as [[[[r2 s2] es2] tr2]|] eqn:H2; [|done]. intros [= <- <- <- <-].
    apply Forall_app. split; [by eapply Hm|by eapply Hk].
  - intros [= <- <- <- <-]. by eapply Hm.
Qed.

Lemma nojob_ret {A} (a : A) : NoJob (ret a).
Proof. intros s es r s' es' tr [= <- <- <- <-]. constructor. Qed.

Lemma nojob_fail {A} e : NoJob (fail e : M S A).
Proof. intros s es r s' es' tr [= <- <- <- <-]. constructor. Qed.

Lemma nojob_get : NoJob get.
Proof. intros s es r s' es' tr [= <- <- <- <-]. constructor. Qed.

Lemma nojob_put x : NoJob (put x).
Proof. intros s es r s' es' tr [= <- <- <- <-]. constructor. Qed.

Lemma nojob_perform a e : is_job a = false -> NoJob (perform a e).
Proof.
  intros Ha s es r s' es' tr. unfold perform. destruct es as [|[] es]; try done; intros [= <- <- <- <-]; by repeat constructor.
Qed.

Lemma nojob_sleep : NoJob sleep.
Proof. intros s es r s' es' tr. unfold sleep. destruct es as [|[] es]; intros [= <- <- <- <-]; constructor. Qed.

Lemma nojob_for_each {A} (f : A -> M S unit) l : (forall x, NoJob (f x)) -> NoJob (for_each f l).
Proof. intros Hf. induction l; simpl; [apply nojob_ret|]. by apply nojob_bind. Qed.

Lemma nojob_drain : NoJob RegisterClient.drain_stale.
Proof. intros s es r s' es' tr H. destruct (drain_spec _ _ _ _ _ _ H) as (_ & _ & _ & _ & _ & ->). constructor. Qed.

Lemma nojob_read chip a : NoJob (RegisterClient.read chip a).
Proof.
  apply nojob_bind; [apply nojob_drain|]. intros _ s es r s' es' tr H.
  destruct (attempts_spec _ _ _ _ _ _ _ _ _ H) as (_ & _ & _ & -> & _).
  unfold no_job. by induction (length tr); constructor.
Qed.

Lemma nojob_collect a acc : NoJob (RegisterClient.collect a acc).
Proof.
  intros s es. unfold RegisterClient.collect. revert acc.
  induction es as [|[] es IH]; intros acc r' s' es' tr; try done.
  - destruct (bool_decide _); apply IH.
  - intros [= <- <- <- <-]. constructor.
  - intros [= <- <- <- <-]. constructor.
  - intros [= <- <- <- <-]. constructor.
Qed.
End NoJob.

Lemma nojob_initialize cfg d : NoJob (initialize_chain cfg d).
Proof.
  unfold initialize_chain, RegisterClient.broadcast_read, send, verify.
  repeat first
    [ apply nojob_read | apply nojob_for_each; intros ? | apply nojob_bind; [|intros ?] | apply nojob_perform; reflexivity | apply nojob_sleep | apply nojob_ret
    | apply nojob_fail | apply nojob_get | apply nojob_put | apply nojob_drain | apply nojob_collect
    | match goal with |- NoJob (if ?b then _ else _) => destruct b
                    | |- NoJob (match ?x with _ => _ end) => destruct x end ].
Qed.

(** The actions among the outputs. *)
Definition acts (out : list output) : list action :=
  omap (fun o => match o with Act a => Some a | _ => None end) out.

Lemma acts_app l1 l2 : acts (l1 ++ l2) = acts l1 ++ acts l2.
Proof. apply omap_app. Qed.

Lemma acts_map tr : acts (map Act tr) = tr.
Proof. unfold acts. induction tr as [|a tr IH]; [done|]. simpl. f_equal. exact IH. Qed.

Section Order.
Context `{B : Bitcoin} `{R : Ruint} `{P : BitcoinPow} (cfg : ChipConfig.t) (d : Log2Difficulty.t).

(** [tr] contains all a successful bring-up does. *)
Definition brought_up (tr : list action) : Prop :=
  exists c es c' es' pre up post, initialize_chain cfg d c es = Some (Ok tt, c', es', up) /\ tr = pre ++ up ++ post.

(** Each job comes after a successful bring-up, unless the chain was up at the start. *)
Definition jobs_ok (up : bool) (tr : list action) : Prop :=
  forall before j after, tr = before ++ SendJob j :: after -> up = true \/ brought_up before.

Lemma brought_up_app tr1 tr2 tr3 : brought_up tr2 -> brought_up (tr1 ++ tr2 ++ tr3).
Proof.
  intros (c & es & c' & es' & pre & up & post & H & ->).
  exists c, es, c', es', (tr1 ++ pre), up, (post ++ tr3). split; [done|]. by rewrite !app_assoc.
Qed.

Lemma jobs_ok_none up tr : no_job tr -> jobs_ok up tr.
Proof. intros HF before j after ->. apply Forall_app in HF as [_ HF]. by inversion HF. Qed.

Lemma jobs_ok_app up1 up2 tr1 tr2 :
  jobs_ok up1 tr1 -> jobs_ok up2 tr2 -> (up2 = true -> up1 = true \/ brought_up tr1) -> jobs_ok up1 (tr1 ++ tr2).
Proof.
  intros H1 H2 Hup before j after Heq. symmetry in Heq.
  assert (Hpost : forall k, brought_up tr1 -> brought_up (tr1 ++ k)) by (intros k Hb; by apply (brought_up_app [] tr1 k)).
  apply app_eq_inv in Heq as [(k & -> & Hk)|(k & Hk & Hk2)].
  - destruct (H2 k j after Hk) as [Ho|Hb].
    + destruct (Hup Ho) as [?|Hb]; [by left|right; by apply Hpost].
    + right. rewrite <- (app_nil_r (tr1 ++ k)), <- app_assoc. by apply brought_up_app.
  - destruct k as [|x k].
    + rewrite app_nil_r in Hk. subst tr1. rewrite app_nil_l in Hk2. subst tr2.
      destruct (H2 [] j after eq_refl) as [Ho|Hb]; [by apply Hup|].
      right. rewrite <- (app_nil_r before). by apply (brought_up_app before []).
    + injection Hk2 as <- ->. by apply (H1 before j k).
Qed.

(** What the loop keeps: a current task only on a chain that is up. *)
Definition actor_ok (a : actor) : Prop :=
  config a = cfg /\ asic_difficulty a = d /\ (is_Some (current_task a) -> chain_initialized a = true).

Lemma ensure_brings_up a es r a' es' tr :
  actor_ok a -> ensure_chain_initialized a es = Some (r, a', es', tr) ->
  no_job tr /\ config a' = cfg /\ asic_difficulty a' = d /\ current_task a' = current_task a /\
  (chain_initialized a = true -> chain_initialized a' = true) /\
  (chain_initialized a' = true -> chain_initialized a = true \/ brought_up tr).
Proof.
  intros (Hcfg & Hd & _). unfold ensure_chain_initialized. destruct (chain_initialized a) eqn:Hi.
  - destruct es as [|[] es]; intros [= <- <- <- <-]; split_and!; try done; try apply Forall_nil; try done; intros _; by left.
  - destruct (initialize_chain _ _ _ _) as [[[[[[]|e] c] es1] tr1]|] eqn:Hin; [| |done];
      pose proof (nojob_initialize _ _ _ _ _ _ _ _ Hin) as Hno; intros [= <- <- <- <-];
      split_and!; try done; simpl; [|congruence].
    intros _. right. rewrite Hcfg, Hd in Hin. exists (chain a), es, c, es1, [], tr1, [].
    by rewrite app_nil_r.
Qed.

(** What a step owes: its jobs, if any, come after a bring-up. *)
Definition step_ok (a a' : actor) (out : list output) : Prop :=
  actor_ok a' /\ jobs_ok (chain_initialized a) (acts out) /\
  (chain_initialized a' = true -> chain_initialized a = true \/ brought_up (acts out)).

Lemma assign_jobs a t replace es a' out es' f :
  actor_ok a -> assign_task a t replace es = Some (a', out, es', f) -> step_ok a a' out.
Proof.
  intros Hok. unfold assign_task.
  destruct (ensure_chain_initialized a es) as [[[[r a1] es1] tr]|] eqn:He; [|done].
  destruct (ensure_brings_up _ _ _ _ _ _ Hok He) as (Hno & Hcfg & Hd & Hct & Hmono & Hup).
  destruct (ensure_keeps _ _ _ _ _ _ He) as (_ & _ & _ & Hinit). cbn [mbind option_bind].
  assert (Hacts : forall o, acts (map Act tr ++ [Respond o]) = tr)
    by (intros o; rewrite acts_app, acts_map; apply app_nil_r).
  destruct r as [[]|e].
  2: { assert (Hs : forall o, step_ok a a1 (map Act tr ++ [Respond o])).
       { intros o. unfold step_ok. rewrite Hacts. split_and!; [|by apply jobs_ok_none|done].
         split_and!; [done|done|]. rewrite Hct. intros Hs. apply Hmono, Hok, Hs. }
       destruct e; intros [= <- <- <- <-]; apply Hs. }
  specialize (Hinit eq_refl). specialize (Hup Hinit).
  set (a2 := if replace then with_jobs a1 _ else a1).
  assert (H2 : config a2 = cfg /\ asic_difficulty a2 = d /\ chain_initialized a2 = true)
    by (unfold a2; by destruct replace).
  destruct H2 as (Hcfg2 & Hd2 & Hinit2). clearbody a2.
  destruct (ChipJobTracker.insert (chip_jobs a2) t) as [id jobs].
  destruct (task_to_job_full (ht t) id) as [job|e].
  2: { intros [= <- <- <- <-]. unfold step_ok. rewrite Hacts. split_and!; [by split_and!|by apply jobs_ok_none|by intros]. }
  destruct (send_job job es1) as [[sent es2]|]; [|done]. cbn [mbind option_bind].
  assert (Hacts2 : forall o, acts (map Act tr ++ [Act (SendJob job); Respond o]) = tr ++ [SendJob job])
    by (intros o; by rewrite acts_app, acts_map).
  assert (Hs : forall a3 o, config a3 = cfg -> asic_difficulty a3 = d -> chain_initialized a3 = true ->
            step_ok a a3 (map Act tr ++ [Act (SendJob job); Respond o])).
  { intros a3 o H3 H4 H5. unfold step_ok. rewrite Hacts2. split_and!; [by split_and!| |].
    - apply (jobs_ok_app _ true); [by apply jobs_ok_none| |by intros]. intros ? ? ? _. by left.
    - intros _. destruct Hup as [?|Hb]; [by left|right]. by apply (brought_up_app [] tr). }
  destruct sent; simpl; intros [= <- <- <- <-]; by apply Hs.
Qed.

Lemma actor_ok_idle a : actor_ok a -> actor_ok (set_active (with_task a None) false).
Proof. intros (Hcfg & Hd & _). split_and!; [done|done|]. intros [x Hx]. discriminate Hx. Qed.

Lemma step_jobs a i es a' out es' f :
  actor_ok a -> step a i es = Some (a', out, es', f) -> step_ok a a' out.
Proof.
  intros Hok. assert (Hsimple : forall a1 o, actor_ok a1 -> chain_initialized a1 = chain_initialized a ->
    acts o = [] -> step_ok a a1 o).
  { intros a1 o Ha1 Hi Ho. unfold step_ok. rewrite Ho.
    split_and!; [done|apply jobs_ok_none; by apply Forall_nil|]. rewrite Hi. by left. }
  destruct i as [| | |t|t| |n|r| |]; cbn [step]; try (intros [= <- <- <- <-]; apply Hsimple; [try exact Hok; exact (actor_ok_idle a Hok)|done|done]).
  - by apply assign_jobs.
  - by apply assign_jobs.
  - rewrite handle_nonce_eq. intros Hn.
    repeat case_match; simplify_option_eq; by apply Hsimple.
  - unfold roll_ntime. destruct (current_task a) as [t|] eqn:Ht; [|done]. cbn [mbind option_bind].
    destruct (ChipJobTracker.insert _ _) as [id jobs].
    assert (Hinit : chain_initialized a = true) by (apply Hok; rewrite Ht; by eexists).
    assert (Hs : forall a3 o, config a3 = config a -> asic_difficulty a3 = asic_difficulty a ->
              chain_initialized a3 = true -> step_ok a a3 o).
    { intros a3 o H3 H4 H5. destruct Hok as (Hcfg & Hd & _).
      split_and!; [split_and!; [congruence|congruence|done]| |by left]. intros ? ? ? _. by left. }
    destruct (task_to_job_full _ id) as [job|e]; cbn [mbind option_bind].
    + destruct (send_job job es) as [[sent es2]|]; [|done]. cbn [mbind option_bind].
      intros [= <- <- <- <-]. by apply Hs.
    + intros [= <- <- <- <-]. by apply Hs.
Qed.

Lemma loop_jobs inputs a es a' out es' f :
  actor_ok a -> loop a inputs es = Some (a', out, es', f) -> jobs_ok (chain_initialized a) (acts out).
Proof.
  revert a es a' out es' f. induction inputs as [|i inputs IH]; intros a es a' out es' f Hok; simpl.
  - intros [= <- <- <- <-]. apply jobs_ok_none. by apply Forall_nil.
  - destruct (step a i es) as [[[[a1 out1] es1] f1]|] eqn:Hs; [|done]. cbn [mbind option_bind].
    destruct (step_jobs _ _ _ _ _ _ _ Hok Hs) as (Hok1 & Hj1 & Hup1).
    destruct f1; [|by intros [= <- <- <- <-]].
    destruct (loop a1 inputs es1) as [[[[a2 out2] es2] f2]|] eqn:Hl; [|done]. cbn [mbind option_bind].
    intros [= <- <- <- <-]. rewrite acts_app. eapply jobs_ok_app; [exact Hj1|by eapply IH|exact Hup1].
Qed.

(** C10 No job is sent to chips that have not been brought up and verified.  In any
    run of a new thread's loop, whatever it is told and whatever fails, every job
    sent comes after all the actions of a bring-up that succeeded; and whenever the
    loop ends, the last things the thread does are to assert the chips' reset and
    to disable the rail. *)
Theorem jobs_only_after_bring_up a inputs es out :
  config a = cfg -> asic_difficulty a = d -> chain_initialized a = false -> current_task a = None ->
  run a inputs es = Some out ->
  (forall before j after, acts out = before ++ SendJob j :: after -> brought_up before) /\
  (forall a' o es', loop a inputs es = Some (a', o, es', Break) ->
     exists before, acts out = before ++ [AssertReset; DisableRail]).
Proof.
  intros Hcfg Hd Hinit Htask. unfold run.
  destruct (loop a inputs es) as [[[[a1 o1] es1] f1]|] eqn:Hl; [|done]. cbn [mbind option_bind].
  assert (Hok : actor_ok a) by (split_and!; [done|done|]; rewrite Htask; by intros [? ?]).
  pose proof (loop_jobs _ _ _ _ _ _ _ Hok Hl) as Hj. rewrite Hinit in Hj.
  intros [= <-]. set (fin := match f1 with Break => disable_chain | Continue => [] end).
  assert (Hfin : no_job (acts fin)) by (unfold fin; destruct f1; by repeat constructor).
  assert (Hall : acts (Act AssertReset :: o1 ++ fin) = [AssertReset] ++ acts o1 ++ acts fin)
    by (change (Act AssertReset :: o1 ++ fin) with ([Act AssertReset] ++ o1 ++ fin); by rewrite !acts_app).
  rewrite Hall. split.
  - intros before j after Heq.
    assert (Hok2 : jobs_ok false ([AssertReset] ++ acts o1 ++ acts fin)).
    { apply (jobs_ok_app _ false); [apply jobs_ok_none; by repeat constructor| |done].
      apply (jobs_ok_app _ false); [done|by apply jobs_ok_none|done]. }
    by destruct (Hok2 before j after Heq).
  - intros a' o es' [= _ _ _ ->]. exists ([AssertReset] ++ acts o1). by rewrite app_assoc.
Qed.
End Order.

#[local] Existing Instance bitcoin_ref.
#[local] Existing Instance ruint_ref.
#[local] Existing Instance pow_ref.

(** A Bitaxe Gamma thread at its start, the outcomes of a healthy bring-up and of one job,
    and what the thread is told. *)
Definition gamma_actor : actor :=
  Actor ChipConfig.bm1370 gamma_chain (Log2Difficulty.Mk 8) false None ChipJobTracker.new false.
Definition gamma_events : list event := gamma_bring_up ++ [Done].
Definition gamma_inputs : list input := [Configure; UpdateTask (task_ref computed_ref); ShutdownSignal].

Definition gamma_acts : list action := from_option acts [] (run gamma_actor gamma_inputs gamma_events).
Definition gamma_before : list action := take (length gamma_acts - 3) gamma_acts.
Definition gamma_job : JobFull.t := job_of (ht (task_ref computed_ref)) 0 [1; 2; 7; 3].

Lemma gamma_run : exists out,
  run gamma_actor gamma_inputs gamma_events = Some out /\
  acts out = gamma_before ++ SendJob gamma_job :: [AssertReset; DisableRail].
Proof.
  assert (Hs : is_Some (run gamma_actor gamma_inputs gamma_events)) by (eexists; vm_compute; reflexivity).
  assert (Ha : gamma_acts = gamma_before ++ SendJob gamma_job :: [AssertReset; DisableRail]) by (vm_compute; reflexivity).
  destruct Hs as [out H]. exists out. split; [exact H|].
  rewrite <- Ha. unfold gamma_acts. rewrite H. reflexivity.
Qed.

Lemma jobs_only_after_bring_up_witness : brought_up ChipConfig.bm1370 (Log2Difficulty.Mk 8) gamma_before.
Proof.
  destruct gamma_run as [out [H Heq]].
  exact (proj1 (jobs_only_after_bring_up ChipConfig.bm1370 (Log2Difficulty.Mk 8) gamma_actor gamma_inputs gamma_events out
    eq_refl eq_refl eq_refl eq_refl H) gamma_before gamma_job [AssertReset; DisableRail] Heq).
Defined.
