(* ===== verification/HealthyChain.v ===== *)
(** * A healthy chain comes up (initialize_chain of asic/bm13xx/thread.rs)

    Chips that keep what is written to them ([holds]) and answer a read with it,
    once they have power, are out of reset and were told their address
    ([answers]); and that the bring-up of such a chain succeeds. *)
From stdpp Require Import base numbers list sets.
From Stdlib Require Import ZArith Lia.
From S2P Require Import Prelude Float Register Chain ChipConfig Command Response RegisterClient HashThread BringUp.
#[local] Open Scope bus_scope.

(** ** Healthy chips *)
Section Chips.
Context (reset : Z -> RegisterAddress -> Register.t) (ids : list Response.register_response).

(** What [act] leaves in register [reg] of the chip at [a], if it is a write to it. *)
Definition hit (a : Z) (reg : RegisterAddress) (act : action) : option Register.t :=
  match act with
  | SendRegister (RegisterCommand.WriteRegister dest r) =>
      let reached := match dest with Destination.Broadcast => true | Destination.Chip x => x =? a end in
      if reached && bool_decide (Register.address r = reg) then Some r else None
  | _ => None
  end.
Definition hits (a : Z) (reg : RegisterAddress) (past : list action) : list Register.t := omap (hit a reg) past.

(** The last value written, by a broadcast or to the chip alone; at first the reset value. *)
Definition holds (a : Z) (reg : RegisterAddress) (past : list action) : Register.t :=
  from_option id (reset a reg) (last (hits a reg past)).

(** The lock bit is the chip's: its PLL locks on the divider it is given. *)
Definition locked_on (r : Register.t) : Register.t :=
  match r with
  | Register.PllDivider p =>
      Register.PllDivider (PllDivider.Mk true (PllDivider.pll_en p) (PllDivider.bypass p)
        (PllDivider.vco_sel p) (PllDivider.fb_div p) (PllDivider.ref_div p) (PllDivider.post_div p))
  | r => r
  end.

Definition alive (past : list action) : bool :=
  existsb (fun x => match x with EnableRail => true | _ => false end) past &&
  existsb (fun x => match x with ReleaseReset => true | _ => false end) past.
Definition told (a : Z) (past : list action) : bool :=
  existsb (fun x => match x with SendRegister (RegisterCommand.SetChipAddress y) => y =? a | _ => false end) past.

(** The outcomes of the awaits of one action, after [past]: nothing is queued before a
    read; the request for the chip ids is answered by all chips until the window ends, a
    read of one chip by that chip; what has no power, is in reset or has no address yet
    is silent. *)
Definition answers (past : list action) (act : action) : list event :=
  match act with
  | SendRegister (RegisterCommand.ReadRegister Destination.Broadcast reg) =>
      if alive past && bool_decide (reg = AddrChipId)
      then NothingQueued :: Done :: map Received ids ++ [Elapsed] else [NothingQueued; Done; Elapsed]
  | SendRegister (RegisterCommand.ReadRegister (Destination.Chip a) reg) =>
      if alive past && told a past
      then [NothingQueued; Done; Received (Response.MkReg a (locked_on (holds a reg past)))]
      else [NothingQueued; Done; Elapsed]
  | _ => [Done]
  end.

(** The outcomes of a run, each decided by what was done before it. *)
Fixpoint world (past tr : list action) : list event :=
  match tr with
  | [] => []
  | act :: tr => answers past act ++ world (past ++ [act]) tr
  end.

Lemma world_app past t1 t2 : world past (t1 ++ t2) = world past t1 ++ world (past ++ t1) t2.
Proof.
  revert past. induction t1 as [|x t1 IH]; intros past; simpl; [by rewrite app_nil_r|].
  by rewrite IH, <- !app_assoc.
Qed.

Lemma hits_app a reg l1 l2 : hits a reg (l1 ++ l2) = hits a reg l1 ++ hits a reg l2.
Proof. apply omap_app. Qed.

(** Reads change nothing. *)
Lemma hits_writes a reg past : hits a reg (writes past) = hits a reg past.
Proof.
  unfold hits, writes. induction past as [|x past IH]; [done|].
  destruct x as [[]| | | | |]; cbn; rewrite ?IH; done.
Qed.
Lemma existsb_writes f past : (forall x, is_read x = true -> f x = false) -> existsb f (writes past) = existsb f past.
Proof.
  intros Hf. unfold writes. induction past as [|x past IH]; [done|]. cbn [List.filter existsb].
  destruct (is_read x) eqn:Hx; cbn [negb existsb]; rewrite IH; [by rewrite (Hf x Hx)|done].
Qed.

(** What the chip at [a] answers depends on what was written. *)
Definition reads_as (a : Z) (r : Register.t) (past : list action) : Prop :=
  alive past = true /\ told a past = true /\ locked_on (holds a (Register.address r) past) = r.
Lemma reads_as_writes a r past : reads_as a r (writes past) <-> reads_as a r past.
Proof.
  unfold reads_as, alive, told, holds. rewrite hits_writes, !existsb_writes; [done|..];
    by intros [[]| | | | |].
Qed.

(** ** Runs against healthy chips *)
Section Runs.
Context {S : Type}.

(** After [past], the program succeeds with [b] and [s'], having done [tr]. *)
Definition Live {A} (m : M S A) (s : S) (past : list action) (b : A) (s' : S) (tr : list action) : Prop :=
  forall rest, Forall (fun e => e <> Cancelled) rest -> m s (world past tr ++ rest) = Some (Ok b, s', rest, tr).

Lemma world_calm past tr : Forall (fun e => e <> Cancelled) (world past tr).
Proof.
  revert past. induction tr as [|x tr IH]; intros past; [constructor|]. apply Forall_app. split; [|apply IH].
  assert (Hids : Forall (fun e => e <> Cancelled) (map Received ids ++ [Elapsed])).
  { apply Forall_app. split; [apply Forall_map, Forall_true; done|by repeat constructor]. }
  destruct x as [[| | |[|a] reg]| | | | |]; simpl; repeat case_match; by repeat constructor.
Qed.

Lemma live_bind {A B} (m : M S A) (k : A -> M S B) s past a s1 t1 b s2 t2 :
  Live m s past a s1 t1 -> Live (k a) s1 (past ++ t1) b s2 t2 -> Live (bind m k) s past b s2 (t1 ++ t2).
Proof.
  intros Hm Hk rest Hr. unfold bind. rewrite world_app, <- app_assoc, Hm by (apply Forall_app; by split; [apply world_calm|]).
  by rewrite (Hk rest Hr).
Qed.
Lemma live_then {A B} (m : M S A) (k : A -> M S B) s past a s1 t1 b s2 :
  Live m s past a s1 t1 -> (exists t2, Live (k a) s1 (past ++ t1) b s2 t2) -> exists tr, Live (bind m k) s past b s2 tr.
Proof. intros Hm [t2 Hk]. exists (t1 ++ t2). by eapply live_bind. Qed.
Lemma live_ret {A} (a : A) s past : Live (ret a) s past a s [].
Proof. by intros rest _. Qed.
Lemma live_get s past : Live get s past s s [].
Proof. by intros rest _. Qed.
Lemma live_put s s' past : Live (put s') s past tt s' [].
Proof. by intros rest _. Qed.
Lemma live_perform act e s past : is_read act = false -> Live (perform act e) s past tt s [act].
Proof. intros Ha rest _. by destruct act as [[]| | | | |]. Qed.
Lemma live_sleep s past : Live sleep s past tt s [].
Proof. intros rest Hr. simpl. unfold sleep. by destruct Hr as [|[] rest Hx Hr]. Qed.

Lemma live_for_each {A} (f : A -> M S unit) g l s (Q : list action -> Prop) past :
  Q past -> (forall past x, Q past -> x ∈ l -> Q (past ++ g x)) ->
  (forall past x, Q past -> x ∈ l -> Live (f x) s past tt s (g x)) ->
  Live (for_each f l) s past tt s (flat_map g l).
Proof.
  revert past. induction l as [|x l IH]; intros past HQ Hg Hf; [apply live_ret|].
  apply (live_bind _ _ _ _ tt s); [apply Hf; [done|left]|].
  apply IH; [apply Hg; [done|left]| |]; intros past' y Hy Hin; [apply Hg|apply Hf]; try done; by right.
Qed.

(** A loop of commands. *)
Lemma live_commands {A} (f : A -> M S unit) g l s past :
  (forall past x, Live (f x) s past tt s (g x)) -> Live (for_each f l) s past tt s (flat_map g l).
Proof. intros Hf. by apply (live_for_each _ _ _ _ (fun _ => True)). Qed.

Lemma live_enumeration s past :
  alive past = true -> Forall (fun r => Register.address (Response.register r) = AddrChipId) ids ->
  Live (RegisterClient.broadcast_read AddrChipId) s past ids s
    [SendRegister (RegisterCommand.ReadRegister Destination.Broadcast AddrChipId)].
Proof.
  intros Ha HF rest _. cbn [world answers]. rewrite Ha, bool_decide_eq_true_2 by done. cbn [andb app].
  rewrite app_nil_r, <- app_assoc. unfold RegisterClient.broadcast_read, bind at 1. cbn [RegisterClient.drain_stale].
  unfold bind, send, perform.
  assert (Hc : forall acc, RegisterClient.collect AddrChipId acc s (map Received ids ++ [Elapsed] ++ rest) =
    Some (Ok (acc ++ ids), s, rest, [])).
  { unfold RegisterClient.collect. induction HF as [|r l Hra HF IH]; intros acc; simpl; [by rewrite app_nil_r|].
    rewrite bool_decide_eq_true_2 by done. by rewrite IH, <- app_assoc. }
  by rewrite Hc.
Qed.
End Runs.

Lemma live_verify a r (s : Chain.t) past :
  reads_as a r past ->
  Live (verify a r) s past tt s
    [SendRegister (RegisterCommand.ReadRegister (Destination.Chip a) (Register.address r))].
Proof.
  intros (Ha & Ht & Hr) rest _. cbn [world answers]. rewrite Ha, Ht, Hr. cbn [andb app].
  assert (Hm : RegisterClient.matches a (Register.address r) (Response.MkReg a r) = true)
    by (apply matches_spec; by simpl).
  assert (Hread : RegisterClient.read a (Register.address r) s
      (NothingQueued :: Done :: Received (Response.MkReg a r) :: rest) =
    Some (Ok r, s, rest, [SendRegister (RegisterCommand.ReadRegister (Destination.Chip a) (Register.address r))])).
  { unfold RegisterClient.read, RegisterClient.attempts, bind, send, perform. simpl. by rewrite Hm. }
  unfold verify, bind. rewrite Hread. cbv beta iota. by rewrite bool_decide_eq_true_2.
Qed.

(** ** What the bring-up leaves in the registers it reads back *)
Section BroughtUp.
Context (cfg : ChipConfig.t) (difficulty : Log2Difficulty.t) (c : Chain.t).

Definition only (a : Z) (reg : RegisterAddress) (r : Register.t) (act : action) : Prop :=
  forall x, hit a reg act = Some x -> x = r.

(** Written at least once, and nothing else written: it holds that. *)
Lemma holds_only a r past :
  Forall (only a (Register.address r) r) past -> SendRegister (broadcast r) ∈ past ->
  holds a (Register.address r) past = r.
Proof.
  intros HF Hin. unfold holds. destruct (last (hits a (Register.address r) past)) as [x|] eqn:Hl; simpl.
  - apply last_Some_elem_of in Hl. apply list_elem_of_omap in Hl as (act & Hact & Hx).
    rewrite Forall_forall in HF. by apply (HF act).
  - exfalso. apply last_None in Hl.
    assert (Hx : r ∈ hits a (Register.address r) past); [|rewrite Hl in Hx; by apply elem_of_nil in Hx].
    apply list_elem_of_omap. exists (SendRegister (broadcast r)). split; [done|]. simpl.
    by rewrite bool_decide_eq_true_2.
Qed.

Lemma only_flat_map {A} (f : A -> list action) a reg r l :
  (forall x, Forall (only a reg r) (f x)) -> Forall (only a reg r) (flat_map f l).
Proof. intros Hf. apply Forall_flat_map, Forall_true. exact Hf. Qed.

Ltac solve_only :=
  unfold bring_up_writes; cbv zeta;
  repeat match goal with
    | |- Forall _ (_ ++ _) => apply Forall_app; split
    | |- Forall _ (_ :: _) => apply Forall_cons; split
    | |- Forall _ [] => apply Forall_nil; exact I
    | |- Forall _ (map _ _) => apply Forall_map, Forall_true; intros ?
    | |- Forall _ (flat_map _ _) => apply only_flat_map; intros ?
    end;
  intros ?; simpl; rewrite ?andb_false_r; repeat case_match; congruence.

Lemma misc_control_left a :
  holds a AddrMiscControl (bring_up_writes cfg difficulty c) = Register.MiscControl (ChipConfig.misc_control cfg).
Proof. apply (holds_only a (Register.MiscControl (ChipConfig.misc_control cfg))); [solve_only|set_solver]. Qed.

Lemma ticket_mask_left a :
  holds a AddrTicketMask (bring_up_writes cfg difficulty c) = Register.TicketMask (TicketMask.new difficulty).
Proof. apply (holds_only a (Register.TicketMask (TicketMask.new difficulty))); [solve_only|set_solver]. Qed.
(** The ramp ends on the divider of the default frequency. *)
Lemma divider_left a pll l :
  ramp cfg = l ++ [pll] -> holds a AddrPllDivider (bring_up_writes cfg difficulty c) = Register.PllDivider pll.
Proof.
  intros Hl. unfold bring_up_writes, holds. cbv zeta. rewrite Hl, map_app, !hits_app.
  cut (forall l' : list Register.t, from_option id (reset a AddrPllDivider) (last (l' ++ [Register.PllDivider pll])) =
    Register.PllDivider pll); [|intros l'; by rewrite last_snoc].
  intros Hlast. cbn [map hits omap list_omap hit Register.address bool_decide decide_rel]. cbn.
  rewrite app_nil_r, !app_assoc. apply Hlast.
Qed.

Lemma alive_left : alive (bring_up_writes cfg difficulty c) = true.
Proof. done. Qed.

Lemma told_left a : a ∈ map Chain.address (Chain.chips c) -> told a (bring_up_writes cfg difficulty c) = true.
Proof.
  intros (chip & -> & Hin)%list_elem_of_fmap. apply existsb_exists.
  exists (SendRegister (RegisterCommand.SetChipAddress (Chain.address chip))). split; [|apply Z.eqb_refl].
  apply list_elem_of_In. unfold bring_up_writes. cbv zeta. rewrite !elem_of_app. do 3 right. left.
  by apply list_elem_of_fmap; exists chip.
Qed.
(** Each value read back is the value left. *)
Lemma readbacks_left pll l :
  ramp cfg = l ++ [pll] ->
  forall a, a ∈ map Chain.address (Chain.chips c) ->
  forall r, r ∈ expected_readback cfg (TicketMask.new difficulty) pll -> reads_as a r (bring_up_writes cfg difficulty c).
Proof.
  intros Hl a Ha r Hr. split_and!; [apply alive_left|by apply told_left|].
  unfold expected_readback in Hr. rewrite !elem_of_cons, elem_of_nil in Hr. destruct Hr as [->|[->|[->|[]]]].
  - cbn [Register.address]. by rewrite misc_control_left.
  - cbn [Register.address]. by rewrite ticket_mask_left.
  - cbn [Register.address]. by rewrite (divider_left a pll l).
Qed.
End BroughtUp.
Lemma writes_flat_map {A} (f : A -> list action) l : writes (flat_map f l) = flat_map (fun x => writes (f x)) l.
Proof. induction l as [|x l IH]; [done|]. cbn [flat_map]. by rewrite writes_app, IH. Qed.
Lemma writes_each {A} (f : A -> list action) g l :
  (forall x, writes (f x) = [g x]) -> writes (flat_map f l) = map g l.
Proof. intros Hf. induction l as [|x l IH]; [done|]. cbn [flat_map map]. by rewrite writes_app, Hf, IH. Qed.

(** One step of a bring-up. *)
Ltac live_step :=
  first
    [ apply live_perform; reflexivity | apply live_sleep | apply live_get | apply live_put
    | apply live_commands; intros; eapply live_bind; [apply live_perform; reflexivity|apply live_sleep]
    | apply live_commands; intros; apply live_commands; intros; apply live_perform; reflexivity
    | apply live_commands; intros; apply live_perform; reflexivity
    | apply live_enumeration; [reflexivity|assumption]
    | match goal with H : Chain.assign_addresses _ = _ |- _ => rewrite H; apply live_put end
    | match goal with H : length _ = length _ |- _ => rewrite H, Nat.eqb_refl; apply live_ret end ].

Lemma live_readbacks cfg difficulty c pll l past :
  ramp cfg = l ++ [pll] -> writes past = bring_up_writes cfg difficulty c ->
  exists tr, Live (verify_chain cfg difficulty c pll) c past tt c tr.
Proof.
  intros Hl Hpast. set (ok := fun past => writes past = bring_up_writes cfg difficulty c).
  assert (Hok : forall past a r, ok past ->
    ok (past ++ [SendRegister (RegisterCommand.ReadRegister (Destination.Chip a) (Register.address r))]))
    by (intros past' a r H; unfold ok; rewrite writes_app; cbn; by rewrite app_nil_r).
  set (reads := fun a => flat_map
    (fun r => [SendRegister (RegisterCommand.ReadRegister (Destination.Chip a) (Register.address r))])
    (expected_readback cfg (TicketMask.new difficulty) pll)).
  exists (flat_map reads (map Chain.address (Chain.chips c))).
  apply (live_for_each _ reads _ _ ok); [exact Hpast| |].
  - intros past' a H _. unfold reads, ok in *. rewrite writes_app. cbn. by rewrite app_nil_r.
  - intros past' a H Ha. apply (live_for_each _ _ _ _ ok); [exact H|intros past2 r H2 _; by apply Hok|].
    intros past2 r H2 Hr. apply live_verify, reads_as_writes. rewrite H2. by eapply readbacks_left.
Qed.

Lemma live_bring_up cfg difficulty c c' pll :
  Chain.assign_addresses c = Ok c' ->
  ChipConfig.calculate_pll cfg (ChipConfig.default_freq cfg) = Some pll ->
  (exists l, ramp cfg = l ++ [pll]) ->
  length ids = length (Chain.chips c) ->
  Forall (fun r => Register.address (Response.register r) = AddrChipId) ids ->
  exists tr, Live (initialize_chain cfg difficulty) c [] tt c' tr.
Proof.
  intros Ha Hp [l Hl] Hlen Hids. unfold initialize_chain.
  repeat (eapply live_then; [live_step|]).
  rewrite Hp. apply (live_readbacks _ _ _ _ l); [exact Hl|]. rewrite !writes_app.
  rewrite (writes_each _ (fun chip => SendRegister (RegisterCommand.SetChipAddress (Chain.address chip)))) by done.
  rewrite (writes_each _ (fun d => SendRegister (broadcast (Register.PllDivider d))) (ChipConfig.generate_frequency_ramp_steps _ _ _ _)) by done.
  rewrite (writes_flat_map _ (Chain.chips c')), <- !app_assoc. reflexivity.
Qed.

End Chips.

(** C36 A healthy chain comes up.  Take chips that keep the last value written to each
    register, by a broadcast or at their own address, over any reset values; whose PLL
    locks; and that answer only with power, out of reset and once told their address.
    If the declared chips fit the addresses, the ramp's bounds are in order and the
    default frequency has a divider, and as many chip ids are received as chips are
    declared, then the bring-up of these chips runs to the end and succeeds, uses
    exactly the outcomes of its own actions and leaves the addressed chain. *)
Theorem healthy_chain_comes_up reset ids cfg difficulty c c' pll :
  Chain.assign_addresses c = Ok c' ->
  0 <= (ChipConfig.freq_range cfg).1 <= ChipConfig.default_freq cfg ->
  0 < ChipConfig.ramp_step cfg -> ChipConfig.default_freq cfg + ChipConfig.ramp_step cfg < 2 ^ 64 ->
  ChipConfig.calculate_pll cfg (ChipConfig.default_freq cfg) = Some pll ->
  length ids = length (Chain.chips c) ->
  Forall (fun r => Register.address (Response.register r) = AddrChipId) ids ->
  exists tr, initialize_chain cfg difficulty c (world reset ids [] tr) = Some (Ok tt, c', [], tr).
Proof.
  intros Ha Hstart Hstep Hmax Hp Hlen Hids.
  destruct (ChipConfig.ramp_last cfg _ _ _ pll Hstep Hstart Hmax Hp) as [l Hl].
  destruct (live_bring_up reset ids cfg difficulty c c' pll Ha Hp (ex_intro _ l Hl) Hlen Hids) as [tr Htr].
  exists tr. rewrite <- (app_nil_r (world reset ids [] tr)). by apply Htr.
Qed.

(** The Bitaxe Gamma, its registers empty at reset. *)
Lemma healthy_chain_comes_up_witness : exists tr,
  initialize_chain ChipConfig.bm1370 (Log2Difficulty.Mk 8) gamma_chain
    (world (fun _ _ => Register.TicketMask (TicketMask.Mk 0)) [gamma_reply] [] tr) = Some (Ok tt, gamma_chain, [], tr).
Proof.
  apply (healthy_chain_comes_up _ _ _ _ _ _ (PllDivider.new 168 2 48));
    [vm_compute; reflexivity|by vm_compute|by vm_compute|by vm_compute|vm_compute; reflexivity|reflexivity|].
  constructor; [reflexivity|constructor].
Defined.
