(* ===== verification/SchedulerFrame.v ===== *)
(** * What handing out work leaves alone

    The handlers that assign, drop or measure work only exchange messages with
    threads and change neither the gate, nor the counters, nor which threads and
    sources there are: the frame the scheduler's other properties rely on. *)
From stdpp Require Import base numbers list strings gmap sets fin_maps fin_map_dom.
From Stdlib Require Import ZArith Lia.
From S2P Require Import Prelude Float U256 Version Extranonce Job Alarm Estimator ShareRate Scheduler SchedulerInv.
Import Scheduler.

Section Frame.
Context `{E : Env}.

Definition to_thread (e : effect) : Prop := match e with ToThread _ _ _ => True | _ => False end.

Record frame (s : t) (p : t * list effect) : Prop := {
  fr_shares : shares_submitted p.1 = shares_submitted s;
  fr_gate : startup_gate p.1 = startup_gate s;
  fr_deadline : gate_deadline p.1 = gate_deadline s;
  fr_count : last_thread_count p.1 = last_thread_count s;
  fr_events : thread_events p.1 = thread_events s;
  fr_sources : dom (SlotMap.items (sources p.1)) = dom (SlotMap.items (sources s));
  fr_threads : expected <$> SlotMap.items (threads p.1) = expected <$> SlotMap.items (threads s);
  fr_effects : Forall to_thread p.2 }.

Lemma frame_refl s : frame s (s, []).
Proof. by split. Qed.

Lemma frame_trans s s1 eff1 s2 eff2 :
  frame s (s1, eff1) -> frame s1 (s2, eff2) -> frame s (s2, eff1 ++ eff2).
Proof. intros [] []. split; simpl in *; try congruence. by apply Forall_app. Qed.

(** A silent step in front of another. *)
Lemma frame_pre s s1 p : frame s (s1, []) -> frame s1 p -> frame s p.
Proof. destruct p. apply frame_trans. Qed.

Lemma frame_set_thread s tid e e' :
  SlotMap.get (threads s) tid = Some e -> expected e' = expected e ->
  frame s (with_threads s (SlotMap.set (threads s) tid e'), []).
Proof.
  intros He Hx. split; try done. simpl. rewrite fmap_insert. apply insert_id.
  unfold SlotMap.get in He. by rewrite lookup_fmap, He, Hx.
Qed.

Lemma frame_set_source s sid src src' :
  SlotMap.get (sources s) sid = Some src ->
  frame s (with_sources s (SlotMap.set (sources s) sid src'), []).
Proof. intros Hs. split; try done. simpl. apply dom_insert_lookup_L. by exists src. Qed.

Lemma frame_give_task s now mode sid tid task : frame s (give_task s now mode sid tid task).
Proof. unfold give_task. destruct (accepts _ _ _ _); (split; try done; by repeat constructor). Qed.

Lemma task_hashrate_expected e now : expected (task_hashrate e now).2 = expected e.
Proof. unfold task_hashrate. by destruct (Estimator.settled_hashrate _ _ _). Qed.

Lemma frame_task_hashrate s tid e now :
  SlotMap.get (threads s) tid = Some e ->
  frame s (with_threads s (SlotMap.set (threads s) tid (task_hashrate e now).2), []).
Proof. intros He. eapply frame_set_thread; [exact He|]. apply task_hashrate_expected. Qed.

Lemma frame_assign_loop mode sid job now pairs s s' eff :
  assign_loop s mode sid job pairs now = Some (s', eff) -> frame s (s', eff).
Proof.
  revert s s' eff. induction pairs as [|[tid range] pairs IH]; intros s s' eff; simpl.
  - intros [= <- <-]. apply frame_refl.
  - destruct (SlotMap.get (threads s) tid) as [e|] eqn:He; [|done]. simpl.
    pose proof (frame_task_hashrate s tid e now He) as H1. destruct (task_hashrate e now) as [hr e'].
    destruct (compute_scheduler_target _ _) as [tg|]; [|done]. simpl in *.
    set (s1 := with_threads s _) in *. set (task := MkTask _ _ _ _ _).
    pose proof (frame_give_task s1 now mode sid tid task) as H2.
    destruct (give_task s1 now mode sid tid task) as [s2 eff2].
    destruct (assign_loop s2 _ _ _ _ _) as [[s3 eff3]|] eqn:Hl; [|done]. intros [= <- <-].
    eapply frame_trans; [by eapply frame_pre|by apply IH].
Qed.

Lemma frame_cached_loop now tid hr srcs s s' eff :
  cached_loop s now tid hr srcs = Some (s', eff) -> frame s (s', eff).
Proof.
  revert s s' eff. induction srcs as [|[sid src] srcs IH]; intros s s' eff; simpl.
  - intros [= <- <-]. apply frame_refl.
  - destruct (last_job src) as [[jid jp jv jb jt jtime []]|]; try by apply IH.
    destruct (compute_scheduler_target hr jt); [|done]. simpl.
    destruct (SlotMap.get (threads s) tid) as [e|]; [|done]. simpl. set (task := MkTask _ _ _ _ _).
    pose proof (frame_give_task s now Update sid tid task) as H2.
    destruct (give_task s now Update sid tid task) as [s2 eff2].
    destruct (cached_loop s2 _ _ _ _) as [[s3 eff3]|] eqn:Hl; [|done]. intros [= <- <-].
    eapply frame_trans; [exact H2|by apply IH].
Qed.

Lemma frame_cached_jobs s tid now s' eff :
  assign_cached_jobs_to_thread s tid now = Some (s', eff) -> frame s (s', eff).
Proof.
  unfold assign_cached_jobs_to_thread.
  destruct (SlotMap.get (threads s) tid) as [e|] eqn:He; [|done]. simpl.
  pose proof (frame_task_hashrate s tid e now He) as H1. destruct (task_hashrate e now) as [hr e'].
  intros Hl%frame_cached_loop. by eapply frame_pre.
Qed.

Lemma frame_remove s P : frame s (remove_tasks_where s P, []).
Proof. rewrite remove_tasks_where_eq. by split. Qed.

Lemma frame_cache_job s sid job : frame s (cache_job s sid job, []).
Proof.
  unfold cache_job. destruct (SlotMap.get (sources s) sid) eqn:H; [|apply frame_refl].
  by eapply frame_set_source.
Qed.

Lemma frame_check_alarm s sid job now s' : check_alarm s sid job now = Some s' -> frame s (s', []).
Proof.
  unfold check_alarm. destruct (SlotMap.get (sources s) sid) eqn:H; [|intros [= <-]; apply frame_refl].
  destruct (is_difficulty_too_high _ _); [|done]. simpl. destruct (Alarm.check _ _ _).
  intros [= <-]. by eapply frame_set_source.
Qed.

Lemma frame_assign_job s mode sid job now s' eff :
  assign_job_to_threads s mode sid job now = Some (s', eff) -> frame s (s', eff).
Proof.
  unfold assign_job_to_threads. destruct (merkle_root job) as [|mt]; [intros [= <- <-]; apply frame_refl|].
  pose proof (frame_cache_job s sid job) as H1. set (s1 := cache_job s sid job) in *.
  destruct (bool_decide _); [by intros [= <- <-]|].
  destruct (check_alarm s1 sid job now) as [s2|] eqn:Ha; [|done]. simpl.
  apply frame_check_alarm in Ha. set (s3 := match mode with Update => s2 | Replace => _ end).
  assert (H3 : frame s (s3, [])).
  { eapply frame_pre; [exact H1|]. eapply frame_pre; [exact Ha|].
    unfold s3. destruct mode; [apply frame_refl|apply frame_remove]. }
  destruct (bool_decide _); [by intros [= <- <-]|].
  destruct (ExtranonceRange.split _ _); [|done]. simpl.
  intros Hl%frame_assign_loop. by eapply frame_pre.
Qed.

Lemma frame_clear_jobs s sid : frame s (handle_clear_jobs s sid, []).
Proof.
  unfold handle_clear_jobs. eapply frame_pre; [|apply frame_remove].
  destruct (SlotMap.get (sources s) sid) eqn:H; [by eapply frame_set_source|apply frame_refl].
Qed.

Lemma frame_measured s now : frame s ((measured_hashrate s now).2, []).
Proof.
  split; try done. simpl. rewrite <- map_fmap_compose. by apply map_fmap_ext.
Qed.

(** The events whose handler only hands out, drops or measures work. *)
Definition work_event (ev : event) : bool :=
  match ev with
  | SourceEv _ _ | StatusTick _ | ApiCommand _ | TelemetryTick => true
  | ThreadEv _ (WorkExhausted _ | WorkDepletionWarning _ | StatusUpdate _ _) => true
  | _ => false
  end.

Lemma frame_work_event s ev now s' eff :
  work_event ev = true -> handle s ev now = Some (s', eff) -> frame s (s', eff).
Proof.
  intros Hw. destruct ev as [|sid [j|j|]| |tid []| | | |[]|c|]; try done; cbn [handle handle_thread_event];
    try (intros [= <- <-]; first [apply frame_refl|apply frame_measured]).
  - apply frame_assign_job.
  - apply frame_assign_job.
  - intros [= <- <-]. apply frame_clear_jobs.
  - intros [= <- <-]. unfold handle_api_command.
    eapply frame_pre; [|apply frame_measured]. by split.
Qed.

(** A thread's report of its hash rate: the step up to the announcement. *)
Lemma frame_report s tid rate now entry s' eff :
  SlotMap.get (threads s) tid = Some entry ->
  handle_thread_event s tid (ExpectedHashRate rate) now = Some (s', eff) ->
  let first_report := negb (bool_decide (is_Some (expected entry))) in
  let gate := if first_report && StartupGate.is_holding (startup_gate s)
              then StartupGate.record_reported (startup_gate s) else startup_gate s in
  exists s2 eff2,
    frame (with_gate (with_threads s (SlotMap.set (threads s) tid (MkThread (hashrate entry) (Some rate)))) gate)
      (s2, eff2) /\
    (s', eff) = (if StartupGate.is_holding gate then (s2, eff2)
                 else ((broadcast_hashrate_change s2).1, eff2 ++ (broadcast_hashrate_change s2).2)).
Proof.
  intros He. simpl. rewrite He. set (first := negb _). set (s1 := with_threads s _).
  destruct (if first then assign_cached_jobs_to_thread s1 tid now else Some (s1, [])) as [[s2 e2]|] eqn:Ha; [|done].
  simpl.
  assert (H2 : frame s1 (s2, e2)).
  { destruct first; [by apply frame_cached_jobs in Ha|injection Ha as <- <-; apply frame_refl]. }
  assert (Hg : startup_gate s2 = startup_gate s) by apply (fr_gate _ _ H2).
  rewrite Hg. set (gate := if first && _ then StartupGate.record_reported _ else _).
  set (s3 := if first && _ then with_gate _ _ else _).
  assert (H3 : frame (with_gate s1 gate) (s3, e2) /\ startup_gate s3 = gate).
  { unfold s3, gate. destruct (first && _); (split; [destruct H2; by split|done]). }
  destruct H3 as [H3 Hg3]. rewrite Hg3.
  destruct (StartupGate.is_holding gate); simpl; intros [= <- <-]; by exists s3, e2.
Qed.

(** A share: only the thread's estimator and the counter change. *)
Lemma share_keeps s k share now :
  let s' := (handle_share s k share now).1 in
  startup_gate s' = startup_gate s /\ last_thread_count s' = last_thread_count s /\
  thread_events s' = thread_events s /\
  dom (SlotMap.items (threads s')) = dom (SlotMap.items (threads s)).
Proof.
  pose proof (handle_share_skel s k share now) as Hsk. cbv zeta. split_and!.
  all: try (by injection Hsk).
  all: unfold handle_share; destruct (SlotMap.get (tasks s) k); [|done].
  all: destruct (SlotMap.get (threads s) _); destruct (is_met_by _ _);
       try (destruct (SlotMap.get (sources _) _)); done.
Qed.
End Frame.
