(* ===== verification/SchedulerProps.v ===== *)
(** * What the scheduler promises

    Its routing of jobs to threads and of shares to sources, the startup gate,
    and what happens to a thread that goes away. *)
From stdpp Require Import base numbers list strings gmap sets fin_maps fin_map_dom.
From Stdlib Require Import ZArith Lia.
From S2P Require Import Prelude Float U256 Version Extranonce Job Alarm Estimator ShareRate Scheduler SchedulerInv SchedulerFrame.
Import Scheduler.

(** A concrete environment for examples: every thread accepts, every hash meets its target. *)
#[local] Instance env_ref : Env := {|
  ruint_ := ruint_ref;
  pow_ := {| target_max := 0xFFFF * 2 ^ 208; difficulty_float := fun _ => f_of_Z f64 1; to_work := fun x => x |};
  decode_float := integer_decode_ref;
  clock := clock_ref;
  is_met_by := fun _ _ => true;
  accepts := fun _ _ _ _ => true |}.

Definition job_ref : JobTemplate :=
  MkJob "job" [] (VersionTemplate.Mk 0x20000000 (GpBits.Mk 0x0f 0xff)) 0x1d00ffff 1 100
    (Computed (MerkleRootTemplate.Mk [] [] (ExtranonceRange.Mk 0 255 1) [] [])).

(** ** The registries *)
Section Registries.
Context `{E : Env}.

(** C38 In every state the scheduler can reach, its registries agree: a polled
    event stream belongs to a registered source or thread, a task names a
    registered source and thread, an open share channel belongs to a task, and
    the key a registry will hand out next is not in use. *)
Theorem scheduler_registries_invariant s :
  reachable s ->
  source_events s ⊆ dom (SlotMap.items (sources s)) /\
  thread_events s ⊆ dom (SlotMap.items (threads s)) /\
  share_channels s ⊆ dom (SlotMap.items (tasks s)) /\
  (forall k e, SlotMap.get (tasks s) k = Some e ->
     is_Some (SlotMap.get (sources s) (source_id e)) /\ is_Some (SlotMap.get (threads s) (thread_id e))) /\
  SlotMap.get (sources s) (SlotMap.next (sources s)) = None /\
  SlotMap.get (threads s) (SlotMap.next (threads s)) = None /\
  SlotMap.get (tasks s) (SlotMap.next (tasks s)) = None.
Proof.
  intros Hr. destruct (reachable_inv s Hr) as [H1 H2 H3 H4 H5 H6 H7]. simpl in *.
  split_and!; try done.
  - intros k e He. destruct (H3 k e He) as [Hs Ht]. split; by apply elem_of_dom.
  - apply not_elem_of_dom. intros Hin. specialize (H5 _ Hin). lia.
  - apply not_elem_of_dom. intros Hin. specialize (H6 _ Hin). lia.
  - apply not_elem_of_dom. intros Hin. specialize (H7 _ Hin). lia.
Qed.
End Registries.

(** Runs in which no stream ends. *)
Fixpoint play `{E : Env} (s : t) (l : list (event * Z)) : option t :=
  match l with
  | [] => Some s
  | (ev, now) :: l => '(s, _) ← iteration s ∅ ∅ ∅ ev now; play s l
  end.

Lemma play_reachable `{E : Env} s l s' : reachable s -> play s l = Some s' -> reachable s'.
Proof.
  revert s. induction l as [|[ev now] l IH]; intros s Hs; simpl; [by intros [= <-]|].
  destruct (iteration s ∅ ∅ ∅ ev now) as [[s1 eff]|] eqn:Hi; [|done]. simpl.
  apply IH. by eapply reach_step.
Qed.

(** A source and two threads; a job; the first thread reports one megahash per second. *)
Definition events_ref : list (event * Z) :=
  [(SourceRegistered "pool" None, 0); (ThreadRegistered, 0); (ThreadRegistered, 0);
   (SourceEv 0 (UpdateJob job_ref), 1); (ThreadEv 0 (ExpectedHashRate (10 ^ 6)), 2)].
Definition busy_ref : t := default new (play new events_ref).

Lemma busy_ref_reachable : reachable busy_ref.
Proof. apply (play_reachable new events_ref); [apply reach_new|vm_compute; reflexivity]. Qed.

Lemma scheduler_registries_invariant_witness :
  SlotMap.get (tasks busy_ref) (SlotMap.next (tasks busy_ref)) = None.
Proof. exact (proj2 (proj2 (proj2 (proj2 (proj2 (proj2 (scheduler_registries_invariant busy_ref busy_ref_reachable))))))). Defined.

(** ** Assigning jobs *)
Section Assign.
Context `{E : Env}.

(** What one assignment message carries. *)
Definition hands_out (mode : AssignMode) (job : JobTemplate) (p : nat * ExtranonceRange.t) (e : effect) : Prop :=
  exists target, e = ToThread p.1 mode
    (MkTask job (Some p.2) (Some (ExtranonceRange.start p.2)) target (time job)).

(** The tasks a run of assignments may add. *)
Definition added (sid : nat) (job : JobTemplate) (tids : list nat) (s s' : t) : Prop :=
  sources s' = sources s /\ share_channels s ⊆ share_channels s' /\
  (forall k e, SlotMap.get (tasks s) k = Some e -> SlotMap.get (tasks s') k = Some e) /\
  (forall k e, SlotMap.get (tasks s') k = Some e -> SlotMap.get (tasks s) k = Some e \/
     ((SlotMap.next (tasks s) <= k)%nat /\ source_id e = sid /\ te_template e = job /\ thread_id e ∈ tids)).

Definition fresh_tasks (s : t) : Prop :=
  forall k, is_Some (SlotMap.get (tasks s) k) -> (k < SlotMap.next (tasks s))%nat.

Lemma added_refl sid job tids s : added sid job tids s s.
Proof. split_and!; auto. Qed.

Lemma added_trans sid job tids1 tids2 s1 s2 s3 :
  (SlotMap.next (tasks s1) <= SlotMap.next (tasks s2))%nat ->
  added sid job tids1 s1 s2 -> added sid job tids2 s2 s3 -> added sid job (tids1 ++ tids2) s1 s3.
Proof.
  intros Hn (Hs1 & Hc1 & Hk1 & Ha1) (Hs2 & Hc2 & Hk2 & Ha2). split_and!.
  - congruence.
  - set_solver.
  - auto.
  - intros k e He. destruct (Ha2 k e He) as [He2|(Hl & ? & ? & ?)].
    + destruct (Ha1 k e He2) as [|(? & ? & ? & ?)]; [by left|]. right. split_and!; try done. set_solver.
    + right. split_and!; try done; [lia|set_solver].
Qed.

Lemma give_task_added s now mode sid tid task :
  fresh_tasks s ->
  let s' := (give_task s now mode sid tid task).1 in
  added sid (template task) [tid] s s' /\ fresh_tasks s' /\
  (SlotMap.next (tasks s) <= SlotMap.next (tasks s'))%nat /\ threads s' = threads s /\
  (give_task s now mode sid tid task).2 = [ToThread tid mode task].
Proof.
  intros Hf. unfold give_task. destruct (accepts _ _ _ _); simpl.
  2: { split_and!; [apply added_refl|done|lia|done|done]. }
  unfold added, fresh_tasks, SlotMap.get in *; simpl. split_and!; try done; [set_solver| | | |lia].
  - intros k e He. rewrite lookup_insert_ne; [done|]. specialize (Hf k (ex_intro _ e He)). lia.
  - intros k e. rewrite lookup_insert_Some. intros [[<- <-]|[_ He]]; [right|by left].
    simpl. split_and!; try done. set_solver.
  - intros k. rewrite lookup_insert_is_Some. intros [<-|[_ Hk]]; [lia|]. specialize (Hf k Hk). lia.
Qed.

Lemma assign_loop_effects mode sid job now pairs s s' eff :
  assign_loop s mode sid job pairs now = Some (s', eff) -> Forall2 (hands_out mode job) pairs eff.
Proof.
  revert s s' eff. induction pairs as [|[tid range] pairs IH]; intros s s' eff; simpl.
  - intros [= <- <-]. constructor.
  - destruct (SlotMap.get (threads s) tid) as [e|]; [|done]. simpl.
    destruct (task_hashrate e now) as [hr e']. destruct (compute_scheduler_target _ _) as [tg|]; [|done]. simpl.
    destruct (give_task _ _ _ _ _ _) as [s2 eff2] eqn:Hg.
    destruct (assign_loop s2 _ _ _ _ _) as [[s3 eff3]|] eqn:Hl; [|done]. intros [= <- <-].
    assert (eff2 = [ToThread tid mode (MkTask job (Some range) (Some (ExtranonceRange.start range)) tg (time job))]) as ->.
    { revert Hg. unfold give_task. destruct (accepts _ _ _ _); by intros [= _ <-]. }
    constructor; [by exists tg|]. by apply (IH s2 s3).
Qed.

Lemma assign_loop_added mode sid job now pairs s s' eff :
  fresh_tasks s -> assign_loop s mode sid job pairs now = Some (s', eff) ->
  added sid job (map fst pairs) s s'.
Proof.
  revert s s' eff. induction pairs as [|[tid range] pairs IH]; intros s s' eff Hf; simpl.
  - intros [= <- <-]. apply added_refl.
  - destruct (SlotMap.get (threads s) tid) as [e|]; [|done]. simpl.
    destruct (task_hashrate e now) as [hr e']. destruct (compute_scheduler_target _ _) as [tg|]; [|done]. simpl.
    set (task := MkTask _ _ _ _ _). set (s1 := with_threads s _).
    destruct (give_task_added s1 now mode sid tid task Hf) as (Ha & Hf2 & Hn & _ & He).
    destruct (give_task s1 now mode sid tid task) as [s2 eff2]. simpl in *. subst eff2.
    destruct (assign_loop s2 _ _ _ _ _) as [[s3 eff3]|] eqn:Hl; [|done]. intros [= <- <-].
    apply (added_trans _ _ [tid] _ s1 s2 s3); [done|done|]. by apply (IH _ _ eff3).
Qed.

Lemma eligible_spec s tid :
  tid ∈ eligible_thread_ids s <->
  exists e, SlotMap.get (threads s) tid = Some e /\ is_Some (expected e).
Proof.
  unfold eligible_thread_ids. rewrite list_elem_of_fmap. split.
  - intros ([k e] & -> & [Hx Hin]%list_elem_of_filter). apply elem_of_map_to_list in Hin. by exists e.
  - intros (e & He & Hx). exists (tid, e). split; [done|]. apply list_elem_of_filter. split; [done|].
    by apply elem_of_map_to_list.
Qed.

Lemma eligible_NoDup s : NoDup (eligible_thread_ids s).
Proof.
  unfold eligible_thread_ids. apply NoDup_fmap_fst.
  - intros x y1 y2 [_ H1]%list_elem_of_filter [_ H2]%list_elem_of_filter.
    apply elem_of_map_to_list in H1, H2. congruence.
  - apply NoDup_filter, NoDup_map_to_list.
Qed.

(** The state an assignment starts handing out tasks from. *)
Lemma assign_job_inv s mode sid job mt now s' eff :
  merkle_root job = Computed mt ->
  assign_job_to_threads s mode sid job now = Some (s', eff) ->
  (eligible_thread_ids s = [] /\ eff = [] /\
   (forall k e, SlotMap.get (tasks s') k = Some e -> SlotMap.get (tasks s) k = Some e)) \/
  exists s1 slices,
    ExtranonceRange.split (MerkleRootTemplate.extranonce_range mt)
      (Z.of_nat (length (eligible_thread_ids s))) = Some slices /\
    eligible_thread_ids s <> [] /\
    tasks s1 = tasks (match mode with
                      | Update => s
                      | Replace => remove_tasks_where s (fun e => (source_id e =? sid)%nat)
                      end) /\
    share_channels s1 = share_channels (match mode with
                      | Update => s
                      | Replace => remove_tasks_where s (fun e => (source_id e =? sid)%nat)
                      end) /\
    assign_loop s1 mode sid job (zip (eligible_thread_ids s) slices) now = Some (s', eff).
Proof.
  intros Hm. unfold assign_job_to_threads. rewrite Hm.
  assert (Hc : threads (cache_job s sid job) = threads s /\ tasks (cache_job s sid job) = tasks s /\
               share_channels (cache_job s sid job) = share_channels s).
  { unfold cache_job. destruct (SlotMap.get _ _); done. }
  destruct Hc as (Hct & Hck & Hcc). set (s1 := cache_job s sid job) in *.
  destruct (bool_decide_reflect (SlotMap.items (threads s1) = ∅)) as [Hemp|_].
  { intros [= <- <-]. left. split_and!; [|done|by rewrite Hck].
    unfold eligible_thread_ids. rewrite Hct in Hemp. by rewrite Hemp, map_to_list_empty. }
  destruct (check_alarm s1 sid job now) as [s2|] eqn:Ha; [|done]. simpl.
  assert (Ha2 : threads s2 = threads s1 /\ tasks s2 = tasks s1 /\ share_channels s2 = share_channels s1).
  { revert Ha. unfold check_alarm. destruct (SlotMap.get _ _); [|by intros [= <-]].
    destruct (is_difficulty_too_high _ _); [|done]. simpl. destruct (Alarm.check _ _ _). by intros [= <-]. }
  destruct Ha2 as (Hat & Hak & Hac).
  set (s3 := match mode with Update => s2 | Replace => _ end).
  assert (H3 : threads s3 = threads s /\
     tasks s3 = tasks (match mode with Update => s | Replace => remove_tasks_where s (fun e => (source_id e =? sid)%nat) end) /\
     share_channels s3 = share_channels (match mode with Update => s | Replace => remove_tasks_where s (fun e => (source_id e =? sid)%nat) end)).
  { unfold s3. destruct mode; rewrite ?remove_tasks_where_eq; simpl; rewrite Hat, Hak, Hac, Hct, Hck, Hcc; done. }
  destruct H3 as (H3t & H3k & H3c).
  assert (Hel : eligible_thread_ids s3 = eligible_thread_ids s) by (unfold eligible_thread_ids; by rewrite H3t).
  rewrite Hel. destruct (bool_decide_reflect (eligible_thread_ids s = [])) as [Hnil|Hne].
  { intros [= <- <-]. left. split_and!; [done|done|]. rewrite H3k. destruct mode; [done|].
    rewrite remove_tasks_where_eq. intros k e. unfold SlotMap.get. simpl. rewrite kept_lookup. tauto. }
  destruct (ExtranonceRange.split _ _) as [slices|]; [|done]. simpl. intros Hl. right. by exists s3, slices.
Qed.

(** C5 A job is shared out without overlap: every thread that has declared a hash
    rate gets exactly one message, in the job's mode, whose extranonce range
    starts at its first value; the ranges are those of all these threads and, laid
    end to end, are exactly the job's extranonce range in order, so no two threads
    search the same coinbase and none is skipped. *)
Theorem job_assignment_partitions s mode sid job mt now s' eff :
  merkle_root job = Computed mt ->
  ExtranonceRange.wf (MerkleRootTemplate.extranonce_range mt) ->
  Z.of_nat (length (eligible_thread_ids s)) < 2 ^ 64 ->
  assign_job_to_threads s mode sid job now = Some (s', eff) ->
  exists slices,
    length slices = length (eligible_thread_ids s) /\
    Forall2 (hands_out mode job) (zip (eligible_thread_ids s) slices) eff /\
    (eligible_thread_ids s <> [] ->
     mjoin (map ExtranonceRange.elems slices) =
       ExtranonceRange.elems (MerkleRootTemplate.extranonce_range mt)) /\
    NoDup (eligible_thread_ids s) /\
    (forall tid, tid ∈ eligible_thread_ids s <->
       exists e, SlotMap.get (threads s) tid = Some e /\ is_Some (expected e)).
Proof.
  intros Hm Hwf Hlen Ha.
  destruct (assign_job_inv _ _ _ _ _ _ _ _ Hm Ha) as [(Hnil & -> & _)|(s1 & slices & Hs & Hne & _ & _ & Hl)].
  - exists []. rewrite Hnil. split_and!; [done|constructor|done|constructor|].
    intros tid. by rewrite <- eligible_spec, Hnil.
  - exists slices.
    pose proof (split_spec (MerkleRootTemplate.extranonce_range mt) _ Hwf (conj (Nat2Z.is_nonneg _) Hlen)) as Hsp.
    rewrite Hs in Hsp. destruct Hsp as (Hlen2 & Hj & _). split_and!; [lia| |done|apply eligible_NoDup|apply eligible_spec].
    apply (assign_loop_effects mode sid job now _ s1 s' eff Hl).
Qed.

Lemma reachable_fresh s : reachable s -> fresh_tasks s.
Proof. intros Hr k Hk. apply (inv_next_task _ (reachable_inv s Hr)), elem_of_dom, Hk. Qed.

(** What a new job does to the tasks of a reachable scheduler.  Every task
    afterwards is either an old one, or belongs to the job's source, carries the
    job and runs on a thread that has declared a hash rate.  An update keeps every
    old task, so late shares of earlier jobs still count; a replacement keeps
    those of the other sources and none of its own, once some thread can work. *)
Theorem job_assignment_tasks s mode sid job mt now s' eff :
  reachable s -> merkle_root job = Computed mt -> eligible_thread_ids s <> [] ->
  assign_job_to_threads s mode sid job now = Some (s', eff) ->
  (forall k e, SlotMap.get (tasks s') k = Some e ->
     (SlotMap.get (tasks s) k = Some e /\ (mode = Replace -> source_id e <> sid)) \/
     (SlotMap.get (tasks s) k = None /\ source_id e = sid /\ te_template e = job /\
      thread_id e ∈ eligible_thread_ids s)) /\
  (forall k e, SlotMap.get (tasks s) k = Some e -> mode = Update \/ source_id e <> sid ->
     SlotMap.get (tasks s') k = Some e /\ (k ∈ share_channels s -> k ∈ share_channels s')).
Proof.
  intros Hr Hm Hne Ha. pose proof (reachable_fresh s Hr) as Hf.
  destruct (assign_job_inv _ _ _ _ _ _ _ _ Hm Ha) as [(? & _)|(s1 & slices & _ & _ & Hk1 & Hc1 & Hl)]; [done|].
  assert (Hnext : SlotMap.next (tasks s1) = SlotMap.next (tasks s)).
  { rewrite Hk1. destruct mode; [done|]. by rewrite remove_tasks_where_eq. }
  assert (Hget : forall k e, SlotMap.get (tasks s1) k = Some e <->
            SlotMap.get (tasks s) k = Some e /\ (mode = Replace -> source_id e <> sid)).
  { intros k e. rewrite Hk1. destruct mode; [naive_solver|]. rewrite remove_tasks_where_eq.
    unfold SlotMap.get; simpl. rewrite kept_lookup, Nat.eqb_neq. naive_solver. }
  assert (Hf1 : fresh_tasks s1).
  { intros k [e [He _]%Hget]. rewrite Hnext. apply Hf. by exists e. }
  destruct (assign_loop_added _ _ _ _ _ _ _ _ Hf1 Hl) as (_ & Hc & Hkeep & Hadd). split.
  - intros k e He. destruct (Hadd k e He) as [Hold%Hget|(Hk & Hs & Ht & Hi)]; [by left|right].
    split_and!; [|done|done|].
    + destruct (SlotMap.get (tasks s) k) eqn:Hg; [|done]. rewrite Hnext in Hk.
      specialize (Hf k (ex_intro _ _ Hg)). lia.
    + apply list_elem_of_fmap in Hi as ([x y] & Hx & Hin). apply elem_of_zip_l in Hin. simpl in Hx. by subst x.
  - intros k e He Hor.
    assert (Hmode : mode = Replace -> source_id e <> sid) by (intros ->; by destruct Hor).
    split.
    + apply Hkeep, Hget. done.
    + intros Hin. apply Hc. rewrite Hc1. destruct mode; [done|]. rewrite remove_tasks_where_eq. simpl.
      apply elem_of_difference. split; [done|]. unfold removed. rewrite elem_of_dom.
      intros [e' [He' Hb]%map_lookup_filter_Some]. unfold SlotMap.get in He. simpl in Hb.
      apply Nat.eqb_eq in Hb. destruct Hor; [done|congruence].
Qed.

(** Clearing a source's jobs forgets its cached job and all of its tasks and
    closes their share channels, touches no other source's task or entry, and a
    share of a forgotten task changes nothing any more.  No message goes to any
    thread: those that were working on the tasks keep working on them. *)
Theorem clear_jobs_forgets s sid :
  let s' := handle_clear_jobs s sid in
  (forall k e, SlotMap.get (tasks s') k = Some e <->
     SlotMap.get (tasks s) k = Some e /\ source_id e <> sid) /\
  (forall src, SlotMap.get (sources s') sid = Some src -> last_job src = None) /\
  (forall i, i <> sid -> SlotMap.get (sources s') i = SlotMap.get (sources s) i) /\
  threads s' = threads s /\
  (forall k e share now, SlotMap.get (tasks s) k = Some e -> source_id e = sid ->
     k ∉ share_channels s' /\ handle_share s' k share now = (s', [])) /\
  (forall now, handle s (SourceEv sid ClearJobs) now = Some (s', [])).
Proof.
  cbv zeta.
  set (src_map := match SlotMap.get (sources s) sid with
                  | None => sources s | Some src => SlotMap.set (sources s) sid (set_last_job src None) end).
  assert (Hshape : handle_clear_jobs s sid =
      remove_tasks_where (with_sources s src_map) (fun e => (source_id e =? sid)%nat)).
  { unfold handle_clear_jobs, src_map. destruct (SlotMap.get (sources s) sid); [done|]. by destruct s. }
  rewrite Hshape, remove_tasks_where_eq. set (s' := with_tasks _ _ _).
  assert (Hget : forall k e, SlotMap.get (tasks s') k = Some e <->
            SlotMap.get (tasks s) k = Some e /\ source_id e <> sid).
  { intros k e. unfold SlotMap.get, s'. simpl. by rewrite kept_lookup, Nat.eqb_neq. }
  split_and!; [exact Hget| | |done| |].
  - simpl. unfold src_map. destruct (SlotMap.get (sources s) sid) eqn:H; [|congruence].
    intros src. unfold SlotMap.get. simpl. rewrite lookup_insert_eq. by intros [= <-].
  - intros i Hi. simpl. unfold src_map. destruct (SlotMap.get (sources s) sid); [|done].
    unfold SlotMap.get. simpl. by rewrite lookup_insert_ne.
  - intros k e share now He Hsid. split.
    + unfold s'. simpl. rewrite elem_of_difference. intros [_ Hn]. apply Hn. unfold removed.
      apply elem_of_dom. exists e. apply map_lookup_filter_Some. split; [done|]. by apply Nat.eqb_eq.
    + unfold handle_share. destruct (SlotMap.get (tasks s') k) as [e'|] eqn:Hk; [|done].
      apply Hget in Hk as [He' Hne]. congruence.
  - intros now. simpl. by rewrite Hshape, remove_tasks_where_eq.
Qed.
End Assign.

(** Both threads have reported. *)
Definition ready_ref : t := default new (play new (events_ref ++ [(ThreadEv 1 (ExpectedHashRate (10 ^ 6)), 3)])).

Lemma ready_ref_reachable : reachable ready_ref.
Proof.
  apply (play_reachable new (events_ref ++ [(ThreadEv 1 (ExpectedHashRate (10 ^ 6)), 3)]));
    [apply reach_new|vm_compute; reflexivity].
Qed.

Lemma job_assignment_partitions_witness :
  match assign_job_to_threads ready_ref Replace 0 job_ref 4 with
  | Some (s', eff) => exists slices,
      length slices = length (eligible_thread_ids ready_ref) /\
      Forall2 (hands_out Replace job_ref) (zip (eligible_thread_ids ready_ref) slices) eff
  | None => False
  end.
Proof.
  destruct (assign_job_to_threads ready_ref Replace 0 job_ref 4) as [[s' eff]|] eqn:H;
    [|vm_compute in H; discriminate].
  destruct (job_assignment_partitions ready_ref Replace 0 job_ref
              (MerkleRootTemplate.Mk [] [] (ExtranonceRange.Mk 0 255 1) [] []) 4 s' eff eq_refl
              ltac:(vm_compute; intuition discriminate) ltac:(vm_compute; reflexivity) H)
    as (slices & Hl & HF & _).
  exists slices. split; [exact Hl|exact HF].
Defined.

Lemma job_assignment_tasks_witness :
  match assign_job_to_threads ready_ref Replace 0 job_ref 4 with
  | Some (s', eff) => forall k e, SlotMap.get (tasks s') k = Some e ->
     (SlotMap.get (tasks ready_ref) k = Some e /\ (Replace = Replace -> source_id e <> 0%nat)) \/
     (SlotMap.get (tasks ready_ref) k = None /\ source_id e = 0%nat /\ te_template e = job_ref /\
      thread_id e ∈ eligible_thread_ids ready_ref)
  | None => False
  end.
Proof.
  destruct (assign_job_to_threads ready_ref Replace 0 job_ref 4) as [[s' eff]|] eqn:H;
    [|vm_compute in H; discriminate].
  exact (proj1 (job_assignment_tasks ready_ref Replace 0 job_ref
              (MerkleRootTemplate.Mk [] [] (ExtranonceRange.Mk 0 255 1) [] []) 4 s' eff
              ready_ref_reachable eq_refl ltac:(vm_compute; discriminate) H)).
Defined.

(** ** Shares *)
Section Shares.
Context `{E : Env}.

Definition is_submission (e : effect) : bool :=
  match e with ToSource _ (SubmitShare _) => true | _ => false end.
(** How many of the messages sent are submissions. *)
Definition submissions (eff : list effect) : nat := length (List.filter is_submission eff).

(** A step that submits nothing and leaves the counter alone. *)
Definition quiet (s : t) (p : t * list effect) : Prop :=
  shares_submitted p.1 = shares_submitted s /\ Forall (fun e => is_submission e = false) p.2.

Lemma quiet_trans s s1 eff1 s2 eff2 :
  quiet s (s1, eff1) -> quiet s1 (s2, eff2) -> quiet s (s2, eff1 ++ eff2).
Proof. intros [H1 F1] [H2 F2]. split; simpl in *; [congruence|by apply Forall_app]. Qed.

Lemma quiet_none eff : Forall (fun e => is_submission e = false) eff -> submissions eff = 0%nat.
Proof. unfold submissions. induction 1 as [|e l He _ IH]; simpl; [done|]. by rewrite He. Qed.

Lemma broadcast_quiet s : quiet s (broadcast_hashrate_change s).
Proof.
  split; [done|]. simpl. unfold send_hashrate_updates, collect_hashrate_updates.
  rewrite map_map. apply Forall_forall. intros e (p & -> & _)%list_elem_of_fmap. done.
Qed.

Lemma frame_quiet s p : frame s p -> quiet s p.
Proof.
  intros [Hs _ _ _ _ _ _ HF]. split; [done|]. eapply Forall_impl; [exact HF|]. by intros [].
Qed.

Lemma quiet_disconnections s : quiet s (handle_thread_disconnections s).
Proof.
  unfold handle_thread_disconnections. destruct (_ =? _)%nat; [by split|].
  match goal with |- quiet _ (broadcast_hashrate_change ?x) => destruct (broadcast_quiet x) as [Hb HF] end.
  split; [|exact HF]. by rewrite Hb, remove_tasks_where_eq.
Qed.

Lemma quiet_report s tid rate now s' eff :
  handle_thread_event s tid (ExpectedHashRate rate) now = Some (s', eff) -> quiet s (s', eff).
Proof.
  destruct (SlotMap.get (threads s) tid) as [entry|] eqn:He.
  - intros H. destruct (frame_report _ _ _ _ _ _ _ He H) as (s2 & eff2 & Hf & Heq). clear H.
    apply frame_quiet in Hf as [H1 H2]. assert (Hq : quiet s (s2, eff2)) by (split; [exact H1|exact H2]).
    rewrite Heq. match goal with |- quiet s (if ?b then _ else _) => destruct b end; [done|].
    eapply quiet_trans; [exact Hq|]. apply (broadcast_quiet s2).
  - simpl. rewrite He. by intros [= <- <-].
Qed.

(** An announcement after a change that submits nothing. *)
Lemma quiet_broadcast s s1 : shares_submitted s1 = shares_submitted s -> quiet s (broadcast_hashrate_change s1).
Proof. intros H. destruct (broadcast_quiet s1) as [H1 H2]. split; [congruence|done]. Qed.

Lemma quiet_handle s ev now s' eff :
  (forall k sh, ev <> ShareArrived k sh) -> handle s ev now = Some (s', eff) -> quiet s (s', eff).
Proof.
  intros Hev Hh. destruct (work_event ev) eqn:Hw; [by eapply frame_quiet, frame_work_event|].
  destruct ev as [nm u| |k sh|tid []| | | | | |]; try done; cbn [handle] in Hh; try apply (inj Some) in Hh.
  - rewrite <- Hh. unfold handle_source_registration. cbn -[broadcast_hashrate_change].
    destruct (negb _); [by apply quiet_broadcast|by split].
  - by destruct (Hev k sh).
  - by apply quiet_report in Hh.
  - rewrite <- Hh. split; [done|by repeat constructor].
  - rewrite <- Hh. unfold handle_enumeration_complete.
    destruct (StartupGate.is_holding _); [by split|by apply quiet_broadcast].
  - rewrite <- Hh. unfold handle_gate_timeout.
    destruct (quiet_broadcast s (with_gate s (StartupGate.record_timeout (startup_gate s))) eq_refl).
    destruct (broadcast_hashrate_change _). by split.
Qed.

(** What a share leads to. *)
Lemma handle_share_spec s k share now e :
  SlotMap.get (tasks s) k = Some e ->
  let met := is_met_by (share_target (te_template e)) (hash share) in
  shares_submitted (handle_share s k share now).1 =
    (if met then wrap 64 (shares_submitted s + 1) else shares_submitted s) /\
  (handle_share s k share now).2 =
    (if met && bool_decide (is_Some (SlotMap.get (sources s) (source_id e)))
     then [ToSource (source_id e) (SubmitShare (source_share_from share (job_id (te_template e))))] else []).
Proof.
  intros He. unfold handle_share. rewrite He.
  destruct (SlotMap.get (threads s) _); cbv zeta; destruct (is_met_by _ _); simpl; try done;
    destruct (SlotMap.get (sources s) _) eqn:Hs; simpl; done.
Qed.

Lemma iteration_split s es et ec ev now s' eff :
  iteration s es et ec ev now = Some (s', eff) ->
  exists s2 eff1 eff2,
    enabled (poll_streams s es et ec) ev now = true /\
    handle (poll_streams s es et ec) ev now = Some (s2, eff1) /\
    handle_thread_disconnections s2 = (s', eff2) /\ eff = eff1 ++ eff2.
Proof.
  unfold iteration. destruct (enabled _ _ _) eqn:Hen; [|done].
  destruct (handle _ _ _) as [[s2 e2]|] eqn:Hh; [|done]. simpl.
  destruct (handle_thread_disconnections s2) as [s3 e3] eqn:Hd. intros [= <- <-]. by exists s2, e2, e3.
Qed.

Lemma reachable_shares s : reachable s -> uint 64 (shares_submitted s).
Proof.
  induction 1 as [|s es et ec ev now s' eff Hr IH Hit]; [done|].
  destruct (iteration_split _ _ _ _ _ _ _ _ Hit) as (s2 & e2 & e3 & _ & Hh & Hd & _).
  pose proof (quiet_disconnections s2) as [Hq _]. rewrite Hd in Hq. simpl in Hq. rewrite Hq.
  assert (Hother : (forall k sh, ev <> ShareArrived k sh) -> uint 64 (shares_submitted s2)).
  { intros Hev. destruct (quiet_handle _ _ _ _ _ Hev Hh) as [H1 _]. simpl in H1. by rewrite H1. }
  destruct ev; try (apply Hother; discriminate).
  apply step_fst in Hh. subst s2.
  destruct (SlotMap.get (tasks (poll_streams s es et ec)) task_id) as [e|] eqn:He.
  - rewrite (proj1 (handle_share_spec _ _ share now _ He)).
    destruct (is_met_by _ _); [by apply wrap_uint|done].
  - unfold handle_share. by rewrite He.
Qed.

Lemma submissions_app l1 l2 : submissions (l1 ++ l2) = (submissions l1 + submissions l2)%nat.
Proof. unfold submissions. by rewrite List.filter_app, length_app. Qed.

(** C4 Every accepted share is submitted once and counted once.  One iteration
    of a reachable scheduler submits a share exactly when it takes a share from an
    open task channel and the share's hash meets the target of the task's own job;
    the share goes to the source of that job under the job's id, and the counter
    of submitted shares grows by exactly the number of submissions sent. *)
Theorem submissions_accounted s es et ec ev now s' eff :
  reachable s -> iteration s es et ec ev now = Some (s', eff) ->
  shares_submitted s' = wrap 64 (shares_submitted s + Z.of_nat (submissions eff)) /\
  (forall sid sh, ToSource sid (SubmitShare sh) ∈ eff <->
     exists k share e, ev = ShareArrived k share /\ k ∈ share_channels s /\ k ∉ ec /\
       SlotMap.get (tasks s) k = Some e /\ source_id e = sid /\
       is_met_by (share_target (te_template e)) (hash share) = true /\
       sh = source_share_from share (job_id (te_template e))).
Proof.
  intros Hr Hit. pose proof (reachable_shares s Hr) as Hu.
  destruct (iteration_split _ _ _ _ _ _ _ _ Hit) as (s2 & e2 & e3 & Hen & Hh & Hd & ->).
  pose proof (quiet_disconnections s2) as [Hq HF]. rewrite Hd in Hq, HF. simpl in Hq, HF.
  rewrite submissions_app, (quiet_none e3 HF), Nat.add_0_r, Hq.
  assert (Hin : forall l sid sh, Forall (fun e => is_submission e = false) l -> ToSource sid (SubmitShare sh) ∉ l).
  { intros l sid sh Hl Hx. rewrite Forall_forall in Hl. by specialize (Hl _ Hx). }
  assert (Happ : forall sid sh, ToSource sid (SubmitShare sh) ∈ e2 ++ e3 <-> ToSource sid (SubmitShare sh) ∈ e2).
  { intros sid sh. rewrite elem_of_app. split; [|by left]. intros [|Hx]; [done|]. by destruct (Hin e3 sid sh HF). }
  setoid_rewrite Happ.
  assert (Hcase : (exists k sh, ev = ShareArrived k sh) \/ ~ (exists k sh, ev = ShareArrived k sh))
    by (destruct ev; try (right; intros (? & ? & ?); discriminate); left; by eexists _, _).
  destruct Hcase as [(k & share & ->)|Hne].
  - cbn [handle enabled] in *. apply bool_decide_eq_true in Hen. apply elem_of_difference in Hen as [Hk Hkc].
    destruct (reachable_inv s Hr) as [_ _ H3 H4 _ _ _]. simpl in *.
    specialize (H4 k Hk). apply elem_of_dom in H4 as [e He].
    destruct (handle_share_spec (poll_streams s es et ec) k share now e He) as [Hc Hs].
    injection Hh as Hh. rewrite Hh in Hc, Hs. simpl in Hc, Hs. rewrite Hc.
    destruct (H3 k e He) as [Hsrc _]. apply elem_of_dom in Hsrc.
    rewrite (bool_decide_eq_true_2 _ Hsrc), andb_true_r in Hs.
    destruct (is_met_by _ _) eqn:Hmet; subst e2; split; try done.
    + intros sid sh. rewrite list_elem_of_singleton. split.
      * intros [= -> ->]. by exists k, share, e.
      * intros (k' & share' & e' & [= <- <-] & _ & _ & He' & <- & _ & ->). unfold SlotMap.get in He'. congruence.
    + simpl. by rewrite Z.add_0_r, wrap_id.
    + intros sid sh. rewrite elem_of_nil. split; [done|].
      intros (k' & share' & e' & [= <- <-] & _ & _ & He' & _ & Hm & _). unfold SlotMap.get in He'. congruence.
  - assert (Hev : forall k sh, ev <> ShareArrived k sh) by (intros k sh ->; apply Hne; by exists k, sh).
    destruct (quiet_handle _ _ _ _ _ Hev Hh) as [H1 H2]. simpl in H1, H2.
    rewrite (quiet_none e2 H2), Z.add_0_r, H1, wrap_id by done. split; [done|].
    intros sid sh. split; [intros Hx; by destruct (Hin e2 sid sh H2)|].
    intros (k & share & e & -> & _). by destruct (Hev k share).
Qed.
End Shares.

Lemma submissions_accounted_witness :
  let share := MkShare 7 [] 0 100 (Some (Extranonce.Mk 0 1)) 1 in
  match iteration busy_ref ∅ ∅ ∅ (ShareArrived 0 share) 5 with
  | Some (s', eff) => shares_submitted s' = wrap 64 (shares_submitted busy_ref + Z.of_nat (submissions eff))
  | None => False
  end.
Proof.
  intros share. destruct (iteration busy_ref ∅ ∅ ∅ (ShareArrived 0 share) 5) as [[s' eff]|] eqn:H;
    [|vm_compute in H; discriminate].
  exact (proj1 (submissions_accounted busy_ref ∅ ∅ ∅ (ShareArrived 0 share) 5 s' eff busy_ref_reachable H)).
Defined.

(** ** Targets and cached jobs *)
Section Targets.
Context `{E : Env}.

(** The target a thread works at is the source's own unless the thread would
    then find fewer than one share per second or more than ten: it lies between
    the target of one share per second and the target of ten at the thread's hash
    rate, and is the target nearest to the source's among those; a thread with no
    known hash rate works at the source's target. *)
Theorem scheduler_target_clamped hr source_target target :
  compute_scheduler_target hr source_target = Some target ->
  if HashRate.is_zero hr then target = source_target
  else exists slowest fastest,
    ShareRate.to_target decode_float MEASUREMENT_SHARE_RATE hr = Some slowest /\
    ShareRate.to_target decode_float FLOOD_CAP_RATE hr = Some fastest /\
    slowest <= target <= fastest /\
    (slowest <= source_target <= fastest -> target = source_target) /\
    (forall u, slowest <= u <= fastest -> Z.abs (target - source_target) <= Z.abs (u - source_target)).
Proof.
  unfold compute_scheduler_target. destruct (HashRate.is_zero hr); [by intros [= <-]|].
  destruct (ShareRate.to_target _ MEASUREMENT_SHARE_RATE hr) as [lo|] eqn:Hlo; [|done].
  destruct (ShareRate.to_target _ FLOOD_CAP_RATE hr) as [hi|] eqn:Hhi; [|done]. simpl.
  unfold clamp. destruct (Z.ltb_spec hi lo); [done|]. intros [= <-]. exists lo, hi.
  destruct (Z.ltb_spec source_target lo); [|destruct (Z.ltb_spec hi source_target)]; split_and!; try done; intros; lia.
Qed.

(** The jobs a thread is handed on its first report, with their full ranges. *)
Definition cached_jobs (srcs : list (nat * SourceEntry)) : list (JobTemplate * ExtranonceRange.t) :=
  omap (fun p => job ← last_job p.2;
                 match merkle_root job with
                 | Computed mt => Some (job, MerkleRootTemplate.extranonce_range mt)
                 | Fixed _ => None
                 end) srcs.

Lemma cached_loop_effects now tid hr srcs s s' eff :
  cached_loop s now tid hr srcs = Some (s', eff) ->
  Forall2 (fun p e => hands_out Update p.1 (tid, p.2) e) (cached_jobs srcs) eff.
Proof.
  revert s s' eff. induction srcs as [|[sid src] srcs IH]; intros s s' eff; simpl.
  - intros [= <- <-]. constructor.
  - destruct (last_job src) as [[jid jp jv jb jt jtime []]|]; simpl; try by apply IH.
    destruct (compute_scheduler_target hr jt) as [tg|]; [|done]. simpl.
    destruct (SlotMap.get (threads s) tid) as [e|]; [|done]. simpl. set (task := MkTask _ _ _ _ _).
    destruct (give_task s now Update sid tid task) as [s2 eff2] eqn:Hg.
    destruct (cached_loop s2 _ _ _ _) as [[s3 eff3]|] eqn:Hl; [|done]. intros [= <- <-].
    assert (eff2 = [ToThread tid Update task]) as ->.
    { revert Hg. unfold give_task. destruct (accepts _ _ _ _); by intros [= _ <-]. }
    constructor; [by exists tg|]. by eapply IH.
Qed.

(** A thread's first report of a hash rate brings it up to date: it is handed
    the last job of every source that has one with a computed merkle root, alongside
    whatever it does, each with the job's whole extranonce range; a later report
    hands out nothing. *)
Theorem first_report_gets_cached_jobs s tid entry rate now s' eff :
  SlotMap.get (threads s) tid = Some entry ->
  handle_thread_event s tid (ExpectedHashRate rate) now = Some (s', eff) ->
  exists tasks_sent announced,
    eff = tasks_sent ++ announced /\ Forall (fun e => ~ to_thread e) announced /\
    Forall2 (fun p e => hands_out Update p.1 (tid, p.2) e)
      (if bool_decide (is_Some (expected entry)) then []
       else cached_jobs (map_to_list (SlotMap.items (sources s)))) tasks_sent.
Proof.
  intros He. simpl. rewrite He.
  set (s1 := with_threads s _). set (first := negb _).
  destruct (if first then assign_cached_jobs_to_thread s1 tid now else Some (s1, [])) as [[s2 e2]|] eqn:Ha; [|done].
  simpl. intros Hfin.
  assert (Hann : forall x, Forall (fun e => ~ to_thread e) (broadcast_hashrate_change x).2).
  { intros x. apply Forall_forall. intros e Hin. apply list_elem_of_fmap in Hin as ([? ?] & -> & _). by intros []. }
  assert (Hsplit : exists announced, eff = e2 ++ announced /\ Forall (fun e => ~ to_thread e) announced).
  { set (s3 := if first && _ then _ else _) in Hfin.
    destruct (negb (StartupGate.is_holding (startup_gate s3))); injection Hfin as _ <-.
    - by exists (broadcast_hashrate_change s3).2.
    - exists []. by rewrite app_nil_r. }
  destruct Hsplit as (announced & -> & HF). exists e2, announced. split_and!; [done|done|].
  unfold first in Ha. destruct (bool_decide _); simpl in Ha; [injection Ha as _ <-; constructor|].
  unfold assign_cached_jobs_to_thread in Ha.
  destruct (SlotMap.get (threads s1) tid) as [e|]; [|done]. simpl in Ha.
  destruct (task_hashrate e now) as [hr e']. by apply cached_loop_effects in Ha.
Qed.
End Targets.

Lemma scheduler_target_clamped_witness :
  match compute_scheduler_target (10 ^ 12) 1 with
  | Some target => exists slowest fastest,
    ShareRate.to_target decode_float MEASUREMENT_SHARE_RATE (10 ^ 12) = Some slowest /\
    ShareRate.to_target decode_float FLOOD_CAP_RATE (10 ^ 12) = Some fastest /\
    slowest <= target <= fastest /\ (slowest <= 1 <= fastest -> target = 1) /\
    (forall u, slowest <= u <= fastest -> Z.abs (target - 1) <= Z.abs (u - 1))
  | None => False
  end.
Proof.
  destruct (compute_scheduler_target (10 ^ 12) 1) as [target|] eqn:H; [|vm_compute in H; discriminate].
  exact (scheduler_target_clamped (10 ^ 12) 1 target H).
Defined.

Lemma first_report_gets_cached_jobs_witness :
  match handle_thread_event busy_ref 1 (ExpectedHashRate 5) 9 with
  | Some (s', eff) => exists tasks_sent announced, eff = tasks_sent ++ announced /\
      Forall (fun e => ~ to_thread e) announced /\
      Forall2 (fun p e => hands_out Update p.1 (1%nat, p.2) e)
        (cached_jobs (map_to_list (SlotMap.items (sources busy_ref)))) tasks_sent
  | None => False
  end.
Proof.
  destruct (handle_thread_event busy_ref 1 (ExpectedHashRate 5) 9) as [[s' eff]|] eqn:H;
    [|vm_compute in H; discriminate].
  destruct (SlotMap.get (threads busy_ref) 1) as [entry|] eqn:He; [|vm_compute in He; discriminate].
  assert (Hx : bool_decide (is_Some (expected entry)) = false)
    by (vm_compute in He; injection He as <-; reflexivity).
  pose proof (first_report_gets_cached_jobs busy_ref 1 entry 5 9 s' eff He H) as Hw.
  rewrite Hx in Hw. exact Hw.
Defined.
