(* ===== verification/SchedulerLife.v ===== *)
(** * The startup gate, and threads that leave

    When sources are told the hash rate, what opens the gate, and how the
    scheduler notices that a thread has gone. *)
From stdpp Require Import base numbers list strings gmap sets fin_maps fin_map_dom.
From Stdlib Require Import ZArith Lia.
From S2P Require Import Prelude Float U256 Version Extranonce Job Alarm Estimator ShareRate Scheduler SchedulerInv SchedulerFrame SchedulerProps.
Import Scheduler.

(** ** The gate *)
Inductive gate_event := Registered | Reported | EnumerationComplete | Timeout.
#[global] Instance gate_event_eq_dec : EqDecision gate_event.
Proof. solve_decision. Defined.

Definition gate_step (g : StartupGate.t) (e : gate_event) : StartupGate.t :=
  match e with
  | Registered => StartupGate.record_registered g
  | Reported => StartupGate.record_reported g
  | EnumerationComplete => StartupGate.record_enumeration_complete g
  | Timeout => StartupGate.record_timeout g
  end.

Definition count (e : gate_event) (l : list gate_event) : nat := length (base.filter (.= e) l).

(** When the documentation wants it open: a timeout, or a moment after the
    enumeration at which every thread registered so far had reported. *)
Definition should_open (l : list gate_event) : Prop :=
  Timeout ∈ l \/
  exists l1 l2, l = l1 ++ l2 /\ EnumerationComplete ∈ l1 /\ (count Registered l1 <= count Reported l1)%nat.

Lemma count_snoc e l x : count e (l ++ [x]) = (count e l + if decide (x = e) then 1 else 0)%nat.
Proof. unfold count. rewrite filter_app, length_app. f_equal. rewrite filter_cons. by destruct (decide (x = e)). Qed.

Lemma should_open_snoc l e :
  should_open (l ++ [e]) <-> should_open l \/ e = Timeout \/
    (EnumerationComplete ∈ l ++ [e] /\ (count Registered (l ++ [e]) <= count Reported (l ++ [e]))%nat).
Proof.
  unfold should_open. split.
  - intros [Ht|(l1 & l2 & Heq & Hc & Hn)].
    + apply elem_of_app in Ht as [?|?%list_elem_of_singleton]; [by left; left|naive_solver].
    + induction l2 as [|x l2 _] using rev_ind.
      * rewrite app_nil_r in Heq. subst l1. naive_solver.
      * rewrite app_assoc in Heq. apply app_inj_tail in Heq as [-> _]. left. right. by exists l1, l2.
  - intros [[Ht|(l1 & l2 & -> & Hc & Hn)]|[->|[Hc Hn]]].
    + left. apply elem_of_app. by left.
    + right. exists l1, (l2 ++ [e]). by rewrite app_assoc.
    + left. apply elem_of_app. right. by apply list_elem_of_singleton.
    + right. exists (l ++ [e]), []. by rewrite app_nil_r.
Qed.

Lemma gate_run l :
  let g := fold_left gate_step l StartupGate.new in
  (StartupGate.open g = true <-> should_open l) /\
  (StartupGate.open g = false ->
     StartupGate.registered g = count Registered l /\ StartupGate.reported g = count Reported l /\
     (StartupGate.enumeration_complete g = true <-> EnumerationComplete ∈ l)).
Proof.
  induction l as [|e l IH] using rev_ind; cbv zeta in *.
  { split; [split; [done|]|].
    - intros [H|(l1 & l2 & Heq & H & _)]; [by apply elem_of_nil in H|].
      symmetry in Heq. apply app_nil in Heq as [-> ->]. by apply elem_of_nil in H.
    - intros _. split_and!; try done. split; [done|]. intros H. by apply elem_of_nil in H. }
  rewrite fold_left_app. simpl. set (g := fold_left gate_step l StartupGate.new) in *.
  destruct IH as [Ho Hc]. rewrite should_open_snoc, <- Ho.
  destruct g as [rg rp cp []]; simpl in *.
  { split; [|by destruct e]. destruct e; simpl; tauto. }
  destruct (Hc eq_refl) as (-> & -> & Hcomp).
  rewrite !count_snoc, !elem_of_app, list_elem_of_singleton, <- Hcomp.
  destruct e; simpl; unfold StartupGate.record_registered, StartupGate.record_reported,
    StartupGate.record_enumeration_complete, StartupGate.record_timeout, StartupGate.try_open; simpl.
  all: assert (Hno : cp = true -> (count Reported l < count Registered l)%nat)
    by (intros Hc'; apply Nat.nle_gt; intros Hle; enough (false = true) by done; apply Ho; right;
        exists l, []; rewrite app_nil_r; tauto).
  all: clear Ho Hc Hcomp; destruct cp; simpl; try specialize (Hno eq_refl);
    try (destruct (Nat.leb_spec (count Registered l) (S (count Reported l))); simpl);
    try (destruct (Nat.leb_spec (count Registered l) (count Reported l)); simpl).
  all: split; [split; [intros Hx|intros [Hx|[Hx|[[Hx|Hx] ?]]]]|intros Hx]; try discriminate Hx; try lia; try done.
  all: first [by (right; left) | by (right; right; split; [auto|lia])
             | split_and!; [lia|lia|]; split; [by auto|intros [Hy|Hy]; by try discriminate Hy]].
Qed.

(** The gate holds as long as the documentation wants it to and no longer:
    after any sequence of registrations, first reports, the end of the enumeration
    and timeouts, it is open exactly when a timeout occurred or, at some moment
    after the enumeration ended, as many threads had reported as had registered -
    and then it stays open, whatever registers later. *)
Theorem startup_gate_opens l :
  StartupGate.is_holding (fold_left gate_step l StartupGate.new) = false <-> should_open l.
Proof.
  rewrite <- (proj1 (gate_run l)). unfold StartupGate.is_holding.
  by destruct (StartupGate.open _).
Qed.

(** ** Announcements *)
Section Announce.
Context `{E : Env}.

Definition announcement (e : effect) : option (nat * Z) :=
  match e with ToSource sid (UpdateHashRate r) => Some (sid, r) | _ => None end.
(** The hash rates sent to sources, in order. *)
Definition announcements (eff : list effect) : list (nat * Z) := omap announcement eff.

(** Every source once, with the total of the hash rates the threads declared. *)
Definition announce_all (s : t) : list (nat * Z) :=
  map (fun p => (p.1, expected_hashrate s)) (map_to_list (SlotMap.items (sources s))).

Lemma announcements_app l1 l2 : announcements (l1 ++ l2) = announcements l1 ++ announcements l2.
Proof. apply omap_app. Qed.

Lemma announcements_broadcast s :
  announcements (broadcast_hashrate_change s).2 = announce_all (broadcast_hashrate_change s).1.
Proof.
  unfold broadcast_hashrate_change, send_hashrate_updates, collect_hashrate_updates, announce_all, announcements.
  cbn [fst snd]. rewrite map_map. unfold allocated_hashrate. set (r := expected_hashrate _).
  set (l := map_to_list _). clearbody r l. induction l as [|p l IH]; [done|]. simpl. f_equal. exact IH.
Qed.

Lemma announcements_none eff : Forall to_thread eff -> announcements eff = [].
Proof. unfold announcements. induction 1 as [|[] l He _ IH]; simpl; done. Qed.

(** After an announcement that leaves the gate open. *)
Lemma announce_after s1 s' eff :
  broadcast_hashrate_change s1 = (s', eff) ->
  announcements eff = announce_all s' /\ startup_gate s' = startup_gate s1.
Proof.
  intros Hb. pose proof (announcements_broadcast s1) as Ha. rewrite Hb in Ha. split; [exact Ha|].
  by injection Hb as <- _.
Qed.

(** The events that change what sources should know, when the gate does not hold. *)
Definition announcing (s : t) (ev : event) : bool :=
  match ev with
  | SourceRegistered _ _ | InitialEnumerationComplete | GateTimeout => true
  | ThreadEv tid (ExpectedHashRate _) => bool_decide (is_Some (SlotMap.get (threads s) tid))
  | _ => false
  end.

Lemma handle_announces s ev now s' eff :
  handle s ev now = Some (s', eff) ->
  announcements eff =
    (if negb (StartupGate.is_holding (startup_gate s')) && announcing s ev then announce_all s' else []) /\
  (StartupGate.is_holding (startup_gate s) = false -> StartupGate.is_holding (startup_gate s') = false).
Proof.
  intros Hh. destruct (work_event ev) eqn:Hw.
  { destruct (frame_work_event _ _ _ _ _ Hw Hh) as [_ Hg _ _ _ _ _ HF]. simpl in *.
    rewrite (announcements_none _ HF), Hg. split; [|done].
    replace (announcing s ev) with false by (by destruct ev as [| | |? []| | | | | |]). by rewrite andb_false_r. }
  destruct ev as [nm u| |k sh|tid [| | |rate]| | | | | |]; try done; cbn [handle] in Hh; try apply (inj Some) in Hh.
  - destruct (StartupGate.is_holding (startup_gate s)) eqn:Hg.
    + revert Hh. unfold handle_source_registration. simpl. rewrite Hg. simpl. intros [= <- <-]. simpl. by rewrite Hg.
    + revert Hh. unfold handle_source_registration. cbn -[broadcast_hashrate_change]. rewrite Hg.
      cbn -[broadcast_hashrate_change]. intros Hb. apply announce_after in Hb as [-> ->]. simpl. by rewrite Hg.
  - destruct (share_keeps s k sh now) as (Hg & _). rewrite Hh in Hg. simpl in Hg. rewrite andb_false_r, Hg.
    split; [|done]. apply (f_equal snd) in Hh. simpl in Hh. subst eff. unfold handle_share.
    destruct (SlotMap.get (tasks s) k); [|done].
    destruct (SlotMap.get (threads s) _); destruct (is_met_by _ _);
      try (destruct (SlotMap.get (sources _) _)); done.
  - destruct (SlotMap.get (threads s) tid) as [entry|] eqn:He.
    + destruct (frame_report _ _ _ _ _ _ _ He Hh) as (s2 & eff2 & [_ Hg _ _ _ _ _ HF] & Heq). simpl in Hg, HF.
      set (gate := if _ && _ then _ else _) in *. simpl announcing. rewrite He, bool_decide_eq_true_2, andb_true_r by done.
      assert (Hkeep : StartupGate.is_holding (startup_gate s) = false -> gate = startup_gate s).
      { intros Ho. unfold gate. by rewrite Ho, andb_false_r. }
      destruct (StartupGate.is_holding gate) eqn:Hgate.
      * injection Heq as -> ->. rewrite Hg, Hgate. simpl. split; [by apply announcements_none|].
        intros Ho. rewrite (Hkeep Ho) in Hgate. congruence.
      * destruct (broadcast_hashrate_change s2) as [s3 eff3] eqn:Hb. injection Heq as -> ->.
        apply announce_after in Hb as [Ha Hg3]. simpl. rewrite Hg3, Hg, Hgate. simpl. split; [|done].
        by rewrite announcements_app, (announcements_none eff2 HF), Ha.
    + simpl in Hh. rewrite He in Hh. injection Hh as <- <-. simpl. rewrite He, bool_decide_eq_false_2, andb_false_r by apply is_Some_None.
      done.
  - injection Hh as <- <-. simpl. rewrite andb_false_r. split; [done|].
    unfold StartupGate.record_registered. destruct (startup_gate s) as [? ? ? []]; done.
  - revert Hh. unfold handle_enumeration_complete. set (g := StartupGate.record_enumeration_complete _).
    assert (Hkeep : StartupGate.is_holding (startup_gate s) = false -> StartupGate.is_holding g = false).
    { unfold g, StartupGate.is_holding, StartupGate.record_enumeration_complete.
      destruct (startup_gate s) as [? ? ? []]; done. }
    cbn -[broadcast_hashrate_change]. destruct (StartupGate.is_holding g) eqn:Hg.
    + intros [= <- <-]. simpl. by rewrite Hg.
    + intros Hb. apply announce_after in Hb as [-> ->]. simpl. by rewrite Hg.
  - revert Hh. unfold handle_gate_timeout.
    destruct (broadcast_hashrate_change _) as [s1 e1] eqn:Hb. apply announce_after in Hb as [Ha Hg].
    intros [= <- <-]. rewrite Ha. simpl. by rewrite Hg.
Qed.

(** Sources hear of the hash rate when they should.  Whatever event is handled,
    the hash rates sent are: nothing while the gate holds; otherwise, when a source
    registers, a thread reports its hash rate, the enumeration ends or the gate
    times out, the sum of the hash rates all threads have declared, once to every
    registered source - in particular by the event that opens the gate - and
    nothing for any other event.  The gate never closes. *)
Theorem gate_holds_announcements s ev now s' eff :
  handle s ev now = Some (s', eff) ->
  announcements eff =
    (if negb (StartupGate.is_holding (startup_gate s')) && announcing s ev then announce_all s' else []) /\
  (StartupGate.is_holding (startup_gate s) = false -> StartupGate.is_holding (startup_gate s') = false).
Proof. apply handle_announces. Qed.
End Announce.

(** ** Threads that leave *)
Section Departures.
Context `{E : Env}.

(** The registered threads are those whose event stream is polled, as the count
    of the last check says. *)
Definition synced (s : t) : Prop :=
  dom (SlotMap.items (threads s)) = thread_events s /\ last_thread_count s = size (thread_events s).

(** The thread registry, its streams and the count are left alone. *)
Definition keeps_threads (s s' : t) : Prop :=
  dom (SlotMap.items (threads s')) = dom (SlotMap.items (threads s)) /\
  thread_events s' = thread_events s /\ last_thread_count s' = last_thread_count s.

Lemma frame_keeps s s' eff : frame s (s', eff) -> keeps_threads s s'.
Proof.
  intros [_ _ _ Hc He _ Ht _]. simpl in *. split_and!; [|done|done].
  apply (f_equal dom) in Ht. by rewrite !dom_fmap_L in Ht.
Qed.

Lemma keeps_broadcast s s1 : keeps_threads s s1 -> keeps_threads s (broadcast_hashrate_change s1).1.
Proof. done. Qed.

Lemma handle_keeps s ev now s' eff :
  ev <> ThreadRegistered -> handle s ev now = Some (s', eff) -> keeps_threads s s'.
Proof.
  intros Hev Hh. destruct (work_event ev) eqn:Hw; [by eapply frame_keeps, frame_work_event|].
  destruct ev as [nm u| |k sh|tid [| | |rate]| | | | | |]; try done; cbn [handle] in Hh.
  - apply step_fst in Hh. subst s'. unfold handle_source_registration. cbn -[broadcast_hashrate_change].
    destruct (negb _); [by apply keeps_broadcast|done].
  - apply step_fst in Hh. subst s'. destruct (share_keeps s k sh now) as (_ & ? & ? & ?). by split_and!.
  - destruct (SlotMap.get (threads s) tid) as [entry|] eqn:He.
    + destruct (frame_report _ _ _ _ _ _ _ He Hh) as (s2 & eff2 & Hf & Heq).
      apply frame_keeps in Hf as (H1 & H2 & H3). simpl in H1.
      rewrite dom_insert_lookup_L in H1 by (by exists entry).
      assert (Hk : keeps_threads s s2) by (by split_and!).
      revert Heq. match goal with |- _ = (if ?b then _ else _) -> _ => destruct b end; intros [= -> _]; exact Hk.
    + simpl in Hh. rewrite He in Hh. by injection Hh as <- _.
  - apply step_fst in Hh. subst s'. unfold handle_enumeration_complete. by destruct (StartupGate.is_holding _).
  - apply step_fst in Hh. subst s'. unfold handle_gate_timeout.
    pose proof (keeps_broadcast s (with_gate s (StartupGate.record_timeout (startup_gate s)))) as Hk.
    destruct (broadcast_hashrate_change _). by apply Hk.
Qed.

Lemma disconnections_spec s s' eff :
  thread_events s ⊆ dom (SlotMap.items (threads s)) ->
  size (thread_events s) <> last_thread_count s ->
  handle_thread_disconnections s = (s', eff) ->
  synced s' /\ thread_events s' = thread_events s /\
  (forall k e, SlotMap.get (tasks s') k = Some e <->
     SlotMap.get (tasks s) k = Some e /\ thread_id e ∈ thread_events s) /\
  announcements eff = announce_all s'.
Proof.
  intros Hsub Hne. unfold handle_thread_disconnections. apply Nat.eqb_neq in Hne. rewrite Hne.
  intros Hb. pose proof (announce_after _ _ _ Hb) as [Ha _].
  injection Hb as Hs _. subst s'. rewrite remove_tasks_where_eq. split_and!; [split; [|done]|done| |].
  - simpl. apply set_eq. intros k. rewrite elem_of_dom. split.
    + intros [e [_ Hk]%map_lookup_filter_Some]. done.
    + intros Hk. destruct (proj1 (elem_of_dom _ _) (Hsub k Hk)) as [e He].
      exists e. by apply map_lookup_filter_Some.
  - intros k e. unfold SlotMap.get. simpl. rewrite kept_lookup, negb_false_iff, bool_decide_eq_true. done.
  - by rewrite <- remove_tasks_where_eq.
Qed.

(** C37 A thread that goes away is noticed in the same iteration.  If the
    registered threads are those being polled and some of their streams end while
    anything but a new thread is handled, the iteration removes exactly the
    threads that ended, with their tasks, and tells every source the new sum; and
    the threads are again those being polled.  (With nothing ended, a new thread
    keeps them so too.) *)
Theorem departures_noticed s es et ec ev now s' eff :
  reachable s -> synced s -> (ev = ThreadRegistered -> et ## thread_events s) ->
  iteration s es et ec ev now = Some (s', eff) ->
  synced s' /\
  (ev <> ThreadRegistered -> thread_events s' = thread_events s ∖ et /\
     (forall k e, SlotMap.get (tasks s') k = Some e -> thread_id e ∉ et) /\
     (~ et ## thread_events s -> announce_all s' `suffix_of` announcements eff)).
Proof.
  intros Hr [Hd Hc] Hnew Hit.
  destruct (iteration_split _ _ _ _ _ _ _ _ Hit) as (s2 & e2 & e3 & Hen & Hh & Hdis & ->).
  assert (Hinv0 : inv (poll_streams s es et ec)).
  { destruct (reachable_inv s Hr) as [H1 H2 H3 H4 H5 H6 H7]. split; simpl in *; try done; set_solver. }
  pose proof (inv_handle _ _ _ _ _ Hinv0 Hen Hh) as Hinv2.
  pose proof (inv_thread_events _ Hinv2) as Hsub. simpl in Hsub.
  assert (Hcase : ev = ThreadRegistered \/ ev <> ThreadRegistered) by (destruct ev; auto; right; discriminate).
  destruct Hcase as [->|Hne]; (split; [|intros Hne'; try done]).
  - specialize (Hnew eq_refl). injection Hh as <- <-.
    revert Hdis. unfold handle_thread_disconnections. simpl. rewrite Nat.eqb_refl. intros [= <- _].
    split; [|done]. simpl. rewrite dom_insert_L, Hd. set_solver.
  - apply handle_keeps in Hh as (H1 & H2 & H3); [|done]. simpl in *.
    destruct (decide (size (thread_events s2) = last_thread_count s2)) as [Heq|Hdiff].
    + revert Hdis. unfold handle_thread_disconnections. rewrite Heq, Nat.eqb_refl. intros [= <- _].
      split; [|by rewrite <- Heq, H2]. rewrite H1, Hd, H2.
      rewrite H3, Hc, H2 in Heq. symmetry. apply set_subseteq_size_eq; [set_solver|lia].
    + by destruct (disconnections_spec _ _ _ Hsub Hdiff Hdis) as (Hs & _).
  - apply handle_keeps in Hh as (H1 & H2 & H3); [|done]. simpl in *.
    destruct (decide (size (thread_events s2) = last_thread_count s2)) as [Heq|Hdiff].
    + assert (Hsame : thread_events s ∖ et = thread_events s).
      { rewrite H3, Hc, H2 in Heq. apply set_subseteq_size_eq; [set_solver|lia]. }
      revert Hdis. unfold handle_thread_disconnections. rewrite Heq, Nat.eqb_refl. intros [= <- _].
      split_and!; [done| |intros Hx; exfalso; apply Hx; set_solver].
      intros k e He. destruct (inv_tasks _ Hinv2 k e He) as [_ Ht]. simpl in Ht. rewrite H1, Hd in Ht. set_solver.
    + destruct (disconnections_spec _ _ _ Hsub Hdiff Hdis) as (_ & Hev & Htasks & Ha).
      split_and!; [by rewrite Hev| |].
      * intros k e [_ He]%Htasks. rewrite H2 in He. set_solver.
      * intros _. rewrite announcements_app, Ha. by eexists.
Qed.

(** ** Before the enumeration has ended *)

(** Startup as it is while nobody has told of the end of the enumeration. *)
Definition starting (s : t) : Prop :=
  StartupGate.open (startup_gate s) = false /\ StartupGate.enumeration_complete (startup_gate s) = false /\
  gate_deadline s = None /\ last_thread_count s = size (thread_events s).

Lemma starting_reported g :
  StartupGate.open g = false -> StartupGate.enumeration_complete g = false ->
  StartupGate.open (StartupGate.record_reported g) = false /\
  StartupGate.enumeration_complete (StartupGate.record_reported g) = false.
Proof. destruct g as [? ? ? ?]. simpl. by intros -> ->. Qed.

Lemma handle_starting s ev now s' eff :
  ev <> InitialEnumerationComplete -> starting s -> enabled s ev now = true ->
  handle s ev now = Some (s', eff) -> starting s'.
Proof.
  intros Hev (Ho & Hc & Hd & Hn) Hen Hh. destruct (work_event ev) eqn:Hw.
  { destruct (frame_work_event _ _ _ _ _ Hw Hh) as [_ Hg Hd' Hn' He' _ _ _]. simpl in *.
    unfold starting. by rewrite Hg, Hd', Hn', He'. }
  destruct ev as [nm u| |k sh|tid [| | |rate]| | | | | |]; try done; cbn [handle] in Hh.
  - apply step_fst in Hh. subst s'. unfold handle_source_registration. cbn -[broadcast_hashrate_change].
    destruct (negb _); by split_and!.
  - apply step_fst in Hh. subst s'. destruct (share_keeps s k sh now) as (Hg & Hn' & He & _).
    unfold starting. rewrite Hg, Hn', He. split_and!; try done.
    unfold handle_share. destruct (SlotMap.get (tasks s) k); [|done].
    destruct (SlotMap.get (threads s) _); destruct (is_met_by _ _); try (destruct (SlotMap.get (sources _) _)); done.
  - destruct (SlotMap.get (threads s) tid) as [entry|] eqn:He; [|simpl in Hh; rewrite He in Hh; by injection Hh as <- _].
    destruct (frame_report _ _ _ _ _ _ _ He Hh) as (s2 & eff2 & [_ Hg Hd' Hn' He' _ _ _] & Heq). simpl in *.
    destruct (starting_reported _ Ho Hc) as [Ho' Hc'].
    assert (Hs : starting s2). { unfold starting. rewrite Hg, Hd', Hn', He'. by destruct (_ && _). }
    revert Heq. match goal with |- _ = (if ?b then _ else _) -> _ => destruct b end; intros [= -> _]; exact Hs.
  - apply step_fst in Hh. subst s'. unfold starting. simpl. unfold StartupGate.record_registered. rewrite Ho. simpl.
    by split_and!.
  - simpl in Hen. by rewrite Hd, andb_false_r in Hen.
Qed.

(** The scheduler, started and fed events while no thread leaves; what it has done. *)
Inductive sched_run : t -> list event -> list effect -> Prop :=
| sched_new : sched_run new [] []
| sched_step s evs eff es ec ev now s' eff' :
    sched_run s evs eff -> iteration s es ∅ ec ev now = Some (s', eff') -> sched_run s' (evs ++ [ev]) (eff ++ eff').

(** Until it is told that the enumeration has ended it announces nothing. *)
Lemma silent_until_enumerated s evs eff :
  sched_run s evs eff -> InitialEnumerationComplete ∉ evs -> starting s /\ announcements eff = [].
Proof.
  induction 1 as [|s evs eff es ec ev now s' eff' Hrun IH Hit]; [by split; [split_and!|]|]. intros Hno.
  rewrite elem_of_app, list_elem_of_singleton in Hno. destruct IH as [Hs Ha]; [tauto|].
  destruct (iteration_split _ _ _ _ _ _ _ _ Hit) as (s2 & e2 & e3 & Hen & Hh & Hdis & ->).
  assert (Hs' : starting (poll_streams s es ∅ ec)).
  { unfold starting in *. simpl. by rewrite difference_empty_L. }
  pose proof (handle_starting _ _ _ _ _ (fun Heq => Hno (or_intror (eq_sym Heq))) Hs' Hen Hh) as Hs2.
  destruct (handle_announces _ _ _ _ _ Hh) as [Ha2 _].
  destruct Hs2 as (Ho & Hc & Hd & Hn).
  revert Hdis. unfold handle_thread_disconnections. rewrite Hn, Nat.eqb_refl. intros [= <- <-].
  split; [by split_and!|]. rewrite !announcements_app, Ha, Ha2. unfold StartupGate.is_holding. by rewrite Ho.
Qed.

(** A thread that leaves while another arrives is not noticed.  If a stream
    has ended when a new thread is registered, the registration counts the
    remaining streams after adding the new one and records that as the number seen:
    the check at the end of the iteration, and every later one, finds nothing
    changed.  The dead thread stays registered with the hash rate it declared, so it
    still takes a share of every job's extranonces and still counts in the total
    told to sources. *)
Theorem departure_masked_by_arrival s es et ec now tid :
  synced s -> tid ∈ thread_events s -> tid ∈ et -> tid <> SlotMap.next (threads s) ->
  exists s' eff,
    iteration s es et ec ThreadRegistered now = Some (s', eff) /\
    announcements eff = [] /\
    tid ∉ thread_events s' /\
    SlotMap.get (threads s') tid = SlotMap.get (threads s) tid /\
    (tid ∈ eligible_thread_ids s -> tid ∈ eligible_thread_ids s') /\
    handle_thread_disconnections s' = (s', []).
Proof.
  intros [Hd Hc] Htid Het Hfresh. unfold iteration. cbn [enabled handle].
  destruct (handle_new_thread (poll_streams s es et ec)) as [s2 e2] eqn:Hn. simpl.
  injection Hn as <- <-. eexists _, _. split.
  { unfold handle_thread_disconnections. simpl. rewrite Nat.eqb_refl. reflexivity. }
  assert (Hget : forall i, i <> SlotMap.next (threads s) ->
            <[SlotMap.next (threads s) := MkThread (Estimator.new HASHRATE_WINDOW) None]> (SlotMap.items (threads s)) !! i
            = SlotMap.items (threads s) !! i) by (intros i Hi; by rewrite lookup_insert_ne).
  split_and!; [done|simpl; set_solver|unfold SlotMap.get; simpl; by apply Hget| |].
  - rewrite !eligible_spec. unfold SlotMap.get. simpl. by rewrite Hget.
  - unfold handle_thread_disconnections. simpl. by rewrite Nat.eqb_refl.
Qed.

(** The announcement that follows a departure ignores the gate: a thread that
    leaves during startup makes the scheduler tell every source the hash rates
    declared so far, although the gate still holds. *)
Theorem departure_announces_while_holding s s' eff :
  StartupGate.is_holding (startup_gate s) = true ->
  size (thread_events s) <> last_thread_count s ->
  handle_thread_disconnections s = (s', eff) ->
  StartupGate.is_holding (startup_gate s') = true /\ announcements eff = announce_all s'.
Proof.
  intros Hg Hne. unfold handle_thread_disconnections. apply Nat.eqb_neq in Hne. rewrite Hne.
  intros [Ha Hgate]%announce_after. split; [|done]. rewrite Hgate. simpl. by rewrite remove_tasks_where_eq.
Qed.
End Departures.

(** ** Examples *)
#[local] Existing Instance env_ref.

Lemma ready_ref_synced : synced ready_ref.
Proof. split; vm_compute; reflexivity. Qed.

Lemma gate_holds_announcements_witness :
  match handle ready_ref InitialEnumerationComplete 5 with
  | Some (s', eff) =>
      announcements eff =
        (if negb (StartupGate.is_holding (startup_gate s')) && announcing ready_ref InitialEnumerationComplete
         then announce_all s' else [])
  | None => False
  end.
Proof.
  destruct (handle ready_ref InitialEnumerationComplete 5) as [[s' eff]|] eqn:H; [|vm_compute in H; discriminate].
  exact (proj1 (gate_holds_announcements ready_ref InitialEnumerationComplete 5 s' eff H)).
Defined.

Lemma departures_noticed_witness :
  match iteration ready_ref ∅ {[0%nat]} ∅ TelemetryTick 5 with
  | Some (s', eff) => synced s'
  | None => False
  end.
Proof.
  destruct (iteration ready_ref ∅ {[0%nat]} ∅ TelemetryTick 5) as [[s' eff]|] eqn:H;
    [|vm_compute in H; discriminate].
  exact (proj1 (departures_noticed ready_ref ∅ {[0%nat]} ∅ TelemetryTick 5 s' eff ready_ref_reachable
                  ready_ref_synced (fun Hx => ltac:(discriminate Hx)) H)).
Defined.

Lemma departure_masked_by_arrival_witness :
  exists s' eff,
    iteration ready_ref ∅ {[0%nat]} ∅ ThreadRegistered 5 = Some (s', eff) /\ announcements eff = [] /\
    0%nat ∉ thread_events s' /\
    SlotMap.get (threads s') 0 = SlotMap.get (threads ready_ref) 0 /\
    (0%nat ∈ eligible_thread_ids ready_ref -> 0%nat ∈ eligible_thread_ids s') /\
    handle_thread_disconnections s' = (s', []).
Proof.
  refine (departure_masked_by_arrival ready_ref ∅ {[0%nat]} ∅ 5 0 ready_ref_synced _ _ _).
  - vm_compute. reflexivity.
  - vm_compute. reflexivity.
  - vm_compute. discriminate.
Defined.

(** Both threads have reported, the enumeration goes on, and the first thread leaves. *)
Lemma departure_announces_while_holding_witness :
  let s := poll_streams ready_ref ∅ {[0%nat]} ∅ in
  let '(s', eff) := handle_thread_disconnections s in
  StartupGate.is_holding (startup_gate s') = true /\ announcements eff = announce_all s'.
Proof.
  intros s. destruct (handle_thread_disconnections s) as [s' eff] eqn:H.
  refine (departure_announces_while_holding s s' eff _ _ H).
  - vm_compute. reflexivity.
  - vm_compute. discriminate.
Defined.
