(* ===== verification/Effects.v ===== *)
(** * Code that awaits

    Async code is a function from its state and the outcomes of its awaits, in
    the order they happen, to its result, its new state, the outcomes it has not
    used and the actions it took.  It [Wait]s when the outcomes run out or the
    next one is not for the await it is at.  [Cut] is the effect of a deadline
    set by a caller: it unwinds to the [timeout] that set it, past all handlers
    of errors, as dropping a future does. *)
From stdpp Require Import base numbers list.
From Stdlib Require Import Lia.
From S2P Require Import Prelude.

Inductive res (Er A : Type) : Type :=
| Ret (a : A)
| Raise (e : Er)
| Cut
| Wait.
Arguments Ret {Er A} a.
Arguments Raise {Er A} e.
Arguments Cut {Er A}.
Arguments Wait {Er A}.

Section Monad.
Context {St Ev Ac Er : Type}.

Definition M (A : Type) : Type := St -> list Ev -> res Er A * St * list Ev * list Ac.

Definition ret {A} (a : A) : M A := fun s es => (Ret a, s, es, []).
Definition raise {A} (e : Er) : M A := fun s es => (Raise e, s, es, []).
Definition cut {A} : M A := fun s es => (Cut, s, es, []).
Definition wait {A} : M A := fun s es => (Wait, s, es, []).

Definition bind {A B} (m : M A) (k : A -> M B) : M B := fun s es =>
  let '(r, s, es, tr) := m s es in
  match r with
  | Ret a => let '(r, s, es, tr') := k a s es in (r, s, es, tr ++ tr')
  | Raise e => (Raise e, s, es, tr)
  | Cut => (Cut, s, es, tr)
  | Wait => (Wait, s, es, tr)
  end.

Definition get : M St := fun s es => (Ret s, s, es, []).
Definition put (s : St) : M unit := fun _ es => (Ret tt, s, es, []).
Definition act (a : Ac) : M unit := fun s es => (Ret tt, s, es, [a]).

(** An await: what to do for each outcome it can have. *)
Definition await {A} (f : Ev -> option (M A)) : M A := fun s es =>
  match es with
  | [] => (Wait, s, [], [])
  | e :: es => match f e with Some m => m s es | None => (Wait, s, e :: es, []) end
  end.

(** [m], its error as a value. *)
Definition attempt {A} (m : M A) : M (result Er A) := fun s es =>
  let '(r, s, es, tr) := m s es in
  (match r with Ret a => Ret (Ok a) | Raise e => Ret (Err e) | Cut => Cut | Wait => Wait end, s, es, tr).

(** [m] under a deadline: [e] is raised when it passes. *)
Definition timeout {A} (e : Er) (m : M A) : M A := fun s es =>
  let '(r, s, es, tr) := m s es in
  (match r with Cut => Raise e | r => r end, s, es, tr).

(** A loop whose body ends it with a value; each round uses an outcome, so the
    outcomes bound the rounds. *)
Fixpoint rounds {A} (fuel : nat) (body : M (option A)) : M A :=
  match fuel with
  | O => wait
  | S fuel => bind body (fun r => match r with Some a => ret a | None => rounds fuel body end)
  end.
Definition loop {A} (body : M (option A)) : M A := fun s es => rounds (S (length es)) body s es.

(** ** Equality of computations *)
Definition eqm {A} (m m' : M A) : Prop := forall s es, m s es = m' s es.

#[export] Instance eqm_equivalence A : Equivalence (@eqm A).
Proof.
  split; [by intros m s es|by intros m m' H s es; rewrite H|].
  intros m m' m'' H H' s es. by rewrite H, H'.
Qed.

#[export] Instance bind_proper A B : Proper (eqm ==> pointwise_relation A eqm ==> eqm) (@bind A B).
Proof.
  intros m m' Hm k k' Hk s es. unfold bind. rewrite Hm.
  destruct (m' s es) as [[[[a|e| |] s1] es1] tr]; try done. by rewrite Hk.
Qed.

Lemma bind_ret_l {A B} (a : A) (k : A -> M B) : eqm (bind (ret a) k) (k a).
Proof. intros s es. unfold bind, ret. by destruct (k a s es) as [[[r s1] es1] tr]. Qed.

Lemma bind_assoc {A B C} (m : M A) (k : A -> M B) (k' : B -> M C) :
  eqm (bind (bind m k) k') (bind m (fun a => bind (k a) k')).
Proof.
  intros s es. unfold bind. destruct (m s es) as [[[[a|e| |] s1] es1] tr]; try done.
  destruct (k a s1 es1) as [[[[b|e| |] s2] es2] tr2]; try done.
  destruct (k' b s2 es2) as [[[r s3] es3] tr3]. by rewrite app_assoc.
Qed.

(** ** Weakest preconditions

    [wp m s u tr Q]: run from state [s], after the outcomes [u] and the actions
    [tr], [m] ends with a result, a state and the outcomes and actions till then
    that satisfy [Q]. *)
Definition post (A : Type) : Type := res Er A -> St -> list Ev -> list Ac -> Prop.

Definition wp {A} (m : M A) (s : St) (u : list Ev) (tr : list Ac) (Q : post A) : Prop :=
  forall es r s' es' tr', m s es = (r, s', es', tr') ->
    exists u', es = u' ++ es' /\ Q r s' (u ++ u') (tr ++ tr').

(** What [bind] makes of a postcondition. *)
Definition cont {A B} (k : A -> M B) (Q : post B) : post A := fun r s u tr =>
  match r with
  | Ret a => wp (k a) s u tr Q
  | Raise e => Q (Raise e) s u tr
  | Cut => Q Cut s u tr
  | Wait => Q Wait s u tr
  end.

Lemma wp_pure {A} (r : res Er A) s1 (a : list Ac) s u tr Q :
  Q r s1 u (tr ++ a) -> wp (fun _ es => (r, s1, es, a)) s u tr Q.
Proof. intros H es r' s' es' tr' [= <- <- <- <-]. exists []. by rewrite app_nil_r. Qed.

Lemma wp_ret {A} (a : A) s u tr Q : Q (Ret a) s u tr -> wp (ret a) s u tr Q.
Proof. intros H es r' s' es' tr' [= <- <- <- <-]. exists []. by rewrite !app_nil_r. Qed.
Lemma wp_raise {A} e s u tr (Q : post A) : Q (Raise e) s u tr -> wp (raise e) s u tr Q.
Proof. intros H es r' s' es' tr' [= <- <- <- <-]. exists []. by rewrite !app_nil_r. Qed.
Lemma wp_cut {A} s u tr (Q : post A) : Q Cut s u tr -> wp cut s u tr Q.
Proof. intros H es r' s' es' tr' [= <- <- <- <-]. exists []. by rewrite !app_nil_r. Qed.
Lemma wp_wait {A} s u tr (Q : post A) : Q Wait s u tr -> wp wait s u tr Q.
Proof. intros H es r' s' es' tr' [= <- <- <- <-]. exists []. by rewrite !app_nil_r. Qed.
Lemma wp_get s u tr Q : Q (Ret s) s u tr -> wp get s u tr Q.
Proof. intros H es r' s' es' tr' [= <- <- <- <-]. exists []. by rewrite !app_nil_r. Qed.
Lemma wp_put s1 s u tr Q : Q (Ret tt) s1 u tr -> wp (put s1) s u tr Q.
Proof. intros H es r' s' es' tr' [= <- <- <- <-]. exists []. by rewrite !app_nil_r. Qed.
Lemma wp_act a s u tr Q : Q (Ret tt) s u (tr ++ [a]) -> wp (act a) s u tr Q.
Proof. intros H es r' s' es' tr' [= <- <- <- <-]. exists []. by rewrite app_nil_r. Qed.

Lemma wp_bind {A B} (m : M A) (k : A -> M B) s u tr Q :
  wp m s u tr (cont k Q) -> wp (bind m k) s u tr Q.
Proof.
  intros Hm es r s' es' tr'. unfold bind.
  destruct (m s es) as [[[r1 s1] es1] tr1] eqn:H1. destruct (Hm _ _ _ _ _ H1) as (u1 & -> & Hc).
  destruct r1 as [a|e| |]; try (intros [= <- <- <- <-]; by exists u1).
  destruct (k a s1 es1) as [[[r2 s2] es2] tr2] eqn:H2. intros [= <- <- <- <-].
  destruct (Hc _ _ _ _ _ H2) as (u2 & -> & HQ). exists (u1 ++ u2). by rewrite !app_assoc in *.
Qed.

Lemma wp_mono {A} (m : M A) s u tr (Q Q' : post A) :
  wp m s u tr Q -> (forall r s u tr, Q r s u tr -> Q' r s u tr) -> wp m s u tr Q'.
Proof. intros Hm HQ es r s' es' tr' H. destruct (Hm _ _ _ _ _ H) as (u' & -> & Hr). exists u'. auto. Qed.

(** Two facts of one run. *)
Lemma wp_and {A} (m : M A) s u tr (Q Q' : post A) :
  wp m s u tr Q -> wp m s u tr Q' -> wp m s u tr (fun r s u tr => Q r s u tr /\ Q' r s u tr).
Proof.
  intros Hm Hm' es r s' es' tr' H. destruct (Hm _ _ _ _ _ H) as (u1 & -> & H1). destruct (Hm' _ _ _ _ _ H) as (u2 & Hu & H2).
  apply app_inv_tail in Hu as <-. by exists u1.
Qed.

(** The outcomes only grow. *)
Lemma wp_extends {A} (m : M A) s u tr (Q : post A) :
  wp m s u tr Q -> wp m s u tr (fun r s u' tr => Q r s u' tr /\ u `prefix_of` u').
Proof.
  intros Hm es r s' es' tr' H. destruct (Hm _ _ _ _ _ H) as (u' & -> & Hr). exists u'.
  split_and!; [done|done|by exists u'].
Qed.

Lemma wp_await {A} (f : Ev -> option (M A)) s u tr (Q : post A) :
  Q Wait s u tr -> (forall e m, f e = Some m -> wp m s (u ++ [e]) tr Q) -> wp (await f) s u tr Q.
Proof.
  intros Hw Hf [|e es] r s' es' tr'; simpl.
  - intros [= <- <- <- <-]. exists []. by rewrite !app_nil_r.
  - destruct (f e) as [m|] eqn:He.
    + intros Hm. destruct (Hf e m He _ _ _ _ _ Hm) as (u' & -> & HQ). exists (e :: u').
      by rewrite <- app_assoc in HQ.
    + intros [= <- <- <- <-]. exists []. by rewrite !app_nil_r.
Qed.

Lemma wp_attempt {A} (m : M A) s u tr (Q : post (result Er A)) :
  wp m s u tr (fun r s u tr =>
    Q (match r with Ret a => Ret (Ok a) | Raise e => Ret (Err e) | Cut => Cut | Wait => Wait end) s u tr) ->
  wp (attempt m) s u tr Q.
Proof.
  intros Hm es r s' es' tr'. unfold attempt. destruct (m s es) as [[[r1 s1] es1] tr1] eqn:H1.
  intros [= <- <- <- <-]. by apply Hm.
Qed.

Lemma wp_timeout {A} e (m : M A) s u tr (Q : post A) :
  wp m s u tr (fun r s u tr => Q (match r with Cut => Raise e | r => r end) s u tr) ->
  wp (timeout e m) s u tr Q.
Proof.
  intros Hm es r s' es' tr'. unfold timeout. destruct (m s es) as [[[r1 s1] es1] tr1] eqn:H1.
  intros [= <- <- <- <-]. by apply Hm.
Qed.

(** A loop keeps what each round keeps. *)
Lemma wp_rounds {A} (Inv : St -> list Ev -> list Ac -> Prop) (body : M (option A)) n s u tr (Q : post A) :
  Inv s u tr ->
  (forall s u tr, Inv s u tr -> Q Wait s u tr) ->
  (forall s u tr, Inv s u tr -> wp body s u tr (fun r s u tr =>
     match r with
     | Ret None => Inv s u tr
     | Ret (Some a) => Q (Ret a) s u tr
     | Raise e => Q (Raise e) s u tr
     | Cut => Q Cut s u tr
     | Wait => Q Wait s u tr
     end)) ->
  wp (rounds n body) s u tr Q.
Proof.
  intros Hi Hw Hb es. revert s u tr es Hi.
  induction n as [|n IH]; intros s u tr es Hi; simpl.
  - intros r s' es' tr' [= <- <- <- <-]. exists []. rewrite !app_nil_r. auto.
  - intros r s' es' tr'. unfold bind.
    destruct (body s es) as [[[r1 s1] es1] tr1] eqn:H1. destruct (Hb _ _ _ Hi _ _ _ _ _ H1) as (u1 & -> & HQ).
    destruct r1 as [[a|]|e| |]; try (intros [= <- <- <- <-]; exists u1; by rewrite ?app_nil_r).
    destruct (rounds n body s1 es1) as [[[r2 s2] es2] tr2] eqn:H2. intros [= <- <- <- <-].
    destruct (IH _ _ _ _ HQ _ _ _ _ H2) as (u2 & -> & HQ2). exists (u1 ++ u2). by rewrite !app_assoc in *.
Qed.

(** The bound of the rounds can depend on what is left of the outcomes. *)
Lemma wp_bounded {A} (bound : St -> list Ev -> nat) Inv (body : M (option A)) s u tr (Q : post A) :
  Inv s u tr ->
  (forall s u tr, Inv s u tr -> Q Wait s u tr) ->
  (forall s u tr, Inv s u tr -> wp body s u tr (fun r s u tr =>
     match r with
     | Ret None => Inv s u tr
     | Ret (Some a) => Q (Ret a) s u tr
     | Raise e => Q (Raise e) s u tr
     | Cut => Q Cut s u tr
     | Wait => Q Wait s u tr
     end)) ->
  wp (fun s es => rounds (bound s es) body s es) s u tr Q.
Proof. intros Hi Hw Hb es r s' es' tr' H. by eapply (wp_rounds Inv body (bound s es)). Qed.

Lemma wp_loop {A} (Inv : St -> list Ev -> list Ac -> Prop) (body : M (option A)) s u tr (Q : post A) :
  Inv s u tr ->
  (forall s u tr, Inv s u tr -> Q Wait s u tr) ->
  (forall s u tr, Inv s u tr -> wp body s u tr (fun r s u tr =>
     match r with
     | Ret None => Inv s u tr
     | Ret (Some a) => Q (Ret a) s u tr
     | Raise e => Q (Raise e) s u tr
     | Cut => Q Cut s u tr
     | Wait => Q Wait s u tr
     end)) ->
  wp (loop body) s u tr Q.
Proof. exact (wp_bounded (fun _ es => S (length es)) Inv body s u tr Q). Qed.

(** ** The bound of a loop is never met *)

(** A round that goes on has used an outcome. *)
Definition Progress {A} (body : M (option A)) : Prop :=
  forall s, wp body s [] [] (fun r _ u _ => r = Ret None -> u <> []).

Lemma rounds_fuel {A} (body : M (option A)) :
  Progress body -> forall n n' s es, (length es < n)%nat -> (length es < n')%nat ->
  rounds n body s es = rounds n' body s es.
Proof.
  intros Hb n. induction n as [|n IH]; intros [|n'] s es Hn Hn'; try lia. simpl. unfold bind.
  destruct (body s es) as [[[r s1] es1] tr] eqn:Hbody.
  destruct (Hb _ _ _ _ _ _ Hbody) as (u & -> & Hu).
  destruct r as [[a|]|e| |]; try done. specialize (Hu eq_refl).
  rewrite (IH n'); [done| |]; destruct u; rewrite ?length_app in *; simpl in *; (done || lia).
Qed.

Lemma progress_await {A} (f : Ev -> option (M (option A))) :
  (forall e m s u tr, f e = Some m -> wp m s u tr (fun _ _ _ _ => True)) -> Progress (await f).
Proof.
  intros Hf s. apply wp_await; [done|]. intros e m He.
  eapply wp_mono; [by eapply wp_extends, Hf|]. simpl. intros r s' u tr [_ [w ->]] _. by destruct w.
Qed.

Theorem loop_unfold {A} (body : M (option A)) :
  Progress body ->
  eqm (loop body) (bind body (fun r => match r with Some a => ret a | None => loop body end)).
Proof.
  intros Hb s es. unfold loop. simpl. unfold bind.
  destruct (body s es) as [[[r s1] es1] tr] eqn:Hbody.
  destruct (Hb _ _ _ _ _ _ Hbody) as (u & -> & Hu).
  destruct r as [[a|]|e| |]; try done. specialize (Hu eq_refl).
  rewrite (rounds_fuel body Hb (length (u ++ es1)) (Datatypes.S (length es1))); [done| |];
    destruct u; rewrite ?length_app in *; simpl in *; (done || lia).
Qed.

(** A bound that decreases with every round that goes on does as well as one on the
    outcomes. *)
Definition Decreases_inv {A} (Inv : St -> Prop) (measure : St -> list Ev -> nat) (body : M (option A)) : Prop :=
  forall s es s' es' tr, Inv s -> body s es = (Ret None, s', es', tr) ->
    Inv s' /\ (measure s' es' < measure s es)%nat.

Lemma rounds_measure_inv {A} Inv measure (body : M (option A)) :
  Decreases_inv Inv measure body -> forall n n' s es, Inv s -> (measure s es < n)%nat -> (measure s es < n')%nat ->
  rounds n body s es = rounds n' body s es.
Proof.
  intros Hb n. induction n as [|n IH]; intros [|n'] s es Hi Hn Hn'; try lia. simpl. unfold bind.
  destruct (body s es) as [[[r s1] es1] tr] eqn:Hbody. destruct r as [[a|]|e| |]; try done.
  destruct (Hb _ _ _ _ _ Hi Hbody). rewrite (IH n'); [done|done|lia|lia].
Qed.

Definition Decreases {A} (measure : St -> list Ev -> nat) (body : M (option A)) : Prop :=
  forall s es s' es' tr, body s es = (Ret None, s', es', tr) -> (measure s' es' < measure s es)%nat.

Lemma rounds_measure {A} measure (body : M (option A)) :
  Decreases measure body -> forall n n' s es, (measure s es < n)%nat -> (measure s es < n')%nat ->
  rounds n body s es = rounds n' body s es.
Proof.
  intros Hb n n' s es. apply (rounds_measure_inv (fun _ => True) measure body); [|done].
  intros s1 es1 s2 es2 tr _ H. split; [done|by eapply Hb].
Qed.
End Monad.
Arguments M : clear implicits.
Arguments post : clear implicits.

(** [m.map_err(f)]. *)
Definition map_err {St Ev Ac Er Er' A} (f : Er -> Er') (m : M St Ev Ac Er A) : M St Ev Ac Er' A := fun s es =>
  let '(r, s, es, tr) := m s es in
  (match r with Ret a => Ret a | Raise e => Raise (f e) | Cut => Cut | Wait => Wait end, s, es, tr).

Lemma wp_map_err {St Ev Ac Er Er' A} (f : Er -> Er') (m : M St Ev Ac Er A) s u tr (Q : post St Ev Ac Er' A) :
  wp m s u tr (fun r s u tr =>
    Q (match r with Ret a => Ret a | Raise e => Raise (f e) | Cut => Cut | Wait => Wait end) s u tr) ->
  wp (map_err f m) s u tr Q.
Proof.
  intros Hm es r s' es' tr'. unfold map_err. destruct (m s es) as [[[r1 s1] es1] tr1] eqn:H1.
  intros [= <- <- <- <-]. by apply Hm.
Qed.

Create HintDb wp.
(** Computations that are part of every other: they keep to the calculus. *)
Definition Plain {St Ev Ac Er A} (m : M St Ev Ac Er A) : Prop := forall s u tr, wp m s u tr (fun _ _ _ _ => True).

Lemma plain_bind {St Ev Ac Er A B} (m : M St Ev Ac Er A) (k : A -> M St Ev Ac Er B) :
  Plain m -> (forall a, Plain (k a)) -> Plain (bind m k).
Proof. intros Hm Hk s u tr. apply wp_bind. eapply wp_mono; [apply Hm|]. intros [] ? ? ? _; simpl; try done. apply Hk. Qed.
Lemma plain_attempt {St Ev Ac Er A} (m : M St Ev Ac Er A) : Plain m -> Plain (attempt m).
Proof. intros Hm s u tr. by apply wp_attempt. Qed.

#[export] Hint Resolve plain_bind plain_attempt : wp.
#[export] Hint Resolve wp_ret wp_raise wp_cut wp_wait wp_get wp_put wp_act : wp.

(** Runs the calculus up to the awaits and loops, whose outcomes are the cases. *)
Ltac wp_step :=
  cbv beta;
  match goal with
  | |- wp (bind _ _) _ _ _ _ => apply wp_bind
  | |- cont _ _ _ _ _ _ => unfold cont at 1
  | |- wp (ret _) _ _ _ _ => apply wp_ret
  | |- wp (raise _) _ _ _ _ => apply wp_raise
  | |- wp cut _ _ _ _ => apply wp_cut
  | |- wp wait _ _ _ _ => apply wp_wait
  | |- wp get _ _ _ _ => apply wp_get
  | |- wp (put _) _ _ _ _ => apply wp_put
  | |- wp (act _) _ _ _ _ => apply wp_act
  | |- wp (attempt _) _ _ _ _ => apply wp_attempt
  | |- wp (timeout _ _) _ _ _ _ => apply wp_timeout
  | |- wp (map_err _ _) _ _ _ _ => apply wp_map_err
  | |- wp (if ?b then _ else _) _ _ _ _ => destruct b eqn:?
  | |- wp (match ?x with _ => _ end) _ _ _ _ => destruct x eqn:?
  end.

Declare Scope eff_scope.
Delimit Scope eff_scope with eff.
Notation "'do!' x ':=' m 'in' k" := (bind m (fun x => k))
  (at level 10, x pattern, m at level 100, k at level 200) : eff_scope.
Notation "m ';!' k" := (bind m (fun _ => k)) (at level 199, right associativity) : eff_scope.
