(* ===== verification/Text.v ===== *)
(** * UTF-8 text

    What the code uses of the language's strings: validation, lossy decoding and
    trimming, on the bytes of a text. *)
From stdpp Require Import base numbers list.
From Stdlib Require Import ZArith Lia.
From S2P Require Import Prelude.

(** ** [String::from_utf8] *)
Definition continuation (b : Z) : bool := (0x80 <=? b) && (b <=? 0xBF).

Fixpoint utf8_valid (l : list Z) : bool :=
  match l with
  | [] => true
  | b :: l =>
      if b <=? 0x7F then utf8_valid l
      else if (0xC2 <=? b) && (b <=? 0xDF) then
        match l with c :: l => continuation c && utf8_valid l | _ => false end
      else if (0xE0 <=? b) && (b <=? 0xEF) then
        match l with
        | c :: d :: l =>
            ((if b =? 0xE0 then 0xA0 else 0x80) <=? c) && (c <=? (if b =? 0xED then 0x9F else 0xBF)) &&
            continuation d && utf8_valid l
        | _ => false
        end
      else if (0xF0 <=? b) && (b <=? 0xF4) then
        match l with
        | c :: d :: e :: l =>
            ((if b =? 0xF0 then 0x90 else 0x80) <=? c) && (c <=? (if b =? 0xF4 then 0x8F else 0xBF)) &&
            continuation d && continuation e && utf8_valid l
        | _ => false
        end
      else false
  end.

(** Validation goes on after a valid start. *)
Lemma utf8_valid_app l' n : forall l, (length l <= n)%nat -> utf8_valid l = true ->
  utf8_valid (l ++ l') = utf8_valid l'.
Proof.
  induction n as [|n IH]; intros l Hl Hv; [by destruct l; [|simpl in Hl; lia]|].
  destruct l as [|b l]; [done|]. cbn [utf8_valid app] in *. simpl in Hl.
  repeat (case_match; try discriminate); simplify_eq/=;
    repeat match goal with H : _ && _ = true |- _ => apply andb_prop in H as [? ?] end;
    repeat match goal with H : ?x = true |- context [?x] => rewrite H end;
    simpl; try (apply IH; [lia|done]).
Qed.

(** ** [str::trim] *)
Definition ascii_space (b : Z) : bool := ((9 <=? b) && (b <=? 13)) || (b =? 32).
(** The other characters with the White_Space property: U+0085 and U+00A0; U+1680,
    U+2000 to U+200A, U+2028, U+2029, U+202F, U+205F and U+3000. *)
Definition space2 (b c : Z) : bool := (b =? 0xC2) && ((c =? 0x85) || (c =? 0xA0)).
Definition space3 (b c d : Z) : bool :=
  ((b =? 0xE1) && (c =? 0x9A) && (d =? 0x80)) ||
  ((b =? 0xE2) && (c =? 0x80) &&
    (((0x80 <=? d) && (d <=? 0x8A)) || (d =? 0xA8) || (d =? 0xA9) || (d =? 0xAF))) ||
  ((b =? 0xE2) && (c =? 0x81) && (d =? 0x9F)) ||
  ((b =? 0xE3) && (c =? 0x80) && (d =? 0x80)).

Fixpoint trim_start (l : list Z) : list Z :=
  match l with
  | b :: l1 =>
      if ascii_space b then trim_start l1
      else match l1 with
           | c :: l2 =>
               if space2 b c then trim_start l2
               else match l2 with
                    | d :: l3 => if space3 b c d then trim_start l3 else l
                    | [] => l
                    end
           | [] => l
           end
  | [] => []
  end.
(** The same from the end, on the reversed text. *)
Fixpoint trim_reversed (l : list Z) : list Z :=
  match l with
  | b :: l1 =>
      if ascii_space b then trim_reversed l1
      else match l1 with
           | c :: l2 =>
               if space2 c b then trim_reversed l2
               else match l2 with
                    | d :: l3 => if space3 d c b then trim_reversed l3 else l
                    | [] => l
                    end
           | [] => l
           end
  | [] => []
  end.
Definition trim (l : list Z) : list Z := rev (trim_reversed (rev (trim_start l))).

Example trim_line : trim [32; 0xC2; 0xA0; 0x7B; 32; 0x7D; 13; 10] = [0x7B; 32; 0x7D].
Proof. reflexivity. Qed.


(** ** [String::from_utf8_lossy] *)

(** How many bytes the first character takes, or, when there is none, how many bytes
    are dropped for one replacement character: the longest start of a character. *)
Definition utf8_step (l : list Z) : bool * nat :=
  match l with
  | [] => (false, 0%nat)
  | b :: l =>
      let second := match l with c :: _ => c | [] => 0 end in
      let third := match l with _ :: d :: _ => d | _ => 0 end in
      let fourth := match l with _ :: _ :: e :: _ => e | _ => 0 end in
      if b <=? 0x7F then (true, 1%nat)
      else if (0xC2 <=? b) && (b <=? 0xDF) then
        if continuation second then (true, 2%nat) else (false, 1%nat)
      else if (0xE0 <=? b) && (b <=? 0xEF) then
        if ((if b =? 0xE0 then 0xA0 else 0x80) <=? second) && (second <=? (if b =? 0xED then 0x9F else 0xBF)) then
          if continuation third then (true, 3%nat) else (false, 2%nat)
        else (false, 1%nat)
      else if (0xF0 <=? b) && (b <=? 0xF4) then
        if ((if b =? 0xF0 then 0x90 else 0x80) <=? second) && (second <=? (if b =? 0xF4 then 0x8F else 0xBF)) then
          if continuation third then
            if continuation fourth then (true, 4%nat) else (false, 3%nat)
          else (false, 2%nat)
        else (false, 1%nat)
      else (false, 1%nat)
  end.

Definition replacement : list Z := [0xEF; 0xBF; 0xBD].
(** Each step takes at least a byte, so the length bounds the steps. *)
Fixpoint lossy (fuel : nat) (l : list Z) : list Z :=
  match fuel, l with
  | S fuel, _ :: _ =>
      let '(valid, n) := utf8_step l in
      (if valid then take n l else replacement) ++ lossy fuel (drop n l)
  | _, _ => []
  end.
Definition from_utf8_lossy (l : list Z) : list Z := lossy (length l) l.

Example lossy_bad : from_utf8_lossy [0x62; 0xFF; 0xE2; 0x80; 0x64] = [0x62] ++ replacement ++ replacement ++ [0x64].
Proof. reflexivity. Qed.

(** Text that is valid is kept. *)
Lemma utf8_step_valid l : l <> [] -> utf8_valid l = true ->
  (utf8_step l).1 = true /\ (0 < (utf8_step l).2 <= length l)%nat /\ utf8_valid (drop (utf8_step l).2 l) = true.
Proof.
  intros Hl Hv. destruct l as [|b l]; [done|]. unfold utf8_step. cbn [utf8_valid] in Hv.
  repeat (case_match; try discriminate); simplify_eq/=;
    repeat match goal with H : _ && _ = true |- _ => apply andb_prop in H as [? ?] end;
    repeat match goal with H : _ && _ = false |- _ => apply andb_false_iff in H as [?|?] end;
    try congruence; split_and!; try done; try lia.
Qed.

Lemma lossy_valid n : forall l, (length l <= n)%nat -> utf8_valid l = true -> lossy n l = l.
Proof.
  induction n as [|n IH]; intros l Hn Hv; [by destruct l; [|simpl in Hn; lia]|].
  destruct l as [|b l]; [done|]. pose proof (utf8_step_valid (b :: l) ltac:(done) Hv) as (H1 & H2 & H3).
  cbn [lossy]. destruct (utf8_step (b :: l)) as [valid k]. simpl in H1. subst valid. cbn [fst snd] in *.
  rewrite IH; [by rewrite take_drop|rewrite length_drop; simpl in *; lia|done].
Qed.

Lemma from_utf8_lossy_valid l : utf8_valid l = true -> from_utf8_lossy l = l.
Proof. by apply lossy_valid. Qed.
