(* ===== verification/Stratum.v ===== *)
(** * Stratum v1 messages (stratum_v1/messages.rs, stratum_v1/error.rs)

    JSON values are serde_json's [Value]; numbers keep serde_json's three forms.
    Text is its UTF-8 bytes.  Hex coding of byte strings belongs to the [hex]
    crate: the class [Hex], with what the crate documents in [HexSpec].  The
    texts of errors, which are only logged, are left out. *)
From stdpp Require Import base numbers list strings.
From Stdlib Require Import ZArith Lia Ascii.
From S2P Require Import Prelude Float.

(** ** JSON *)
Inductive number :=
| PosInt (n : Z)
| NegInt (n : Z)
| Float (x : float).

Inductive value :=
| JNull
| JBool (b : bool)
| JNumber (n : number)
| JString (s : string)
| JArray (l : list value)
| JObject (m : list (string * value)).

Definition as_str (v : value) : option string := match v with JString s => Some s | _ => None end.
Definition as_bool (v : value) : option bool := match v with JBool b => Some b | _ => None end.
Definition as_array (v : value) : option (list value) := match v with JArray l => Some l | _ => None end.
Definition as_object (v : value) : option (list (string * value)) := match v with JObject m => Some m | _ => None end.
Definition as_u64 (v : value) : option Z := match v with JNumber (PosInt n) => Some n | _ => None end.
Definition as_f64 (v : value) : option float :=
  match v with
  | JNumber (PosInt n) | JNumber (NegInt n) => Some (f_of_Z f64 n)
  | JNumber (Float x) => Some x
  | _ => None
  end.
(** [Map::get]. *)
Fixpoint field (k : string) (m : list (string * value)) : option value :=
  match m with
  | [] => None
  | (k', v) :: m => if bool_decide (k = k') then Some v else field k m
  end.

(** ** Hexadecimal text *)
Class Hex := {
  hex_decode : string -> option (list Z);
  hex_encode : list Z -> string }.
Class HexSpec (H : Hex) : Prop := {
  hex_decode_encode l : bytes l -> hex_decode (hex_encode l) = Some l;
  hex_decode_bytes text l : hex_decode text = Some l -> bytes l }.

(** [char::to_digit(16)]. *)
Definition hex_digit (c : ascii) : option Z :=
  let n := Z.of_nat (nat_of_ascii c) in
  if (48 <=? n) && (n <=? 57) then Some (n - 48)
  else if (97 <=? n) && (n <=? 102) then Some (n - 87)
  else if (65 <=? n) && (n <=? 70) then Some (n - 55)
  else None.

Fixpoint hex_digits (acc : Z) (s : string) : option Z :=
  match s with
  | EmptyString => Some acc
  | String c s =>
      d ← hex_digit c;
      let acc := acc * 16 + d in
      if 2 ^ 32 <=? acc then None else hex_digits acc s
  end.

(** [u32::from_str_radix(s, 16)]: one leading plus sign is allowed, before a digit. *)
Definition u32_from_hex (s : string) : option Z :=
  match s with
  | EmptyString => None
  | String "+" EmptyString => None
  | String "+" s => hex_digits 0 s
  | s => hex_digits 0 s
  end.

(** [trim_start_matches("0x")]. *)
Fixpoint trim_0x (s : string) : string :=
  match s with
  | String "0" (String "x" s) => trim_0x s
  | s => s
  end.

(** [format!("{:08x}", x)] of a [u32]. *)
Definition digit_char (d : Z) : ascii := ascii_of_nat (Z.to_nat (if d <? 10 then 48 + d else 87 + d)).
Fixpoint hex_text (n : nat) (x : Z) : string :=
  match n with
  | O => EmptyString
  | S n => String (digit_char (x / 16 ^ Z.of_nat n mod 16)) (hex_text n x)
  end.
Definition hex8 (x : Z) : string := hex_text 8 x.

(** ** Errors *)
Inductive StratumError :=
| Io
| Json
| InvalidMessage
| MessageTooLarge (limit : Z)
| PoolError
| ConnectionFailed
| SubscriptionFailed
| AuthorizationFailed
| UnexpectedResponse
| MissingField
| InvalidUrl
| Disconnected
| Timeout.

Definition is_fatal (e : StratumError) : bool :=
  match e with AuthorizationFailed | InvalidUrl => true | _ => false end.

(** ** mining.notify *)
Module JobNotification.
Record t := Mk {
  job_id : string; prev_hash : list Z; coinbase1 : list Z; coinbase2 : list Z;
  merkle_branches : list (list Z); version : Z; nbits : Z; ntime : Z; clean_jobs : bool }.

(** [for chunk in bytes.chunks_mut(4) { chunk.reverse() }]. *)
Fixpoint swap_words (l : list Z) : list Z :=
  match l with
  | a :: b :: c :: d :: l => d :: c :: b :: a :: swap_words l
  | l => rev l
  end.

Section Parse.
Context `{H : Hex}.

Definition parse_block_hash (hex : string) : option (list Z) :=
  bytes ← hex_decode hex;
  if negb (length bytes =? 32)%nat then None else Some (swap_words bytes).

Definition parse_merkle_node (hex : string) : option (list Z) :=
  bytes ← hex_decode hex;
  if negb (length bytes =? 32)%nat then None else Some bytes.

(** [params[i]] read as a value of some kind; as a string and parsed. *)
Definition value_at {A} (params : list value) (i : nat) (read : value -> option A) : option A :=
  v ← params !! i; read v.
Definition string_at {A} (params : list value) (i : nat) (parse : string -> option A) : option A :=
  text ← value_at params i as_str; parse text.

Definition from_stratum_params (params : list value) : option t :=
  if (length params <? 9)%nat then None else
  job_id ← string_at params 0 Some;
  prev_hash ← string_at params 1 parse_block_hash;
  coinbase1 ← string_at params 2 hex_decode;
  coinbase2 ← string_at params 3 hex_decode;
  branches_json ← value_at params 4 as_array;
  merkle_branches ← mapM (M:=option) (fun branch => text ← as_str branch; parse_merkle_node text) branches_json;
  version_u32 ← string_at params 5 u32_from_hex;
  nbits ← string_at params 6 u32_from_hex;
  ntime ← string_at params 7 u32_from_hex;
  clean_jobs ← value_at params 8 as_bool;
  Some (Mk job_id prev_hash coinbase1 coinbase2 merkle_branches (sign 32 version_u32) nbits ntime clean_jobs).
End Parse.
End JobNotification.

(** ** mining.submit *)
Module SubmitParams.
Record t := Mk {
  username : string; job_id : string; extranonce2 : list Z; ntime : Z; nonce : Z; version_bits : option Z }.

Definition to_stratum_json `{Hex} (p : t) : list value :=
  let params := [JString (username p); JString (job_id p); JString (hex_encode (extranonce2 p));
                 JString (hex8 (ntime p)); JString (hex8 (nonce p))] in
  match version_bits p with
  | Some version_bits => params ++ [JString (hex8 version_bits)]
  | None => params
  end.
End SubmitParams.

(** ** The client's events and commands *)
Inductive ClientEvent :=
| VersionRollingConfigured (authorized_mask : option Z)
| Subscribed (extranonce1 : list Z) (extranonce2_size : Z)
| NewJob (j : JobNotification.t)
| DifficultyChanged (d : float)
| VersionMaskSet (mask : Z)
| ShareAccepted (job_id : string) (nonce : Z)
| ShareRejected (job_id reason : string)
| EDisconnected
| EError (text : string).

Inductive ClientCommand :=
| SubmitShare (p : SubmitParams.t)
| SuggestDifficulty (d : float).

(** ** The JSON-RPC envelope *)
Module JsonRpcMessage.
Inductive t :=
| Request (id : option Z) (method : string) (params : value)
| Response (id : Z) (result error : option value).

Definition request (id : Z) (method : string) (params : value) : t := Request (Some id) method params.
Definition notification (method : string) (params : value) : t := Request None method params.
Definition get_id (m : t) : option Z := match m with Request id _ _ => id | Response id _ _ => Some id end.
Definition is_notification (m : t) : bool := match m with Request None _ _ => true | _ => false end.
Definition get_method (m : t) : option string := match m with Request _ method _ => Some method | _ => None end.
End JsonRpcMessage.

(** ** Hexadecimal numbers are read back *)
Lemma hex_digit_char d : 0 <= d < 16 -> hex_digit (digit_char d) = Some d.
Proof.
  intros Hd. assert (Hc : d ∈ seqZ 0 16) by (apply elem_of_seqZ; lia). clear Hd. revert d Hc.
  apply Forall_forall. repeat constructor.
Qed.

Lemma digit_char_not_plus d : 0 <= d < 16 -> digit_char d <> "+"%char.
Proof.
  intros Hd. assert (Hc : d ∈ seqZ 0 16) by (apply elem_of_seqZ; lia). clear Hd. revert d Hc.
  apply Forall_forall. repeat constructor; discriminate.
Qed.

Lemma hex_digits_text n : forall acc x, 0 <= acc -> 0 <= x ->
  acc * 16 ^ Z.of_nat n + x mod 16 ^ Z.of_nat n < 2 ^ 32 ->
  hex_digits acc (hex_text n x) = Some (acc * 16 ^ Z.of_nat n + x mod 16 ^ Z.of_nat n).
Proof.
  induction n as [|n IH]; intros acc x Ha Hx Hlt.
  - simpl. rewrite Z.pow_0_r, Z.mod_1_r. f_equal. lia.
  - cbn [hex_digits hex_text].
    pose proof (Z.pow_pos_nonneg 16 (Z.of_nat n) ltac:(lia) ltac:(lia)) as Hp.
    rewrite Nat2Z.inj_succ, Z.pow_succ_r in * by lia.
    set (P := 16 ^ Z.of_nat n) in *. set (dg := x / P mod 16).
    assert (Hd : 0 <= dg < 16) by (apply Z.mod_pos_bound; lia).
    rewrite (hex_digit_char dg Hd). cbn [mbind option_bind].
    assert (Hmod : x mod (16 * P) = dg * P + x mod P).
    { rewrite (Z.mul_comm 16 P), Z.rem_mul_r by lia. unfold dg. lia. }
    pose proof (Z.mod_pos_bound x P Hp). rewrite Hmod in *.
    destruct (Z.leb_spec (2 ^ 32) (acc * 16 + dg)); [nia|].
    rewrite IH; [|lia|lia|fold P; nia]. f_equal. fold P. lia.
Qed.

Lemma u32_from_hex8 x : uint 32 x -> u32_from_hex (hex8 x) = Some x.
Proof.
  intros [H0 H1]. assert (Hd : hex_digits 0 (hex8 x) = Some x).
  { unfold hex8. pose proof (hex_digits_text 8 0 x ltac:(lia) H0) as Ht.
    change (16 ^ Z.of_nat 8) with (2 ^ 32) in Ht. rewrite Z.mod_small in Ht by lia. apply Ht. lia. }
  rewrite <- Hd. unfold hex8. cbn [hex_text]. unfold u32_from_hex.
  match goal with |- context [digit_char ?d] => pose proof (digit_char_not_plus d ltac:(apply Z.mod_pos_bound; lia)) as Hp;
    destruct (digit_char d) as [[] [] [] [] [] [] [] []]; try reflexivity end.
  by destruct Hp.
Qed.

Lemma hex_digit_range c d : hex_digit c = Some d -> 0 <= d < 16.
Proof. unfold hex_digit. repeat case_match; intros [= <-]; lia. Qed.

Lemma hex_digits_range text : forall acc x, 0 <= acc < 2 ^ 32 -> hex_digits acc text = Some x -> uint 32 x.
Proof.
  induction text as [|c text IH]; intros acc x Ha; simpl; [by intros [= <-]|].
  destruct (hex_digit c) as [d|] eqn:Hc; [|done]. cbn [mbind option_bind]. apply hex_digit_range in Hc.
  destruct (Z.leb_spec (2 ^ 32) (acc * 16 + d)); [done|]. apply IH. lia.
Qed.

Lemma u32_from_hex_range text x : u32_from_hex text = Some x -> uint 32 x.
Proof.
  assert (Hd : forall t, hex_digits 0 t = Some x -> uint 32 x) by (intros t; by apply hex_digits_range).
  unfold u32_from_hex. repeat case_match; try done; apply Hd.
Qed.

Lemma sign_wrap x : - 2 ^ 31 <= x < 2 ^ 31 -> sign 32 (wrap 32 x) = x.
Proof.
  intros Hx. unfold sign, wrap. change (2 ^ (32 - 1)) with (2 ^ 31).
  destruct (Z.le_gt_cases 0 x).
  - rewrite Z.mod_small by lia. destruct (Z.leb_spec (2 ^ 31) x); lia.
  - assert (Hm : x mod 2 ^ 32 = x + 2 ^ 32) by (symmetry; apply (Z.mod_unique_pos _ _ (-1)); lia).
    rewrite Hm. destruct (Z.leb_spec (2 ^ 31) (x + 2 ^ 32)); lia.
Qed.

#[global] Arguments hex8 : simpl never.
#[global] Arguments u32_from_hex : simpl never.

(** ** What the messages promise *)
Section Promises.
Context `{HH : HexSpec}.
Import JobNotification.

Definition hash32 (l : list Z) : Prop := bytes l /\ length l = 32%nat.

Definition wf (j : JobNotification.t) : Prop :=
  hash32 (prev_hash j) /\ bytes (coinbase1 j) /\ bytes (coinbase2 j) /\ Forall hash32 (merkle_branches j) /\
  - 2 ^ 31 <= version j < 2 ^ 31 /\ uint 32 (nbits j) /\ uint 32 (ntime j).

(** The previous block's hash as pools send it: a 256-bit number kept as eight 32-bit
    words in memory, little-endian, each word written as a big-endian number. *)
Definition hash_word (l : list Z) (i : nat) : Z := from_le (take 4 (drop (4 * i) l)).
Definition stratum_hash (l : list Z) : list Z := flat_map (fun i => be_bytes 4 (hash_word l i)) (seq 0 8).

(** The parameters a pool sends for a job. *)
Definition notify_params (j : JobNotification.t) : list value :=
  [JString (job_id j); JString (hex_encode (stratum_hash (prev_hash j)));
   JString (hex_encode (coinbase1 j)); JString (hex_encode (coinbase2 j));
   JArray (map (fun b => JString (hex_encode b)) (merkle_branches j));
   JString (hex8 (wrap 32 (version j))); JString (hex8 (nbits j)); JString (hex8 (ntime j));
   JBool (clean_jobs j)].

Lemma swap_words_32 l : length l = 32%nat ->
  length (swap_words l) = 32%nat /\ swap_words (swap_words l) = l /\ (bytes l -> bytes (swap_words l)).
Proof.
  intros Hl. do 32 (destruct l as [|? l]; [discriminate Hl|]). destruct l; [|discriminate Hl].
  split_and!; [reflexivity|reflexivity|]. unfold bytes. cbn [swap_words rev app]. rewrite !Forall_cons. tauto.
Qed.

Lemma word_reversed a b c d : bytes [a; b; c; d] -> be_bytes 4 (from_le [a; b; c; d]) = [d; c; b; a].
Proof. intros Hb. unfold be_bytes. change 4%nat with (length [a; b; c; d]). by rewrite (le_bytes_from_le _ Hb). Qed.

(** Sending and reading are inverse, word by word. *)
Lemma stratum_hash_swap l : hash32 l -> bytes (stratum_hash l) /\ length (stratum_hash l) = 32%nat /\
  swap_words (stratum_hash l) = l.
Proof.
  intros [Hb Hl]. enough (stratum_hash l = swap_words l) as ->
    by (destruct (swap_words_32 l Hl) as (? & ? & ?); auto).
  do 32 (destruct l as [|? l]; [discriminate Hl|]). destruct l; [|discriminate Hl].
  unfold bytes in Hb. rewrite !Forall_cons in Hb. destruct_and! Hb.
  unfold stratum_hash, hash_word. cbn [flat_map seq take drop Nat.mul Nat.add].
  rewrite !word_reversed by (unfold bytes; repeat (apply List.Forall_cons; [assumption|]); apply List.Forall_nil). reflexivity.
Qed.

Lemma parse_block_hash_encode l : hash32 l -> parse_block_hash (hex_encode (stratum_hash l)) = Some l.
Proof.
  intros (Hbytes & Hlen & Hinv)%stratum_hash_swap. unfold parse_block_hash.
  rewrite hex_decode_encode by done. cbn [mbind option_bind]. rewrite Hlen. cbn [Nat.eqb negb]. by rewrite Hinv.
Qed.

Lemma parse_branches_encode bs : Forall hash32 bs ->
  mapM (M:=option) (fun branch => text ← as_str branch; parse_merkle_node text)
    (map (fun b => JString (hex_encode b)) bs) = Some bs.
Proof.
  intros Hbs. apply mapM_Some. rewrite Forall2_fmap_l. apply Forall_Forall2_diag.
  eapply Forall_impl; [exact Hbs|]. intros b [Hb Hl]. simpl. unfold parse_merkle_node.
  rewrite hex_decode_encode by done. simpl. by rewrite Hl.
Qed.

(** C18 A job a pool announces is understood: from the parameters a pool sends for a
    job - the previous block's hash as eight little-endian 32-bit words, each sent as
    a big-endian number, the branches plain, numbers in hexadecimal - the very job is
    read, whatever follows. *)
Theorem notify_roundtrip j extra :
  wf j -> from_stratum_params (notify_params j ++ extra) = Some j.
Proof.
  intros (Hp & H1 & H2 & Hb & Hv & Hn & Ht). unfold from_stratum_params.
  change (length (notify_params j ++ extra)) with (9 + length extra)%nat. cbn [Nat.ltb Nat.leb Nat.add].
  unfold string_at, value_at, notify_params. simpl.
  rewrite (parse_block_hash_encode _ Hp). simpl. rewrite !hex_decode_encode by done. simpl.
  rewrite (parse_branches_encode _ Hb). simpl.
  rewrite !u32_from_hex8 by (done || by apply wrap_uint). simpl. rewrite sign_wrap by done. by destruct j.
Qed.

Lemma hash32_merkle_node text l : parse_merkle_node text = Some l -> hash32 l.
Proof.
  unfold parse_merkle_node. destruct (hex_decode text) as [b|] eqn:Hd; [|done]. simpl.
  destruct (Nat.eqb_spec (length b) 32); [|done]. intros [= <-]. split; [by eapply hex_decode_bytes|done].
Qed.

Lemma hash32_block_hash text l : parse_block_hash text = Some l -> hash32 l.
Proof.
  unfold parse_block_hash. destruct (hex_decode text) as [b|] eqn:Hd; [|done]. simpl.
  destruct (Nat.eqb_spec (length b) 32) as [Hl|]; [|done]. intros [= <-].
  destruct (swap_words_32 b Hl) as (? & _ & Hb). split; [|done]. apply Hb. by eapply hex_decode_bytes.
Qed.

Lemma sign_range x : uint 32 x -> - 2 ^ 31 <= sign 32 x < 2 ^ 31.
Proof. unfold uint, sign. change (2 ^ (32 - 1)) with (2 ^ 31). destruct (Z.leb_spec (2 ^ 31) x); lia. Qed.

Lemma string_at_some {A} l i (parse : string -> option A) a :
  string_at l i parse = Some a -> exists text, parse text = Some a.
Proof.
  unfold string_at. destruct (value_at l i as_str) as [text|]; [|done]. intros Hp. by exists text.
Qed.

Lemma accepted_job_wf params j : from_stratum_params params = Some j -> wf j.
Proof.
  unfold from_stratum_params. destruct (length params <? 9)%nat; [done|]. intros Hp.
  repeat match type of Hp with
  | (mbind _ ?m) = Some _ =>
      let E := fresh "E" in destruct m eqn:E; cbn [mbind option_bind] in Hp; [|discriminate Hp]
  end.
  injection Hp as <-.
  repeat match goal with E : string_at _ _ _ = Some _ |- _ => apply string_at_some in E as [? E] end.
  split_and!; simpl; eauto using hash32_block_hash, hex_decode_bytes, u32_from_hex_range, sign_range;
    try (apply sign_range; by eapply u32_from_hex_range).
  match goal with E : mapM _ _ = Some _ |- _ => apply mapM_Some in E; clear -E HH;
    induction E as [|v b vs bs Hv _ IH]; constructor; [|exact IH] end.
  destruct (as_str v); [|discriminate Hv]. by eapply hash32_merkle_node.
Qed.

(** How a pool reads a submission. *)
Definition read_submit (params : list value) : option SubmitParams.t :=
  username ← string_at params 0 Some;
  job_id ← string_at params 1 Some;
  extranonce2 ← string_at params 2 hex_decode;
  ntime ← string_at params 3 u32_from_hex;
  nonce ← string_at params 4 u32_from_hex;
  match params !! 5%nat with
  | None => Some (SubmitParams.Mk username job_id extranonce2 ntime nonce None)
  | Some v => text ← as_str v; bits ← u32_from_hex text;
              Some (SubmitParams.Mk username job_id extranonce2 ntime nonce (Some bits))
  end.

Definition submit_wf (p : SubmitParams.t) : Prop :=
  bytes (SubmitParams.extranonce2 p) /\ uint 32 (SubmitParams.ntime p) /\ uint 32 (SubmitParams.nonce p) /\
  (forall b, SubmitParams.version_bits p = Some b -> uint 32 b).

Lemma read_submit_json p : submit_wf p -> read_submit (SubmitParams.to_stratum_json p) = Some p.
Proof.
  intros (He & Ht & Hn & Hb). destruct p as [u i e t n b]; simpl in *.
  destruct b as [b|]; unfold read_submit, SubmitParams.to_stratum_json, string_at, value_at; simpl;
    rewrite hex_decode_encode by done; simpl; rewrite !u32_from_hex8 by auto; reflexivity.
Qed.
End Promises.

(** ** The hex crate, for examples *)
Definition hex_byte (b : Z) : string := hex_text 2 b.
Fixpoint hex_encode_ref (l : list Z) : string :=
  match l with [] => EmptyString | b :: l => (hex_byte b ++ hex_encode_ref l)%string end.
Fixpoint hex_decode_ref (s : string) : option (list Z) :=
  match s with
  | EmptyString => Some []
  | String a (String b s) =>
      x ← hex_digit a; y ← hex_digit b; l ← hex_decode_ref s; Some (x * 16 + y :: l)
  | _ => None
  end.
Definition hex_ref : Hex := {| hex_decode := hex_decode_ref; hex_encode := hex_encode_ref |}.

Lemma hex_decode_ref_bytes n : forall text l, (String.length text <= n)%nat -> hex_decode_ref text = Some l -> bytes l.
Proof.
  induction n as [|n IH]; intros [|a [|b text]] l Hn; simpl in *; try lia; try done; try (intros [= <-]; constructor).
  destruct (hex_digit a) as [x|] eqn:Hx, (hex_digit b) as [y|] eqn:Hy; simpl; try done.
  destruct (hex_decode_ref text) as [l'|] eqn:Hl; simpl; [|done]. intros [= <-].
  apply hex_digit_range in Hx, Hy. constructor; [unfold uint; lia|]. eapply (IH text); [lia|done].
Qed.

#[export] Instance hex_ref_spec : HexSpec hex_ref.
Proof.
  split.
  - intros l Hl. induction Hl as [|b l Hb _ IH]; [done|]. simpl in *. unfold uint in Hb.
    rewrite (hex_digit_char (b / 16 ^ Z.of_nat 1 mod 16)) by (apply Z.mod_pos_bound; lia). simpl.
    rewrite (hex_digit_char (b / 16 ^ Z.of_nat 0 mod 16)) by (apply Z.mod_pos_bound; lia). simpl.
    change (EmptyString +:+ hex_encode_ref l)%string with (hex_encode_ref l). rewrite IH. simpl. do 2 f_equal. change (16 ^ Z.of_nat 1) with 16. change (16 ^ Z.of_nat 0) with 1.
    rewrite Z.div_1_r, (Z.mod_small (b / 16)) by (split; [apply Z.div_pos; lia|apply Z.div_lt_upper_bound; lia]).
    pose proof (Z.div_mod b 16 ltac:(lia)). lia.
  - intros text l. by eapply (hex_decode_ref_bytes (String.length text)).
Qed.

(** ** A job in full *)
Section Examples.
#[local] Existing Instance hex_ref.

(** A hash of a real job, and how its pool sent it. *)
Definition hash_ref : list Z := be_bytes 32 0xfd55646bc162b96dfcd4f201a3f4670d1d3996bc965201000000000000000000.
Example hash_ref_sent :
  JobNotification.parse_block_hash "6b6455fd6db962c101f2d4fc0d67f4a3bc96391d000152960000000000000000" = Some hash_ref /\
  hex_encode (stratum_hash hash_ref) = "6b6455fd6db962c101f2d4fc0d67f4a3bc96391d000152960000000000000000"%string.
Proof. by split; vm_compute. Qed.

Definition announced_ref : JobNotification.t :=
  JobNotification.Mk "b1" hash_ref [1; 2] [3; 4] [repeat 9 32] 0x20000000 0x1d00ffff 1700000000 true.

Lemma announced_ref_wf : wf announced_ref.
Proof. unfold wf, hash32, bytes, uint. split_and!; try apply be_bytes_bytes; repeat constructor; simpl; lia. Qed.

Lemma notify_roundtrip_witness :
  JobNotification.from_stratum_params (notify_params announced_ref ++ [JNull]) = Some announced_ref.
Proof. exact (notify_roundtrip announced_ref [JNull] announced_ref_wf). Defined.
End Examples.
