(* ===== verification/StratumClient.v ===== *)
(** * The Stratum v1 client (stratum_v1/client.rs)

    The client's code in the monad of Effects: its state, the outcomes of its
    awaits ([event]) and what it gives to the transport and tells its owner ([action]).  A [Transport]
    is known by the outcomes of its two methods.  The text an unstructured
    error of a pool has in the log belongs to serde_json ([DebugValue]). *)
From stdpp Require Import base numbers list strings.
From Stdlib Require Import ZArith Lia SpecFloat.
From S2P Require Import Prelude Float Effects Stratum.
#[local] Open Scope eff_scope.

(** The outcome of an await: a write or a send to the event channel is [Sent] or has
    [SendFailed]; a read has a message, the end of the stream or an error; a deadline
    [Elapsed], [Shutdown] was requested, or a [Command] came. *)
Inductive event :=
| Sent
| SendFailed
| Message (m : JsonRpcMessage.t)
| Eof
| ReadFailed (e : StratumError)
| Elapsed
| Shutdown
| Command (c : ClientCommand).

Inductive action :=
| Write (m : JsonRpcMessage.t)
| Emitted (e : ClientEvent).

Class DebugValue := { debug_value : value -> string }.

(** ** State *)
Record PoolConfig := MkConfig { url : string; username : string; password : string; user_agent : string }.

Record ProtocolState := MkState {
  extranonce1 : string; extranonce2_size : Z; difficulty : option float; version_mask : option Z }.

Module Client.
Record t := Mk {
  config : PoolConfig; has_commands : bool; next_id : Z; state : option ProtocolState;
  initial_suggest_difficulty : option float }.

Definition new (config : PoolConfig) : t := Mk config false 1 None None.
Definition with_commands (config : PoolConfig) (initial : option float) : t := Mk config true 1 None initial.

Definition with_next_id (c : t) x := Mk (config c) (has_commands c) x (state c) (initial_suggest_difficulty c).
Definition with_state (c : t) x := Mk (config c) (has_commands c) (next_id c) x (initial_suggest_difficulty c).

Section Client.
Context `{H : Hex} `{D : DebugValue}.

Abbreviation M := (Effects.M t event action StratumError).

(** ** The awaits *)
(** A message is given to the transport, which may fail to deliver it. *)
Definition write_message (m : JsonRpcMessage.t) : M unit :=
  act (Write m) ;!
  await (fun e => match e with
    | Sent => Some (ret tt)
    | SendFailed => Some (raise Io)
    | _ => None
    end).

(** [event_tx.send(e).await.map_err(|_| Disconnected)?]; a deadline set by the caller
    can pass meanwhile. *)
Definition emit (e : ClientEvent) : M unit :=
  await (fun o => match o with
    | Sent => Some (act (Emitted e))
    | SendFailed => Some (raise Disconnected)
    | Elapsed => Some cut
    | _ => None
    end).

(** [event_tx.send(e).await.ok()]. *)
Definition emit_ok (e : ClientEvent) : M unit :=
  await (fun o => match o with
    | Sent => Some (act (Emitted e))
    | SendFailed => Some (ret tt)
    | _ => None
    end).

Definition ok_or_raise {A} (o : option A) (e : StratumError) : M A :=
  match o with Some a => ret a | None => raise e end.

(** [next_id]. *)
Definition take_id : M Z :=
  do! c := get in put (with_next_id c (wrap 64 (next_id c + 1))) ;! ret (next_id c).

(** [if let Some(state) = &mut self.state { ... }]. *)
Definition update_state (f : ProtocolState -> ProtocolState) : M unit :=
  do! c := get in put (with_state c (option_map f (state c))).

(** ** Notifications *)
Definition handle_mining_notify (params : value) : M unit :=
  do! arr := ok_or_raise (as_array params) InvalidMessage in
  do! job := ok_or_raise (JobNotification.from_stratum_params arr) InvalidMessage in
  emit (NewJob job).

Definition handle_set_difficulty (params : value) : M unit :=
  do! arr := ok_or_raise (as_array params) InvalidMessage in
  match arr with
  | [] => raise InvalidMessage
  | first :: _ =>
      do! d := ok_or_raise (as_f64 first) InvalidMessage in
      if negb (is_finite d) || f_le d (S754_zero false) then raise InvalidMessage
      else
        update_state (fun s => MkState (extranonce1 s) (extranonce2_size s) (Some d) (version_mask s)) ;!
        emit (DifficultyChanged d)
  end.

Definition handle_set_version_mask (params : value) : M unit :=
  do! arr := ok_or_raise (as_array params) InvalidMessage in
  match arr with
  | [] => raise InvalidMessage
  | first :: _ =>
      do! mask_str := ok_or_raise (as_str first) InvalidMessage in
      do! mask := ok_or_raise (u32_from_hex (trim_0x mask_str)) InvalidMessage in
      update_state (fun s => MkState (extranonce1 s) (extranonce2_size s) (difficulty s) (Some mask)) ;!
      emit (VersionMaskSet mask)
  end.

Definition handle_notification (method : string) (params : value) : M unit :=
  if bool_decide (method = "mining.notify"%string) then handle_mining_notify params
  else if bool_decide (method = "mining.set_difficulty"%string) then handle_set_difficulty params
  else if bool_decide (method = "mining.set_version_mask"%string) then handle_set_version_mask params
  else if bool_decide (method = "client.reconnect"%string) then raise Disconnected
  else ret tt.

(** ** Requests *)

(** One round of the wait for the response to [id]. *)
Definition receive (id : Z) : M (option JsonRpcMessage.t) :=
  await (fun e => match e with
    | Message (JsonRpcMessage.Response resp_id r err as msg) =>
        Some (if resp_id =? id then ret (Some msg) else ret None)
    | Message (JsonRpcMessage.Request None method params) =>
        Some (attempt (handle_notification method params) ;! ret None)
    | Message (JsonRpcMessage.Request (Some _) _ _) => Some (ret None)
    | Eof => Some (raise Disconnected)
    | ReadFailed e => Some (raise e)
    | Shutdown => Some (raise Disconnected)
    | Elapsed => Some cut
    | _ => None
    end).

(** The deadline is 30 seconds, 3 for a difficulty suggestion; when it passes is an
    outcome. *)
Definition send_request (method : string) (params : value) : M JsonRpcMessage.t :=
  do! id := take_id in
  write_message (JsonRpcMessage.request id method params) ;!
  timeout Timeout (loop (receive id)).

Definition configure_version_rolling : M (option Z) :=
  do! result := attempt (send_request "mining.configure"
    (JArray [JArray [JString "version-rolling"]; JObject [("version-rolling.mask"%string, JString "1fffe000")]])) in
  match result with
  | Ok (JsonRpcMessage.Response _ (Some result) None) =>
      do! obj := ok_or_raise (as_object result) InvalidMessage in
      let accepted := default false (v ← field "version-rolling" obj; as_bool v) in
      if negb accepted then ret None
      else
        do! mask_str := ok_or_raise (v ← field "version-rolling.mask" obj; as_str v) InvalidMessage in
        do! mask := ok_or_raise (u32_from_hex (trim_0x mask_str)) InvalidMessage in
        ret (Some mask)
  | Ok (JsonRpcMessage.Response _ _ (Some _)) => ret None
  | Err Timeout => ret None
  | Err e => raise e
  | _ => ret None
  end.

Definition subscribe (authorized_mask : option Z) : M unit :=
  do! c := get in
  do! response := send_request "mining.subscribe" (JArray [JString (user_agent (config c))]) in
  match response with
  | JsonRpcMessage.Response _ (Some result) None =>
      do! arr := ok_or_raise (as_array result) InvalidMessage in
      if (length arr <? 3)%nat then raise InvalidMessage
      else
        do! e1 := ok_or_raise (v ← arr !! 1%nat; as_str v) InvalidMessage in
        do! size := ok_or_raise (v ← arr !! 2%nat; as_u64 v) InvalidMessage in
        do! c := get in
        put (with_state c (Some (MkState e1 size None authorized_mask)))
  | JsonRpcMessage.Response _ _ (Some _) => raise SubscriptionFailed
  | _ => raise UnexpectedResponse
  end.

Definition authorize : M unit :=
  do! c := get in
  do! response := send_request "mining.authorize"
    (JArray [JString (username (config c)); JString (password (config c))]) in
  match response with
  | JsonRpcMessage.Response _ (Some result) None =>
      if default false (as_bool result) then ret tt else raise AuthorizationFailed
  | JsonRpcMessage.Response _ _ (Some _) => raise AuthorizationFailed
  | _ => raise UnexpectedResponse
  end.

(** [json!(x)] of a float. *)
Definition json_f64 (x : float) : value := if is_finite x then JNumber (Float x) else JNull.

Definition difficulty_param (d : float) : value :=
  if f_le (f_of_Z f64 1) d then JArray [JNumber (PosInt (f_to_uint 64 d))] else JArray [json_f64 d].

Definition suggest_difficulty (d : float) : M unit :=
  attempt (send_request "mining.suggest_difficulty" (difficulty_param d)) ;! ret tt.

(** The reason a pool gave: the second element of its error, if that is an array. *)
Definition reject_reason (error : value) : string :=
  match as_array error with
  | Some arr => default "Unknown error"%string (v ← arr !! 1%nat; as_str v)
  | None => debug_value error
  end.

Definition submit (params : SubmitParams.t) : M bool :=
  let job_id := SubmitParams.job_id params in
  let nonce := SubmitParams.nonce params in
  do! response := send_request "mining.submit" (JArray (SubmitParams.to_stratum_json params)) in
  match response with
  | JsonRpcMessage.Response _ (Some result) None =>
      let accepted := default false (as_bool result) in
      (if accepted then emit (ShareAccepted job_id nonce)
       else emit (ShareRejected job_id "Pool returned false")) ;!
      ret accepted
  | JsonRpcMessage.Response _ _ (Some error) =>
      emit (ShareRejected job_id (reject_reason error)) ;! ret false
  | _ => raise UnexpectedResponse
  end.

(** ** The run of a connection *)

(** The handshake: everything before the main loop. *)
Definition handshake : M unit :=
  do! authorized_mask := configure_version_rolling in
  emit (VersionRollingConfigured authorized_mask) ;!
  subscribe authorized_mask ;!
  do! c := get in
  do! s := ok_or_raise (state c) UnexpectedResponse in
  do! extranonce1_bytes := ok_or_raise (hex_decode (extranonce1 s)) InvalidMessage in
  emit (Subscribed extranonce1_bytes (extranonce2_size s)) ;!
  authorize ;!
  do! c := get in
  match initial_suggest_difficulty c with
  | Some d => suggest_difficulty d
  | None => ret tt
  end.

(** One round of the main loop; [Some] ends it without an error. *)
Definition serve : M (option unit) :=
  await (fun e => match e with
    | Message (JsonRpcMessage.Request None method params) =>
        Some (do! r := attempt (handle_notification method params) in
              match r with Err Disconnected => raise Disconnected | _ => ret None end)
    | Message _ => Some (ret None)
    | Eof => Some (emit_ok EDisconnected ;! raise Disconnected)
    | ReadFailed InvalidMessage => Some (ret None)
    | ReadFailed e => Some (raise e)
    | Command (SubmitShare params) =>
        Some (do! c := get in if has_commands c then submit params ;! ret None else wait)
    | Command (SuggestDifficulty d) =>
        Some (do! c := get in if has_commands c then suggest_difficulty d ;! ret None else wait)
    | Shutdown => Some (emit_ok EDisconnected ;! ret (Some tt))
    | _ => None
    end).

Definition run_with_transport : M unit := handshake ;! loop serve.
End Client.
End Client.
