(* ===== verification/StratumClientProps.v ===== *)
(** * What the Stratum v1 client promises

    Requests and responses, the order of a connection, what a pool can make the
    client say, and the verdicts of shares. *)
From stdpp Require Import base numbers list strings.
From Stdlib Require Import ZArith Lia SpecFloat.
From S2P Require Import Prelude Float Effects Stratum StratumClient.
#[local] Open Scope eff_scope.
Import Client.

(** The messages written and the events told, in order. *)
Definition writes (tr : list action) : list JsonRpcMessage.t :=
  omap (fun a => match a with Write m => Some m | _ => None end) tr.
Definition events (tr : list action) : list ClientEvent :=
  omap (fun a => match a with Emitted e => Some e | _ => None end) tr.

Lemma written_app l1 l2 : writes (l1 ++ l2) = writes l1 ++ writes l2.
Proof. apply omap_app. Qed.
Lemma events_app l1 l2 : events (l1 ++ l2) = events l1 ++ events l2.
Proof. apply omap_app. Qed.

(** The cases of an await. *)
Ltac wp_await_cases :=
  apply wp_await; [|let e := fresh "e" in let m := fresh "m" in let H := fresh "H" in
    intros e m H; cbv beta in H; destruct e; try discriminate H; try (injection H as <-)].

Section Props.
Context `{HH : HexSpec} `{D : DebugValue}.
Abbreviation M := (Effects.M Client.t event action StratumError).

(** ** The awaits *)
Lemma wp_emit e s u tr (Q : post _ _ _ _ unit) :
  Q Wait s u tr -> Q (Ret tt) s (u ++ [Sent]) (tr ++ [Emitted e]) ->
  Q (Raise Disconnected) s (u ++ [SendFailed]) tr -> Q Cut s (u ++ [Elapsed]) tr ->
  wp (emit e) s u tr Q.
Proof. intros. unfold emit. wp_await_cases; eauto with wp. Qed.

Lemma wp_emit_ok e s u tr (Q : post _ _ _ _ unit) :
  Q Wait s u tr -> Q (Ret tt) s (u ++ [Sent]) (tr ++ [Emitted e]) -> Q (Ret tt) s (u ++ [SendFailed]) tr ->
  wp (emit_ok e) s u tr Q.
Proof. intros. unfold emit_ok. wp_await_cases; eauto with wp. Qed.

Lemma wp_write m s u tr (Q : post _ _ _ _ unit) :
  Q Wait s u (tr ++ [Write m]) -> Q (Ret tt) s (u ++ [Sent]) (tr ++ [Write m]) ->
  Q (Raise Io) s (u ++ [SendFailed]) (tr ++ [Write m]) ->
  wp (write_message m) s u tr Q.
Proof. intros. unfold write_message. apply wp_bind, wp_act. simpl. wp_await_cases; eauto with wp. Qed.

Lemma wp_ok_or_raise {A B} (o : option A) e (k : A -> M B) s u tr Q :
  (o = None -> Q (Raise e) s u tr) -> (forall a, o = Some a -> wp (k a) s u tr Q) ->
  wp (bind (ok_or_raise o e) k) s u tr Q.
Proof.
  intros Hn Hs. apply wp_bind. destruct o as [a|]; simpl; [apply wp_ret|apply wp_raise]; simpl; auto.
Qed.

Lemma wp_take_id s u tr (Q : post _ _ _ _ Z) :
  Q (Ret (next_id s)) (with_next_id s (wrap 64 (next_id s + 1))) u tr -> wp take_id s u tr Q.
Proof. intros H1. unfold take_id. repeat wp_step. done. Qed.

Lemma wp_update_state f s u tr (Q : post _ _ _ _ unit) :
  Q (Ret tt) (with_state s (option_map f (state s))) u tr -> wp (update_state f) s u tr Q.
Proof. intros H1. unfold update_state. by repeat wp_step. Qed.

(** ** Notifications *)

Definition event_ok (e : ClientEvent) : Prop :=
  match e with
  | NewJob j => wf j
  | DifficultyChanged d => is_finite d = true /\ f_le d (S754_zero false) = false
  | VersionMaskSet m | VersionRollingConfigured (Some m) => uint 32 m
  | Subscribed e1 _ => bytes e1
  | _ => True
  end.

(** A notification leads to at most one event, a job, a difficulty or a mask of the
    right shape, and changes nothing but the difficulty and the mask. *)
Definition notice (e : ClientEvent) : Prop :=
  event_ok e /\ match e with NewJob _ | DifficultyChanged _ | VersionMaskSet _ => True | _ => False end.
Definition same_session (s s' : Client.t) : Prop :=
  config s' = config s /\ has_commands s' = has_commands s /\ next_id s' = next_id s /\
  initial_suggest_difficulty s' = initial_suggest_difficulty s /\
  option_map (fun p => (extranonce1 p, extranonce2_size p)) (state s') =
    option_map (fun p => (extranonce1 p, extranonce2_size p)) (state s).

Lemma same_session_refl s : same_session s s.
Proof. by split_and!. Qed.
Lemma same_session_trans s1 s2 s3 : same_session s1 s2 -> same_session s2 s3 -> same_session s1 s3.
Proof. intros (?&?&?&?&?) (?&?&?&?&?). split_and!; congruence. Qed.
Lemma same_session_update s f :
  (forall p, extranonce1 (f p) = extranonce1 p /\ extranonce2_size (f p) = extranonce2_size p) ->
  same_session s (with_state s (option_map f (state s))).
Proof.
  intros Hf. split_and!; try done. simpl. destruct (state s) as [p|]; simpl; [|done]. by destruct (Hf p) as [-> ->].
Qed.

(** What handling a notification may add. *)
Definition noticed (s : Client.t) (tr : list action) (s' : Client.t) (tr' : list action) : Prop :=
  same_session s s' /\ exists l, tr' = tr ++ map Emitted l /\ Forall notice l /\ (length l <= 1)%nat.

Lemma noticed_none s s' tr : same_session s s' -> noticed s tr s' tr.
Proof. intros H0. split; [done|]. exists []. rewrite app_nil_r. split_and!; [done|constructor|simpl; lia]. Qed.
Lemma noticed_one s s' tr e : same_session s s' -> notice e -> noticed s tr s' (tr ++ [Emitted e]).
Proof. intros H0 He. split; [done|]. exists [e]. split_and!; [done|by apply Forall_singleton|simpl; lia]. Qed.

Lemma wp_emit_noticed e s0 s u tr :
  same_session s0 s -> notice e -> wp (emit e) s u tr (fun _ s' _ tr' => noticed s0 tr s' tr').
Proof. intros Hs He. apply wp_emit; eauto using noticed_none, noticed_one. Qed.

Lemma wp_notification method params s u tr :
  wp (handle_notification method params) s u tr (fun _ s' _ tr' => noticed s tr s' tr').
Proof.
  pose proof (noticed_none s s tr (same_session_refl s)) as Hnone.
  unfold handle_notification. repeat case_bool_decide.
  - unfold handle_mining_notify. apply wp_ok_or_raise; [done|]. intros arr _.
    apply wp_ok_or_raise; [done|]. intros job Hj. apply wp_emit_noticed; [apply same_session_refl|].
    split; [|done]. by eapply accepted_job_wf.
  - unfold handle_set_difficulty. apply wp_ok_or_raise; [done|]. intros [|first arr] _; [by apply wp_raise|].
    apply wp_ok_or_raise; [done|]. intros d _. destruct (negb (is_finite d) || _) eqn:Hd; [by apply wp_raise|].
    apply orb_false_iff in Hd as [Hf%negb_false_iff Hle].
    apply wp_bind, wp_update_state. simpl. apply wp_emit_noticed; [by apply same_session_update|by split].
  - unfold handle_set_version_mask. apply wp_ok_or_raise; [done|]. intros [|first arr] _; [by apply wp_raise|].
    apply wp_ok_or_raise; [done|]. intros text _. apply wp_ok_or_raise; [done|]. intros mask Hm.
    apply wp_bind, wp_update_state. simpl. apply wp_emit_noticed; [by apply same_session_update|].
    split; [|done]. by eapply u32_from_hex_range.
  - by apply wp_raise.
  - by apply wp_ret.
Qed.

(** ** Requests *)

(** What waiting for a response may add: the events of notifications. *)
Definition listened (s : Client.t) (tr : list action) (s' : Client.t) (tr' : list action) : Prop :=
  same_session s s' /\ exists l, tr' = tr ++ map Emitted l /\ Forall notice l.

Lemma listened_refl s tr : listened s tr s tr.
Proof. split; [apply same_session_refl|]. exists []. by rewrite app_nil_r. Qed.

Lemma listened_noticed s0 tr0 s tr s' tr' :
  listened s0 tr0 s tr -> noticed s tr s' tr' -> listened s0 tr0 s' tr'.
Proof.
  intros [Hs (l & -> & Hl)] [Hs' (l' & -> & Hl' & _)]. split; [by eapply same_session_trans|].
  exists (l ++ l'). rewrite map_app, app_assoc. split; [done|by apply Forall_app].
Qed.

(** The response to [id] is the last thing read. *)
Definition answered (id : Z) (u : list event) (m : JsonRpcMessage.t) : Prop :=
  exists before r err, m = JsonRpcMessage.Response id r err /\ u = before ++ [Message m].

Lemma wp_receive id s0 tr0 s u tr :
  listened s0 tr0 s tr ->
  wp (receive id) s u tr (fun r s' u' tr' => listened s0 tr0 s' tr' /\
    match r with Ret (Some m) => answered id u' m | Ret None => u' <> [] | _ => True end).
Proof.
  intros Hl. assert (Hne : forall x v, (u ++ [x]) `prefix_of` v -> v <> []) by (intros x v [w ->]; by destruct u).
  unfold receive. wp_await_cases; [by split|try (by repeat wp_step)..].
  destruct m0 as [[rid|] method params|rid r err]; injection H0 as <-.
  - apply wp_ret. split; [done|]. by eapply Hne.
  - apply wp_bind, wp_attempt. eapply wp_mono; [apply wp_extends, wp_notification|].
    intros r s1 u1 tr1 [Hn Hu]. pose proof (listened_noticed _ _ _ _ _ _ Hl Hn).
    destruct r; simpl; try done; apply wp_ret; (split; [done|]); by eapply Hne.
  - destruct (Z.eqb_spec rid id) as [->|]; apply wp_ret; (split; [done|]); [|by eapply Hne].
    by exists u, r, err.
Qed.

(** A request is written with the next id; what it returns is the response with that
    id, the last thing read; meanwhile only notifications are acted upon. *)
Definition requested (method : string) (params : value) (s : Client.t) (tr : list action)
    (r : res StratumError JsonRpcMessage.t) (s' : Client.t) (u' : list event) (tr' : list action) : Prop :=
  listened (with_next_id s (wrap 64 (next_id s + 1)))
    (tr ++ [Write (JsonRpcMessage.request (next_id s) method params)]) s' tr' /\
  match r with Ret m => answered (next_id s) u' m | _ => True end.

Lemma wp_send_request method params s u tr :
  wp (send_request method params) s u tr (fun r s' u' tr' => requested method params s tr r s' u' tr').
Proof.
  unfold send_request, requested. apply wp_bind, wp_take_id. simpl.
  set (s1 := with_next_id s _). set (m := JsonRpcMessage.request _ _ _).
  pose proof (listened_refl s1 (tr ++ [Write m])) as H0.
  apply wp_bind, wp_write; simpl; [by split| |by split].
  apply wp_timeout.
  apply wp_loop with (Inv := fun s' _ tr' => listened s1 (tr ++ [Write m]) s' tr'); simpl; [done|by split|].
  intros s' u' tr' Hl. eapply wp_mono; [by apply wp_receive|].
  intros r s2 u2 tr2 [Hl2 Hr]. by destruct r as [[m'|]|e| |].
Qed.

Lemma receive_progress id : Progress (receive id).
Proof.
  intros s. eapply wp_mono; [apply (wp_receive id s []), listened_refl|].
  intros r s' u tr [_ Hr] ->. done.
Qed.
End Props.
