(* ===== verification/StratumProtocol.v ===== *)
(** * The protocol a Stratum v1 client follows

    An abstract machine that reads what a client writes and tells, in order; every
    run of the client is a path of it. *)
From stdpp Require Import base numbers list strings sets.
From Stdlib Require Import ZArith Lia SpecFloat.
From S2P Require Import Prelude Float Effects Stratum StratumClient StratumClientProps.
#[local] Open Scope eff_scope.
Import Client.

(** ** The machine *)

(** How far a connection has come; [Working] has the share whose verdict is due. *)
Inductive phase :=
| Connected
| Configuring
| Configured
| Subscribing
| SubscribedTo
| Authorizing
| Working (due : option string)
| Closed.

Record view := View { at_phase : phase; next_request : Z }.

Definition submitted_job (params : value) : option string :=
  match params with JArray (_ :: JString job :: _) => Some job | _ => None end.

(** Work: a suggestion, which has no answer of interest, or a share. *)
Definition work (method : string) (params : value) : option phase :=
  if bool_decide (method = "mining.suggest_difficulty"%string) then Some (Working None)
  else if bool_decide (method = "mining.submit"%string) then option_map (fun job => Working (Some job)) (submitted_job params)
  else None.

Definition after_write (p : phase) (method : string) (params : value) : option phase :=
  match p with
  | Connected => if bool_decide (method = "mining.configure"%string) then Some Configuring else None
  | Configured => if bool_decide (method = "mining.subscribe"%string) then Some Subscribing else None
  | SubscribedTo => if bool_decide (method = "mining.authorize"%string) then Some Authorizing else None
  | Authorizing | Working None => work method params
  | _ => None
  end.

(** Phases in which the client listens to the pool. *)
Definition listening (p : phase) : bool :=
  match p with Configuring | Subscribing | Authorizing | Working _ => true | _ => false end.

Definition verdict (p : phase) (job : string) : option phase :=
  match p with Working (Some job') => if bool_decide (job = job') then Some (Working None) else None | _ => None end.

Definition after_event (p : phase) (e : ClientEvent) : option phase :=
  match e with
  | NewJob _ | DifficultyChanged _ | VersionMaskSet _ => if listening p then Some p else None
  | VersionRollingConfigured _ => match p with Configuring => Some Configured | _ => None end
  | Subscribed _ _ => match p with Subscribing => Some SubscribedTo | _ => None end
  | ShareAccepted job _ | ShareRejected job _ => verdict p job
  | EDisconnected => match p with Authorizing | Working None => Some Closed | _ => None end
  | EError _ => None
  end.

Definition astep (v : view) (a : action) : option view :=
  match a with
  | Write (JsonRpcMessage.Request (Some id) method params) =>
      if negb (id =? next_request v) then None
      else p ← after_write (at_phase v) method params; Some (View p (wrap 64 (next_request v + 1)))
  | Write _ => None
  | Emitted e => p ← after_event (at_phase v) e; Some (View p (next_request v))
  end.

Fixpoint arun (v : view) (tr : list action) : option view :=
  match tr with [] => Some v | a :: tr => v ← astep v a; arun v tr end.

Lemma arun_app v tr tr' : arun v (tr ++ tr') = (v ← arun v tr; arun v tr').
Proof. revert v. induction tr as [|a tr IH]; intros v; simpl; [done|]. destruct (astep v a); simpl; [apply IH|done]. Qed.

Lemma arun_notices v l : listening (at_phase v) = true -> Forall notice l -> arun v (map Emitted l) = Some v.
Proof.
  intros Hp Hl. induction Hl as [|e l [_ He] _ IH]; [done|]. simpl. unfold astep.
  destruct e; try done; simpl; rewrite Hp; simpl; by destruct v.
Qed.

(** ** The refinement *)
Section Refinement.
Context `{HH : HexSpec} `{D : DebugValue}.
Abbreviation M := (Effects.M Client.t event action StratumError).

(** A client that has done [tr] is in phase [p]. *)
Definition follows (s : Client.t) (tr : list action) (p : phase) : Prop :=
  arun (View Connected 1) tr = Some (View p (next_id s)) /\ Forall event_ok (events tr).

Lemma follows_emit s tr p e p' :
  follows s tr p -> after_event p e = Some p' -> event_ok e -> follows s (tr ++ [Emitted e]) p'.
Proof.
  intros [Hr Ho] He Hok. split.
  - rewrite arun_app, Hr. simpl. by rewrite He.
  - rewrite events_app. apply Forall_app. by repeat constructor.
Qed.

Lemma follows_listened s tr p s' tr' :
  follows s tr p -> listening p = true -> listened s tr s' tr' -> follows s' tr' p.
Proof.
  intros [Hr Ho] Hp [(_ & _ & Hn & _) (l & -> & Hl)]. split.
  - rewrite arun_app, Hr. simpl. rewrite Hn. by apply arun_notices.
  - rewrite events_app. apply Forall_app. split; [done|].
    replace (events (map Emitted l)) with l by (unfold events; clear; induction l; simpl; [done|by f_equal]).
    eapply Forall_impl; [exact Hl|]. by intros e [He _].
Qed.

Lemma follows_noticed s tr p s' tr' :
  follows s tr p -> listening p = true -> noticed s tr s' tr' -> follows s' tr' p.
Proof. intros Hf Hp (Hs & l & -> & Hl & _). eapply follows_listened; [done|done|]. split; [done|by exists l]. Qed.

Lemma follows_state s tr p s' : follows s tr p -> next_id s' = next_id s -> follows s' tr p.
Proof. intros [Hr Ho] Hn. split; [by rewrite Hn|done]. Qed.

(** A request moves on to the phase its method leads to, whatever its outcome. *)
Lemma wp_request method params p p' s u tr :
  follows s tr p -> after_write p method params = Some p' -> listening p' = true ->
  wp (send_request method params) s u tr (fun r s' u' tr' => follows s' tr' p' /\
    match r with Ret m => answered (next_id s) u' m | _ => True end).
Proof.
  intros [Hr Ho] Hw Hp. eapply wp_mono; [apply wp_send_request|].
  intros r s' u' tr' [Hl Ha]. split; [|by destruct r].
  eapply follows_listened; [|exact Hp|exact Hl]. split.
  - rewrite arun_app, Hr. simpl. by rewrite Z.eqb_refl, Hw.
  - rewrite events_app. apply Forall_app. by split.
Qed.

Lemma wp_configure s u tr :
  follows s tr Connected ->
  wp configure_version_rolling s u tr (fun r s' _ tr' => follows s' tr' Configuring /\
    match r with Ret (Some m) => uint 32 m | _ => True end).
Proof.
  intros Hf. unfold configure_version_rolling. apply wp_bind, wp_attempt.
  eapply wp_mono; [by eapply wp_request|]. intros r s1 u1 tr1 [Hf1 _].
  destruct r as [m|e| |]; simpl; [|destruct e; first [by apply wp_raise|by apply wp_ret]|done|done].
  destruct m as [| rid [result|] [err|]]; try (by apply wp_ret).
  apply wp_ok_or_raise; [done|]. intros obj _. destruct (default _ _); simpl; [|by apply wp_ret].
  apply wp_ok_or_raise; [done|]. intros text _. apply wp_ok_or_raise; [done|]. intros mask Hm.
  apply wp_ret. split; [done|]. by eapply u32_from_hex_range.
Qed.

Lemma wp_subscribe mask s u tr :
  follows s tr Configured ->
  wp (subscribe mask) s u tr (fun r s' _ tr' => follows s' tr' Subscribing /\
    (r = Ret tt -> is_Some (state s'))).
Proof.
  intros Hf. unfold subscribe. apply wp_bind, wp_get. simpl. apply wp_bind.
  eapply wp_mono; [by eapply wp_request|]. intros r s1 u1 tr1 [Hf1 _].
  destruct r as [m|e| |]; simpl; try done.
  destruct m as [| rid [result|] [err|]]; try (by apply wp_raise).
  apply wp_ok_or_raise; [done|]. intros arr _. destruct (length arr <? 3)%nat; [by apply wp_raise|].
  apply wp_ok_or_raise; [done|]. intros e1 _. apply wp_ok_or_raise; [done|]. intros size _.
  apply wp_bind, wp_get. simpl. apply wp_put. split; [|by eexists]. by eapply follows_state.
Qed.

(** Authorisation succeeds only on a [true] that answers this very request. *)
Definition granted (id : Z) (u : list event) : Prop :=
  exists before, u = before ++ [Message (JsonRpcMessage.Response id (Some (JBool true)) None)].

Lemma wp_authorize s u tr :
  follows s tr SubscribedTo ->
  wp authorize s u tr (fun r s' u' tr' => follows s' tr' Authorizing /\ (r = Ret tt -> granted (next_id s) u')).
Proof.
  intros Hf. unfold authorize. apply wp_bind, wp_get. simpl. apply wp_bind.
  eapply wp_mono; [by eapply wp_request|]. intros r s1 u1 tr1 [Hf1 Ha].
  destruct r as [m|e| |]; simpl; try done.
  destruct Ha as (before & r & err & -> & ->).
  destruct r as [result|], err as [err|]; try (by apply wp_raise).
  destruct result as [|[]| | | |]; simpl; try (by apply wp_raise). apply wp_ret.
  split; [done|]. intros _. by exists before.
Qed.

Definition workable (p : phase) : Prop := p = Authorizing \/ p = Working None.
Lemma workable_work p method params : workable p -> after_write p method params = work method params.
Proof. by intros [-> | ->]. Qed.
Lemma workable_listening p : workable p -> listening p = true.
Proof. by intros [-> | ->]. Qed.

Lemma wp_suggest d p s u tr :
  follows s tr p -> workable p ->
  wp (suggest_difficulty d) s u tr (fun r s' _ tr' => follows s' tr' (Working None) /\
    forall e, r <> Raise e).
Proof.
  intros Hf Hp. unfold suggest_difficulty. apply wp_bind, wp_attempt.
  eapply wp_mono; [eapply wp_request; [exact Hf|by rewrite workable_work|done]|].
  intros r s1 u1 tr1 [Hf1 _]. destruct r; simpl; try (by split); by apply wp_ret.
Qed.

(** A share: its verdict is told as the last thing, or the submission fails. *)
Lemma wp_submit params p s u tr :
  follows s tr p -> workable p ->
  wp (submit params) s u tr (fun r s' _ tr' =>
    match r with
    | Ret _ => follows s' tr' (Working None)
    | _ => follows s' tr' (Working (Some (SubmitParams.job_id params)))
    end).
Proof.
  intros Hf Hp. unfold submit. apply wp_bind.
  eapply wp_mono; [eapply wp_request with (p' := Working (Some (SubmitParams.job_id params))); [exact Hf| |done]|].
  { rewrite workable_work by done. unfold work, SubmitParams.to_stratum_json. by destruct (SubmitParams.version_bits params). }
  intros r s1 u1 tr1 [Hf1 _]. destruct r as [m|e| |]; simpl; try done.
  assert (Hv : forall e, verdict (Working (Some (SubmitParams.job_id params))) (SubmitParams.job_id params) = Some (Working None) ->
    after_event (Working (Some (SubmitParams.job_id params))) e = Some (Working None) -> event_ok e ->
    forall b : bool, wp (emit e ;! ret b) s1 u1 tr1 (fun r s' _ tr' =>
      match r with
      | Ret _ => follows s' tr' (Working None)
      | _ => follows s' tr' (Working (Some (SubmitParams.job_id params)))
      end)).
  { intros e _ He Hok b. apply wp_bind, wp_emit; simpl; try done. apply wp_ret. by eapply follows_emit. }
  assert (Hd : verdict (Working (Some (SubmitParams.job_id params))) (SubmitParams.job_id params) = Some (Working None))
    by (simpl; by rewrite bool_decide_eq_true_2).
  destruct m as [| rid [result|] [err|]]; try (by apply wp_raise); try (by apply Hv).
  destruct (default false (as_bool result)); by apply Hv.
Qed.

(** Before any work the phase tells how many requests were made. *)
Definition early (p : phase) : bool := match p with Working _ | Closed => false | _ => true end.
Definition requests_at (p : phase) (n : Z) : Prop :=
  match p with
  | Connected => n = 1
  | Configuring | Configured => n = 2
  | Subscribing | SubscribedTo => n = 3
  | Authorizing => n = 4
  | _ => True
  end.
Definition is_work (a : action) : Prop :=
  match a with Write (JsonRpcMessage.Request _ method params) => is_Some (work method params) | _ => False end.

Lemma work_not_early method params p : work method params = Some p -> early p = false.
Proof.
  unfold work. repeat case_bool_decide; [by intros [= <-]| |done].
  destruct (submitted_job params); simpl; [by intros [= <-]|done].
Qed.

Lemma astep_early v a v' :
  requests_at (at_phase v) (next_request v) -> astep v a = Some v' ->
  requests_at (at_phase v') (next_request v') /\
  (early (at_phase v') = true -> early (at_phase v) = true /\ ~ is_work a).
Proof.
  intros Hn. destruct v as [p n]. unfold astep.
  destruct a as [[[id|] method params|id r err]|e]; simpl in *; try done.
  - destruct (Z.eqb_spec id n); simpl; [|done].
    destruct (after_write p method params) as [p'|] eqn:Hw; simpl; [|done]. intros [= <-]. simpl.
    assert (Hcase : early p' = false \/ (early p = true /\ work method params = None /\ requests_at p' (wrap 64 (n + 1)))).
    { unfold after_write in Hw.
      destruct p as [| | | | | |[]|]; try done; try (left; by eapply work_not_early);
        right; case_bool_decide as Hm; try done; injection Hw as <-; simpl in Hn; rewrite Hm, Hn; by repeat split. }
    destruct Hcase as [He|(He & Hnone & Hr)].
    + split; [by destruct p'|congruence].
    + split; [done|]. intros _. rewrite Hnone. split; [done|]. by intros [].
  - destruct (after_event p e) as [p'|] eqn:He; simpl; [|done]. intros [= <-]. simpl.
    destruct e, p as [| | | | | |[]|]; simpl in He; try done;
      try (injection He as <-; simpl; split; [done|]; intros; split; [done|]; by intros []);
      case_bool_decide; try done; by injection He as <-.
Qed.

Lemma arun_early tr : forall v v',
  requests_at (at_phase v) (next_request v) -> arun v tr = Some v' ->
  requests_at (at_phase v') (next_request v') /\
  (early (at_phase v') = true -> early (at_phase v) = true /\ Forall (fun a => ~ is_work a) tr).
Proof.
  induction tr as [|a tr IH]; intros v v' Hn; simpl; [by intros [= <-]|].
  destruct (astep v a) as [v1|] eqn:Ha; simpl; [|done]. intros Hr.
  destruct (astep_early _ _ _ Hn Ha) as [Hn1 He1]. destruct (IH _ _ Hn1 Hr) as [Hn2 He2].
  split; [done|]. intros He. destruct (He2 He) as [He3 HF]. destruct (He1 He3). by split; [|constructor].
Qed.

(** Some outcome granted the authorisation. *)
Definition has_grant (u : list event) : Prop := Message (JsonRpcMessage.Response 3 (Some (JBool true)) None) ∈ u.

(** What holds all along: the protocol is followed, and work needs a grant. *)
Definition conforms (s : Client.t) (u : list event) (tr : list action) (p : phase) : Prop :=
  follows s tr p /\ (early p = true \/ has_grant u).

Lemma conforms_early s u tr p : follows s tr p -> early p = true -> conforms s u tr p.
Proof. intros Hf He. split; [done|by left]. Qed.

Lemma wp_handshake s u tr :
  follows s tr Connected ->
  wp handshake s u tr (fun r s' u' tr' => exists p, conforms s' u' tr' p /\ (r = Ret tt -> workable p /\ has_grant u')).
Proof.
  intros Hf.
  assert (Hstop : forall (r : res StratumError unit) s u tr p, follows s tr p -> early p = true -> r <> Ret tt ->
    exists p, conforms s u tr p /\ (r = Ret tt -> workable p /\ has_grant u))
    by (intros r0 s0 u0 tr0 p Hf0 He Hr; exists p; split; [by apply conforms_early|done]).
  unfold handshake. apply wp_bind. eapply wp_mono; [by apply wp_configure|].
  intros r s1 u1 tr1 [Hf1 Hm]. destruct r as [mask|e| |]; simpl; try (by eapply Hstop).
  apply wp_bind, wp_emit; simpl; try (by eapply Hstop).
  pose proof (follows_emit _ _ _ (VersionRollingConfigured mask) _ Hf1 eq_refl ltac:(by destruct mask)) as Hf2.
  apply wp_bind. eapply wp_mono; [by eapply wp_subscribe|].
  intros r s2 u2 tr2 [Hf3 Hs]. destruct r as [[]|e| |]; simpl; try (by eapply Hstop).
  apply wp_bind, wp_get. simpl. apply wp_ok_or_raise; [intros; by eapply Hstop|]. intros st _.
  apply wp_ok_or_raise; [intros; by eapply Hstop|]. intros b Hb.
  apply wp_bind, wp_emit; simpl; try (by eapply Hstop).
  pose proof (follows_emit _ _ _ (Subscribed b (extranonce2_size st)) _ Hf3 eq_refl (hex_decode_bytes _ _ Hb)) as Hf4.
  apply wp_bind. eapply wp_mono; [by eapply wp_authorize|].
  intros r s3 u3 tr3 [Hf5 Hg]. destruct r as [[]|e| |]; simpl; try (by eapply Hstop).
  assert (Hgrant : has_grant u3).
  { destruct (arun_early _ (View Connected 1) _ eq_refl (proj1 Hf4)) as [Hn _]. simpl in Hn.
    destruct (Hg eq_refl) as [before ->]. rewrite Hn. unfold has_grant. set_solver. }
  apply wp_bind, wp_get. simpl. destruct (initial_suggest_difficulty s3) as [d|].
  - eapply wp_mono; [eapply wp_extends, wp_suggest; [exact Hf5|by left]|].
    intros r s4 u4 tr4 [[Hf6 _] [w ->]]. assert (has_grant (u3 ++ w)) by (unfold has_grant in *; set_solver).
    exists (Working None). split; [split; [done|by right]|]. intros _. split; [by right|done].
  - apply wp_ret. exists Authorizing. split; [split; [done|by right]|]. intros _. split; [by left|done].
Qed.

Lemma wp_serve p s u tr :
  follows s tr p -> workable p ->
  wp serve s u tr (fun r s' u' tr' => (exists p, follows s' tr' p /\ (r = Ret None -> workable p))).
Proof.
  intros Hf Hp.
  assert (Hclose : forall k : M (option unit), (forall s u tr p, follows s tr p -> wp k s u tr (fun r s' u' tr' => exists p, follows s' tr' p /\ (r = Ret None -> workable p))) ->
    forall u, wp (emit_ok EDisconnected ;! k) s u tr (fun r s' u' tr' => exists p, follows s' tr' p /\ (r = Ret None -> workable p))).
  { intros k Hk u0. apply wp_bind, wp_emit_ok; simpl; [by exists p| |by eapply Hk].
    eapply Hk. eapply follows_emit; [done| |done]. by destruct Hp as [-> | ->]. }
  unfold serve. wp_await_cases.
  - by exists p.
  - destruct m0 as [[rid|] method params|rid r err]; injection H0 as <-.
    + apply wp_ret. by exists p.
    + apply wp_bind, wp_attempt. eapply wp_mono; [apply wp_notification|].
      intros r s1 u1 tr1 Hn. assert (Hf1 : follows s1 tr1 p) by (eapply follows_noticed; eauto using workable_listening).
      destruct r as [[]|e| |]; simpl; try (by exists p); [apply wp_ret; by exists p|].
      destruct e; first [apply wp_ret; by exists p|apply wp_raise; by exists p].
    + apply wp_ret. by exists p.
  - apply Hclose. intros. apply wp_raise. by eexists.
  - destruct e; injection H0 as <-; first [apply wp_ret; by exists p|apply wp_raise; by exists p].
  - apply Hclose. intros. apply wp_ret. by eexists.
  - destruct c as [params|d]; injection H0 as <-; apply wp_bind, wp_get; simpl;
      (destruct (has_commands s); [|apply wp_wait; by exists p]); apply wp_bind.
    + eapply wp_mono; [by eapply wp_submit|]. intros r s1 u1 tr1 Hf1.
      destruct r; simpl; try (by eexists). apply wp_ret. exists (Working None). split; [done|by right].
    + eapply wp_mono; [by eapply wp_suggest|]. intros r s1 u1 tr1 [Hf1 _].
      destruct r; simpl; try (by eexists). apply wp_ret. exists (Working None). split; [done|by right].
Qed.

Lemma wp_run config initial :
  wp run_with_transport (Client.with_commands config initial) [] [] (fun _ s u tr => exists p, conforms s u tr p).
Proof.
  unfold run_with_transport. apply wp_bind. eapply wp_mono; [apply wp_handshake; by split; [|constructor]|].
  intros r1 s1 u1 tr1 (p & Hc & Hr). destruct r1 as [[]|e| |]; simpl; try (by exists p).
  destruct (Hr eq_refl) as [Hp Hg]. destruct Hc as [Hf _].
  apply wp_loop with (Inv := fun s u tr => exists p, follows s tr p /\ workable p /\ has_grant u).
  - by exists p.
  - intros ? ? ? (p' & Hf' & _ & Hg'). exists p'. split; [done|by right].
  - intros s2 u2 tr2 (p2 & Hf2 & Hp2 & Hg2). eapply wp_mono; [eapply wp_extends, wp_serve; eauto|].
    intros r2 s3 u3 tr3 [(p3 & Hf3 & Hw) [w ->]].
    assert (has_grant (u2 ++ w)) by (unfold has_grant in *; set_solver).
    assert (conforms s3 (u2 ++ w) tr3 p3) by (split; [done|by right]).
    destruct r2 as [[[]|]|e| |]; try (by exists p3). exists p3. auto.
Qed.

(** C2 A client follows the protocol.  Whatever the pool sends and whatever fails, what
    a client writes and tells is a path of the machine: configure, subscribe and
    authorize in this order, each told of before the next is sent; then only
    suggestions and shares, one request at a time, with ids that count up from 1;
    each share is followed by one verdict, about its own job, before anything else
    is sent; jobs, difficulties and masks are told only while the client listens, and
    are well-formed.  And no share or suggestion is sent unless the pool has answered
    the authorisation with true. *)
Theorem client_follows_protocol config initial es :
  let '(_, s, es', tr) := run_with_transport (Client.with_commands config initial) es in
  (exists p, arun (View Connected 1) tr = Some (View p (next_id s))) /\
  Forall event_ok (events tr) /\
  (forall a, a ∈ tr -> is_work a -> Message (JsonRpcMessage.Response 3 (Some (JBool true)) None) ∈ es).
Proof.
  destruct (run_with_transport _ es) as [[[r s] es'] tr] eqn:Hrun.
  destruct (wp_run _ _ _ _ _ _ _ Hrun) as (u' & -> & p & [Hf Hok] & He). simpl in *.
  split_and!; [by exists p|done|]. intros a Ha Hw. destruct He as [He|Hg]; [|unfold has_grant in Hg; set_solver].
  destruct (arun_early _ (View Connected 1) _ eq_refl Hf) as [_ Hno]. destruct (Hno He) as [_ HF].
  rewrite Forall_forall in HF. by destruct (HF a Ha).
Qed.

(** ** The loop *)
Lemma plain_notification method params : Plain (handle_notification method params).
Proof. intros s u tr. eapply wp_mono; [apply wp_notification|done]. Qed.
Lemma plain_request method params : Plain (send_request method params).
Proof. intros s u tr. eapply wp_mono; [apply wp_send_request|done]. Qed.
Lemma plain_emit e : Plain (emit e).
Proof. intros s u tr. by apply wp_emit. Qed.
Lemma plain_emit_ok e : Plain (emit_ok e).
Proof. intros s u tr. by apply wp_emit_ok. Qed.

Ltac plain := repeat first
  [ apply plain_notification | apply plain_request | apply plain_emit | apply plain_emit_ok
  | apply plain_attempt | apply plain_bind; [|intros ?] | solve [intros ? ? ?; by repeat wp_step]
  | match goal with |- Plain (match ?x with _ => _ end) => destruct x end
  | match goal with |- Plain (let _ := _ in _) => cbv zeta end ].

Lemma serve_progress : Progress serve.
Proof.
  apply progress_await. intros e m s u tr He. revert s u tr. fold (Plain m).
  destruct e as [| |[[]| ]| |[]| | |[]]; try discriminate He; injection He as <-; unfold submit, suggest_difficulty; plain.
Qed.

Definition reconnect (params : value) : event := Message (JsonRpcMessage.notification "client.reconnect" params).

(** One round of a loop that goes on, or ends. *)
Lemma loop_again {A} (body : M (option A)) s e es s' :
  Progress body -> body s (e :: es) = (Ret None, s', es, []) -> loop body s (e :: es) = loop body s' es.
Proof.
  intros Hp Hb. rewrite (loop_unfold _ Hp). unfold bind. rewrite Hb. by destruct (loop body s' es) as [[[r s1] es1] tr].
Qed.

Lemma loop_raise {A} (body : M (option A)) s es e s' es' tr :
  Progress body -> body s es = (Raise e, s', es', tr) -> loop body s es = (Raise e, s', es', tr).
Proof. intros Hp Hb. rewrite (loop_unfold _ Hp). unfold bind. by rewrite Hb. Qed.

Lemma loop_return {A} (body : M (option A)) s es a s' es' tr :
  Progress body -> body s es = (Ret (Some a), s', es', tr) -> loop body s es = (Ret a, s', es', tr).
Proof. intros Hp Hb. rewrite (loop_unfold _ Hp). unfold bind. rewrite Hb. simpl. by rewrite app_nil_r. Qed.

Definition submission_request (s : Client.t) (p : SubmitParams.t) : action :=
  Write (JsonRpcMessage.request (next_id s) "mining.submit" (JArray (SubmitParams.to_stratum_json p))).
Definition after_request (s : Client.t) : Client.t := with_next_id s (wrap 64 (next_id s + 1)).

(** Submitting a share, the client takes any failure of a read for the end of the connection. *)
Lemma submission_read_error s es p e :
  has_commands s = true ->
  loop serve s (Command (SubmitShare p) :: Sent :: ReadFailed e :: es) =
    (Raise e, after_request s, es, [submission_request s p]).
Proof.
  intros Hc. set (id := next_id s).
  assert (Hbad : loop (receive id) (after_request s) (ReadFailed e :: es) =
    (Raise e, after_request s, es, [])) by (apply loop_raise; [apply receive_progress|done]).
  rewrite (loop_unfold _ serve_progress).
  unfold serve at 1, await, bind, get, submit, send_request, take_id, write_message, timeout. cbn -[loop wrap with_next_id]. rewrite Hc.
  unfold await, bind, get, put, act, timeout. cbn -[loop wrap with_next_id]. fold (after_request s). fold id. by rewrite Hbad.
Qed.

(** A pool is heard differently while a share is being submitted.  In the main loop a
    request to reconnect ends the connection and a malformed message is ignored.  While
    the client waits for the answer to a submission it is the other way round: the
    request to reconnect is dropped - the answer is awaited, reported, and the main
    loop goes on - and the malformed message ends the connection. *)
Theorem waiting_differs_from_serving s es p params :
  has_commands s = true ->
  let answer := Message (JsonRpcMessage.Response (next_id s) (Some (JBool true)) None) in
  loop serve s (reconnect params :: es) = (Raise Disconnected, s, es, []) /\
  loop serve s (ReadFailed InvalidMessage :: es) = loop serve s es /\
  loop serve s (Command (SubmitShare p) :: Sent :: reconnect params :: answer :: Sent :: es) =
    (act (submission_request s p) ;! act (Emitted (ShareAccepted (SubmitParams.job_id p) (SubmitParams.nonce p))) ;!
     loop serve) (after_request s) es /\
  loop serve s (Command (SubmitShare p) :: Sent :: ReadFailed InvalidMessage :: es) =
    (Raise InvalidMessage, after_request s, es, [submission_request s p]).
Proof.
  intros Hc answer. set (id := next_id s) in *.
  assert (Hwait : forall es, loop (receive id) (after_request s) (reconnect params :: answer :: es) =
    (Ret (JsonRpcMessage.Response id (Some (JBool true)) None), after_request s, es, [])).
  { intros es'. rewrite (loop_again (receive id) (after_request s) (reconnect params) (answer :: es') (after_request s) (receive_progress id) eq_refl).
    apply loop_return; [apply receive_progress|]. unfold receive, await, answer. by rewrite Z.eqb_refl. }
  refine (conj _ (conj _ (conj _ _))).
  - apply loop_raise; [apply serve_progress|done].
  - exact (loop_again serve s (ReadFailed InvalidMessage) es s serve_progress eq_refl).
  - rewrite (loop_unfold _ serve_progress).
    unfold serve at 1, await, bind, get, submit, send_request, take_id, write_message, timeout. simpl. rewrite Hc.
    unfold await, bind, get, put, act, timeout. simpl. fold id. fold (after_request s). rewrite Hwait. simpl.
    by destruct (loop serve (after_request s) es) as [[[r s1] es1] tr].
  - by apply submission_read_error.
Qed.
End Refinement.

(** ** A session *)
#[local] Existing Instance hex_ref.
#[local] Instance debug_ref : DebugValue := {| debug_value := fun _ => "?"%string |}.

Definition session_outcomes : list event :=
  let answer id v := Message (JsonRpcMessage.Response id (Some v) None) in
  [Sent; answer 1 (JObject [("version-rolling"%string, JBool true); ("version-rolling.mask"%string, JString "1fffe000")]); Sent;
   Sent; answer 2 (JArray [JArray []; JString "08000002"; JNumber (PosInt 4)]); Sent;
   Sent; answer 3 (JBool true);
   Message (JsonRpcMessage.notification "mining.notify" (JArray (notify_params announced_ref))); Sent;
   Command (SubmitShare (SubmitParams.Mk "u" "b1" [0; 0; 0; 1] 1700000000 42 (Some 0x2000)));
   Sent; answer 4 (JBool true); Sent; Eof; Sent].

Example session_runs :
  let '(r, s, es, tr) := run_with_transport (Client.with_commands (MkConfig "p" "u" "x" "a") None) session_outcomes in
  r = Raise Disconnected /\ es = [] /\ next_id s = 5 /\
  events tr = [VersionRollingConfigured (Some 0x1fffe000); Subscribed [8; 0; 0; 2] 4; NewJob announced_ref;
               ShareAccepted "b1" 42; EDisconnected].
Proof. vm_compute. by repeat split. Qed.

Lemma waiting_differs_from_serving_witness :
  let s := Client.with_commands (MkConfig "p" "u" "x" "a") None in
  let p := SubmitParams.Mk "u" "b1" [0; 0; 0; 1] 1700000000 42 None in
  loop serve s [reconnect JNull; Sent] = (Raise Disconnected, s, [Sent], []) /\
  loop serve s [Command (SubmitShare p); Sent; ReadFailed InvalidMessage; Sent] =
    (Raise InvalidMessage, after_request s, [Sent], [submission_request s p]).
Proof.
  intros s p. destruct (waiting_differs_from_serving s [Sent] p JNull eq_refl) as (H1 & _ & _ & H2).
  split; [exact H1|exact H2].
Defined.

Definition session_trace : list action :=
  (run_with_transport (Client.with_commands (MkConfig "p" "u" "x" "a") None) session_outcomes).2.

Lemma client_follows_protocol_witness :
  (exists v, arun (View Connected 1) session_trace = Some v) /\
  Message (JsonRpcMessage.Response 3 (Some (JBool true)) None) ∈ session_outcomes.
Proof.
  pose proof (client_follows_protocol (MkConfig "p" "u" "x" "a") None session_outcomes) as H.
  assert (Ha : exists a, session_trace !! 6%nat = Some a /\ is_work a)
    by (eexists; split; [vm_compute; reflexivity|eexists; reflexivity]).
  unfold session_trace in *. destruct (run_with_transport _ _) as [[[r s] es] tr].
  destruct H as ([p H1] & _ & H2). destruct Ha as (a & Ha & Hw). split; [exists (View p (next_id s)); exact H1|].
  refine (H2 a _ Hw). exact (list_elem_of_lookup_2 _ _ _ Ha).
Defined.
