(* ===== verification/StratumSource.v ===== *)
(** * The Stratum v1 job source (job_source/stratum_v1.rs)

    The bridge between the client and the scheduler.  Instants are nanoseconds; a
    handler reads the clock once, at the instant its input is taken.  A panic is
    [None].  The hash that jitters reconnection delays is the standard library's
    [RandomState], an argument.  Sends to the scheduler and to the client are
    outputs, whether or not the receiver still lives (the source only logs that). *)
From stdpp Require Import base numbers list strings.
From Stdlib Require Import ZArith Lia SpecFloat.
From S2P Require Import Prelude Float U256 Version Extranonce Job Estimator ShareRate Effects Stratum StratumClient.

Definition SUGGESTED_SHARE_RATE : Z := 3 * NANOS.
Definition DOWN_FACTOR : float := f_lit f64 5 4.
Definition UP_FACTOR : float := f_lit f64 3 2.
Definition SUGGEST_MIN_INTERVAL : Z := 5 * NANOS.
Definition STABLE_CONNECTION_THRESHOLD : Z := 60 * NANOS.
Definition INITIAL_RECONNECT_DELAY : Z := 1 * NANOS.
Definition MAX_RECONNECT_DELAY : Z := 60 * NANOS.
Definition MAX_JOB_GAP : Z := 2 * 60 * NANOS.

(** ** Backoff *)
Module Backoff.
Record t := Mk { current : Z; initial : Z; max : Z; jitter_step : Z }.
Definition new (initial max : Z) : t := Mk initial initial max 0.

Section Jitter.
Context (jitter_hash : Z -> Z).

Definition jitter (step : Z) : float :=
  let half := f_lit f64 1 2 in
  f_add f64 half (f_mul f64 (f_div f64 (f_of_Z f64 (jitter_hash step)) (f_of_Z f64 (2 ^ 64 - 1))) half).

(** [nominal.mul_f64(jitter)]. *)
Definition next_delay (b : t) : option Z * t :=
  let nominal := current b in
  (duration_from_secs_f64 (f_mul f64 (jitter (jitter_step b)) (HashRate.as_secs_f64 nominal)),
   Mk (Z.min (current b * 2) (max b)) (initial b) (max b) (wrap 64 (jitter_step b + 1))).
End Jitter.

Definition reset (b : t) : t := Mk (initial b) (initial b) (max b) (jitter_step b).
End Backoff.

(** ** The source *)
Record SourceState := MkSource {
  src_extranonce1 : list Z; src_extranonce2_size : Z; share_difficulty : option Difficulty.t;
  src_version_mask : option Z }.

Module Source.
Record t := Mk {
  config : PoolConfig; state : option SourceState; first_share_logged : bool;
  expected_hashrate : HashRate.t; last_suggested_difficulty : option float; cooldown_until : option Z }.

Definition new (config : PoolConfig) : t := Mk config None false 0 None None.

Definition with_state (s : t) x := Mk (config s) x (first_share_logged s) (expected_hashrate s) (last_suggested_difficulty s) (cooldown_until s).
Definition with_logged (s : t) x := Mk (config s) (state s) x (expected_hashrate s) (last_suggested_difficulty s) (cooldown_until s).
Definition with_hashrate (s : t) x := Mk (config s) (state s) (first_share_logged s) x (last_suggested_difficulty s) (cooldown_until s).
Definition with_suggested (s : t) x c := Mk (config s) (state s) (first_share_logged s) (expected_hashrate s) x c.

(** [name]: the first prefix that matches is stripped. *)
Definition strip_prefix (p s : string) : option string :=
  if String.prefix p s then Some (String.substring (String.length p) (String.length s - String.length p) s) else None.
Definition name (s : t) : string :=
  let u := url (config s) in
  match strip_prefix "stratum+tcp://" u with
  | Some r => r
  | None => match strip_prefix "stratum://" u with
            | Some r => r
            | None => default u (strip_prefix "tcp://" u)
            end
  end.

Section Source.
Context `{R : Ruint} `{P : BitcoinPow} `{L : FloatLib} (integer_decode : float -> Z * Z).

(** ** Jobs and shares *)
Definition job_to_template (s : t) (job : JobNotification.t) : option JobTemplate :=
  st ← state s;
  match ExtranonceRange.full (Z.to_nat (src_extranonce2_size st)) with
  | Err _ => None
  | Ok extranonce_range =>
      let gp_bits_mask :=
        match src_version_mask st with
        | Some mask => GpBits.from_mask (be_bytes 4 mask)
        | None => GpBits.none
        end in
      match VersionTemplate.new (JobNotification.version job) gp_bits_mask with
      | Err _ => None
      | Ok version_template =>
          let share_target :=
            match share_difficulty st with
            | Some d => Difficulty.to_target d
            | None => default target_max (option_map Difficulty.to_target (Difficulty.from_u64 1))
            end in
          Some (MkJob (JobNotification.job_id job) (JobNotification.prev_hash job) version_template
            (JobNotification.nbits job) share_target (JobNotification.ntime job)
            (Computed (MerkleRootTemplate.Mk (JobNotification.coinbase1 job) (src_extranonce1 st) extranonce_range
               (JobNotification.coinbase2 job) (JobNotification.merkle_branches job))))
      end
  end.

Definition share_to_submit_params (s : t) (share : SourceShare) : option SubmitParams.t :=
  st ← state s;
  let extranonce2 :=
    match sh_extranonce share with
    | Some e => Extranonce.into_vec e
    | None => repeat 0 (Z.to_nat (src_extranonce2_size st))
    end in
  let version_bits := option_map (fun mask => Z.land (wrap 32 (sh_version share)) mask) (src_version_mask st) in
  Some (SubmitParams.Mk (username (config s)) (sh_job_id share) extranonce2 (sh_time share) (sh_nonce share) version_bits).

(** ** Events of the client *)
Definition update (s : t) (f : SourceState -> SourceState) : t := with_state s (option_map f (state s)).

Definition handle_client_event (s : t) (e : ClientEvent) : option (t * list SourceEvent) :=
  match e with
  | VersionRollingConfigured mask =>
      Some (with_state s (Some
        match state s with
        | Some st => MkSource (src_extranonce1 st) (src_extranonce2_size st) (share_difficulty st) mask
        | None => MkSource [] 0 None mask
        end), [])
  | Subscribed e1 size =>
      Some (with_state s (Some
        match state s with
        | Some st => MkSource e1 size (share_difficulty st) (src_version_mask st)
        | None => MkSource e1 size None None
        end), [])
  | NewJob job =>
      Some (s, match job_to_template s job with
               | None => []
               | Some template => [if JobNotification.clean_jobs job then ReplaceJob template else UpdateJob template]
               end)
  | DifficultyChanged diff =>
      difficulty ← Difficulty.from_f64 integer_decode diff;
      Some (update s (fun st => MkSource (src_extranonce1 st) (src_extranonce2_size st) (Some difficulty) (src_version_mask st)), [])
  | VersionMaskSet mask =>
      Some (update s (fun st => MkSource (src_extranonce1 st) (src_extranonce2_size st) (share_difficulty st) (Some mask)), [])
  | ShareAccepted _ _ => Some (if first_share_logged s then s else with_logged s true, [])
  | ShareRejected _ _ | EDisconnected | EError _ => Some (s, [])
  end.

(** ** Suggestions of a difficulty *)
Definition compute_suggested_difficulty (hashrate : HashRate.t) : option (option float) :=
  if HashRate.is_zero hashrate then Some None
  else
    target ← ShareRate.to_target integer_decode SUGGESTED_SHARE_RATE hashrate;
    Some (Some (Difficulty.as_f64 (Difficulty.from_target target))).

Definition is_material_change (new_diff : float) (last_suggested : option float) : bool :=
  match last_suggested with
  | None => true
  | Some floor => f_le new_diff (f_div f64 floor DOWN_FACTOR) || f_le (f_mul f64 floor UP_FACTOR) new_diff
  end.

Definition in_cooldown (s : t) (now : Z) : bool :=
  match cooldown_until s with Some until => now <? until | None => false end.

Definition send_suggest (s : t) (now : Z) (new_diff : float) : t * list ClientCommand :=
  (with_suggested s (Some new_diff) (Some (now + SUGGEST_MIN_INTERVAL)), [SuggestDifficulty new_diff]).

Definition maybe_suggest_difficulty (s : t) (now : Z) : option (t * list ClientCommand) :=
  new_diff ← compute_suggested_difficulty (expected_hashrate s);
  Some match new_diff with
  | None => (s, [])
  | Some new_diff =>
      if negb (is_material_change new_diff (last_suggested_difficulty s)) then (s, [])
      else if in_cooldown s now then (s, [])
      else send_suggest s now new_diff
  end.

Definition flush_suggest (s : t) (now : Z) : option (t * list ClientCommand) :=
  new_diff ← compute_suggested_difficulty (expected_hashrate s);
  let pending :=
    d ← new_diff; if is_material_change d (last_suggested_difficulty s) then Some d else None in
  Some match pending with
  | Some diff => send_suggest s now diff
  | None => (with_suggested s (last_suggested_difficulty s) None, [])
  end.

(** ** The run of the source *)

(** What the source gives to others. *)
Inductive output :=
| ToScheduler (e : SourceEvent)
| ToClient (c : ClientCommand)
| StartClient (initial : option float)
| AbortClient.

Inductive ConnectOutcome := CShutdown | CDisconnected | CFatal.

(** Where the source is: before any hash rate; waiting for the connector, for a client
    to exit, or for the backoff; or ended, well or not. *)
Inductive mode :=
| WaitingForThreads
| Connecting (connected_at : Z)
| Running (connected_at gap_start : Z)
| Exiting (connected_at : Z)
| BackingOff (until : Z)
| Stopped (ok : bool).

Inductive input :=
| Connect (r : result StratumError unit)
| FromClient (e : ClientEvent)
| ClientChannelClosed
| ClientExited (r : result StratumError unit)
| ClientCancelled
| ClientPanicked
| FromScheduler (c : SourceCommand)
| CooldownExpired
| JobGapElapsed
| BackoffElapsed
| ShutdownRequested.

Context (jitter_hash : Z -> Z).

(** The source at its current place, with the backoff of the reconnection loop. *)
Record run_state := MkRun { source : t; at_mode : mode; backoff : Backoff.t }.

Definition start (config : PoolConfig) : run_state :=
  MkRun (new config) WaitingForThreads (Backoff.new INITIAL_RECONNECT_DELAY MAX_RECONNECT_DELAY).

(** The top of the reconnection loop and the start of [connect_and_run]. *)
Definition connect (s : t) (b : Backoff.t) (now : Z) : option (run_state * list output) :=
  let s := with_logged (with_state s None) false in
  initial_difficulty ← compute_suggested_difficulty (expected_hashrate s);
  let s := with_suggested s initial_difficulty None in
  Some (MkRun s (Connecting now) b, []).

(** The reconnection loop on an outcome of [connect_and_run]. *)
Definition finish (s : t) (b : Backoff.t) (connected_at now : Z) (o : ConnectOutcome) : option (run_state * list output) :=
  match o with
  | CShutdown => Some (MkRun s (Stopped true) b, [])
  | CFatal => Some (MkRun s (Stopped false) b, [])
  | CDisconnected =>
      let b := if STABLE_CONNECTION_THRESHOLD <=? now - connected_at then Backoff.reset b else b in
      let '(delay, b) := Backoff.next_delay jitter_hash b in
      delay ← delay;
      Some (MkRun s (BackingOff (now + delay)) b, [ToScheduler ClearJobs])
  end.

Definition outcome_of (r : result StratumError unit) : ConnectOutcome :=
  match r with
  | Ok _ => CShutdown
  | Err e => if is_fatal e then CFatal else CDisconnected
  end.

(** A command of the scheduler while connected. *)
Definition handle_command (s : t) (now : Z) (c : SourceCommand) : option (t * list ClientCommand) :=
  match c with
  | Job.SubmitShare share =>
      Some (s, match share_to_submit_params s share with Some p => [SubmitShare p] | None => [] end)
  | UpdateHashRate rate => maybe_suggest_difficulty (with_hashrate s rate) now
  end.

(** Whether an input can come: the timers fire from their deadline on. *)
Definition fits (r : run_state) (now : Z) (i : input) : bool :=
  match at_mode r, i with
  | (WaitingForThreads | Connecting _ | Running _ _ | BackingOff _), ShutdownRequested => true
  | (WaitingForThreads | Running _ _ | BackingOff _), FromScheduler _ => true
  | Connecting _, Connect _ => true
  | Running _ _, (FromClient _ | ClientChannelClosed) => true
  | Running _ _, CooldownExpired => match cooldown_until (source r) with Some until => until <=? now | None => false end
  | Running _ gap_start, JobGapElapsed => gap_start + MAX_JOB_GAP <=? now
  | Exiting _, (ClientExited _ | ClientCancelled | ClientPanicked) => true
  | BackingOff until, BackoffElapsed => until <=? now
  | _, _ => false
  end.

(** Phase one: draining commands until there is a hash rate. *)
Definition wait_for_threads (s : t) (b : Backoff.t) (now : Z) (i : input) : option (run_state * list output) :=
  match i with
  | FromScheduler (UpdateHashRate rate) =>
      let s := with_hashrate s rate in
      if negb (HashRate.is_zero rate) then connect s b now else Some (MkRun s WaitingForThreads b, [])
  | ShutdownRequested => Some (MkRun s (Stopped true) b, [])
  | _ => Some (MkRun s WaitingForThreads b, [])
  end.

(** Draining commands until the delay is over. *)
Definition backoff_wait (s : t) (b : Backoff.t) (until now : Z) (i : input) : option (run_state * list output) :=
  match i with
  | BackoffElapsed => connect s b now
  | FromScheduler (UpdateHashRate rate) => Some (MkRun (with_hashrate s rate) (BackingOff until) b, [])
  | ShutdownRequested => Some (MkRun s (Stopped true) b, [])
  | _ => Some (MkRun s (BackingOff until) b, [])
  end.

Definition step (r : run_state) (now : Z) (i : input) : option (run_state * list output) :=
  let '(MkRun s m b) := r in
  match m, i with
  | WaitingForThreads, i => wait_for_threads s b now i
  | Connecting at_, Connect (Ok _) => Some (MkRun s (Running at_ now) b, [StartClient (last_suggested_difficulty s)])
  | Connecting at_, Connect (Err e) => finish s b at_ now (outcome_of (Err e))
  | Connecting at_, ShutdownRequested => finish s b at_ now CShutdown
  | Running at_ gap, FromClient e =>
      let gap := match e with NewJob _ => now | _ => gap end in
      '(s, evs) ← handle_client_event s e;
      Some (MkRun s (Running at_ gap) b, map ToScheduler evs)
  | Running at_ gap, ClientChannelClosed => Some (MkRun s (Exiting at_) b, [])
  | Running at_ gap, FromScheduler c =>
      '(s, cmds) ← handle_command s now c;
      Some (MkRun s (Running at_ gap) b, map ToClient cmds)
  | Running at_ gap, CooldownExpired =>
      '(s, cmds) ← flush_suggest s now;
      Some (MkRun s (Running at_ gap) b, map ToClient cmds)
  | Running at_ gap, JobGapElapsed => Some (MkRun s (Exiting at_) b, [AbortClient])
  | Running at_ gap, ShutdownRequested => finish s b at_ now CShutdown
  | Exiting at_, ClientExited r => finish s b at_ now (outcome_of r)
  | Exiting at_, ClientCancelled => finish s b at_ now CDisconnected
  | Exiting at_, ClientPanicked => finish s b at_ now CFatal
  | BackingOff until, i => backoff_wait s b until now i
  | _, _ => Some (r, [])
  end.

(** A run on inputs with their instants, which do not go back and fit; the outputs with
    the instants of their inputs.  [None] is a panic or an input that does not fit. *)
Fixpoint run (r : run_state) (clock : Z) (l : list (Z * input)) : option (run_state * list (Z * output)) :=
  match l with
  | [] => Some (r, [])
  | (now, i) :: l =>
      if negb (clock <=? now) || negb (fits r now i) then None
      else
        '(r, out) ← step r now i;
        '(r, outs) ← run r now l;
        Some (r, map (pair now) out ++ outs)
  end.
End Source.
End Source.
