(* ===== verification/StratumSourceProps.v ===== *)
(** * What the Stratum v1 job source promises

    The pacing of suggestions, the handling of stale work, reconnection, and what
    is lost before the connection is configured. *)
From stdpp Require Import base numbers list strings.
From Stdlib Require Import ZArith Lia SpecFloat.
From S2P Require Import Prelude Float U256 Version Extranonce Job Estimator ShareRate Effects Stratum StratumClient StratumSource.
Import Source.

(** ** Backoff *)
Fixpoint failures (jitter_hash : Z -> Z) (k : nat) (b : Backoff.t) : Backoff.t :=
  match k with O => b | S k => failures jitter_hash k (Backoff.next_delay jitter_hash b).2 end.

Lemma failures_current jitter_hash k : forall b,
  0 <= Backoff.current b <= Backoff.max b ->
  Backoff.current (failures jitter_hash k b) = Z.min (Backoff.current b * 2 ^ Z.of_nat k) (Backoff.max b).
Proof.
  induction k as [|k IH]; intros b Hb; [simpl; lia|].
  cbn [failures]. rewrite IH by (simpl; lia). rewrite Nat2Z.inj_succ, Z.pow_succ_r by lia.
  pose proof (Z.pow_pos_nonneg 2 (Z.of_nat k) ltac:(lia) ltac:(lia)). simpl. nia.
Qed.

Section Props.
Context `{R : Ruint} `{P : BitcoinPow} `{L : FloatLib} (integer_decode : float -> Z * Z) (jitter_hash : Z -> Z).
Abbreviation step := (step integer_decode jitter_hash).
Abbreviation run := (run integer_decode jitter_hash).

(** ** Invariants of runs *)

(** A property of what was done so far that each step keeps, is kept. *)
Lemma run_keeps {G} (next : G -> Z * output -> G) (Inv : G -> run_state -> Z -> Prop) :
  (forall g r clock now i r' out, Inv g r clock -> clock <= now -> fits r now i = true ->
     step r now i = Some (r', out) -> Inv (fold_left next (map (pair now) out) g) r' now) ->
  forall l g r clock r' outs, Inv g r clock -> run r clock l = Some (r', outs) ->
  exists clock', Inv (fold_left next outs g) r' clock'.
Proof.
  intros Hstep l. induction l as [|[now i] l IH]; intros g r clock r' outs Hi; simpl.
  - intros [= <- <-]. by exists clock.
  - destruct (Z.leb_spec clock now); [|done]. destruct (fits r now i) eqn:Hf; [|done]. simpl.
    destruct (step r now i) as [[r1 out]|] eqn:Hs; [|done]. simpl.
    destruct (run r1 now l) as [[r2 outs2]|] eqn:Hr; [|done]. simpl. intros [= <- <-].
    rewrite fold_left_app. eapply IH; [|exact Hr]. by eapply Hstep.
Qed.

(** ** The pace of suggestions *)

(** The instant before which the client must hear no suggestion, and whether one came. *)
Definition pace (g : option Z * bool) (o : Z * output) : option Z * bool :=
  match o with
  | (_, StartClient _) => (None, g.2)
  | (now, ToClient (SuggestDifficulty _)) =>
      (Some (now + SUGGEST_MIN_INTERVAL), g.2 || match g.1 with Some u => now <? u | None => false end)
  | _ => g
  end.

Definition is_running (m : mode) : bool := match m with Running _ _ => true | _ => false end.

Lemma finish_outputs s b at_ now o r out :
  finish jitter_hash s b at_ now o = Some (r, out) ->
  is_running (at_mode r) = false /\
  ((out = [] /\ exists ok, at_mode r = Stopped ok) \/ (out = [ToScheduler ClearJobs] /\ exists u, at_mode r = BackingOff u)).
Proof.
  unfold finish. destruct o; try (intros [= <- <-]; split; [done|]; left; by eauto).
  destruct (Backoff.next_delay jitter_hash _) as [[d|] b']; cbn [mbind option_bind]; [|done].
  intros [= <- <-]. split; [done|]. right. by eauto.
Qed.

Lemma connect_outputs s b now r out :
  connect integer_decode s b now = Some (r, out) -> out = [] /\ at_mode r = Connecting now.
Proof.
  unfold connect. destruct (compute_suggested_difficulty _ _) as [d|]; simpl; [|done]. by intros [= <- <-].
Qed.

Lemma client_event_keeps s e s' evs :
  handle_client_event integer_decode s e = Some (s', evs) ->
  cooldown_until s' = cooldown_until s /\ last_suggested_difficulty s' = last_suggested_difficulty s /\
  expected_hashrate s' = expected_hashrate s.
Proof.
  destruct e; simpl; try (intros [= <- <-]; by try destruct (first_share_logged s)).
  destruct (Difficulty.from_f64 _ _); simpl; [|done]. by intros [= <- <-].
Qed.

(** What a handler may say to the client about difficulty, and what it then keeps. *)
Definition due (s : t) : Prop :=
  exists d, compute_suggested_difficulty integer_decode (expected_hashrate s) = Some (Some d) /\
    is_material_change d (last_suggested_difficulty s) = true.

Definition suggests (s : t) (now : Z) (s' : t) (cmds : list ClientCommand) : Prop :=
  expected_hashrate s' = expected_hashrate s /\
  ((exists d, cmds = [SuggestDifficulty d] /\ in_cooldown s now = false /\
      last_suggested_difficulty s' = Some d /\ cooldown_until s' = Some (now + SUGGEST_MIN_INTERVAL)) \/
   (cmds = [] /\ last_suggested_difficulty s' = last_suggested_difficulty s /\
      (~ due s \/ cooldown_until s <> None) /\ cooldown_until s' = cooldown_until s) \/
   (cmds = [] /\ last_suggested_difficulty s' = last_suggested_difficulty s /\
      ~ due s /\ in_cooldown s now = false /\ cooldown_until s' = None)).

Lemma maybe_suggests s now s' cmds :
  maybe_suggest_difficulty integer_decode s now = Some (s', cmds) -> suggests s now s' cmds.
Proof.
  unfold maybe_suggest_difficulty. destruct (compute_suggested_difficulty _ _) as [[d|]|] eqn:Hd; simpl; [| |done].
  2: { intros [= <- <-]. split; [done|]. right. left. split_and!; try done. left. intros (d & Hd' & _). congruence. }
  destruct (is_material_change d _) eqn:Hm; simpl.
  - destruct (in_cooldown s now) eqn:Hc; intros [= <- <-]; (split; [done|]).
    + right. left. split_and!; try done. right. unfold in_cooldown in Hc. by destruct (cooldown_until s).
    + left. by exists d.
  - intros [= <- <-]. split; [done|]. right. left. split_and!; try done. left. intros (d' & Hd' & Hm'). congruence.
Qed.

Lemma flush_suggests s now s' cmds :
  in_cooldown s now = false -> flush_suggest integer_decode s now = Some (s', cmds) -> suggests s now s' cmds.
Proof.
  intros Hc. unfold flush_suggest. destruct (compute_suggested_difficulty _ _) as [[d|]|] eqn:Hd; simpl; [| |done].
  2: { intros [= <- <-]. split; [done|]. right. right. split_and!; try done. intros (d & Hd' & _). congruence. }
  destruct (is_material_change d _) eqn:Hm; simpl; intros [= <- <-]; (split; [done|]).
  - left. by exists d.
  - right. right. split_and!; try done. intros (d' & Hd' & Hm'). congruence.
Qed.

(** One step: the outputs besides, and the suggestions. *)
Lemma step_running at_ gap s b now i r' out :
  fits (MkRun s (Running at_ gap) b) now i = true -> step (MkRun s (Running at_ gap) b) now i = Some (r', out) ->
  (exists s1 cmds gap', at_mode r' = Running at_ gap' /\ out = map ToClient cmds /\ suggests s1 now (source r') cmds /\
     last_suggested_difficulty s1 = last_suggested_difficulty s /\ cooldown_until s1 = cooldown_until s) \/
  ((forall o, o ∈ out -> match o with ToClient (SuggestDifficulty _) | StartClient _ => False | _ => True end) /\
   (is_running (at_mode r') = true ->
      last_suggested_difficulty (source r') = last_suggested_difficulty s /\ cooldown_until (source r') = cooldown_until s /\
      expected_hashrate (source r') = expected_hashrate s)).
Proof.
  intros Hf Hs. destruct i; cbn in Hf; try discriminate Hf; cbn [StratumSource.Source.step] in Hs.
  - destruct (handle_client_event _ s e) as [[s' evs]|] eqn:He; simpl in Hs; [|done]. injection Hs as <- <-.
    right. split; [intros o (x & -> & _)%list_elem_of_fmap; done|]. intros _. simpl.
    destruct (client_event_keeps _ _ _ _ He) as (? & ? & ?). by split_and!.
  - injection Hs as <- <-. right. split; [by intros o ?%elem_of_nil|done].
  - destruct c as [share|rate]; simpl in Hs.
    + injection Hs as <- <-. right. split; [|done].
      intros o (x & -> & Hx)%list_elem_of_fmap. destruct (share_to_submit_params s share); simpl in Hx; [|by apply elem_of_nil in Hx].
      by apply list_elem_of_singleton in Hx as ->.
    + destruct (maybe_suggest_difficulty _ _ now) as [[s' cmds]|] eqn:Hm; simpl in Hs; [|done]. injection Hs as <- <-.
      left. exists (with_hashrate s rate), cmds, gap. split_and!; try done. by apply maybe_suggests.
  - destruct (flush_suggest _ s now) as [[s' cmds]|] eqn:Hm; simpl in Hs; [|done]. injection Hs as <- <-.
    left. exists s, cmds, gap. split_and!; try done. apply flush_suggests; [|done].
    unfold in_cooldown. destruct (cooldown_until s); [|done]. lia.
  - injection Hs as <- <-. right. split; [|done]. by intros o ->%list_elem_of_singleton.
  - destruct (finish_outputs _ _ _ _ _ _ _ Hs) as [Hr [[-> _]|[-> _]]]; right; rewrite Hr; (split; [|done]);
      [by intros o ?%elem_of_nil|by intros o ->%list_elem_of_singleton].
Qed.

Lemma step_idle s m b now i r' out :
  is_running m = false -> fits (MkRun s m b) now i = true -> step (MkRun s m b) now i = Some (r', out) ->
  (exists at_ gap, at_mode r' = Running at_ gap /\ out = [StartClient (last_suggested_difficulty s)] /\ m = Connecting at_) \/
  (is_running (at_mode r') = false /\ (out = [] \/ (out = [ToScheduler ClearJobs] /\ (exists u, at_mode r' = BackingOff u)))).
Proof.
  intros Hm Hf Hs.
  assert (Hfin : forall at_ o, finish jitter_hash s b at_ now o = Some (r', out) ->
    is_running (at_mode r') = false /\ (out = [] \/ (out = [ToScheduler ClearJobs] /\ (exists u, at_mode r' = BackingOff u)))).
  { intros at_ o Ho. destruct (finish_outputs _ _ _ _ _ _ _ Ho) as [Hr [[-> _]|[-> Hu]]]; (split; [done|]); [by left|by right]. }
  assert (Hcon : forall s, connect integer_decode s b now = Some (r', out) ->
    is_running (at_mode r') = false /\ (out = [] \/ (out = [ToScheduler ClearJobs] /\ (exists u, at_mode r' = BackingOff u)))).
  { intros s0 Hc. destruct (connect_outputs _ _ _ _ _ Hc) as [-> ->]. split; [done|by left]. }
  destruct m as [|at_|at_ gap|at_|u|ok], i; try discriminate Hm; cbn in Hf; try discriminate Hf; cbn [StratumSource.Source.step StratumSource.Source.wait_for_threads StratumSource.Source.backoff_wait] in Hs;
    try (right; by eapply Hfin); try (right; by eapply Hcon).
  - right. destruct c; [by injection Hs as <- <-; split; [|left]|].
    destruct (negb _); [by eapply Hcon|]. by injection Hs as <- <-; split; [|left].
  - right. injection Hs as <- <-. by split; [|left].
  - destruct r as [u|e]; [|right; by eapply Hfin]. injection Hs as <- <-. left. by exists at_, now.
  - right. destruct c; injection Hs as <- <-; by split; [|left].
  - right. injection Hs as <- <-. by split; [|left].
Qed.

Definition is_suggestion (o : output) : bool := match o with ToClient (SuggestDifficulty _) => true | _ => false end.
Definition is_start (o : output) : bool := match o with StartClient _ => true | _ => false end.

(** The pace is kept while the client is not replaced. *)
Definition paced (g : option Z * bool) (r : run_state) (clock : Z) : Prop :=
  g.2 = false /\
  (is_running (at_mode r) = true -> forall u, g.1 = Some u -> cooldown_until (source r) = Some u \/ u <= clock).

Lemma pace_quiet now out g :
  (forall o, o ∈ out -> match o with ToClient (SuggestDifficulty _) | StartClient _ => False | _ => True end) ->
  fold_left pace (map (pair now) out) g = g.
Proof.
  revert g. induction out as [|o out IH]; intros g Ho; [done|]. simpl.
  rewrite IH by (intros o' Ho'; apply Ho; by right). specialize (Ho o ltac:(by left)). by destruct o as [|[]| |].
Qed.

Lemma paced_step g r clock now i r' out :
  paced g r clock -> clock <= now -> fits r now i = true -> step r now i = Some (r', out) ->
  paced (fold_left pace (map (pair now) out) g) r' now.
Proof.
  intros [Hg Hp] Hc Hf Hs. destruct r as [s m b]. destruct (is_running m) eqn:Hm.
  - destruct m as [| |at_ gap| | |]; try discriminate Hm. specialize (Hp eq_refl). simpl in Hp.
    destruct (step_running _ _ _ _ _ _ _ _ Hf Hs) as [(s1 & cmds & gap' & Hr & -> & [_ Hsug] & Hl1 & Hc1)|[Hq Hk]].
    + destruct Hsug as [(d & -> & Hcool & _ & Hc')|[(-> & _ & _ & Hc')|(-> & _ & _ & Hcool & Hc')]]; simpl.
      * split; simpl.
        -- rewrite Hg. destruct (g.1) as [u|] eqn:Hu; [|done]. simpl.
           unfold in_cooldown in Hcool. rewrite Hc1 in Hcool. destruct (Hp u eq_refl) as [Hcd|]; [rewrite Hcd in Hcool|]; lia.
        -- intros _ u [= <-]. by left.
      * split; [done|]. intros _ u Hu. rewrite Hc', Hc1. destruct (Hp u Hu); [by left|right; lia].
      * split; [done|]. intros _ u Hu. right. unfold in_cooldown in Hcool. rewrite Hc1 in Hcool.
        destruct (Hp u Hu) as [Hcd|]; [rewrite Hcd in Hcool|]; lia.
    + rewrite pace_quiet by done. split; [done|]. intros Hrun u Hu. destruct (Hk Hrun) as (_ & -> & _).
      destruct (Hp u Hu); [by left|right; lia].
  - destruct (step_idle _ _ _ _ _ _ _ Hm Hf Hs) as [(at_ & gap & Hr & -> & _)|[Hr [->|[-> _]]]]; simpl; (split; [done|]); simpl;
      [done|rewrite Hr; done..].
Qed.

(** Suggestions are paced: on one connection, whatever the scheduler and the pool do,
    two suggestions of a difficulty are at least five seconds apart. *)
Theorem suggestions_paced config l clock r o1 t1 d1 o2 t2 d2 o3 :
  run (start config) clock l = Some (r, o1 ++ (t1, ToClient (SuggestDifficulty d1)) :: o2 ++ (t2, ToClient (SuggestDifficulty d2)) :: o3) ->
  Forall (fun o => is_start o.2 = false) o2 ->
  t1 + 5 * NANOS <= t2.
Proof.
  intros Hrun Ho2.
  assert (Hinit : paced (None, false) (start config) clock) by (split; [done|]; by intros).
  destruct (run_keeps pace paced paced_step _ _ _ _ _ _ Hinit Hrun) as (clock' & Hbad & _).
  assert (Hmono : forall o g, g.2 = true -> (fold_left pace o g).2 = true).
  { induction o as [|[t o] os IH]; intros g Hg; [done|]. simpl. apply IH.
    destruct o as [|[]| |]; simpl; try done. by rewrite Hg. }
  assert (Hlater : forall o g u, Forall (fun o => is_start o.2 = false) o -> g.1 = Some u ->
    (fold_left pace o g).2 = false -> exists u', (fold_left pace o g).1 = Some u' /\ u <= u').
  { induction o as [|[t o] os IH]; intros g u HF Hg Hb; [by exists u|]. inversion HF as [|? ? H1 H2]; subst.
    assert (Hnext : exists u1, (pace g (t, o)).1 = Some u1 /\ (u <= u1 \/ (pace g (t, o)).2 = true)).
    { destruct o as [|[]| |]; simpl in *; try (by exists u; split; [|left]).
      eexists. split; [done|]. rewrite Hg. destruct (Z.ltb_spec t u); [right; by rewrite orb_true_r|left].
      unfold SUGGEST_MIN_INTERVAL, NANOS. lia. }
    destruct Hnext as (u1 & Hu1 & [Hle|Hbad']).
    - destruct (IH _ _ H2 Hu1 Hb) as (u' & Hu' & ?). exists u'. split; [done|lia].
    - cbn [fold_left] in Hb. rewrite (Hmono os _ Hbad') in Hb. discriminate Hb. }
  rewrite fold_left_app in Hbad. simpl in Hbad. rewrite fold_left_app in Hbad. simpl in Hbad.
  set (g1 := fold_left pace o1 _) in Hbad. set (g2 := (Some (t1 + SUGGEST_MIN_INTERVAL), _)) in Hbad.
  destruct ((fold_left pace o2 g2).2) eqn:Hb2.
  { rewrite Hmono in Hbad; [discriminate Hbad|]. done. }
  destruct (Hlater o2 g2 _ Ho2 eq_refl Hb2) as (u' & Hu' & Hle).
  destruct (Z.ltb_spec t2 u') as [Hlt|]; [|unfold SUGGEST_MIN_INTERVAL in Hle; lia].
  rewrite Hmono in Hbad; [discriminate Hbad|]. simpl. rewrite Hu'. by apply Z.ltb_lt.
Qed.

(** ** The latest rate counts *)

(** On one connection: no rate whose difficulty is due is forgotten. *)
Definition up_to_date (started : bool) (r : run_state) (clock : Z) : Prop :=
  started = false -> is_running (at_mode r) = true -> cooldown_until (source r) = None -> ~ due (source r).

Definition starts (g : bool) (o : Z * output) : bool := g || is_start o.2.

Lemma due_ext s s' : expected_hashrate s' = expected_hashrate s ->
  last_suggested_difficulty s' = last_suggested_difficulty s -> due s' -> due s.
Proof. intros H1 H2 (d & Hd & Hm). rewrite H1 in Hd. rewrite H2 in Hm. by exists d. Qed.

Lemma starts_false out : forall g, fold_left starts out g = false -> g = false.
Proof. induction out as [|o out IH]; intros g; simpl; [done|]. intros H%IH. by apply orb_false_iff in H as [? _]. Qed.

Lemma up_to_date_step g r clock now i r' out :
  up_to_date g r clock -> clock <= now -> fits r now i = true -> step r now i = Some (r', out) ->
  up_to_date (fold_left starts (map (pair now) out) g) r' now.
Proof.
  intros Hd Hc Hf Hs Hstart Hrun Hcd. pose proof (starts_false _ _ Hstart) as Hg. specialize (Hd Hg).
  destruct r as [s m b]. destruct (is_running m) eqn:Hm.
  - destruct m as [| |at_ gap| | |]; try discriminate Hm. specialize (Hd eq_refl). simpl in Hd.
    destruct (step_running _ _ _ _ _ _ _ _ Hf Hs) as [(s1 & cmds & gap' & Hr & -> & [Hh Hsug] & Hl1 & Hc1)|[_ Hk]].
    + destruct Hsug as [(d & _ & _ & _ & Hc')|[(_ & Hl & Hnd & Hc')|(_ & Hl & Hnd & _)]].
      * rewrite Hc' in Hcd. discriminate Hcd.
      * rewrite Hc' in Hcd. intros Hdue. destruct Hnd as [Hnd|Hnd]; [|done]. apply Hnd. by eapply due_ext.
      * intros Hdue. apply Hnd. by eapply due_ext.
    + destruct (Hk Hrun) as (Hl & Hc2 & Hh). rewrite Hc2 in Hcd. intros Hdue. apply (Hd Hcd). by eapply due_ext.
  - destruct (step_idle _ _ _ _ _ _ _ Hm Hf Hs) as [(at_ & gap & _ & -> & _)|[Hr _]]; [|congruence].
    simpl in Hstart. unfold starts in Hstart. by rewrite orb_true_r in Hstart.
Qed.

(** The latest hash rate counts.  From any state of a connection in which no change is
    pending, whatever happens until the connection ends, either a cooldown is running
    whose end tests the rate again, or the difficulty of the latest rate does not
    differ materially from the last suggestion. *)
Theorem latest_rate_counts r clock l r' outs :
  is_running (at_mode r) = true -> (cooldown_until (source r) = None -> ~ due (source r)) ->
  run r clock l = Some (r', outs) -> Forall (fun o => is_start o.2 = false) outs ->
  is_running (at_mode r') = true ->
  (exists until, cooldown_until (source r') = Some until) \/ ~ due (source r').
Proof.
  intros Hr Hd Hrun Hno Hr'.
  assert (Hinit : up_to_date false r clock) by (intros _ _; exact Hd).
  destruct (run_keeps starts up_to_date up_to_date_step _ _ _ _ _ _ Hinit Hrun) as (clock' & Hu).
  destruct (cooldown_until (source r')) as [u|] eqn:Hcd; [left; by exists u|right]. apply Hu; [|done|done].
  clear -Hno. induction Hno as [|o os Ho _ IH]; [done|]. simpl. by rewrite Ho.
Qed.

(** ** Stale work *)

(** Whether jobs of an ended connection may still be worked on when a client starts. *)
Definition work_seen (g : bool * bool) (o : Z * output) : bool * bool :=
  match o.2 with
  | ToScheduler (UpdateJob _ | ReplaceJob _) => (true, g.2)
  | ToScheduler ClearJobs => (false, g.2)
  | StartClient _ => (g.1, g.2 || g.1)
  | _ => g
  end.

Definition clears (g : bool * bool) (r : run_state) (clock : Z) : Prop :=
  g.2 = false /\ match at_mode r with Running _ _ | Exiting _ | Stopped _ => True | _ => g.1 = false end.

Lemma work_seen_same_connection now out g :
  Forall (fun o => is_start o = false) out -> (fold_left work_seen (map (pair now) out) g).2 = g.2.
Proof.
  intros Ho. revert g. induction Ho as [|o out Ho _ IH]; intros g; [done|]. simpl. rewrite IH.
  by destruct o as [[]|[]| |].
Qed.

Lemma clears_step g r clock now i r' out :
  clears g r clock -> clock <= now -> fits r now i = true -> step r now i = Some (r', out) ->
  clears (fold_left work_seen (map (pair now) out) g) r' now.
Proof.
  intros [Hg Hc] _ Hf Hs. destruct r as [s m b]. destruct (is_running m) eqn:Hm.
  - destruct m as [| |at_ gap| | |]; try discriminate Hm.
    assert (Hno : Forall (fun o => is_start o = false) out).
    { apply Forall_forall. intros o Ho.
      destruct (step_running _ _ _ _ _ _ _ _ Hf Hs) as [(s1 & cmds & gap' & _ & -> & _)|[Hq _]].
      - apply list_elem_of_fmap in Ho as (x & -> & _). done.
      - specialize (Hq o Ho). by destruct o as [|[]| |]. }
    split; [by rewrite work_seen_same_connection|].
    destruct i; cbn in Hf; try discriminate Hf; cbn [StratumSource.Source.step] in Hs.
    + destruct (handle_client_event _ s e) as [[s' evs]|]; simpl in Hs; [|done]. by injection Hs as <- <-.
    + by injection Hs as <- <-.
    + destruct (handle_command _ s now c) as [[s' cmds]|]; simpl in Hs; [|done]. by injection Hs as <- <-.
    + destruct (flush_suggest _ s now) as [[s' cmds]|]; simpl in Hs; [|done]. by injection Hs as <- <-.
    + by injection Hs as <- <-.
    + simpl in Hs. by injection Hs as <- <-.
  - destruct (step_idle _ _ _ _ _ _ _ Hm Hf Hs) as [(at_ & gap & Hr & -> & Hmode)|[Hr [->|[-> [u Hu]]]]]; simpl.
    + subst m. simpl in Hc. unfold clears, work_seen. simpl. rewrite Hr, Hg, Hc. done.
    + split; [done|]. destruct m as [|at_|at_ gap|at_|u|ok], i; try discriminate Hm; cbn in Hf; try discriminate Hf;
        cbn [StratumSource.Source.step StratumSource.Source.wait_for_threads StratumSource.Source.backoff_wait] in Hs; try (destruct (at_mode r'); by simpl in Hc).
      all: try (destruct (finish_outputs _ _ _ _ _ _ _ Hs) as [_ [[_ [ok ->]]|[? _]]]; done).
    + split; [done|]. by rewrite Hu.
Qed.

Lemma classic_clear (o : output) : o = ToScheduler ClearJobs \/ o <> ToScheduler ClearJobs.
Proof. destruct o as [[]|[]| |]; (by left) || (by right). Qed.

(** C17 No work of a dead connection outlives it: whenever a client is started after a job
    was passed on, the scheduler has been told in between to clear the source's jobs. *)
Theorem stale_work_cleared config l clock r o1 t1 job o2 t2 d o3 :
  run (start config) clock l = Some (r, o1 ++ (t1, ToScheduler job) :: o2 ++ (t2, StartClient d) :: o3) ->
  job <> ClearJobs -> exists t, (t, ToScheduler ClearJobs) ∈ o2.
Proof.
  intros Hrun Hj. assert (Hinit : clears (false, false) (start config) clock) by done.
  destruct (run_keeps work_seen clears clears_step _ _ _ _ _ _ Hinit Hrun) as (clock' & Hbad & _).
  assert (Hmono : forall o g, g.2 = true -> (fold_left work_seen o g).2 = true).
  { induction o as [|[t o] os IH]; intros g Hg; [done|]. simpl. apply IH.
    destruct o as [[]|[]| |]; simpl; try done. by rewrite Hg. }
  rewrite fold_left_app in Hbad. cbn [fold_left] in Hbad. rewrite fold_left_app in Hbad. cbn [fold_left] in Hbad.
  set (g1 := work_seen _ (t1, _)) in Hbad. assert (Hg1 : g1.1 = true) by (by destruct job).
  assert (Hkept : forall o g, g.1 = true ->
    (exists t, (t, ToScheduler ClearJobs) ∈ o) \/ (fold_left work_seen o g).1 = true).
  { induction o as [|[t o] os IH]; intros g Hg; [by right|]. simpl.
    destruct (classic_clear o) as [->|Hne]; [left; exists t; by left|].
    destruct (IH (work_seen g (t, o))) as [[t' Ht']|Hk]; [|left; exists t'; by right|by right].
    by destruct o as [[]|[]| |]. }
  destruct (Hkept o2 g1 Hg1) as [?|Hk]; [done|].
  rewrite Hmono in Hbad; [discriminate Hbad|]. simpl. rewrite Hk. by rewrite orb_true_r.
Qed.

(** ** Reconnection *)

(** A connection is made or a job comes. *)
Definition is_sign (i : input) : bool := match i with Connect (Ok _) | FromClient (NewJob _) => true | _ => false end.
(** When that last happened, and the instant of the last input. *)
Definition last_sign (l : list (Z * input)) : option Z :=
  fold_left (fun g p => if is_sign p.2 then Some p.1 else g) l None.
Definition last_instant (clock : Z) (l : list (Z * input)) : Z := fold_left (fun _ p => p.1) l clock.

Lemma run_app l1 : forall r clock r1 o1 l2, run r clock l1 = Some (r1, o1) ->
  run r clock (l1 ++ l2) = ('(r2, o2) ← run r1 (last_instant clock l1) l2; Some (r2, o1 ++ o2)).
Proof.
  induction l1 as [|[now i] l1 IH]; intros r clock r1 o1 l2; simpl.
  - intros [= <- <-]. by destruct (run r clock l2) as [[]|].
  - destruct (_ || _); [done|]. destruct (step r now i) as [[r2 out]|]; simpl; [|done].
    destruct (run r2 now l1) as [[r3 outs]|] eqn:H1; simpl; [|done]. intros [= <- <-].
    rewrite (IH _ _ _ _ l2 H1). destruct (run r3 _ l2) as [[r4 o4]|]; simpl; [|done]. by rewrite app_assoc.
Qed.

(** The gap starts at the last sign, and with nothing else. *)
Lemma step_gap r now i r' out connected_at gap :
  step r now i = Some (r', out) -> fits r now i = true -> at_mode r' = Running connected_at gap ->
  if is_sign i then gap = now else at_mode r = Running connected_at gap.
Proof.
  destruct r as [s m b]. intros Hs Hf Hr.
  assert (Hfin : forall at_ o, finish jitter_hash s b at_ now o <> Some (r', out)).
  { intros at_ o Ho. apply finish_outputs in Ho as [Ho _]. by rewrite Hr in Ho. }
  assert (Hcon : forall s, connect integer_decode s b now <> Some (r', out)).
  { intros s0 Hc. apply connect_outputs in Hc as [_ Hc]. congruence. }
  destruct m as [|at_|at_ gap0|at_|until|ok], i; cbn in Hf; try discriminate Hf;
    cbn [StratumSource.Source.step wait_for_threads backoff_wait] in Hs; try (by destruct (Hfin _ _ Hs)); try (by destruct (Hcon _ Hs)).
  all: try (destruct c; try destruct (negb _); try (by destruct (Hcon _ Hs)); injection Hs as <- <-; discriminate Hr).
  all: try (injection Hs as <- <-; discriminate Hr).
  - destruct r as [u|e]; [|by destruct (Hfin _ _ Hs)]. injection Hs as <- <-. by injection Hr as <- <-.
  - destruct (handle_client_event _ s e) as [[s' evs]|]; [|done]. injection Hs as <- <-. injection Hr as <- <-. by destruct e.
  - destruct (handle_command _ s now c) as [[s' evs]|]; [|done]. injection Hs as <- <-. by injection Hr as <- <-.
  - destruct (flush_suggest _ s now) as [[s' evs]|]; [|done]. injection Hs as <- <-. by injection Hr as <- <-.
Qed.

Lemma run_gap config l clock r outs connected_at gap :
  run (start config) clock l = Some (r, outs) -> at_mode r = Running connected_at gap -> last_sign l = Some gap.
Proof.
  set (Inv := fun (g : option Z) (r : run_state) => forall a gap, at_mode r = Running a gap -> g = Some gap).
  enough (H : forall l g r clock r' outs, Inv g r -> run r clock l = Some (r', outs) ->
    Inv (fold_left (fun g p => if is_sign p.2 then Some p.1 else g) l g) r').
  { intros Hrun Hm. refine (H l None _ _ _ _ _ Hrun _ _ Hm). intros ? ? [=]. }
  clear. intros l. induction l as [|[now i] l IH]; intros g r clock r' outs Hi; simpl; [by intros [= <- <-]|].
  destruct (negb (clock <=? now) || _) eqn:Hok; [done|]. apply orb_false_iff in Hok as [_ Hf%negb_false_iff].
  destruct (step r now i) as [[r2 out]|] eqn:Hs; simpl; [|done].
  destruct (run r2 now l) as [[r3 o3]|] eqn:Hr; simpl; [|done]. intros [= <- _]. eapply IH; [|exact Hr].
  intros a gap Ha. pose proof (step_gap _ _ _ _ _ _ _ Hs Hf Ha) as Hg. destruct (is_sign i); [by subst|by eapply Hi].
Qed.


Fixpoint feed (s : t) (es : list ClientEvent) : option t :=
  match es with [] => Some s | e :: es => '(s, _) ← handle_client_event integer_decode s e; feed s es end.

(** The target of the jobs a source passes on. *)
Definition jobs_for (s : t) (target : Z) : Prop :=
  forall job template, job_to_template s job = Some template -> share_target template = target.

Lemma jobs_for_state `{HR : !RuintSpec R} s e1 size d mask :
  state s = Some (MkSource e1 size d mask) ->
  jobs_for s (match d with Some d => Difficulty.to_target d | None => target_max end).
Proof.
  intros Hs job template. unfold job_to_template. rewrite Hs. simpl.
  destruct (ExtranonceRange.full _) as [range|]; [|done]. destruct (VersionTemplate.new _ _) as [v|]; [|done].
  intros [= <-]. simpl. destruct d; [done|]. unfold Difficulty.from_u64, U256.div_u64. simpl.
  by rewrite ru_div_spec, Z.div_1_r.
Qed.

(** A difficulty announced too early is lost.  If the pool sets a difficulty before its
    answer to mining.configure - which the client passes on at once - the source has no
    state to keep it in: once subscribed, its jobs are for difficulty 1, whatever was
    announced.  Announced after that answer, it is the difficulty of the jobs. *)
Theorem early_difficulty_lost (HR : RuintSpec R) s d df mask e1 size :
  state s = None -> Difficulty.from_f64 integer_decode d = Some df ->
  (exists s', feed s [DifficultyChanged d; VersionRollingConfigured mask; Subscribed e1 size] = Some s' /\
     jobs_for s' target_max) /\
  (exists s', feed s [VersionRollingConfigured mask; DifficultyChanged d; Subscribed e1 size] = Some s' /\
     jobs_for s' (Difficulty.to_target df)).
Proof.
  intros Hs Hd. simpl. rewrite Hs, Hd. simpl. unfold update. rewrite Hs. simpl.
  split; eexists; (split; [reflexivity|]);
    [by apply (jobs_for_state _ e1 size None mask)|by apply (jobs_for_state _ e1 size (Some df) mask)].
Qed.
End Props.

(** ** The theorems at work *)
Section Examples.
#[local] Existing Instance ruint_ref.
#[local] Existing Instance U256.bitcoin_ref.
(** A rough [log10], good for one digit. *)
#[local] Instance float_lib_ref : FloatLib := {|
  log10 := fun x => f_of_Z f64 (Z.log2 (f_to_uint 64 x) * 30103 / 100000);
  log2 := fun x => f_of_Z f64 (Z.log2 (f_to_uint 64 x));
  pow10 := fun n => if 0 <=? n then f_of_Z f64 (10 ^ n) else f_div f64 (f_of_Z f64 1) (f_of_Z f64 (10 ^ (- n))) |}.
Definition jitter_ref : Z -> Z := fun _ => 2 ^ 63.
Definition config_ref : PoolConfig := MkConfig "stratum+tcp://pool:3333" "user" "x" "mujina".

(** One terahash at the start, three after a second, nine after another, then silence. *)
Definition inputs_ref : list (Z * input) :=
  [(0, FromScheduler (UpdateHashRate (10 ^ 12))); (0, Connect (Ok tt));
   (0, FromClient (VersionRollingConfigured None)); (0, FromClient (Subscribed [1; 2; 3; 4] 4));
   (NANOS, FromScheduler (UpdateHashRate (3 * 10 ^ 12)));
   (2 * NANOS, FromScheduler (UpdateHashRate (9 * 10 ^ 12)));
   (6 * NANOS, CooldownExpired)].

Example name_ref : name (new config_ref) = "pool:3333"%string.
Proof. reflexivity. Qed.

Example outputs_ref : option_map (fun p => map fst p.2) (run integer_decode_ref jitter_ref (start config_ref) 0 inputs_ref) =
  Some [0; NANOS; 6 * NANOS].
Proof. vm_compute. reflexivity. Qed.

Abbreviation run_ref := (StratumSource.Source.run integer_decode_ref jitter_ref).

Lemma suggestions_paced_witness : exists r d0 d1 d2,
  run_ref (start config_ref) 0 inputs_ref =
    Some (r, [(0, StartClient d0)] ++ (NANOS, ToClient (SuggestDifficulty d1)) :: [] ++ (6 * NANOS, ToClient (SuggestDifficulty d2)) :: []) /\
  NANOS + 5 * NANOS <= 6 * NANOS.
Proof.
  assert (H : exists r d0 d1 d2, run_ref (start config_ref) 0 inputs_ref =
    Some (r, [(0, StartClient d0)] ++ (NANOS, ToClient (SuggestDifficulty d1)) :: [] ++ (6 * NANOS, ToClient (SuggestDifficulty d2)) :: []))
    by (do 4 eexists; vm_compute; reflexivity).
  destruct H as (r & d0 & d1 & d2 & H). exists r, d0, d1, d2. split; [exact H|].
  exact (suggestions_paced integer_decode_ref jitter_ref config_ref inputs_ref 0 r _ NANOS d1 [] (6 * NANOS) d2 [] H (Forall_nil_2 _)).
Defined.

(** A connection of a source that has no hash rate, and so nothing to suggest. *)
Definition idle_ref : run_state := MkRun (new config_ref) (Running 0 0) (Backoff.new INITIAL_RECONNECT_DELAY MAX_RECONNECT_DELAY).

Lemma latest_rate_counts_witness : exists r outs,
  run_ref idle_ref 0 [(NANOS, FromScheduler (UpdateHashRate (10 ^ 12)))] = Some (r, outs) /\
  ((exists until, cooldown_until (source r) = Some until) \/ ~ due integer_decode_ref (source r)).
Proof.
  assert (H : exists r d, run_ref idle_ref 0 [(NANOS, FromScheduler (UpdateHashRate (10 ^ 12)))] =
    Some (r, [(NANOS, ToClient (SuggestDifficulty d))]) /\ is_running (at_mode r) = true)
    by (do 2 eexists; vm_compute; split; reflexivity).
  destruct H as (r & d & H & Hr). exists r, [(NANOS, ToClient (SuggestDifficulty d))]. split; [exact H|].
  refine (latest_rate_counts integer_decode_ref jitter_ref idle_ref 0 _ r _ eq_refl _ H _ Hr).
  - intros _ (x & Hx & _). discriminate Hx.
  - apply Forall_singleton. reflexivity.
Defined.

Definition outage_ref : list (Z * input) :=
  [(0, FromScheduler (UpdateHashRate (10 ^ 12))); (0, Connect (Ok tt));
   (0, FromClient (VersionRollingConfigured None)); (0, FromClient (Subscribed [1; 2; 3; 4] 4));
   (NANOS, FromClient (NewJob announced_ref)); (130 * NANOS, JobGapElapsed); (130 * NANOS, ClientCancelled);
   (140 * NANOS, BackoffElapsed); (140 * NANOS, Connect (Ok tt))].

Lemma stale_work_cleared_witness : exists r d0 template d,
  run_ref (start config_ref) 0 outage_ref =
    Some (r, [(0, StartClient d0)] ++ (NANOS, ToScheduler (ReplaceJob template)) ::
             [(130 * NANOS, AbortClient); (130 * NANOS, ToScheduler ClearJobs)] ++ (140 * NANOS, StartClient d) :: []) /\
  exists t, (t, ToScheduler ClearJobs) ∈ [(130 * NANOS, AbortClient); (130 * NANOS, ToScheduler ClearJobs)].
Proof.
  assert (H : exists r d0 template d, run_ref (start config_ref) 0 outage_ref =
    Some (r, [(0, StartClient d0)] ++ (NANOS, ToScheduler (ReplaceJob template)) ::
             [(130 * NANOS, AbortClient); (130 * NANOS, ToScheduler ClearJobs)] ++ (140 * NANOS, StartClient d) :: []))
    by (do 4 eexists; vm_compute; reflexivity).
  destruct H as (r & d0 & template & d & H). exists r, d0, template, d. split; [exact H|].
  refine (stale_work_cleared integer_decode_ref jitter_ref config_ref outage_ref 0 r _ NANOS (ReplaceJob template) _ _ d [] H _).
  intros Hc. discriminate Hc.
Defined.

(** A source that has heard one job, a second after it connected. *)
Definition silent_ref : list (Z * input) := take 5 outage_ref.


Lemma early_difficulty_lost_witness : exists s',
  feed integer_decode_ref (new config_ref)
    [DifficultyChanged (f_of_Z f64 4096); VersionRollingConfigured None; Subscribed [1; 2; 3; 4] 4] = Some s' /\
  jobs_for s' target_max.
Proof.
  assert (Hd : Difficulty.from_f64 integer_decode_ref (f_of_Z f64 4096) = Some (Difficulty.Mk (0xFFFF * 2 ^ 196)))
    by (vm_compute; reflexivity).
  pose proof (early_difficulty_lost integer_decode_ref ruint_ref_spec (new config_ref) (f_of_Z f64 4096)
    (Difficulty.Mk (0xFFFF * 2 ^ 196)) None [1; 2; 3; 4] 4 eq_refl Hd) as [H _].
  exact H.
Defined.
End Examples.
