(* ===== verification/Pool.v ===== *)
(** * A share on its way back to the pool

    What a pool makes of a submission, and the whole way of a share: job, template,
    chip job, nonce report, share, submission, wire. *)
From stdpp Require Import base numbers list strings.
From Stdlib Require Import ZArith Lia.
From S2P Require Import Prelude Float U256 Version Extranonce Job Register Chain ChipConfig Command Response RegisterClient HashThread HashThreadProps Effects Stratum StratumClient StratumSource.

(** ** What a pool checks *)
Section Pool.
Context `{B : Bitcoin}.

(** The version a pool reconstructs: rolled bits inside the mask, its own outside. *)
Definition pool_version (base : Z) (mask bits : option Z) : Z :=
  match mask, bits with
  | Some m, Some b => sign 32 (Z.lor (Z.land (wrap 32 base) (Z.lxor m (2 ^ 32 - 1))) (Z.land b m))
  | _, _ => base
  end.

Definition pool_coinbase (j : JobNotification.t) (extranonce1 : list Z) (p : SubmitParams.t) : list Z :=
  JobNotification.coinbase1 j ++ extranonce1 ++ SubmitParams.extranonce2 p ++ JobNotification.coinbase2 j.

Definition pool_header (j : JobNotification.t) (extranonce1 : list Z) (mask : option Z) (p : SubmitParams.t) : option BlockHeader :=
  id ← txid (pool_coinbase j extranonce1 p);
  Some (MkHeader (pool_version (JobNotification.version j) mask (SubmitParams.version_bits p))
          (JobNotification.prev_hash j)
          (fold_left (fun h b => sha256d (h ++ b)) (JobNotification.merkle_branches j) id)
          (SubmitParams.ntime p) (JobNotification.nbits j) (SubmitParams.nonce p)).
End Pool.

(** ** Versions *)
Lemma from_mask_wf l : GpBits.wf (GpBits.from_mask l).
Proof. split; simpl; by apply wrap_uint. Qed.

Lemma from_mask_bit m k : uint 32 m -> 0 <= k < 16 ->
  Z.testbit (GpBits.to_u16 (GpBits.from_mask (be_bytes 4 m))) k = Z.testbit m (k + 13).
Proof.
  intros Hm Hk. destruct (gp_to_u16 _ (from_mask_wf (be_bytes 4 m))) as [_ Hb]. rewrite Hb by done.
  unfold GpBits.from_mask. simpl. rewrite from_be_be_bytes. change (8 * Z.of_nat 4) with 32.
  destruct (Z.ltb_spec k 8).
  - rewrite !wrap_testbit, Z.shiftr_spec, wrap_testbit by lia.
    rewrite (proj2 (Z.ltb_lt k 8)), (proj2 (Z.ltb_lt k 16)), (proj2 (Z.ltb_lt (k + 13) 32)) by lia. done.
  - rewrite wrap_testbit, Z.shiftr_spec, wrap_testbit, Z.shiftr_spec, wrap_testbit by lia.
    replace (k - 8 + 8) with k by lia.
    rewrite (proj2 (Z.ltb_lt (k - 8) 8)), (proj2 (Z.ltb_lt k 16)), (proj2 (Z.ltb_lt (k + 13) 32)) by lia. done.
Qed.

(** Or-ing bits below the sign bit stays an i32. *)
Lemma lor_i32 b x : - 2 ^ 31 <= b < 2 ^ 31 -> uint 31 x -> - 2 ^ 31 <= Z.lor b x < 2 ^ 31.
Proof.
  intros Hb Hx. assert (0 <= x) by apply Hx.
  assert (Hle : b <= Z.lor b x).
  { assert (Heq : Z.lor b x = b + Z.ldiff x b).
    { assert (Hd : Z.land b (Z.ldiff x b) = 0).
      { apply Z.bits_inj'. intros n Hn. rewrite Z.land_spec, Z.ldiff_spec, Z.bits_0. by destruct (Z.testbit b n), (Z.testbit x n). }
      rewrite Z.add_nocarry_lxor, Z.lxor_lor by done. apply Z.bits_inj'. intros n Hn.
      rewrite !Z.lor_spec, Z.ldiff_spec. by destruct (Z.testbit b n), (Z.testbit x n). }
    rewrite Heq. pose proof (proj2 (Z.ldiff_nonneg x b) (or_introl H)). lia. }
  split; [lia|]. destruct (Z.le_gt_cases 0 b) as [Hp|Hn].
  - apply (uint_lor 31 b x); [lia|split; lia|done].
  - pose proof (proj2 (Z.lor_neg b x) (or_introl Hn)). lia.
Qed.

Lemma rolled_bit g n : GpBits.wf g -> 0 <= n ->
  Z.testbit (Z.shiftl (GpBits.to_u16 g) 13) n = (13 <=? n) && (n <? 29) && Z.testbit (GpBits.to_u16 g) (n - 13).
Proof.
  intros Hg Hn. rewrite Z.shiftl_spec by done. destruct (gp_to_u16 g Hg) as [Hr _].
  destruct (Z.leb_spec 13 n); [|by rewrite Z.testbit_neg_r by lia]. simpl.
  destruct (Z.ltb_spec n 29); [done|]. by rewrite (testbit_high 16) by (done || lia).
Qed.

Lemma rolled_range g : GpBits.wf g -> uint 31 (Z.shiftl (GpBits.to_u16 g) 13).
Proof. intros Hg. destruct (gp_to_u16 g Hg) as [Hr _]. by apply (uint_shiftl 16 31). Qed.

Definition bits_of (mask : option Z) : GpBits.t :=
  match mask with Some m => GpBits.from_mask (be_bytes 4 m) | None => GpBits.none end.

(** The bits of the version a pool reconstructs from a rolled one. *)
Lemma pool_version_bit base mask g n :
  - 2 ^ 31 <= base < 2 ^ 31 -> (forall m, mask = Some m -> uint 32 m) -> GpBits.wf g -> 0 <= n < 29 ->
  Z.testbit (pool_version base mask (option_map (fun m => Z.land (wrap 32 (GpBits.apply_to_version g base)) m) mask)) n =
  Z.testbit base n || Z.testbit (Z.shiftl (GpBits.to_u16 g) 13) n && match mask with Some m => Z.testbit m n | None => false end.
Proof.
  intros Hb Hm Hg Hn. destruct mask as [m|]; simpl; [|by rewrite andb_false_r, orb_false_r].
  assert (Hsign : forall x k, 0 <= k < 31 -> Z.testbit (sign 32 x) k = Z.testbit x k).
  { intros x k Hk. unfold sign. destruct (_ <=? x); [|done].
    rewrite <- (Z.mod_pow2_bits_low (x - 2 ^ 32) 32) by lia. rewrite <- (Z.mod_pow2_bits_low x 32) by lia.
    f_equal. replace (x - 2 ^ 32) with (x + (-1) * 2 ^ 32) by lia. apply Z_mod_plus_full. }
  rewrite Hsign by lia. unfold GpBits.apply_to_version.
  rewrite Z.lor_spec, !Z.land_spec, Z.lxor_spec, !wrap_testbit, Z.lor_spec by lia.
  rewrite (proj2 (Z.ltb_lt n 32)) by lia. change (2 ^ 32 - 1) with (Z.ones 32). rewrite Z.ones_spec_low by lia.
  by destruct (Z.testbit base n), (Z.testbit m n), (Z.testbit (Z.shiftl _ 13) n).
Qed.

Lemma pool_version_rolled base mask g :
  - 2 ^ 31 <= base < 2 ^ 31 -> (forall m, mask = Some m -> uint 32 m) -> GpBits.wf g ->
  GpBits.contains (bits_of mask) g = true ->
  pool_version base mask (option_map (fun m => Z.land (wrap 32 (GpBits.apply_to_version g base)) m) mask) =
  GpBits.apply_to_version g base.
Proof.
  intros Hb Hm Hg Hc.
  assert (Hwf : GpBits.wf (bits_of mask)) by (destruct mask; [apply from_mask_wf|by vm_compute; intuition discriminate]).
  rewrite (contains_spec _ _ Hwf Hg) in Hc.
  assert (Hin : forall m n, mask = Some m -> 0 <= n -> Z.testbit (Z.shiftl (GpBits.to_u16 g) 13) n = true -> Z.testbit m n = true).
  { intros m n -> Hn Hr. rewrite rolled_bit in Hr by done. apply andb_prop in Hr as [Hr Ht]. apply andb_prop in Hr as [H1 H2].
    apply Hc in Ht; [|lia]. simpl in Ht. rewrite from_mask_bit in Ht by (auto || lia). by replace (n - 13 + 13) with n in Ht by lia. }
  unfold GpBits.apply_to_version at 2. destruct mask as [m|]; simpl.
  - rewrite <- (sign_wrap (Z.lor base _)) by (apply lor_i32; [done|by apply rolled_range]). f_equal.
    apply (uint_bits_eq 32); [lia| |by apply wrap_uint|].
    + apply uint_lor; [lia| |apply uint_land_r; [lia|by apply Hm]].
      rewrite Z.land_comm. apply uint_land_r; [lia|by apply wrap_uint].
    + intros n Hn. unfold GpBits.apply_to_version.
      rewrite Z.lor_spec, !Z.land_spec, Z.lxor_spec, !wrap_testbit, Z.lor_spec by lia.
      rewrite (proj2 (Z.ltb_lt n 32)) by lia. change (2 ^ 32 - 1) with (Z.ones 32). rewrite Z.ones_spec_low by lia. simpl.
      specialize (Hin m n eq_refl ltac:(lia)).
      destruct (Z.testbit (Z.shiftl _ 13) n); [rewrite Hin by done|]; by destruct (Z.testbit base n), (Z.testbit m n).
  - assert (Hz : GpBits.to_u16 g = 0).
    { apply (uint_bits_eq 16); [lia|apply (gp_to_u16 g Hg)|apply uint_0; lia|]. intros n Hn. rewrite Z.bits_0.
      destruct (Z.testbit (GpBits.to_u16 g) n) eqn:Ht; [|done]. apply Hc in Ht; [|done].
      change (GpBits.to_u16 (bits_of None)) with 0 in Ht. by rewrite Z.bits_0 in Ht. }
    rewrite Hz, Z.shiftl_0_l. by rewrite Z.lor_0_r.
Qed.

(** ** The way of a share *)
Section Way.
Context `{HH : HexSpec} `{B : Bitcoin} `{R : Ruint} `{P : BitcoinPow}.
Import Source.

(** A job [j] a source passed on as [tmpl], a thread's task on it with extranonce [e], and
    the share the thread made of nonce report [n]. *)
Record journey (src : Source.t) (st : SourceState) (j : JobNotification.t) (tmpl : JobTemplate)
    (a : actor) (n : Response.nonce_response) (task : HashThread.Task) (e : Extranonce.t) (s : Share) : Prop := {
  j_job : wf j;
  j_state : state src = Some st;
  j_mask : forall m, src_version_mask st = Some m -> uint 32 m;
  j_template : job_to_template src j = Some tmpl;
  j_known : ChipJobTracker.get (chip_jobs a) (Response.job_id n) = Some task;
  j_task : template (ht task) = tmpl;
  j_extranonce : task_extranonce (ht task) = Some e;
  j_width : Extranonce.wf e /\ Extranonce.width e = src_extranonce2_size st;
  j_time : uint 32 (task_ntime (ht task));
  j_report : uint 32 (Response.nonce n) /\ GpBits.wf (Response.version n);
  j_share : handle_nonce a n = Some [ShareSent (share_tx task) s] }.

(** The submission the source makes of the share. *)
Definition submission (src : Source.t) (tmpl : JobTemplate) (s : Share) : option SubmitParams.t :=
  share_to_submit_params src (source_share_from s (Job.job_id tmpl)).

Lemma template_fields src st j tmpl :
  state src = Some st -> job_to_template src j = Some tmpl ->
  exists range d, tmpl = MkJob (JobNotification.job_id j) (JobNotification.prev_hash j)
      (VersionTemplate.Mk (JobNotification.version j) (bits_of (src_version_mask st)))
      (JobNotification.nbits j) d (JobNotification.ntime j)
      (Computed (MerkleRootTemplate.Mk (JobNotification.coinbase1 j) (src_extranonce1 st) range
         (JobNotification.coinbase2 j) (JobNotification.merkle_branches j))) /\
    VersionTemplate.new (JobNotification.version j) (bits_of (src_version_mask st)) =
      Ok (VersionTemplate.Mk (JobNotification.version j) (bits_of (src_version_mask st))).
Proof.
  intros Hs. unfold job_to_template. rewrite Hs. simpl. destruct (ExtranonceRange.full _) as [range|]; [|done].
  fold (bits_of (src_version_mask st)).
  destruct (VersionTemplate.new _ _) as [v|] eqn:Hv; [|done]. intros [= <-].
  assert (v = VersionTemplate.Mk (JobNotification.version j) (bits_of (src_version_mask st))) as ->.
  { revert Hv. unfold VersionTemplate.new. case_match; congruence. }
  by eexists _, _.
Qed.

Lemma share_fields src st j tmpl a n task e s :
  journey src st j tmpl a n task e s ->
  exists root, job_merkle_root txid sha256d tmpl e = Some root /\
    let header := mined_header (job_of (ht task) (Response.job_id n) root) n in
    Job.nonce s = Response.nonce n /\ hash s = block_hash header /\ s_version s = h_version header /\
    Job.ntime s = task_ntime (ht task) /\ Job.extranonce s = Some e /\
    target_met_by (task_share_target (ht task)) (hash s) = true.
Proof.
  intros []. rewrite handle_nonce_eq, j_known0 in j_share0. simpl in j_share0. unfold task_root in j_share0.
  rewrite j_extranonce0 in j_share0. simpl in j_share0. rewrite j_task0 in j_share0.
  destruct (job_merkle_root txid sha256d tmpl e) as [root|]; [|done]. simpl in j_share0.
  destruct (target_met_by _ _) eqn:Hmet; [|done]. destruct (Log2Difficulty.to_work_of _); [|done].
  injection j_share0 as <-. exists root. by split_and!.
Qed.

Lemma submission_made src st j tmpl a n task e s :
  journey src st j tmpl a n task e s ->
  let p := SubmitParams.Mk (username (config src)) (JobNotification.job_id j) (Extranonce.bytes_of e)
    (task_ntime (ht task)) (Response.nonce n)
    (option_map (fun m => Z.land (wrap 32 (GpBits.apply_to_version (Response.version n) (JobNotification.version j))) m) (src_version_mask st)) in
  submission src tmpl s = Some p /\ submit_wf p /\
  (forall id, txid (pool_coinbase j (src_extranonce1 st) p) = id ->
     id ≫= (fun id => Some (fold_left (fun h b => sha256d (h ++ b)) (JobNotification.merkle_branches j) id)) =
     job_merkle_root txid sha256d tmpl e).
Proof.
  intros Hj p. destruct (share_fields _ _ _ _ _ _ _ _ _ Hj) as (root & Hroot & Hn & _ & Hv & Ht & He & _).
  destruct Hj. destruct (template_fields _ _ _ _ j_state0 j_template0) as (range & d & Htmpl & _).
  assert (Hver : s_version s = GpBits.apply_to_version (Response.version n) (JobNotification.version j)).
  { rewrite Hv. unfold mined_header, job_of. simpl. by rewrite j_task0, Htmpl. }
  refine (conj _ (conj _ _)).
  - unfold submission, share_to_submit_params. rewrite j_state0. simpl. rewrite He, Hn, Ht, Hver, Htmpl. done.
  - refine (conj _ (conj _ (conj _ _))); simpl; [by apply bytes_of_bytes; destruct j_width0|done|by destruct j_report0|].
    intros b Hb. destruct (src_version_mask st) as [m|] eqn:Hm; [|done]. injection Hb as <-.
    apply uint_land_r; [lia|by apply j_mask0].
  - intros id <-. rewrite Htmpl. unfold job_merkle_root. simpl.
    unfold MerkleRootTemplate.compute_merkle_root, MerkleRootTemplate.coinbase_bytes, Extranonce.extend_vec. simpl.
    unfold pool_coinbase. simpl. by rewrite <- !app_assoc.
Qed.

(** C1 The pool checks what the chip found.  Take a job a pool announced, the template the
    source made of it, a thread's task on it with some extranonce, and a share the
    thread made of a nonce report whose rolled version bits are inside the mask the
    pool granted.  The source makes a submission of it that survives the wire, names
    the pool's job and has an extranonce of the size the pool asked for; and the block
    header the pool rebuilds from its own job and this submission - coinbase, merkle
    root, version, time and nonce - is the very header the chip was mining and hashes
    to the hash of the share, which met the thread's target. *)
Theorem pool_checks_what_was_mined src st j tmpl a n task e s :
  journey src st j tmpl a n task e s ->
  GpBits.contains (VersionTemplate.gp_bits_mask (Job.version tmpl)) (Response.version n) = true ->
  exists p root header,
    submission src tmpl s = Some p /\ read_submit (SubmitParams.to_stratum_json p) = Some p /\
    SubmitParams.job_id p = JobNotification.job_id j /\
    Z.of_nat (length (SubmitParams.extranonce2 p)) = src_extranonce2_size st /\
    pool_header j (src_extranonce1 st) (src_version_mask st) p = Some header /\
    task_to_job_full (ht task) (Response.job_id n) = Ok (job_of (ht task) (Response.job_id n) root) /\
    header = mined_header (job_of (ht task) (Response.job_id n) root) n /\
    hash s = block_hash header /\ target_met_by (task_share_target (ht task)) (block_hash header) = true.
Proof.
  intros Hj Hc. destruct (submission_made _ _ _ _ _ _ _ _ _ Hj) as (Hsub & Hwf & Hroot').
  destruct (share_fields _ _ _ _ _ _ _ _ _ Hj) as (root & Hroot & _ & Hhash & _ & _ & _ & Hmet).
  destruct Hj. destruct (template_fields _ _ _ _ j_state0 j_template0) as (range & d & Htmpl & _).
  rewrite Htmpl in Hc. simpl in Hc.
  set (p := SubmitParams.Mk _ _ _ _ _ _) in *. specialize (Hroot' _ eq_refl). rewrite Hroot in Hroot'.
  exists p, root, (mined_header (job_of (ht task) (Response.job_id n) root) n).
  split_and!; [done|by apply read_submit_json|done| | | |done|done|by rewrite <- Hhash].
  - destruct j_width0 as [Hw <-]. simpl. rewrite bytes_of_length by done. unfold Extranonce.width_bytes. destruct Hw. lia.
  - unfold pool_header. destruct (txid (pool_coinbase _ _ p)) as [id|]; [|done]. simpl in Hroot'. injection Hroot' as Hid.
    simpl. rewrite Hid. unfold mined_header, job_of. simpl. rewrite j_task0, Htmpl. simpl.
    destruct j_job0 as (_ & _ & _ & _ & Hv & _). destruct j_report0 as [_ Hg].
    by rewrite (pool_version_rolled (JobNotification.version j) _ (Response.version n) Hv j_mask0 Hg Hc).
  - apply (proj2 (task_to_job_spec _ _ _)). exists root. split; [|done]. unfold task_root. rewrite j_extranonce0. simpl. by rewrite j_task0.
Qed.

(** A share rolled beyond the mask is wasted.  The chips are told to roll all sixteen
    version bits whatever the pool granted, and no one looks at the mask: if a report's
    bits go beyond it, the share is made and submitted all the same, but the header the
    pool rebuilds has another version than the one that was mined. *)
Theorem rolled_beyond_mask_wasted src st j tmpl a n task e s :
  journey src st j tmpl a n task e s ->
  GpBits.contains (VersionTemplate.gp_bits_mask (Job.version tmpl)) (Response.version n) = false ->
  exists p, submission src tmpl s = Some p /\
    forall header, pool_header j (src_extranonce1 st) (src_version_mask st) p = Some header ->
      h_version header <> s_version s.
Proof.
  intros Hj Hc. destruct (submission_made _ _ _ _ _ _ _ _ _ Hj) as (Hsub & _).
  destruct (share_fields _ _ _ _ _ _ _ _ _ Hj) as (root & _ & _ & _ & Hver & _).
  destruct Hj. destruct (template_fields _ _ _ _ j_state0 j_template0) as (range & d & Htmpl & Hnew).
  rewrite Htmpl in Hc. simpl in Hc. destruct j_job0 as (_ & _ & _ & _ & Hv & _). destruct j_report0 as [_ Hg].
  eexists. split; [exact Hsub|]. intros header. unfold pool_header. destruct (txid _) as [id|]; [|done].
  intros [= <-]. rewrite Hver. unfold mined_header, job_of. simpl. rewrite j_task0, Htmpl. simpl. intros Heq.
  assert (Hwf : GpBits.wf (bits_of (src_version_mask st)))
    by (destruct (src_version_mask st); [apply from_mask_wf|by vm_compute; intuition discriminate]).
  apply not_true_iff_false in Hc. apply Hc, (contains_spec _ _ Hwf Hg). intros k Hk Hbit.
  pose proof (pool_version_bit (JobNotification.version j) (src_version_mask st) (Response.version n) (k + 13) Hv j_mask0 Hg ltac:(lia)) as Hb.
  rewrite Heq in Hb. unfold GpBits.apply_to_version in Hb. rewrite Z.lor_spec in Hb.
  rewrite (template_base_clear _ _ _ (k + 13) Hnew) in Hb by lia.
  rewrite rolled_bit in Hb by (done || lia). replace (k + 13 - 13) with k in Hb by lia. rewrite Hbit in Hb.
  rewrite (proj2 (Z.leb_le 13 (k + 13))), (proj2 (Z.ltb_lt (k + 13) 29)) in Hb by lia. simpl in Hb.
  destruct (src_version_mask st) as [m|] eqn:Hm; [|done]. simpl. rewrite from_mask_bit by auto. by rewrite <- Hb.
Qed.
End Way.

(** ** One share's way, computed *)
Section Examples.
#[local] Existing Instance hex_ref.
#[local] Existing Instance bitcoin_ref.
#[local] Existing Instance ruint_ref.
#[local] Existing Instance pow_ref.

(** A subscribed source whose pool granted [mask]. *)
Definition pool_state (mask : Z) : SourceState := MkSource [8; 0; 0; 2] 4 None (Some mask).
Definition pool_source (mask : Z) : Source.t :=
  Source.with_state (Source.new (MkConfig "stratum+tcp://pool:3333" "user" "x" "mujina")) (Some (pool_state mask)).

(** The template of the job, less its range. *)
Definition pool_template (mask : Z) : JobTemplate :=
  match Source.job_to_template (pool_source mask) announced_ref with
  | Some t => t
  | None => template_ref (Fixed [])
  end.

Definition pool_task (mask : Z) : Task :=
  MkTask (Job.MkTask (pool_template mask) None (Some (Extranonce.Mk 7 4)) 1000 1700000000) 4.

Definition pool_actor (mask : Z) : actor :=
  Actor ChipConfig.bm1370 (Chain.Mk [] []) (Log2Difficulty.Mk 8) true (Some (pool_task mask))
    (ChipJobTracker.insert ChipJobTracker.new (pool_task mask)).2 true.

Definition pool_share : Share :=
  MkShare 5 [5] 0x20002000 1700000000 (Some (Extranonce.Mk 7 4)) (to_work 1000).

Lemma pool_journey mask : mask = 0x1fffe000 \/ mask = 0x4000 ->
  exists s, journey (pool_source mask) (pool_state mask) announced_ref (pool_template mask)
    (pool_actor mask) (report_ref 5) (pool_task mask) (Extranonce.Mk 7 4) s.
Proof.
  intros Hm.
  assert (H : exists s, handle_nonce (pool_actor mask) (report_ref 5) = Some [ShareSent 4 s])
    by (destruct Hm as [-> | ->]; eexists; vm_compute; reflexivity).
  destruct H as [s H]. exists s. constructor.
  - apply announced_ref_wf.
  - reflexivity.
  - intros m [= <-]. unfold uint. destruct Hm as [-> | ->]; lia.
  - destruct Hm as [-> | ->]; vm_compute; reflexivity.
  - reflexivity.
  - reflexivity.
  - reflexivity.
  - unfold Extranonce.wf, uint. simpl. repeat split; vm_compute; congruence.
  - unfold uint. simpl. lia.
  - unfold uint, GpBits.wf, uint. simpl. lia.
  - exact H.
Qed.

Lemma pool_checks_what_was_mined_witness : exists s p root header,
  submission (pool_source 0x1fffe000) (pool_template 0x1fffe000) s = Some p /\
  pool_header announced_ref [8; 0; 0; 2] (Some 0x1fffe000) p = Some header /\
  header = mined_header (job_of (ht (pool_task 0x1fffe000)) 0 root) (report_ref 5).
Proof.
  destruct (pool_journey 0x1fffe000 (or_introl eq_refl)) as [s Hj]. exists s.
  assert (Hc : GpBits.contains (VersionTemplate.gp_bits_mask (Job.version (pool_template 0x1fffe000)))
    (Response.version (report_ref 5)) = true) by (vm_compute; reflexivity).
  destruct (pool_checks_what_was_mined _ _ _ _ _ _ _ _ _ Hj Hc) as (p & root & header & H1 & _ & _ & _ & H2 & _ & H3 & _).
  exists p, root, header. split; [exact H1|]. split; [exact H2|exact H3].
Defined.

Lemma rolled_beyond_mask_wasted_witness : exists s p,
  submission (pool_source 0x4000) (pool_template 0x4000) s = Some p /\
  forall header, pool_header announced_ref [8; 0; 0; 2] (Some 0x4000) p = Some header -> h_version header <> s_version s.
Proof.
  destruct (pool_journey 0x4000 (or_intror eq_refl)) as [s Hj]. exists s.
  assert (Hc : GpBits.contains (VersionTemplate.gp_bits_mask (Job.version (pool_template 0x4000)))
    (Response.version (report_ref 5)) = false) by (vm_compute; reflexivity).
  exact (rolled_beyond_mask_wasted _ _ _ _ _ _ _ _ _ Hj Hc).
Defined.
End Examples.
