(* ===== verification/Pmbus.v ===== *)
(** * PMBus (peripheral/pmbus.rs, peripheral/pmbus/pmbus_types.rs)

    Commands, number formats, status bits and the texts that describe them.  Bit
    flags are masks; [f32] is [Float.f32].  Display of values is left out. *)
From stdpp Require Import base numbers list strings pretty.
From Stdlib Require Import ZArith Lia SpecFloat.
From S2P Require Import Prelude Float FloatExact Stratum.

Inductive PMBusError := InvalidDataFormat | ValueOutOfRange | CommandNotSupported | CommunicationError.

(** ** Commands *)
Module PmbusCommand.
Inductive t :=
| Page | Operation | OnOffConfig | ClearFaults | Phase | Capability | VoutMode | VoutCommand | VoutMax
| VoutMarginHigh | VoutMarginLow | VoutScaleLoop | VoutMin | FrequencySwitch | VinOn | VinOff | Interleave
| VoutOvFaultLimit | VoutOvWarnLimit | VoutUvWarnLimit | VoutUvFaultLimit | IoutOcFaultLimit
| IoutOcFaultResponse | IoutOcWarnLimit | OtFaultLimit | OtFaultResponse | OtWarnLimit | VinOvFaultLimit
| VinOvFaultResponse | VinUvWarnLimit | TonDelay | TonRise | TonMaxFaultLimit | TonMaxFaultResponse
| ToffDelay | ToffFall | StatusWord | StatusVout | StatusIout | StatusInput
| StatusTemperature | StatusCml | StatusOther | StatusMfrSpecific | ReadVin | ReadVout | ReadIout
| ReadTemperature1 | MfrId | MfrModel | MfrRevision | IcDeviceId | CompensationConfig | SyncConfig
| StackConfig | MiscOptions | PinDetectOverride | SlaveAddress | NvmChecksum | SimulateFault | FusionId0
| FusionId1.

(** The table of [define_pmbus_commands!]. *)
Definition METADATA : list (t * (Z * string * string)) :=
  [(Page, (0x00, "PAGE", "select page for multi-rail devices"));
   (Operation, (0x01, "OPERATION", "turn on/off control"));
   (OnOffConfig, (0x02, "ON_OFF_CONFIG", "on/off configuration"));
   (ClearFaults, (0x03, "CLEAR_FAULTS", "clears all fault status bits"));
   (Phase, (0x04, "PHASE", "phase selection"));
   (Capability, (0x19, "CAPABILITY", "device capability"));
   (VoutMode, (0x20, "VOUT_MODE", "output voltage data format"));
   (VoutCommand, (0x21, "VOUT_COMMAND", "commanded output voltage"));
   (VoutMax, (0x24, "VOUT_MAX", "maximum output voltage"));
   (VoutMarginHigh, (0x25, "VOUT_MARGIN_HIGH", "margin high voltage"));
   (VoutMarginLow, (0x26, "VOUT_MARGIN_LOW", "margin low voltage"));
   (VoutScaleLoop, (0x29, "VOUT_SCALE_LOOP", "scale loop compensation"));
   (VoutMin, (0x2B, "VOUT_MIN", "minimum output voltage"));
   (FrequencySwitch, (0x33, "FREQUENCY_SWITCH", "switching frequency"));
   (VinOn, (0x35, "VIN_ON", "input turn-on voltage"));
   (VinOff, (0x36, "VIN_OFF", "input turn-off voltage"));
   (Interleave, (0x37, "INTERLEAVE", "interleave configuration"));
   (VoutOvFaultLimit, (0x40, "VOUT_OV_FAULT_LIMIT", "output overvoltage fault limit"));
   (VoutOvWarnLimit, (0x42, "VOUT_OV_WARN_LIMIT", "output overvoltage warning limit"));
   (VoutUvWarnLimit, (0x43, "VOUT_UV_WARN_LIMIT", "output undervoltage warning limit"));
   (VoutUvFaultLimit, (0x44, "VOUT_UV_FAULT_LIMIT", "output undervoltage fault limit"));
   (IoutOcFaultLimit, (0x46, "IOUT_OC_FAULT_LIMIT", "output overcurrent fault limit"));
   (IoutOcFaultResponse, (0x47, "IOUT_OC_FAULT_RESPONSE", "output overcurrent fault response"));
   (IoutOcWarnLimit, (0x4A, "IOUT_OC_WARN_LIMIT", "output overcurrent warning limit"));
   (OtFaultLimit, (0x4F, "OT_FAULT_LIMIT", "overtemperature fault limit"));
   (OtFaultResponse, (0x50, "OT_FAULT_RESPONSE", "overtemperature fault response"));
   (OtWarnLimit, (0x51, "OT_WARN_LIMIT", "overtemperature warning limit"));
   (VinOvFaultLimit, (0x55, "VIN_OV_FAULT_LIMIT", "input overvoltage fault limit"));
   (VinOvFaultResponse, (0x56, "VIN_OV_FAULT_RESPONSE", "input overvoltage fault response"));
   (VinUvWarnLimit, (0x58, "VIN_UV_WARN_LIMIT", "input undervoltage warning limit"));
   (TonDelay, (0x60, "TON_DELAY", "turn-on delay"));
   (TonRise, (0x61, "TON_RISE", "turn-on rise time"));
   (TonMaxFaultLimit, (0x62, "TON_MAX_FAULT_LIMIT", "maximum turn-on time limit"));
   (TonMaxFaultResponse, (0x63, "TON_MAX_FAULT_RESPONSE", "maximum turn-on fault response"));
   (ToffDelay, (0x64, "TOFF_DELAY", "turn-off delay"));
   (ToffFall, (0x65, "TOFF_FALL", "turn-off fall time"));
   (StatusWord, (0x79, "STATUS_WORD", "status summary"));
   (StatusVout, (0x7A, "STATUS_VOUT", "output voltage status"));
   (StatusIout, (0x7B, "STATUS_IOUT", "output current status"));
   (StatusInput, (0x7C, "STATUS_INPUT", "input status"));
   (StatusTemperature, (0x7D, "STATUS_TEMPERATURE", "temperature status"));
   (StatusCml, (0x7E, "STATUS_CML", "communication/logic/memory status"));
   (StatusOther, (0x7F, "STATUS_OTHER", "other status"));
   (StatusMfrSpecific, (0x80, "STATUS_MFR_SPECIFIC", "manufacturer specific status"));
   (ReadVin, (0x88, "READ_VIN", "input voltage"));
   (ReadVout, (0x8B, "READ_VOUT", "output voltage"));
   (ReadIout, (0x8C, "READ_IOUT", "output current"));
   (ReadTemperature1, (0x8D, "READ_TEMPERATURE_1", "temperature 1"));
   (MfrId, (0x99, "MFR_ID", "manufacturer ID"));
   (MfrModel, (0x9A, "MFR_MODEL", "manufacturer model"));
   (MfrRevision, (0x9B, "MFR_REVISION", "manufacturer revision"));
   (IcDeviceId, (0xAD, "IC_DEVICE_ID", "IC device ID"));
   (CompensationConfig, (0xB1, "COMPENSATION_CONFIG", "compensation configuration"));
   (SyncConfig, (0xE4, "SYNC_CONFIG", "synchronization configuration"));
   (StackConfig, (0xEC, "STACK_CONFIG", "stacking configuration"));
   (MiscOptions, (0xED, "MISC_OPTIONS", "miscellaneous options"));
   (PinDetectOverride, (0xEE, "PIN_DETECT_OVERRIDE", "pin detect override"));
   (SlaveAddress, (0xEF, "SLAVE_ADDRESS", "slave address"));
   (NvmChecksum, (0xF0, "NVM_CHECKSUM", "NVM checksum"));
   (SimulateFault, (0xF1, "SIMULATE_FAULT", "simulate fault"));
   (FusionId0, (0xFC, "FUSION_ID0", "fusion ID 0"));
   (FusionId1, (0xFD, "FUSION_ID1", "fusion ID 1"))]%string.

#[export] Instance command_eq_dec : EqDecision t.
Proof. solve_decision. Defined.

(** [self as u8]: the discriminant of the variant. *)
Definition as_u8 (c : t) : Z :=
  default 0 (option_map (fun e => e.2.1.1) (head (base.filter (fun e => e.1 = c) METADATA))).
Definition name (c : t) : string :=
  default "UNKNOWN"%string (option_map (fun e => e.2.1.2) (head (base.filter (fun e => e.2.1.1 = as_u8 c) METADATA))).
Definition description (c : t) : string :=
  default "unknown command"%string (option_map (fun e => e.2.2) (head (base.filter (fun e => e.2.1.1 = as_u8 c) METADATA))).
End PmbusCommand.

(** ** Number formats *)

(** Sign extension of five bits; the result is an [i8]. *)
Definition extract_5bit_exponent (raw_exp : Z) : Z :=
  if negb (Z.land raw_exp 0x10 =? 0) then sign 8 (Z.lor raw_exp 0xE0) else sign 8 raw_exp.

(** [f32::MAX]. *)
Definition f32_max : float := S754_finite false (2 ^ 24 - 1)%positive 104.
(** [-16i8..=15]. *)
Definition exponents : list Z := seqZ (-16) 32.

Module linear11.
Definition to_float (value : Z) : float :=
  let exponent := extract_5bit_exponent (Z.land (Z.shiftr value 11) 0x1F) in
  let mant_raw := Z.land value 0x07FF in
  let mantissa := if negb (Z.land mant_raw 0x0400 =? 0) then sign 16 (Z.lor mant_raw 0xF800) else mant_raw in
  f_mul f32 (f_of_Z f32 mantissa) (f_pow2 f32 exponent).

Definition to_float_unsigned (value : Z) : float :=
  let exponent := extract_5bit_exponent (Z.land (Z.shiftr value 11) 0x1F) in
  f_mul f32 (f_of_Z f32 (Z.land value 0x07FF)) (f_pow2 f32 exponent).

(** One exponent of the search for the closest encoding. *)
Definition try_exponent (lo hi value : float) (best : Z * float) (exp : Z) : Z * float :=
  let mantissa_f := f_div f32 value (f_pow2 f32 exp) in
  if f_le lo mantissa_f && f_lt mantissa_f hi then
    let mantissa := f_to_int 32 (f_round f32 mantissa_f) in
    let reconstructed := f_mul f32 (f_of_Z f32 mantissa) (f_pow2 f32 exp) in
    let error := f_abs (f_sub f32 reconstructed value) in
    if f_lt error best.2 then (exp, error) else best
  else best.

Definition from_float (value : float) : Z :=
  if f_eq value (S754_zero false) then 0
  else
    let best_exp := (fold_left (try_exponent (f_of_Z f32 (-1024)) (f_of_Z f32 1024) value) exponents (0, f32_max)).1 in
    let mantissa := f_to_int 32 (f_round f32 (f_div f32 value (f_pow2 f32 best_exp))) in
    let exp_bits := Z.land (wrap 16 best_exp) 0x1F in
    let mant_bits := Z.land (wrap 16 mantissa) 0x07FF in
    Z.lor (wrap 16 (Z.shiftl exp_bits 11)) mant_bits.
End linear11.

(** The counts of a voltage at an exponent, shared by both forms of ULINEAR16. *)
Definition encode_counts (value : float) (exponent : Z) : result PMBusError Z :=
  let mantissa := f_round f32 (f_div f32 value (f_pow2 f32 exponent)) in
  if f_lt mantissa (S754_zero false) || f_lt (f_of_Z f32 0xFFFF) mantissa then Err ValueOutOfRange
  else Ok (f_to_uint 16 mantissa).

Module linear16.
Definition to_float (value vout_mode : Z) : float :=
  f_mul f32 (f_of_Z f32 value) (f_pow2 f32 (extract_5bit_exponent (Z.land vout_mode 0x1F))).
Definition from_float (value : float) (vout_mode : Z) : result PMBusError Z :=
  encode_counts value (extract_5bit_exponent (Z.land vout_mode 0x1F)).
End linear16.

(** ** Typed formats (pmbus_types.rs) *)
Inductive VoutModeFormat := Linear | Vid | Direct | Ieee754Half | Reserved (mode : Z).

Module VoutMode.
Definition exponent (raw : Z) : Z := extract_5bit_exponent (Z.land raw 0x1F).
Definition is_tps546_format (raw : Z) : bool :=
  (Z.land (Z.shiftr raw 5) 0x03 =? 0) && ((-12 <=? exponent raw) && (exponent raw <=? -4)).
Definition mode (raw : Z) : VoutModeFormat :=
  if is_tps546_format raw then Linear
  else
    let mode := Z.land (Z.shiftr raw 5) 0x07 in
    if mode =? 0 then Linear else if mode =? 1 then Vid else if mode =? 2 then Direct
    else if mode =? 3 then Ieee754Half else Reserved mode.
Definition is_relative (raw : Z) : bool := negb (Z.land raw 0x80 =? 0).
Definition decode_linear16 (raw value : Z) : float := f_mul f32 (f_of_Z f32 value) (f_pow2 f32 (exponent raw)).
Definition encode_linear16 (raw : Z) (volts : float) : result PMBusError Z := encode_counts volts (exponent raw).
End VoutMode.

Module Linear11.
Definition to_f32 (raw : Z) : float :=
  let exponent := extract_5bit_exponent (Z.land (Z.shiftr raw 11) 0x1F) in
  f_mul f32 (f_of_Z f32 (Z.land raw 0x07FF)) (f_pow2 f32 exponent).

Definition try_exponent (value : float) (best : Z * float) (exp : Z) : Z * float :=
  let mantissa_f := f_div f32 value (f_pow2 f32 exp) in
  if f_le (S754_zero false) mantissa_f && f_lt mantissa_f (f_of_Z f32 2048) then
    let mantissa := f_to_uint 32 (f_round f32 mantissa_f) in
    let reconstructed := f_mul f32 (f_of_Z f32 mantissa) (f_pow2 f32 exp) in
    let error := f_abs (f_sub f32 reconstructed value) in
    if f_lt error best.2 then (exp, error) else best
  else best.

Definition from_f32 (value : float) : result PMBusError Z :=
  if f_eq value (S754_zero false) then Ok 0
  else
    let best_exp := (fold_left (try_exponent value) exponents (0, f32_max)).1 in
    let mantissa := f_to_uint 32 (f_round f32 (f_div f32 value (f_pow2 f32 best_exp))) in
    if 0x07FF <? mantissa then Err ValueOutOfRange
    else
      let exp_bits := Z.land (wrap 16 best_exp) 0x1F in
      let mant_bits := wrap 16 (Z.land mantissa 0x07FF) in
      Ok (Z.lor (wrap 16 (Z.shiftl exp_bits 11)) mant_bits).
End Linear11.

Module Linear16.
Record t := Mk { value : Z; mode : Z }.
Definition to_f32 (l : t) : float := VoutMode.decode_linear16 (mode l) (value l).
Definition from_f32 (volts : float) (mode : Z) : result PMBusError t :=
  match VoutMode.encode_linear16 mode volts with Ok v => Ok (Mk v mode) | Err e => Err e end.
End Linear16.

Definition ok {E A} (r : result E A) : option A := match r with Ok a => Some a | Err _ => None end.

(** Values with the format they came in. *)
Module PmbusVoltage.
Inductive t := L11 (raw : Z) | L16 (l : Linear16.t) | Direct (v : float).
Definition from_linear11 (value : Z) : t := L11 value.
Definition from_linear16 (value vout_mode : Z) : t := L16 (Linear16.Mk value vout_mode).
Definition value (v : t) : float :=
  match v with L11 l => Linear11.to_f32 l | L16 l => Linear16.to_f32 l | Direct x => x end.
Definition to_linear11 (v : t) : option Z :=
  match v with L11 l => Some l | _ => ok (Linear11.from_f32 (value v)) end.
Definition to_linear16 (v : t) (vout_mode : Z) : option Linear16.t :=
  match v with
  | L16 l => if Linear16.mode l =? vout_mode then Some l else ok (Linear16.from_f32 (value v) vout_mode)
  | _ => ok (Linear16.from_f32 (value v) vout_mode)
  end.
End PmbusVoltage.

Module PmbusCurrent.
Inductive t := L11 (raw : Z) | Direct (v : float).
Definition value (v : t) : float := match v with L11 l => Linear11.to_f32 l | Direct x => x end.
Definition to_linear11 (v : t) : option Z :=
  match v with L11 l => Some l | Direct x => ok (Linear11.from_f32 x) end.
End PmbusCurrent.

Module PmbusTemperature.
Inductive t := L11 (raw : Z) | Direct (v : float).
Definition value (v : t) : float := match v with L11 l => Linear11.to_f32 l | Direct x => x end.
Definition to_linear11 (v : t) : option Z :=
  match v with L11 l => Some l | Direct x => ok (Linear11.from_f32 x) end.
End PmbusTemperature.

Module PmbusFrequency.
Definition from_linear11 (value : Z) : float := linear11.to_float value.
End PmbusFrequency.

Module PmbusTime.
Definition from_linear11 (value : Z) : float := linear11.to_float value.
End PmbusTime.

(** ** Status bits *)

(** Flags as masks; [from_bits_truncate] drops the bits without a name. *)
Definition contains (flags flag : Z) : bool := Z.land flags flag =? flag.
Definition intersects (flags other : Z) : bool := negb (Z.land flags other =? 0).

Module StatusWord.
Definition VOUT := 0x8000.
Definition IOUT := 0x4000.
Definition INPUT := 0x2000.
Definition MFR := 0x1000.
Definition PGOOD := 0x0800.
Definition FANS := 0x0400.
Definition OTHER := 0x0200.
Definition UNKNOWN := 0x0100.
Definition BUSY := 0x0080.
Definition OFF := 0x0040.
Definition VOUT_OV := 0x0020.
Definition IOUT_OC := 0x0010.
Definition VIN_UV := 0x0008.
Definition TEMP := 0x0004.
Definition CML := 0x0002.
Definition NONE := 0x0001.
Definition from_bits_truncate (bits : Z) : Z := Z.land bits 0xFFFF.
End StatusWord.

Module StatusVout.
Definition VOUT_OV_FAULT := 0x80.
Definition VOUT_OV_WARN := 0x40.
Definition VOUT_UV_WARN := 0x20.
Definition VOUT_UV_FAULT := 0x10.
Definition VOUT_MAX := 0x08.
Definition TON_MAX_FAULT := 0x02.
Definition VOUT_MIN := 0x01.
Definition from_bits_truncate (bits : Z) : Z := Z.land bits 0xFB.
End StatusVout.

Module StatusIout.
Definition IOUT_OC_FAULT := 0x80.
Definition IOUT_OC_LV_FAULT := 0x40.
Definition IOUT_OC_WARN := 0x20.
Definition IOUT_UC_FAULT := 0x10.
Definition CURR_SHARE_FAULT := 0x08.
Definition IN_PWR_LIM := 0x04.
Definition POUT_OP_FAULT := 0x02.
Definition POUT_OP_WARN := 0x01.
Definition from_bits_truncate (bits : Z) : Z := Z.land bits 0xFF.
End StatusIout.

Module StatusInput.
Definition VIN_OV_FAULT := 0x80.
Definition VIN_OV_WARN := 0x40.
Definition VIN_UV_WARN := 0x20.
Definition VIN_UV_FAULT := 0x10.
Definition UNIT_OFF_VIN_LOW := 0x08.
Definition IIN_OC_FAULT := 0x04.
Definition IIN_OC_WARN := 0x02.
Definition PIN_OP_WARN := 0x01.
Definition from_bits_truncate (bits : Z) : Z := Z.land bits 0xFF.
End StatusInput.

Module StatusTemperature.
Definition OT_FAULT := 0x80.
Definition OT_WARN := 0x40.
Definition UT_WARN := 0x20.
Definition UT_FAULT := 0x10.
Definition from_bits_truncate (bits : Z) : Z := Z.land bits 0xF0.
End StatusTemperature.

Module StatusCml.
Definition INVALID_CMD := 0x80.
Definition INVALID_DATA := 0x40.
Definition PEC_FAULT := 0x20.
Definition MEMORY_FAULT := 0x10.
Definition PROCESSOR_FAULT := 0x08.
Definition OTHER_COMM_FAULT := 0x02.
Definition OTHER_MEM_LOGIC := 0x01.
Definition from_bits_truncate (bits : Z) : Z := Z.land bits 0xFB.
End StatusCml.

Module OnOffConfig.
Definition PU := 0x10.
Definition CMD := 0x08.
Definition CP := 0x04.
Definition POLARITY := 0x02.
Definition DELAY := 0x01.
Definition from_bits_truncate (bits : Z) : Z := Z.land bits 0x1F.
End OnOffConfig.

Module Operation.
Inductive t := OffImmediate | MarginLow | MarginHigh | SoftOff | On | OnMarginLow | OnMarginHigh.
Definition as_u8 (o : t) : Z :=
  match o with
  | OffImmediate => 0x00 | MarginLow => 0x18 | MarginHigh => 0x28 | SoftOff => 0x40
  | On => 0x80 | OnMarginLow => 0x98 | OnMarginHigh => 0xA8
  end.
Definition try_from (value : Z) : result PMBusError t :=
  if value =? 0x00 then Ok OffImmediate
  else if value =? 0x18 then Ok MarginLow
  else if value =? 0x28 then Ok MarginHigh
  else if value =? 0x40 then Ok SoftOff
  else if value =? 0x80 then Ok On
  else if value =? 0x98 then Ok OnMarginLow
  else if value =? 0xA8 then Ok OnMarginHigh
  else Err InvalidDataFormat.
End Operation.

(** ** Descriptions *)
Module StatusDecoder.
(** [decode_status_flags!]. *)
Definition described (flags : Z) (table : list (Z * string)) : list string :=
  map snd (base.filter (fun e => contains flags e.1 = true) table).

Definition decode_status_word (status : Z) : list string :=
  let flags := StatusWord.from_bits_truncate status in
  let desc := described flags
    [(StatusWord.VOUT, "VOUT fault/warning"); (StatusWord.IOUT, "IOUT fault/warning");
     (StatusWord.INPUT, "INPUT fault/warning"); (StatusWord.MFR, "MFR specific");
     (StatusWord.PGOOD, "PGOOD"); (StatusWord.FANS, "FAN fault/warning"); (StatusWord.OTHER, "OTHER");
     (StatusWord.UNKNOWN, "UNKNOWN"); (StatusWord.BUSY, "BUSY"); (StatusWord.OFF, "OFF");
     (StatusWord.VOUT_OV, "VOUT_OV fault"); (StatusWord.IOUT_OC, "IOUT_OC fault");
     (StatusWord.VIN_UV, "VIN_UV fault"); (StatusWord.TEMP, "TEMP fault/warning");
     (StatusWord.CML, "CML fault")]%string in
  if contains flags StatusWord.NONE && bool_decide (desc = []) then desc ++ ["NONE_OF_THE_ABOVE"%string] else desc.

Definition decode_status_vout (status : Z) : list string :=
  described (StatusVout.from_bits_truncate status)
    [(StatusVout.VOUT_OV_FAULT, "OV fault"); (StatusVout.VOUT_OV_WARN, "OV warning");
     (StatusVout.VOUT_UV_WARN, "UV warning"); (StatusVout.VOUT_UV_FAULT, "UV fault");
     (StatusVout.VOUT_MAX, "at MAX"); (StatusVout.TON_MAX_FAULT, "failed to start");
     (StatusVout.VOUT_MIN, "at MIN")]%string.

Definition decode_status_iout (status : Z) : list string :=
  described (StatusIout.from_bits_truncate status)
    [(StatusIout.IOUT_OC_FAULT, "OC fault"); (StatusIout.IOUT_OC_LV_FAULT, "OC+LV fault");
     (StatusIout.IOUT_OC_WARN, "OC warning"); (StatusIout.IOUT_UC_FAULT, "UC fault");
     (StatusIout.CURR_SHARE_FAULT, "current share fault"); (StatusIout.IN_PWR_LIM, "power limiting");
     (StatusIout.POUT_OP_FAULT, "overpower fault"); (StatusIout.POUT_OP_WARN, "overpower warning")]%string.

Definition decode_status_input (status : Z) : list string :=
  described (StatusInput.from_bits_truncate status)
    [(StatusInput.VIN_OV_FAULT, "VIN OV fault"); (StatusInput.VIN_OV_WARN, "VIN OV warning");
     (StatusInput.VIN_UV_WARN, "VIN UV warning"); (StatusInput.VIN_UV_FAULT, "VIN UV fault");
     (StatusInput.UNIT_OFF_VIN_LOW, "off due to low VIN"); (StatusInput.IIN_OC_FAULT, "IIN OC fault");
     (StatusInput.IIN_OC_WARN, "IIN OC warning"); (StatusInput.PIN_OP_WARN, "input overpower warning")]%string.

Definition decode_status_temp (status : Z) : list string :=
  described (StatusTemperature.from_bits_truncate status)
    [(StatusTemperature.OT_FAULT, "overtemp fault"); (StatusTemperature.OT_WARN, "overtemp warning");
     (StatusTemperature.UT_WARN, "undertemp warning"); (StatusTemperature.UT_FAULT, "undertemp fault")]%string.

Definition decode_status_cml (status : Z) : list string :=
  described (StatusCml.from_bits_truncate status)
    [(StatusCml.INVALID_CMD, "invalid command"); (StatusCml.INVALID_DATA, "invalid data");
     (StatusCml.PEC_FAULT, "PEC error"); (StatusCml.MEMORY_FAULT, "memory fault");
     (StatusCml.PROCESSOR_FAULT, "processor fault"); (StatusCml.OTHER_COMM_FAULT, "other comm fault");
     (StatusCml.OTHER_MEM_LOGIC, "other mem/logic fault")]%string.

Definition decode_on_off_config (value : Z) : list string :=
  described (OnOffConfig.from_bits_truncate value)
    [(OnOffConfig.PU, "power up from CONTROL pin"); (OnOffConfig.CMD, "OPERATION command enabled");
     (OnOffConfig.CP, "CONTROL pin present"); (OnOffConfig.POLARITY, "CONTROL active high");
     (OnOffConfig.DELAY, "turn-off delay enabled")]%string.

(** Texts of [format!]: decimals and hexadecimals of fixed width. *)
Definition join (sep : string) (l : list string) : string :=
  match l with [] => EmptyString | x :: l => fold_left (fun acc y => acc +:+ sep +:+ y)%string l x end.

Definition decode_fault_response (response : Z) : string :=
  let response_type := Z.land (Z.shiftr response 6) 0x03 in
  let retry_count := Z.land (Z.shiftr response 3) 0x07 in
  let delay_time := Z.land response 0x07 in
  let response_desc :=
    (if (response_type =? 0)%Z then "ignore" else if (response_type =? 1)%Z then "delayed shutdown"
     else if (response_type =? 2)%Z then "immediate shutdown" else "special shutdown")%string in
  let retries_desc :=
    (if (retry_count =? 0)%Z then "no retries (latch off)"
     else if (retry_count <=? 6)%Z then pretty retry_count +:+ " retries" else "infinite retries")%string in
  let delay_desc :=
    (if (delay_time <=? 1)%Z then "TON_RISE delay" else pretty delay_time +:+ " x TON_RISE delay")%string in
  if (response_type =? 0)%Z then response_desc
  else (response_desc +:+ ", " +:+ retries_desc +:+ ", " +:+ delay_desc)%string.

Definition decode_operation (value : Z) : string :=
  match Operation.try_from value with
  | Ok Operation.OffImmediate => "OFF immediate"
  | Ok Operation.MarginLow => "margin low test"
  | Ok Operation.MarginHigh => "margin high test"
  | Ok Operation.SoftOff => "soft off (with delay)"
  | Ok Operation.On => "ON"
  | Ok Operation.OnMarginLow => "ON with margin low"
  | Ok Operation.OnMarginHigh => "ON with margin high"
  | Err _ => "unknown (0x" +:+ hex_text 2 value +:+ ")"
  end%string.

(** A printable id, without the spaces around it. *)
Definition is_printable (b : Z) : bool := (0x21 <=? b) && (b <=? 0x7E) || (b =? 0x20).
Fixpoint trim_start (l : list Z) : list Z :=
  match l with b :: l' => if b =? 0x20 then trim_start l' else l | [] => [] end.
Definition trim (l : list Z) : list Z := rev (trim_start (rev (trim_start l))).
Definition text (l : list Z) : string := String.string_of_list_ascii (map (fun b => Ascii.ascii_of_nat (Z.to_nat b)) l).

Definition decode_device_id (data : list Z) : string :=
  let id_bytes :=
    match data with
    | first :: rest => if (6 <? length data)%nat && (first =? Z.of_nat (length data) - 1) then rest else data
    | [] => data
    end in
  if (6 <=? length id_bytes)%nat then
    let id_slice := take 6 id_bytes in
    if bool_decide (id_slice = [0x54; 0x49; 0x54; 0x6B; 0x24; 0x41]) ||
       bool_decide (id_slice = [0x54; 0x49; 0x54; 0x6D; 0x24; 0x41]) then "TPS546D24A"%string
    else if bool_decide (id_slice = [0x54; 0x49; 0x54; 0x6D; 0x24; 0x62]) then "TPS546D24S"%string
    else if forallb is_printable id_slice then ("unknown device: " +:+ text (trim id_slice))%string
    else "unknown device"%string
  else "invalid ID length"%string.

Definition decode_phase (value : Z) : string :=
  (if (value =? 0xFF)%Z then "all phases" else if (value <=? 7)%Z then "phase " +:+ pretty value
   else "invalid phase (0x" +:+ hex_text 2 value +:+ ")")%string.

Definition decode_page (value : Z) : string :=
  (if (value =? 0)%Z then "page 0 (main rail)" else if (value <=? 0x1F)%Z then "page " +:+ pretty value +:+ " (aux rail)"
   else "invalid page (0x" +:+ hex_text 2 value +:+ ")")%string.

Definition decode_vout_mode (value : Z) : string :=
  let rel_field := Z.land (Z.shiftr value 7) 0x01 in
  let exp_signed := extract_5bit_exponent (Z.land value 0x1F) in
  if (Z.land (Z.shiftr value 5) 0x03 =? 0) && ((-12 <=? exp_signed) && (exp_signed <=? -4)) then
    ((if (rel_field =? 1)%Z then "relative" else "absolute") +:+ ", ULINEAR16, ^" +:+ pretty exp_signed)%string
  else
    let mode := Z.land (Z.shiftr value 5) 0x07 in
    (if (mode =? 0)%Z then "Linear format, exponent " +:+ pretty exp_signed
     else if (mode =? 1)%Z then "VID format, exponent " +:+ pretty exp_signed
     else if (mode =? 2)%Z then "Direct format, exponent " +:+ pretty exp_signed
     else if (mode =? 3)%Z then "IEEE754 half precision"
     else "reserved mode " +:+ pretty mode +:+ " (0x" +:+ hex_text 2 value +:+ ")")%string.

Definition decode_capability (value : Z) : list string :=
  let version := Z.land value 0x0F in
  (if negb (Z.land value 0x80 =? 0) then ["PEC supported"%string] else []) ++
  [if negb (Z.land value 0x40 =? 0) then "400kHz max"%string else "100kHz max"%string] ++
  (if negb (Z.land value 0x20 =? 0) then ["SMBALERT supported"%string] else []) ++
  (if negb (Z.land value 0x10 =? 0) then ["Bus info command"%string] else []) ++
  [if version =? 1 then "PMBus v1.0"%string else if version =? 2 then "PMBus v1.1"%string
   else if version =? 3 then "PMBus v1.2"%string else if version =? 4 then "PMBus v1.3"%string
   else "unknown version"%string].

Definition decode_stack_config (value : Z) : string :=
  let position := Z.land (Z.shiftr value 8) 0xFF in
  let total := Z.land value 0xFF in
  (if ((position =? 0)%Z && (total =? 0)%Z)%bool then "not stacked"
   else if ((position =? 0)%Z || (total =? 0)%Z)%bool then
     "invalid stacking (pos=" +:+ pretty position +:+ ", total=" +:+ pretty total +:+ ")"
   else "position " +:+ pretty position +:+ " of " +:+ pretty total +:+ " in stack")%string.

Definition decode_interleave (value : Z) : string :=
  let phase_count := Z.land (Z.shiftr value 8) 0xFF in
  let phase_offset := Z.land value 0xFF in
  (if (phase_count <=? 1)%Z then "no interleaving"
   else pretty phase_count +:+ " phases, offset " +:+ pretty phase_offset)%string.

Definition decode_sync_config (value : Z) : string :=
  let sync_out := Z.land (Z.shiftr value 4) 0x0F in
  let sync_in := Z.land value 0x0F in
  ("out: " +:+ (if (sync_out =? 0)%Z then "disabled" else if (sync_out =? 1)%Z then "master" else "reserved") +:+
   ", in: " +:+ (if (sync_in =? 0)%Z then "disabled" else if (sync_in =? 1)%Z then "slave" else "reserved"))%string.

Definition decode_compensation_config (data : list Z) : string :=
  match data with
  | [] => "no data"%string
  | first :: rest =>
      let config_data := if (1 <? length data)%nat && (first =? Z.of_nat (length data) - 1) then rest else data in
      (if (2 <=? length config_data)%nat then
         "coefficients: [" +:+ join ", " (map (hex_text 2) config_data) +:+ "]"
       else "insufficient data")%string
  end.

Definition decode_pin_detect_override (value : Z) : string :=
  (if (value =? 0xFFFF)%Z then "auto-detect all pins" else if (value =? 0)%Z then "override all pins"
   else "mixed config (0x" +:+ hex_text 4 value +:+ ")")%string.
End StatusDecoder.
