(* ===== verification/PmbusProps.v ===== *)
(** * PMBus number formats: what the encoders promise *)
From stdpp Require Import base numbers list strings.
From Stdlib Require Import ZArith Lia SpecFloat.
From S2P Require Import Prelude Float FloatExact Pmbus.

Abbreviation normal := (FloatExact.normal f32).
Lemma f32_format : 1 < prec f32 /\ prec f32 + 1 < emax f32.
Proof. by vm_compute. Qed.

(** Exponents are five-bit two's complement. *)
Lemma exponent_range x : uint 5 x -> -16 <= extract_5bit_exponent x <= 15.
Proof.
  intros Hx. assert (H : forallb (fun x => (-16 <=? extract_5bit_exponent x) && (extract_5bit_exponent x <=? 15)) (seqZ 0 32) = true)
    by (vm_compute; reflexivity).
  rewrite forallb_forall in H. specialize (H x). apply andb_prop in H; [lia|].
  apply list_elem_of_In, elem_of_seqZ. unfold uint in Hx. lia.
Qed.

Lemma mode_exponent_range raw : -16 <= VoutMode.exponent raw <= 15.
Proof.
  apply exponent_range. change 0x1F with (Z.ones 5). rewrite Z.land_ones by lia. apply Z.mod_pos_bound. lia.
Qed.

Lemma f32_digits c : 0 < c < 2 ^ 24 -> exists n, c = Z.pos n /\ digits n <= 24.
Proof.
  intros Hc. destruct c as [|n|n]; try lia. exists n. split; [done|].
  destruct (Z.le_gt_cases (digits n) 24); [done|]. pose proof (digits_bounds n).
  assert (2 ^ 24 <= 2 ^ (digits n - 1)) by (apply Z.pow_le_mono_r; lia). lia.
Qed.

(** ** Counts *)

(** A count scaled by a power of two, exactly. *)
Lemma scaled_count c k : 0 < c < 2 ^ 24 -> -16 <= k <= 15 ->
  exists m e, normal m e /\ -23 <= e <= 0 /\ f_of_Z f32 c = S754_finite false m e /\
    f_mul f32 (f_of_Z f32 c) (f_pow2 f32 k) = S754_finite false m (e + k) /\
    f_div f32 (S754_finite false m (e + k)) (f_pow2 f32 k) = f_of_Z f32 c /\
    Z.pos m = c * 2 ^ (- e).
Proof.
  intros Hc Hk. destruct (f32_digits c Hc) as (n & -> & Hd).
  destruct (f_of_Z_exact f32 f32_format n Hd) as (m & Hm & Hn & Hp & _). rewrite Hp.
  pose proof (Pos2Z.is_pos (digits2_pos n)).
  assert (He : -23 <= digits n - 24 <= 0) by lia. change (digits n - prec f32) with (digits n - 24) in *.
  assert (Hn' : normal m (digits n - 24 + k)).
  { destruct Hn as [Hdm _]. split; [done|]. unfold emin, f32. simpl. lia. }
  assert (Hp2 : emin (prec f32) (emax f32) <= k + 1 - prec f32 <= emax f32 - prec f32) by (unfold emin, f32; simpl; lia).
  exists m, (digits n - 24). refine (conj Hn (conj He (conj eq_refl (conj _ (conj _ _))))).
  - by apply mul_pow2; [apply f32_format|..].
  - rewrite div_pow2; [f_equal; lia|apply f32_format|done| | |done].
    + by replace (digits n - 24 + k - k) with (digits n - 24) by lia.
    + unfold emin, f32. simpl. lia.
  - rewrite Hm. do 2 f_equal. change (prec f32) with 24. lia.
Qed.

(** The counts of an exact multiple. *)
Lemma encode_counts_exact c k : 0 <= c < 2 ^ 16 -> -16 <= k <= 15 ->
  encode_counts (f_mul f32 (f_of_Z f32 c) (f_pow2 f32 k)) k = Ok c.
Proof.
  intros Hc Hk. destruct (Z.eq_dec c 0) as [->|Hz].
  { assert (H : forallb (fun k => match encode_counts (f_mul f32 (f_of_Z f32 0) (f_pow2 f32 k)) k with
                                  | Ok c => c =? 0 | Err _ => false end) exponents = true)
      by (vm_compute; reflexivity).
    rewrite forallb_forall in H. specialize (H k). destruct (encode_counts _ _) as [c|];
      [f_equal; apply Z.eqb_eq, H|discriminate H]; apply list_elem_of_In, elem_of_seqZ; lia. }
  destruct (scaled_count c k ltac:(lia) Hk) as (m & e & _ & _ & _ & -> & Hd & _).
  unfold encode_counts. rewrite Hd. destruct (f32_digits c ltac:(lia)) as (n & -> & Hn).
  rewrite round_of_Z, to_uint_of_Z by (done || apply f32_format).
  assert (Hneg : f_lt (f_of_Z f32 (Z.pos n)) (S754_zero false) = false)
    by (destruct (f_of_Z_exact f32 f32_format n Hn) as (? & _ & _ & -> & _); reflexivity).
  rewrite Hneg. change (f_of_Z f32 0xFFFF) with (f_of_Z f32 (Z.pos 0xFFFF)).
  rewrite f_lt_of_Z by (try apply f32_format; done). simpl.
  rewrite (proj2 (Z.ltb_ge _ _)) by lia. f_equal. lia.
Qed.

(** ** SLINEAR11 *)
Definition signed (b : bool) (c : Z) : Z := if b then - c else c.

(** A canonical float that is a small integer is that integer converted. *)
Lemma f_of_Z_unique b c m e : 0 < c < 2 ^ 24 -> normal m e -> e <= 0 -> Z.pos m = c * 2 ^ (- e) ->
  f_of_Z f32 (signed b c) = S754_finite b m e.
Proof.
  intros Hc [Hd He] Hle Hm. destruct (f32_digits c Hc) as (n & -> & Hn).
  destruct (f_of_Z_exact f32 f32_format n Hn) as (m' & Hm' & _ & Hp & Hneg).
  assert (Hdn : digits m = digits n + - e) by (apply digits_shift; [lia|done]).
  change (prec f32) with 24 in *. rewrite Hdn in Hd.
  replace (24 - digits n) with (- e) in Hm' by lia. assert (m' = m) as -> by (apply Pos2Z.inj; congruence).
  replace (digits n - 24) with e in * by lia. by destruct b.
Qed.

(** The range of the search: by the exponent alone, but for -1024. *)
Definition in_search (b : bool) (m : positive) (e : Z) : bool :=
  (e <? -13) || (b && (e =? -13) && (Z.pos m =? 2 ^ 23)).

Lemma in_search_spec b m e : normal m e ->
  f_le (f_of_Z f32 (-1024)) (S754_finite b m e) && f_lt (S754_finite b m e) (f_of_Z f32 1024) = in_search b m e.
Proof.
  intros [Hd _]. pose proof (digits_bounds m) as Hb. rewrite Hd in Hb. change (2 ^ (prec f32 - 1)) with (2 ^ 23) in Hb.
  change (f_of_Z f32 (-1024)) with (S754_finite true (2 ^ 23) (-13)). change (f_of_Z f32 1024) with (S754_finite false (2 ^ 23) (-13)).
  assert (Ht : Z.pos (2 ^ 23) = 2 ^ 23) by reflexivity. revert Ht. generalize (2 ^ 23)%positive as t. intros t Ht.
  unfold in_search, f_le, f_lt, SFleb, SFltb, SFcompare. rewrite <- Ht in *.
  destruct b; rewrite ?andb_true_r, ?andb_false_l, ?orb_false_r; cbn [andb].
  - rewrite Z.compare_antisym. destruct (Z.compare_spec e (-13)) as [->|H|H]; cbn [CompOpp].
    + change (Pos.compare_cont Eq t m) with (t ?= m)%positive.
      destruct (Pos.compare_spec t m) as [->|H|H]; cbn [CompOpp]; [by rewrite !Z.eqb_refl| |exfalso; lia].
      by rewrite (proj2 (Z.eqb_neq (Z.pos m) (Z.pos t))) by lia.
    + by rewrite (proj2 (Z.ltb_lt _ _)) by lia.
    + by rewrite (proj2 (Z.ltb_ge _ _)), (proj2 (Z.eqb_neq e _)) by lia.
  - destruct (Z.compare_spec e (-13)) as [->|H|H].
    + change (Pos.compare_cont Eq m t) with (m ?= t)%positive.
      destruct (Pos.compare_spec m t) as [H|H|H]; [reflexivity|exfalso; lia|reflexivity].
    + symmetry. apply Z.ltb_lt. lia.
    + symmetry. apply Z.ltb_ge. lia.
Qed.

Section Search.
Context (b : bool) (c : Z) (k : Z) (m : positive) (e : Z).
Context (Hc : 0 < c <= 1024) (Hcb : b = false -> c < 1024) (Hk : -16 <= k <= 15) (Hm : normal m e) (He : -23 <= e <= 0) (Hcm : Z.pos m = c * 2 ^ (- e)).

Abbreviation value := (S754_finite b m (e + k)).
Abbreviation step := (linear11.try_exponent (f_of_Z f32 (-1024)) (f_of_Z f32 1024) value).

Lemma scale_normal j : -32 <= j <= 32 -> normal m (e + j).
Proof. intros Hj. split; [apply Hm|]. unfold emin, f32. simpl. lia. Qed.

Lemma scale_div exp : -16 <= exp <= 15 -> f_div f32 value (f_pow2 f32 exp) = S754_finite b m (e + (k - exp)).
Proof.
  intros Hexp. rewrite div_pow2; [f_equal; lia|apply f32_format|apply scale_normal; lia| | |].
  - replace (e + k - exp) with (e + (k - exp)) by lia. apply scale_normal. lia.
  - unfold emin, f32. simpl. lia.
  - unfold emin, f32. simpl. lia.
Qed.

(** At an exponent not above [k] the encoding is exact. *)
Lemma exact_at exp : -16 <= exp <= k -> in_search b m (e + (k - exp)) = true ->
  let M := signed b (c * 2 ^ (k - exp)) in
  -1024 <= M <= 1024 /\ (b = false -> M < 1024) /\
  f_to_int 32 (f_round f32 (f_div f32 value (f_pow2 f32 exp))) = M /\
  f_mul f32 (f_of_Z f32 M) (f_pow2 f32 exp) = value.
Proof.
  intros Hexp Hin M.
  assert (Hcj : 0 < c * 2 ^ (k - exp)) by (apply Z.mul_pos_pos; [lia|apply Z.pow_pos_nonneg; lia]).
  assert (Hle : e + (k - exp) <= -13 /\ (e + (k - exp) = -13 -> b = true /\ Z.pos m = 2 ^ 23)).
  { unfold in_search in Hin. apply orb_prop in Hin as [Hin|Hin]; [lia|].
    apply andb_prop in Hin as [Hin Hm23]. apply andb_prop in Hin as [-> Hin]. lia. }
  destruct Hm as [Hd _]. pose proof (digits_bounds m) as Hb. rewrite Hd in Hb. change (prec f32) with 24 in Hb.
  assert (Hmj : Z.pos m = c * 2 ^ (k - exp) * 2 ^ (- (e + (k - exp)))).
  { rewrite Hcm, <- Z.mul_assoc, <- Z.pow_add_r by lia. do 2 f_equal. lia. }
  assert (Hbound : c * 2 ^ (k - exp) <= 1024 /\ (c * 2 ^ (k - exp) = 1024 -> e + (k - exp) = -13)).
  { destruct (Z.eq_dec (e + (k - exp)) (-13)) as [H13|H13].
    - rewrite H13 in Hmj. destruct Hle as [_ Hle]. destruct (Hle H13) as [_ Hm23]. rewrite Hm23 in Hmj.
      change (2 ^ (- -13)) with 8192 in Hmj. change (2 ^ 23) with (1024 * 8192) in Hmj. lia.
    - assert (Hp : 2 ^ 14 <= 2 ^ (- (e + (k - exp)))) by (apply Z.pow_le_mono_r; lia).
      change (2 ^ 14) with 16384 in Hp. change (2 ^ 24) with (1024 * 16384) in Hb. nia. }
  assert (HM : f_of_Z f32 M = S754_finite b m (e + (k - exp))).
  { apply f_of_Z_unique; [change (2 ^ 24) with 16777216; lia|apply scale_normal; lia|lia|done]. }
  split_and!.
  - unfold M, signed. destruct b; lia.
  - unfold M, signed. destruct b; lia.
  - intros ->. unfold M, signed. destruct (Z.eq_dec (c * 2 ^ (k - exp)) 1024) as [H|]; [|lia].
    destruct Hle as [_ Hle]. destruct Hbound as [_ Hx]. by destruct (Hle (Hx H)).
  - rewrite scale_div by lia. unfold f_round. destruct (Z.leb_spec 0 (e + (k - exp))); [lia|].
    assert (Hr : mag_round m (e + (k - exp)) = c * 2 ^ (k - exp)).
    { unfold mag_round. destruct (Z.leb_spec 0 (e + (k - exp))); [lia|]. rewrite Hmj at 1.
      assert (0 < 2 ^ (- (e + (k - exp)))) by (apply Z.pow_pos_nonneg; lia).
      symmetry. apply Z.div_unique with (2 ^ (- (e + (k - exp)))); lia. }
    rewrite Hr. rewrite (proj2 (Z.eqb_neq _ _)) by lia.
    change (if b then _ else _) with M. rewrite HM.
    assert (Ht : mag_trunc m (e + (k - exp)) = c * 2 ^ (k - exp)).
    { unfold mag_trunc. destruct (Z.leb_spec 0 (e + (k - exp))); [lia|]. rewrite Hmj at 1. apply Z.div_mul.
      apply Z.pow_nonzero; lia. }
    simpl. rewrite Ht. change (2 ^ (32 - 1)) with 2147483648. unfold M, signed. destruct b; lia.
  - rewrite HM. rewrite mul_pow2; [f_equal; lia|apply f32_format|apply scale_normal; lia| |].
    + replace (e + (k - exp) + exp) with (e + k) by lia. apply scale_normal. lia.
    + unfold emin, f32. simpl. lia.
Qed.

(** Found an exact encoding, or no exponent so far is in range. *)
Definition found (best : Z * float) : Prop :=
  -16 <= best.1 <= k /\ in_search b m (e + (k - best.1)) = true /\ best.2 = S754_zero false.

Lemma sub_self x y z : f_abs (f_sub f32 (S754_finite x y z) (S754_finite x y z)) = S754_zero false.
Proof. unfold f_sub, SFsub. simpl. rewrite Z.sub_diag. reflexivity. Qed.

Lemma step_found best exp : found best -> -16 <= exp <= 15 -> step best exp = best.
Proof.
  intros (H1 & H2 & H3) Hexp. unfold linear11.try_exponent. case_match; [|done].
  rewrite H3. match goal with |- context [f_lt (f_abs ?x) _] => by destruct x as [[]|[]| |[]] end.
Qed.

Lemma step_unset exp : -16 <= exp <= k ->
  step (0, f32_max) exp = if in_search b m (e + (k - exp)) then (exp, S754_zero false) else (0, f32_max).
Proof.
  intros Hexp. unfold linear11.try_exponent. rewrite scale_div by lia.
  rewrite in_search_spec by (apply scale_normal; lia). destruct (in_search _ _ _) eqn:Hin; [|done].
  destruct (exact_at exp Hexp Hin) as (_ & _ & Ht & Hr). rewrite scale_div in Ht by lia. rewrite Ht, Hr, sub_self. done.
Qed.

Lemma search_found best l : found best -> Forall (fun x => -16 <= x <= 15) l -> fold_left step l best = best.
Proof.
  intros Hf Hl. induction Hl as [|exp l Hexp _ IH]; [done|]. simpl. by rewrite step_found.
Qed.

(** The exponent of the word itself is in range. *)
Lemma in_search_k : in_search b m (e + (k - k)) = true.
Proof.
  destruct Hm as [Hd _]. pose proof (digits_bounds m) as Hb. rewrite Hd in Hb. change (prec f32) with 24 in Hb.
  replace (e + (k - k)) with e by lia. unfold in_search. destruct (Z.ltb_spec e (-13)); [done|].
  assert (Hp : 2 ^ (- e) <= 2 ^ 13) by (apply Z.pow_le_mono_r; lia). change (2 ^ 13) with 8192 in Hp.
  change (2 ^ (24 - 1)) with (1024 * 8192) in Hb. assert (0 < 2 ^ (- e)) by (apply Z.pow_pos_nonneg; lia).
  assert (c = 1024) as Hc1 by nia. destruct b; [|by specialize (Hcb eq_refl); lia].
  rewrite Hc1 in Hcm. assert (He13 : 2 ^ (- e) = 8192) by nia.
  assert (e = -13) as ->.
  { destruct (Z.le_gt_cases 13 (- e)); [lia|].
    assert (2 ^ (- e) <= 2 ^ 12) by (apply Z.pow_le_mono_r; lia). change (2 ^ 12) with 4096 in *. lia. }
  by rewrite Hcm, He13.
Qed.

Lemma search_finds l : Forall (fun x => -16 <= x <= k) l -> k ∈ l -> found (fold_left step l (0, f32_max)).
Proof.
  intros Hl Hin. induction Hl as [|exp l Hexp Hl IH]; [by apply elem_of_nil in Hin|]. simpl. rewrite step_unset by lia.
  destruct (in_search b m (e + (k - exp))) eqn:Hs.
  - rewrite search_found; [by split_and!; try apply Hexp|by split_and!; try apply Hexp|].
    eapply Forall_impl; [exact Hl|]. simpl. lia.
  - apply IH. apply elem_of_cons in Hin as [<-|Hin]; [|done]. by rewrite in_search_k in Hs.
Qed.

Lemma exponent_search_spec : found (fold_left step exponents (0, f32_max)).
Proof.
  assert (Hsplit : exponents = seqZ (-16) (k + 17) ++ seqZ (k + 1) (15 - k)).
  { unfold exponents. replace 32 with ((k + 17) + (15 - k)) by lia. rewrite seqZ_app by lia. f_equal. f_equal. lia. }
  rewrite Hsplit, fold_left_app.
  assert (H : found (fold_left step (seqZ (-16) (k + 17)) (0, f32_max))).
  { apply search_finds; [apply Forall_forall; intros x Hx%elem_of_seqZ; lia|apply elem_of_seqZ; lia]. }
  rewrite search_found; [done|done|]. apply Forall_forall. intros x Hx%elem_of_seqZ. lia.
Qed.

(** The word made for an exact value stands for that value. *)
Lemma from_float_word : exists E M, -16 <= E <= 15 /\ -1024 <= M <= 1023 /\
  f_mul f32 (f_of_Z f32 M) (f_pow2 f32 E) = value /\
  linear11.from_float value = Z.lor (wrap 16 (Z.shiftl (Z.land (wrap 16 E) 0x1F) 11)) (Z.land (wrap 16 M) 0x07FF).
Proof.
  destruct exponent_search_spec as (H1 & H2 & _). set (E := (fold_left step exponents (0, f32_max)).1) in *.
  destruct (exact_at E H1 H2) as (Hr & Hr' & Ht & Hv). exists E, (signed b (c * 2 ^ (k - E))).
  split_and!; [lia|lia|lia| |done|].
  - assert (signed b (c * 2 ^ (k - E)) = 1024 -> b = false) by (unfold signed; destruct b; [nia|done]).
    destruct (Z.eq_dec (signed b (c * 2 ^ (k - E))) 1024) as [Hq|]; [specialize (Hr' (H Hq))|]; lia.
  - unfold linear11.from_float. destruct (f_eq value (S754_zero false)) eqn:Hz; [by destruct b|].
    fold E. rewrite Ht. done.
Qed.
End Search.

(** ** Words *)

(** The mantissa field as the decoder reads it. *)
Definition mantissa_of (y : Z) : Z := if negb (Z.land y 0x0400 =? 0) then sign 16 (Z.lor y 0xF800) else y.

Lemma seqZ_forallb (P : Z -> bool) a n x : forallb P (seqZ a n) = true -> a <= x < a + n -> P x = true.
Proof. intros H Hx. rewrite forallb_forall in H. apply H, list_elem_of_In, elem_of_seqZ. lia. Qed.

Lemma mantissa_of_field M : -1024 <= M <= 1023 -> mantissa_of (Z.land (wrap 16 M) 0x07FF) = M.
Proof.
  intros HM. assert (H : forallb (fun M => mantissa_of (Z.land (wrap 16 M) 0x07FF) =? M) (seqZ (-1024) 2048) = true)
    by (vm_compute; reflexivity).
  apply Z.eqb_eq, (seqZ_forallb _ _ _ M H). lia.
Qed.

Lemma mantissa_of_range y : 0 <= y < 2048 -> -1024 <= mantissa_of y <= 1023.
Proof.
  intros Hy. assert (H : forallb (fun y => (-1024 <=? mantissa_of y) && (mantissa_of y <=? 1023)) (seqZ 0 2048) = true)
    by (vm_compute; reflexivity).
  apply (seqZ_forallb _ _ _ y) in H; [|lia]. apply andb_prop in H. lia.
Qed.

Lemma exponent_of_field E : -16 <= E <= 15 -> extract_5bit_exponent (Z.land (Z.land (wrap 16 E) 0x1F) 0x1F) = E.
Proof.
  intros HE. assert (H : forallb (fun E => extract_5bit_exponent (Z.land (Z.land (wrap 16 E) 0x1F) 0x1F) =? E) exponents = true)
    by (vm_compute; reflexivity).
  apply Z.eqb_eq, (seqZ_forallb _ _ _ E H). lia.
Qed.

Lemma land_ones_range x n : 0 <= n -> 0 <= Z.land x (Z.ones n) < 2 ^ n.
Proof. intros Hn. rewrite Z.land_ones by done. apply Z.mod_pos_bound, Z.pow_pos_nonneg; lia. Qed.

Lemma decode_word E M : -16 <= E <= 15 -> -1024 <= M <= 1023 ->
  linear11.to_float (Z.lor (wrap 16 (Z.shiftl (Z.land (wrap 16 E) 0x1F) 11)) (Z.land (wrap 16 M) 0x07FF)) =
  f_mul f32 (f_of_Z f32 M) (f_pow2 f32 E).
Proof.
  intros HE HM. pose proof (exponent_of_field E HE) as HX. pose proof (mantissa_of_field M HM) as HY.
  pose proof (land_ones_range (wrap 16 E) 5 ltac:(lia)) as RX. pose proof (land_ones_range (wrap 16 M) 11 ltac:(lia)) as RY.
  change (Z.ones 5) with 0x1F in RX. change (Z.ones 11) with 0x07FF in RY.
  set (X := Z.land (wrap 16 E) 0x1F) in *. set (Y := Z.land (wrap 16 M) 0x07FF) in *.
  change (2 ^ 5) with 32 in RX. change (2 ^ 11) with 2048 in RY.
  assert (Hw : Z.lor (wrap 16 (Z.shiftl X 11)) Y = X * 2048 + Y).
  { unfold wrap. rewrite Z.shiftl_mul_pow2 by lia. change (2 ^ 11) with 2048. change (2 ^ 16) with 65536.
    rewrite Z.mod_small by lia. change 2048 with (2 ^ 11) at 1. rewrite <- Z.shiftl_mul_pow2 by lia.
    rewrite lor_shiftl_add; [lia|lia|]. unfold uint. change (2 ^ 11) with 2048. lia. }
  rewrite Hw. unfold linear11.to_float.
  assert (Hs : Z.shiftr (X * 2048 + Y) 11 = X).
  { rewrite Z.shiftr_div_pow2 by lia. change (2 ^ 11) with 2048. rewrite Z.div_add_l by lia. rewrite Z.div_small by lia. lia. }
  assert (Hl : Z.land (X * 2048 + Y) 0x07FF = Y).
  { change 0x07FF with (Z.ones 11). rewrite Z.land_ones by lia. change (2 ^ 11) with 2048.
    rewrite Z.add_comm, Z_mod_plus_full. apply Z.mod_small. lia. }
  rewrite Hs, Hl. fold (mantissa_of Y). by rewrite HX, HY.
Qed.

Lemma word_fields w : exists E M, -16 <= E <= 15 /\ -1024 <= M <= 1023 /\
  linear11.to_float w = f_mul f32 (f_of_Z f32 M) (f_pow2 f32 E).
Proof.
  exists (extract_5bit_exponent (Z.land (Z.shiftr w 11) 0x1F)), (mantissa_of (Z.land w 0x07FF)).
  split_and!; try done.
  all: try apply exponent_range; try apply mantissa_of_range.
  all: try apply (land_ones_range _ 5); try apply (land_ones_range _ 11); lia.
Qed.

(** PMBus numbers survive the driver.  Every 16-bit word of the signed linear format
    decodes to a number that is encoded as a word for the same number, and every count
    of a voltage in the format VOUT_MODE announces is encoded as itself. *)
Theorem pmbus_roundtrip :
  (forall w, linear11.to_float (linear11.from_float (linear11.to_float w)) = linear11.to_float w) /\
  (forall raw c, uint 16 c -> VoutMode.encode_linear16 raw (VoutMode.decode_linear16 raw c) = Ok c).
Proof.
  split.
  - intros w. destruct (word_fields w) as (k & s & Hk & Hs & Hv). rewrite Hv.
    destruct (Z.eq_dec s 0) as [->|Hz].
    { assert (Hf : exists m e, f_pow2 f32 k = S754_finite false m e).
      { destruct (pow2_eq f32 f32_format k) as (m & _ & _ & Hp); [unfold emin, f32; simpl; lia|]. by eexists _, _. }
      destruct Hf as (m & e & ->). reflexivity. }
    destruct (scaled_count (Z.abs s) k) as (m & e & Hn & He & Hm & _ & _ & Hcm);
      [change (2 ^ 24) with 16777216; lia|done|].
    assert (Hval : f_mul f32 (f_of_Z f32 s) (f_pow2 f32 k) = S754_finite (s <? 0) m (e + k)).
    { replace s with (signed (s <? 0) (Z.abs s)) at 1 by (unfold signed; destruct (Z.ltb_spec s 0); lia).
      rewrite (f_of_Z_unique (s <? 0) (Z.abs s) m e); [|change (2 ^ 24) with 16777216; lia|done|lia|done].
      apply mul_pow2; [apply f32_format|done| |unfold emin, f32; simpl; lia].
      split; [apply Hn|]. unfold emin, f32. simpl. lia. }
    rewrite Hval. destruct (from_float_word (s <? 0) (Z.abs s) k m e) as (E & M & HE & HM & Hx & ->);
      [lia|intros; lia|done|done|done|done|]. rewrite decode_word by done. exact Hx.
  - intros raw c Hc. apply encode_counts_exact; [done|apply mode_exponent_range].
Qed.

(** ** The nearest count *)
Lemma mag_round_nearest m e : e < 0 ->
  let D := 2 ^ (- e) in 2 * (mag_round m e) * D <= 2 * Z.pos m + D < 2 * (mag_round m e + 1) * D.
Proof.
  intros He D. unfold mag_round. destruct (Z.leb_spec 0 e); [lia|]. fold D.
  assert (0 < D) by (apply Z.pow_pos_nonneg; lia).
  pose proof (Z.mul_div_le (2 * Z.pos m + D) (2 * D) ltac:(lia)).
  pose proof (Z.mul_succ_div_gt (2 * Z.pos m + D) (2 * D) ltac:(lia)). lia.
Qed.

Lemma f_lt_big m e : normal m e -> 0 <= e -> f_lt (f_of_Z f32 0xFFFF) (S754_finite false m e) = true.
Proof.
  intros _ He. change (f_of_Z f32 0xFFFF) with (S754_finite false 16776960 (-8)).
  unfold f_lt, SFltb. cbn [SFcompare]. by rewrite (proj2 (Z.compare_lt_iff (-8) e)) by lia.
Qed.

(** What [encode_counts] does with a positive voltage. *)
Lemma encode_counts_spec m e k : normal m e -> normal m (e - k) -> -149 < e - k -> -16 <= k <= 15 ->
  encode_counts (S754_finite false m e) k =
  if mag_round m (e - k) <=? 0xFFFF then Ok (mag_round m (e - k)) else Err ValueOutOfRange.
Proof.
  intros Hm Hmk Hlo Hk. unfold encode_counts. rewrite div_pow2; [|apply f32_format|done|done|done|unfold emin, f32; simpl; lia].
  destruct Hmk as [Hd Hmk]. pose proof (digits_bounds m) as Hb. rewrite Hd in Hb. change (prec f32) with 24 in Hb.
  change (2 ^ (24 - 1)) with 8388608 in Hb. change (2 ^ 24) with 16777216 in Hb.
  unfold f_round. destruct (Z.leb_spec 0 (e - k)) as [Hp|Hn].
  - rewrite f_lt_big by (done || split; done). rewrite orb_true_r.
    assert (Z.pos m <= mag_round m (e - k)).
    { unfold mag_round. rewrite (proj2 (Z.leb_le 0 (e - k))) by done. pose proof (Z.pow_pos_nonneg 2 (e - k)). nia. }
    by rewrite (proj2 (Z.leb_gt _ _)) by lia.
  - pose proof (mag_round_nearest m (e - k) Hn) as Hr. cbv zeta in Hr.
    assert (HD : 2 <= 2 ^ (- (e - k))).
    { change 2 with (2 ^ 1) at 1. apply Z.pow_le_mono_r; lia. }
    pose proof (mag_round_nonneg m (e - k)) as H0. set (c := mag_round m (e - k)) in *.
    destruct (Z.eqb_spec c 0) as [Hz|Hz]; [by rewrite Hz|].
    assert (Hc : 0 < c < 2 ^ 24) by (change (2 ^ 24) with 16777216; nia).
    destruct (f32_digits c Hc) as (n & -> & Hn'). 
    assert (Hneg : f_lt (f_of_Z f32 (Z.pos n)) (S754_zero false) = false)
      by (destruct (f_of_Z_exact f32 f32_format n Hn') as (? & _ & _ & -> & _); reflexivity).
    rewrite Hneg. change (f_of_Z f32 0xFFFF) with (f_of_Z f32 (Z.pos 0xFFFF)).
    rewrite f_lt_of_Z by (try apply f32_format; done).
    rewrite (to_uint_of_Z f32 f32_format 16 n Hn'). simpl orb.
    destruct (Z.ltb_spec 0xFFFF (Z.pos n)), (Z.leb_spec (Z.pos n) 0xFFFF); try lia; [done|].
    f_equal. change (2 ^ 16 - 1) with 0xFFFF. lia.
Qed.

(** The value of a decoded count. *)
Lemma units_decoded raw c : uint 16 c ->
  units 149 (VoutMode.decode_linear16 raw c) = c * 2 ^ (VoutMode.exponent raw + 149).
Proof.
  intros Hc. pose proof (mode_exponent_range raw) as Hk. unfold VoutMode.decode_linear16.
  set (k := VoutMode.exponent raw) in *. destruct (Z.eq_dec c 0) as [->|Hz].
  { destruct (pow2_eq f32 f32_format k) as (m & _ & _ & ->); [unfold emin, f32; simpl; lia|]. reflexivity. }
  unfold uint in Hc. destruct (scaled_count c k) as (m & e & _ & He & _ & -> & _ & Hm);
    [change (2 ^ 16) with 65536 in Hc; change (2 ^ 24) with 16777216; lia|done|].
  unfold units. rewrite Hm. replace (k + 149) with (- e + (e + k + 149)) by lia.
  rewrite (Z.pow_add_r 2 (- e)) by lia. lia.
Qed.

(** C34 A voltage is set to the nearest step.  For a positive voltage (any normal [f32]
    from 2^-100 to 2^100, far beyond what a board sees), the driver's count is within
    half a step of it, a step being the power of two that VOUT_MODE announces; and it
    refuses the voltage exactly when the nearest count does not fit 16 bits. *)
Theorem voltage_encoding_nearest raw m e :
  normal m e -> -124 <= e <= 77 ->
  let v := S754_finite false m e in
  let step := 2 ^ (VoutMode.exponent raw + 149) in
  match VoutMode.encode_linear16 raw v with
  | Ok c => uint 16 c /\ 2 * Z.abs (units 149 (VoutMode.decode_linear16 raw c) - units 149 v) <= step
  | Err _ => (2 * 0xFFFF + 1) * step <= 2 * units 149 v
  end.
Proof.
  intros Hm He v step. pose proof (mode_exponent_range raw) as Hk. unfold VoutMode.encode_linear16.
  set (k := VoutMode.exponent raw) in *. unfold v.
  assert (Hmk : normal m (e - k)) by (split; [apply Hm|unfold emin, f32; simpl; lia]).
  rewrite encode_counts_spec by (done || lia).
  assert (Hstep : 0 < step) by (apply Z.pow_pos_nonneg; lia).
  assert (Hu : units 149 (S754_finite false m e) * 2 ^ Z.max 0 (k - e) = Z.pos m * step * 2 ^ Z.max 0 (e - k)).
  { unfold units, step. rewrite Z.mul_1_l, <- !Z.mul_assoc, <- !Z.pow_add_r by lia. do 2 f_equal. lia. }
  pose proof (mag_round_nonneg m (e - k)) as H0.
  destruct (Z.lt_ge_cases (e - k) 0) as [Hn|Hp].
  - pose proof (mag_round_nearest m (e - k) Hn) as Hr. cbv zeta in Hr.
    replace (Z.max 0 (k - e)) with (- (e - k)) in Hu by lia. replace (Z.max 0 (e - k)) with 0 in Hu by lia.
    change (2 ^ 0) with 1 in Hu. set (D := 2 ^ (- (e - k))) in *. assert (0 < D) by (apply Z.pow_pos_nonneg; lia).
    set (u := units 149 (S754_finite false m e)) in *. set (c := mag_round m (e - k)) in *.
    destruct (Z.leb_spec c 0xFFFF) as [Hc|Hc].
    + assert (Hcu : uint 16 c) by (unfold uint; change (2 ^ 16) with 65536; lia). split; [done|].
      rewrite units_decoded by done. fold k. fold step.
      assert (H1 : 2 * (c * step - u) * D <= step * D) by nia.
      assert (H2 : - (step * D) <= 2 * (c * step - u) * D) by nia.
      apply Z.mul_le_mono_pos_r in H1; [|done]. rewrite <- Z.mul_opp_l in H2. apply Z.mul_le_mono_pos_r in H2; [|done]. lia.
    + assert (H1 : (2 * 0xFFFF + 1) * step * D <= 2 * u * D) by nia.
      by apply Z.mul_le_mono_pos_r in H1.
  - assert (Hc : Z.pos m <= mag_round m (e - k)).
    { unfold mag_round. rewrite (proj2 (Z.leb_le 0 (e - k))) by done. pose proof (Z.pow_pos_nonneg 2 (e - k)). nia. }
    destruct Hm as [Hd _]. pose proof (digits_bounds m) as Hb. rewrite Hd in Hb. change (prec f32) with 24 in Hb.
    change (2 ^ (24 - 1)) with 8388608 in Hb. rewrite (proj2 (Z.leb_gt _ _)) by lia.
    replace (Z.max 0 (k - e)) with 0 in Hu by lia. change (2 ^ 0) with 1 in Hu.
    assert (HP : 0 < 2 ^ Z.max 0 (e - k)) by (apply Z.pow_pos_nonneg; lia).
    assert (Hle : Z.pos m * step <= Z.pos m * step * 2 ^ Z.max 0 (e - k)) by nia.
    rewrite <- Hu, Z.mul_1_r in Hle. nia.
Qed.

(** A limit just below a power of two changes its sign.  The signed search takes a
    mantissa that rounds up to 1024 for one that fits; it is stored as -1024.  7.999 V
    is written as -8 V, and so is 1023.75 times any power of two of the format. *)
Theorem linear11_sign_flip : Forall (fun k =>
    let v := f_mul f32 (f_lit f32 4095 4) (f_pow2 f32 k) in
    linear11.to_float (linear11.from_float v) = f_mul f32 (f_of_Z f32 (-1024)) (f_pow2 f32 k)) exponents /\
  linear11.to_float (linear11.from_float (f_lit f32 7999 1000)) = f_of_Z f32 (-8).
Proof.
  split; [|vm_compute; reflexivity].
  repeat (apply Forall_cons; split; [vm_compute; reflexivity|]). apply Forall_nil; exact I.
Qed.

(** ** At work: 1.15 V at the VOUT_MODE of a TPS546 is 589 steps of 1/512 V *)
Lemma pmbus_roundtrip_witness :
  VoutMode.encode_linear16 0x97 (VoutMode.decode_linear16 0x97 589) = Ok 589.
Proof. apply (proj2 pmbus_roundtrip 0x97 589). split; reflexivity || discriminate. Defined.

Lemma voltage_encoding_nearest_witness :
  2 * Z.abs (units 149 (VoutMode.decode_linear16 0x97 589) - units 149 (f_lit f32 115 100)) <= 2 ^ (VoutMode.exponent 0x97 + 149).
Proof.
  assert (Hn : normal 9646899 (-23)) by (split; [reflexivity|split; discriminate]).
  assert (He : -124 <= -23 <= 77) by (split; discriminate).
  assert (Hv : f_lit f32 115 100 = S754_finite false 9646899 (-23)) by (vm_compute; reflexivity).
  assert (Hc : VoutMode.encode_linear16 0x97 (S754_finite false 9646899 (-23)) = Ok 589) by (vm_compute; reflexivity).
  pose proof (voltage_encoding_nearest 0x97 _ _ Hn He) as H. cbv zeta in H. rewrite Hc in H. rewrite Hv. exact (proj2 H).
Defined.
