(* ===== verification/I2c.v ===== *)
(** * I2C buses (hw_trait/i2c.rs) and measured quantities (types/voltage.rs, types/ratio.rs)

    A device driver is a computation of [Effects]: it asks for bus operations and
    goes on with their outcomes. *)
From stdpp Require Import base numbers list.
From Stdlib Require Import ZArith Lia SpecFloat.
From S2P Require Import Prelude Float FloatExact Effects.
#[local] Open Scope eff_scope.

(** What a driver asks of the bus. *)
Inductive bus_op :=
| I2cWrite (addr : Z) (data : list Z)
| I2cWriteRead (addr : Z) (data : list Z) (n : nat).

(** The outcome: acknowledged, answered with the bytes asked for, or an error. *)
Inductive bus_outcome := Acked | Answered (data : list Z) | Refused.

Section I2c.
Context {St Er : Type} (bus_error : Er).
Abbreviation M := (Effects.M St bus_outcome bus_op Er).

Definition i2c_write (addr : Z) (data : list Z) : M unit :=
  act (I2cWrite addr data) ;!
  await (fun o => match o with Acked => Some (ret tt) | Refused => Some (raise bus_error) | _ => None end).

(** The buffer is filled: an answer has its length. *)
Definition i2c_write_read (addr : Z) (data : list Z) (n : nat) : M (list Z) :=
  act (I2cWriteRead addr data n) ;!
  await (fun o => match o with
    | Answered d => if bool_decide (length d = n) && forallb (fun b => (0 <=? b) && (b <? 256)) d then Some (ret d) else None
    | Refused => Some (raise bus_error)
    | _ => None
    end).

Lemma wp_i2c_write addr data s u tr (Q : post St bus_outcome bus_op Er unit) :
  Q Wait s u (tr ++ [I2cWrite addr data]) ->
  Q (Ret tt) s (u ++ [Acked]) (tr ++ [I2cWrite addr data]) ->
  Q (Raise bus_error) s (u ++ [Refused]) (tr ++ [I2cWrite addr data]) ->
  wp (i2c_write addr data) s u tr Q.
Proof.
  intros Hw Ha Hr. unfold i2c_write. apply wp_bind, wp_act. simpl. apply wp_await; [done|].
  intros o m Ho. destruct o; try done; injection Ho as <-; [by apply wp_ret|by apply wp_raise].
Qed.

Lemma wp_i2c_write_read addr data n s u tr (Q : post St bus_outcome bus_op Er (list Z)) :
  Q Wait s u (tr ++ [I2cWriteRead addr data n]) ->
  (forall d, length d = n -> bytes d -> Q (Ret d) s (u ++ [Answered d]) (tr ++ [I2cWriteRead addr data n])) ->
  Q (Raise bus_error) s (u ++ [Refused]) (tr ++ [I2cWriteRead addr data n]) ->
  wp (i2c_write_read addr data n) s u tr Q.
Proof.
  intros Hw Ha Hr. unfold i2c_write_read. apply wp_bind, wp_act. simpl. apply wp_await; [done|].
  intros o m Ho. destruct o as [|d|]; [done| |injection Ho as <-; by apply wp_raise].
  destruct (bool_decide_reflect (length d = n)); [|done]. simpl in Ho.
  destruct (forallb _ d) eqn:Hb; [|done]. injection Ho as <-. apply wp_ret, Ha; [done|].
  rewrite forallb_forall in Hb. apply Forall_forall. intros x Hx. specialize (Hb x).
  rewrite list_elem_of_In in Hx. specialize (Hb Hx). apply andb_prop in Hb. unfold uint. lia.
Qed.
End I2c.

(** ** Voltages, in microvolts, and ratios, in millionths *)
Module Voltage.
Definition from_uv (uv : Z) : Z := uv.
Definition from_mv (mv : Z) : Z := mv * 1000.
Definition from_volts (volts : float) : Z := f_to_int 64 (f_mul f32 volts (f_of_Z f32 1000000)).
Definition uv (v : Z) : Z := v.
(** The quotient is truncated, then cast to an i32. *)
Definition mv (v : Z) : Z := sign 32 (wrap 32 (Z.quot v 1000)).
Definition volts (v : Z) : float := f_div f32 (f_of_Z f32 v) (f_of_Z f32 1000000).
End Voltage.

Module Ratio.
Definition round_to_i64 (x : float) : Z :=
  let half := f_lit f32 1 2 in
  if f_le (S754_zero false) x then f_to_int 64 (f_add f32 x half) else f_to_int 64 (f_sub f32 x half).
Definition from_ppm (ppm : Z) : Z := ppm.
Definition from_percent (percent : float) : Z := round_to_i64 (f_mul f32 percent (f_of_Z f32 10000)).
Definition from_factor (factor : float) : Z := round_to_i64 (f_mul f32 factor (f_of_Z f32 1000000)).
Definition ppm (r : Z) : Z := r.
Definition percent (r : Z) : float := f_div f32 (f_of_Z f32 r) (f_of_Z f32 10000).
Definition factor (r : Z) : float := f_div f32 (f_of_Z f32 r) (f_of_Z f32 1000000).
End Ratio.

Example ratio_116 : Ratio.from_factor (f_lit f32 116 100) = 1160000.
Proof. vm_compute. reflexivity. Qed.
