(* ===== verification/Tps546.v ===== *)
(** * The TPS546 regulator (peripheral/tps546.rs)

    Every bus operation in its order, with the number formats of [Pmbus].  The texts
    of the log are left out, those of the error [FaultDetected] are kept. *)
From stdpp Require Import base numbers list strings.
From Stdlib Require Import ZArith Lia SpecFloat.
From S2P Require Import Prelude Float FloatExact Effects Pmbus I2c.
#[local] Open Scope eff_scope.
Import PmbusCommand.

(** Voltages in microvolts, ratios in millionths of VOUT_COMMAND. *)
Record Tps546Config := MkTpsConfig {
  phase : Z; frequency_switch_khz : Z;
  vin_on : Z; vin_off : Z; vin_uv_warn_limit : Z; vin_ov_fault_limit : Z; vin_ov_fault_response : Z;
  vout_scale_loop : float; vout_min : Z; vout_max : Z; vout_command : Z;
  vout_ov_fault_limit : Z; vout_ov_warn_limit : Z; vout_margin_high : Z; vout_margin_low : Z;
  vout_uv_warn_limit : Z; vout_uv_fault_limit : Z;
  iout_oc_warn_limit : float; iout_oc_fault_limit : float; iout_oc_fault_response : Z;
  ot_warn_limit : Z; ot_fault_limit : Z; ot_fault_response : Z;
  ton_delay : Z; ton_rise : Z; ton_max_fault_limit : Z; ton_max_fault_response : Z; toff_delay : Z; toff_fall : Z;
  pin_detect_override : Z }.

(** [Tps546Error], a failed bus operation and a voltage that does not encode. *)
Inductive Tps546Error :=
| DeviceIdMismatch
| VoltageOutOfRange (voltage min max : float)
| FaultDetected (faults : string)
| OperationNotAccepted (commanded readback : Z)
| BusError
| EncodingError.

Definition TPS546_I2C_ADDR : Z := 0x24.
Definition DEVICE_ID1 : list Z := [0x54; 0x49; 0x54; 0x6B; 0x24; 0x41].
Definition DEVICE_ID2 : list Z := [0x54; 0x49; 0x54; 0x6D; 0x24; 0x41].
Definition DEVICE_ID3 : list Z := [0x54; 0x49; 0x54; 0x6D; 0x24; 0x62].

Module Tps546.
Record t := Mk { config : Tps546Config; cached_vout_mode : option Z }.
Definition new (config : Tps546Config) : t := Mk config None.

Abbreviation M := (Effects.M t bus_outcome bus_op Tps546Error).

(** ** Registers *)
Definition read_byte (c : PmbusCommand.t) : M Z :=
  do! data := i2c_write_read BusError TPS546_I2C_ADDR [as_u8 c] 1 in ret (from_le data).
Definition write_byte (c : PmbusCommand.t) (data : Z) : M unit :=
  i2c_write BusError TPS546_I2C_ADDR [as_u8 c; data].
Definition read_word (c : PmbusCommand.t) : M Z :=
  do! data := i2c_write_read BusError TPS546_I2C_ADDR [as_u8 c] 2 in ret (from_le data).
Definition write_word (c : PmbusCommand.t) (data : Z) : M unit :=
  i2c_write BusError TPS546_I2C_ADDR (as_u8 c :: le_bytes 2 data).
(** The length byte is only compared for a warning. *)
Definition read_block (c : PmbusCommand.t) (length : nat) : M (list Z) :=
  do! buffer := i2c_write_read BusError TPS546_I2C_ADDR [as_u8 c] (length + 1) in ret (drop 1 buffer).

(** ** Formats *)
Definition slinear11_to_float (value : Z) : float := linear11.to_float value.
Definition slinear11_to_int (value : Z) : Z := f_to_int 32 (linear11.to_float value).
Definition float_to_slinear11 (value : float) : Z := linear11.from_float value.
Definition int_to_slinear11 (value : Z) : Z := linear11.from_float (f_of_Z f32 value).

Definition get_vout_mode : M Z :=
  do! s := get in
  match cached_vout_mode s with
  | Some cached => ret cached
  | None =>
      do! vout_mode := read_byte VoutMode in
      do! s := get in
      put (Mk (config s) (Some vout_mode)) ;! ret vout_mode
  end.

Definition encode_voltage (volts : float) : M Z :=
  do! mode := get_vout_mode in
  match Pmbus.VoutMode.encode_linear16 mode volts with Ok v => ret v | Err _ => raise EncodingError end.

Definition decode_voltage (value : Z) : M float :=
  do! mode := get_vout_mode in ret (Pmbus.VoutMode.decode_linear16 mode value).

(** ** Set-up *)
Definition verify_device_id : M unit :=
  do! id_data := i2c_write_read BusError TPS546_I2C_ADDR [as_u8 IcDeviceId] 7 in
  let device_id := drop 1 id_data in
  if bool_decide (device_id = DEVICE_ID1) || bool_decide (device_id = DEVICE_ID2) || bool_decide (device_id = DEVICE_ID3)
  then ret tt else raise DeviceIdMismatch.

Definition write_voltage (c : PmbusCommand.t) (volts : float) : M unit :=
  do! value := encode_voltage volts in write_word c value.

(** The sections of [write_config]: input, output voltage with its protection, output
    current and temperature, timing and pins. *)
Definition write_input_config (c : Tps546Config) : M unit :=
  let volts := Voltage.volts in
  write_byte Phase (phase c) ;!
  write_word FrequencySwitch (int_to_slinear11 (frequency_switch_khz c)) ;!
  (if f_lt (S754_zero false) (volts (vin_uv_warn_limit c))
   then write_word VinUvWarnLimit (float_to_slinear11 (volts (vin_uv_warn_limit c))) else ret tt) ;!
  write_word VinOn (float_to_slinear11 (volts (vin_on c))) ;!
  write_word VinOff (float_to_slinear11 (volts (vin_off c))) ;!
  write_word VinOvFaultLimit (float_to_slinear11 (volts (vin_ov_fault_limit c))) ;!
  write_byte VinOvFaultResponse (vin_ov_fault_response c).

Definition write_output_config (c : Tps546Config) : M unit :=
  let volts := Voltage.volts in
  let factor := Ratio.factor in
  write_word VoutScaleLoop (float_to_slinear11 (vout_scale_loop c)) ;!
  write_voltage VoutCommand (volts (vout_command c)) ;!
  write_voltage VoutMax (volts (vout_max c)) ;!
  write_voltage VoutMin (volts (vout_min c)) ;!
  write_voltage VoutOvFaultLimit (factor (vout_ov_fault_limit c)) ;!
  write_voltage VoutOvWarnLimit (factor (vout_ov_warn_limit c)) ;!
  write_voltage VoutMarginHigh (factor (vout_margin_high c)) ;!
  write_voltage VoutMarginLow (factor (vout_margin_low c)) ;!
  write_voltage VoutUvWarnLimit (factor (vout_uv_warn_limit c)) ;!
  write_voltage VoutUvFaultLimit (factor (vout_uv_fault_limit c)).

Definition write_limits_config (c : Tps546Config) : M unit :=
  write_word IoutOcWarnLimit (float_to_slinear11 (iout_oc_warn_limit c)) ;!
  write_word IoutOcFaultLimit (float_to_slinear11 (iout_oc_fault_limit c)) ;!
  write_byte IoutOcFaultResponse (iout_oc_fault_response c) ;!
  write_word OtWarnLimit (int_to_slinear11 (ot_warn_limit c)) ;!
  write_word OtFaultLimit (int_to_slinear11 (ot_fault_limit c)) ;!
  write_byte OtFaultResponse (ot_fault_response c).

Definition write_timing_config (c : Tps546Config) : M unit :=
  write_word TonDelay (int_to_slinear11 (ton_delay c)) ;!
  write_word TonRise (int_to_slinear11 (ton_rise c)) ;!
  write_word TonMaxFaultLimit (int_to_slinear11 (ton_max_fault_limit c)) ;!
  write_byte TonMaxFaultResponse (ton_max_fault_response c) ;!
  write_word ToffDelay (int_to_slinear11 (toff_delay c)) ;!
  write_word ToffFall (int_to_slinear11 (toff_fall c)) ;!
  write_word PinDetectOverride (pin_detect_override c).

Definition write_config : M unit :=
  do! s := get in
  let c := config s in
  write_input_config c ;! write_output_config c ;! write_limits_config c ;! write_timing_config c.

Definition init : M unit :=
  verify_device_id ;!
  write_byte Operation (Pmbus.Operation.as_u8 Pmbus.Operation.OffImmediate) ;!
  write_byte OnOffConfig (Z.lor (Z.lor (Z.lor Pmbus.OnOffConfig.DELAY Pmbus.OnOffConfig.POLARITY) Pmbus.OnOffConfig.CMD)
    Pmbus.OnOffConfig.PU) ;!
  do! vout_mode := read_byte VoutMode in
  write_config ;!
  do! status := read_word StatusWord in
  ret tt.

Definition clear_faults : M unit := i2c_write BusError TPS546_I2C_ADDR [as_u8 ClearFaults].

(** ** The output *)
Definition set_vout_target (voltage : Z) : M unit :=
  do! s := get in
  let c := config s in
  if (voltage <? vout_min c) || (vout_max c <? voltage) then
    raise (VoltageOutOfRange (Voltage.volts voltage) (Voltage.volts (vout_min c)) (Voltage.volts (vout_max c)))
  else write_voltage VoutCommand (Voltage.volts voltage).

Definition get_vout_target : M Z :=
  do! value := read_word VoutCommand in
  do! volts := decode_voltage value in
  ret (Voltage.from_volts volts).

(** A write can be acknowledged and ignored, so the register is read back. *)
Definition write_operation (op : Pmbus.Operation.t) : M unit :=
  write_byte Operation (Pmbus.Operation.as_u8 op) ;!
  do! readback := read_byte Operation in
  if readback =? Pmbus.Operation.as_u8 op then ret tt
  else raise (OperationNotAccepted (Pmbus.Operation.as_u8 op) readback).

Definition enable_output : M unit := write_operation Pmbus.Operation.On.
Definition disable_output : M unit := write_operation Pmbus.Operation.OffImmediate.
Definition output_enabled : M bool :=
  do! op := read_byte Operation in ret (negb (Z.land op (Pmbus.Operation.as_u8 Pmbus.Operation.On) =? 0)).

(** ** Measurements *)
Definition get_vin : M Z :=
  do! value := read_word ReadVin in ret (Voltage.from_volts (slinear11_to_float value)).
Definition get_vout : M Z :=
  do! value := read_word ReadVout in
  do! volts := decode_voltage value in
  ret (Voltage.from_volts volts).
(** In milliamperes, of all phases. *)
Definition get_iout : M Z :=
  write_byte Phase 0xFF ;!
  do! value := read_word ReadIout in
  ret (f_to_uint 32 (f_mul f32 (slinear11_to_float value) (f_of_Z f32 1000))).
Definition get_temperature : M Z :=
  do! value := read_word ReadTemperature1 in ret (slinear11_to_int value).
(** In milliwatts; both factors are cast to u64, the product wraps. *)
Definition get_power : M Z :=
  do! vout := get_vout in
  do! iout_ma := get_iout in
  ret (wrap 32 (wrap 64 (wrap 64 (Voltage.mv vout) * iout_ma) / 1000)).

(** ** Status *)

(** One class of faults of STATUS_WORD: its register, and the fault if it is critical. *)
Definition check_class (flags flag : Z) (c : PmbusCommand.t) (critical : Z -> bool) (decode : Z -> list string)
    (label : string) : M (list string) :=
  if contains flags flag then
    do! status := read_byte c in
    ret (if critical status then [(label +:+ StatusDecoder.join ", " (decode status))%string] else [])
  else ret [].

(** What is read for the log when the output is off; errors are ignored. *)
Definition diagnostics : M unit :=
  attempt (read_byte StatusVout) ;! attempt (read_byte StatusIout) ;! attempt (read_byte StatusInput) ;!
  attempt (read_byte StatusTemperature) ;! attempt (read_byte StatusCml) ;!
  attempt get_vout ;! attempt get_iout ;! attempt get_vin ;! attempt get_temperature ;! ret tt.

Definition vout_critical (status : Z) : bool :=
  intersects (Pmbus.StatusVout.from_bits_truncate status)
    (Z.lor Pmbus.StatusVout.VOUT_OV_FAULT Pmbus.StatusVout.VOUT_UV_FAULT).
Definition iout_critical (status : Z) : bool :=
  contains (Pmbus.StatusIout.from_bits_truncate status) Pmbus.StatusIout.IOUT_OC_FAULT.
Definition input_critical (status : Z) : bool :=
  intersects (Pmbus.StatusInput.from_bits_truncate status)
    (Z.lor (Z.lor Pmbus.StatusInput.UNIT_OFF_VIN_LOW Pmbus.StatusInput.VIN_UV_FAULT) Pmbus.StatusInput.VIN_OV_FAULT).
Definition temp_critical (status : Z) : bool :=
  contains (Pmbus.StatusTemperature.from_bits_truncate status) Pmbus.StatusTemperature.OT_FAULT.

Definition check_status : M unit :=
  do! status := read_word StatusWord in
  if status =? 0 then ret tt
  else
    let flags := Pmbus.StatusWord.from_bits_truncate status in
    do! vout := check_class flags Pmbus.StatusWord.VOUT StatusVout vout_critical
      StatusDecoder.decode_status_vout "VOUT fault: " in
    do! iout := check_class flags Pmbus.StatusWord.IOUT StatusIout iout_critical
      StatusDecoder.decode_status_iout "IOUT overcurrent: " in
    do! input := check_class flags Pmbus.StatusWord.INPUT StatusInput input_critical
      StatusDecoder.decode_status_input "INPUT fault: " in
    do! temp := check_class flags Pmbus.StatusWord.TEMP StatusTemperature temp_critical
      StatusDecoder.decode_status_temp "Overtemperature: " in
    do! cml := check_class flags Pmbus.StatusWord.CML StatusCml (fun _ => true)
      StatusDecoder.decode_status_cml "CML fault: " in
    do! off :=
      (if contains flags Pmbus.StatusWord.OFF then
         do! on := output_enabled in
         if on then diagnostics ;! ret ["Power controller is OFF"%string] else ret []
       else ret []) in
    match vout ++ iout ++ input ++ temp ++ cml ++ off with
    | [] => ret tt
    | critical_faults => raise (FaultDetected (StatusDecoder.join "; " critical_faults))
    end.

(** The dump of the configuration: what it reads, in order; values only go to the log. *)
Definition log_word (c : PmbusCommand.t) : M unit := do! v := read_word c in ret tt.
Definition log_byte (c : PmbusCommand.t) : M unit := do! v := read_byte c in ret tt.
Definition log_voltage (c : PmbusCommand.t) : M unit :=
  do! v := read_word c in do! volts := decode_voltage v in ret tt.
Definition log_class (flags flag : Z) (c : PmbusCommand.t) : M unit :=
  if contains flags flag then log_byte c else ret tt.

Definition dump_voltages : M unit :=
  log_word VinOn ;! log_word VinOff ;! log_word VinOvFaultLimit ;! log_word VinUvWarnLimit ;!
  log_byte VinOvFaultResponse ;!
  log_voltage VoutMax ;! log_voltage VoutOvFaultLimit ;! log_voltage VoutOvWarnLimit ;!
  log_voltage VoutMarginHigh ;! log_voltage VoutCommand ;! log_voltage VoutMarginLow ;!
  log_voltage VoutUvWarnLimit ;! log_voltage VoutUvFaultLimit ;! log_voltage VoutMin.

Definition dump_limits_and_readings : M unit :=
  log_word IoutOcWarnLimit ;! log_word IoutOcFaultLimit ;! log_byte IoutOcFaultResponse ;!
  log_word OtWarnLimit ;! log_word OtFaultLimit ;! log_byte OtFaultResponse ;!
  log_word ReadVin ;! log_voltage ReadVout ;! log_word ReadIout ;! log_word ReadTemperature1 ;!
  log_word TonDelay ;! log_word TonRise ;! log_word TonMaxFaultLimit ;! log_byte TonMaxFaultResponse ;!
  log_word ToffDelay ;! log_word ToffFall.

Definition dump_operation : M unit :=
  log_byte Phase ;! log_word StackConfig ;! log_byte SyncConfig ;! log_word Interleave ;! log_byte Capability ;!
  log_byte Operation ;! log_byte OnOffConfig ;!
  attempt (read_block CompensationConfig 5) ;! ret tt.

Definition dump_status : M unit :=
  do! status_word := read_word StatusWord in
  let flags := Pmbus.StatusWord.from_bits_truncate status_word in
  log_class flags Pmbus.StatusWord.VOUT StatusVout ;! log_class flags Pmbus.StatusWord.IOUT StatusIout ;!
  log_class flags Pmbus.StatusWord.INPUT StatusInput ;! log_class flags Pmbus.StatusWord.TEMP StatusTemperature ;!
  log_class flags Pmbus.StatusWord.CML StatusCml.

Definition dump_configuration : M unit :=
  dump_voltages ;! dump_limits_and_readings ;! dump_operation ;! dump_status.

(** The handle of a consumer: each operation with the driver locked. *)
Inductive regulator_op := Enable | Disable | IsEnabled | SetVoltage (voltage : Z) | GetVoltage.
Inductive regulator_answer := Done | OutputOn (on : bool) | Target (voltage : Z).
Definition regulate (op : regulator_op) : M regulator_answer :=
  match op with
  | Enable => enable_output ;! ret Done
  | Disable => disable_output ;! ret Done
  | IsEnabled => do! on := output_enabled in ret (OutputOn on)
  | SetVoltage v => set_vout_target v ;! ret Done
  | GetVoltage => do! v := get_vout_target in ret (Target v)
  end.
End Tps546.
