(* ===== verification/Tps546Props.v ===== *)
(** * What the TPS546 driver promises *)
From stdpp Require Import base numbers list strings sets.
From Stdlib Require Import ZArith Lia SpecFloat.
From S2P Require Import Prelude Float FloatExact Effects Pmbus I2c Tps546.
#[local] Open Scope eff_scope.
Import PmbusCommand Tps546.

Abbreviation M := (Effects.M Tps546.t bus_outcome bus_op Tps546Error).

(** The bytes written to the device, in order; those written to another address are
    kept with it. *)
Definition writes (tr : list bus_op) : list (Z * list Z) :=
  omap (fun a => match a with I2cWrite addr data => Some (addr, data) | _ => None end) tr.
Definition to_chip (l : list (list Z)) : list (Z * list Z) := map (pair TPS546_I2C_ADDR) l.

Lemma bus_writes_app l1 l2 : writes (l1 ++ l2) = writes l1 ++ writes l2.
Proof. apply omap_app. Qed.

(** The mode comes from the cache, or from the device and into the cache. *)
Definition ask_mode : bus_op := I2cWriteRead TPS546_I2C_ADDR [as_u8 VoutMode] 1.
Lemma wp_mode s u tr (Q : Effects.post Tps546.t bus_outcome bus_op Tps546Error Z) :
  (forall m, cached_vout_mode s = Some m -> Q (Ret m) s u tr) ->
  (cached_vout_mode s = None ->
     Q Wait s u (tr ++ [ask_mode]) /\ Q (Raise BusError) s (u ++ [Refused]) (tr ++ [ask_mode]) /\
     forall x, Q (Ret x) (Mk (config s) (Some x)) (u ++ [Answered [x]]) (tr ++ [ask_mode])) ->
  wp get_vout_mode s u tr Q.
Proof.
  intros Hc Hn. unfold get_vout_mode. apply wp_bind, wp_get. simpl.
  destruct (cached_vout_mode s) as [m|]; [by apply wp_ret, Hc|]. destruct (Hn eq_refl) as (Hw & Hr & Ha).
  unfold read_byte. apply wp_bind, wp_bind. apply wp_i2c_write_read; simpl; try done.
  intros d Hd _. destruct d as [|x [|]]; try done. apply wp_ret. simpl. apply wp_bind, wp_get. simpl.
  apply wp_bind, wp_put. simpl. apply wp_ret. simpl. replace (x + 256 * 0) with x by lia. apply Ha.
Qed.

(** ** What the device has reported

    Operations and outcomes go in pairs; the last answer to a reading of VOUT_MODE. *)
Definition vout_mode_answer (x : bus_op * bus_outcome) : option Z :=
  match x with
  | (I2cWriteRead addr [cmd] 1, Answered [mode]) =>
      if (addr =? TPS546_I2C_ADDR) && (cmd =? 0x20) then Some mode else None
  | _ => None
  end.
Definition reported (tr : list bus_op) (u : list bus_outcome) : option Z :=
  last (omap vout_mode_answer (zip tr u)).

Lemma reported_snoc tr u a o : length tr = length u ->
  reported (tr ++ [a]) (u ++ [o]) = match vout_mode_answer (a, o) with Some m => Some m | None => reported tr u end.
Proof.
  intros Hl. unfold reported. rewrite zip_with_app by done. rewrite omap_app.
  change (omap vout_mode_answer (zip [a] [o])) with (match vout_mode_answer (a, o) with Some m => [m] | None => [] end).
  destruct (vout_mode_answer (a, o)); [by rewrite last_snoc|by rewrite app_nil_r].
Qed.
Lemma reported_pending tr u a : length tr = length u -> reported (tr ++ [a]) u = reported tr u.
Proof.
  intros Hl. unfold reported. rewrite <- (app_nil_r u) at 1. rewrite zip_with_app by done. simpl. by rewrite app_nil_r.
Qed.

Section Ledger.
(** The mode in the cache at the start, if any. *)
Context (known : option Z).

(** The cache holds what it held at the start, or what the device reported since. *)
Definition coherent (s : Tps546.t) (tr : list bus_op) (u : list bus_outcome) : Prop :=
  match known with
  | Some m => cached_vout_mode s = Some m
  | None => forall m, cached_vout_mode s = Some m -> reported tr u = Some m
  end.
Definition in_force (tr : list bus_op) (u : list bus_outcome) : option Z :=
  match known with Some m => Some m | None => reported tr u end.

Definition honest {A} (Q : A -> list bus_op -> list bus_outcome -> Prop) : Effects.post Tps546.t bus_outcome bus_op Tps546Error A :=
  fun r s u tr => coherent s tr u /\
    match r with Wait => True | Ret a => length tr = length u /\ Q a tr u | _ => length tr = length u end.
(** [m] keeps the ledger, and its value satisfies [Q]; a report is not lost. *)
Definition Honest {A} (Q : A -> list bus_op -> list bus_outcome -> Prop) (m : M A) : Prop :=
  forall s u tr, length tr = length u -> coherent s tr u -> wp m s u tr (fun r s' u' tr' =>
    honest Q r s' u' tr' /\ (is_Some (reported tr u) -> is_Some (reported tr' u'))).
Abbreviation anything := (fun _ _ _ => True).

Lemma coherent_snoc s tr u a o : length tr = length u -> vout_mode_answer (a, o) = None ->
  coherent s tr u -> coherent s (tr ++ [a]) (u ++ [o]).
Proof. intros Hl Ho. unfold coherent. destruct known; [done|]. by rewrite reported_snoc, Ho. Qed.
Lemma coherent_pending s tr u a : length tr = length u -> coherent s tr u -> coherent s (tr ++ [a]) u.
Proof. intros Hl. unfold coherent. destruct known; [done|]. by rewrite reported_pending. Qed.

Lemma honest_bind {A B} (Q : A -> _) (Q' : B -> _) (m : M A) (k : A -> M B) :
  Honest Q m -> (forall a, Honest Q' (k a)) -> Honest Q' (bind m k).
Proof.
  intros Hm Hk s u tr Hl Hc. apply wp_bind. eapply wp_mono; [by apply Hm|].
  intros r s1 u1 tr1 [[Hc1 Hr] Hs]. destruct r as [a|e| |]; simpl; [|done..]. destruct Hr as [Hl1 _].
  eapply wp_mono; [by apply Hk|]. intros r2 s2 u2 tr2 [H2 Hs2]. auto.
Qed.
Lemma honest_weaken {A} (Q : A -> _) (m : M A) : Honest Q m -> Honest anything m.
Proof.
  intros Hm s u tr Hl Hc. eapply wp_mono; [by apply Hm|]. intros r s' u' tr' [[H1 H2] H3].
  split; [|done]. split; [done|]. destruct r; [|done..]. by destruct H2.
Qed.
Lemma honest_pure {A} (r : res Tps546Error A) : r <> Wait -> Honest anything (fun s es => (r, s, es, [])).
Proof.
  intros Hr s u tr Hl Hc es r' s' es' tr' [= <- <- <- <-]. exists []. rewrite !app_nil_r.
  split; [done|]. split; [split; [done|]|done]. by destruct r.
Qed.
Lemma honest_ret {A} (a : A) : Honest anything (ret a).
Proof. by apply (honest_pure (Ret a)). Qed.
Lemma honest_raise {A} e : Honest anything (raise e : M A).
Proof. by apply (honest_pure (Raise e)). Qed.
Lemma honest_get {A} (k : Tps546.t -> M A) Q : (forall s, Honest Q (k s)) -> Honest Q (bind get k).
Proof. intros Hk s u tr Hl Hc. apply wp_bind, wp_get. simpl. by apply Hk. Qed.

Lemma honest_write addr data : Honest anything (i2c_write BusError addr data : M unit).
Proof.
  intros s u tr Hl Hc. apply wp_i2c_write; unfold honest.
  - rewrite reported_pending by done. split_and!; [by apply coherent_pending|done|done].
  - rewrite reported_snoc by done. simpl. rewrite !length_app, Hl. split_and!; [by apply coherent_snoc|done..].
  - rewrite reported_snoc by done. simpl. rewrite !length_app, Hl. split_and!; [by apply coherent_snoc|done..].
Qed.

(** Any other reading than that of VOUT_MODE. *)
Lemma honest_other cmd n : as_u8 cmd <> 0x20 -> Honest anything (i2c_write_read BusError TPS546_I2C_ADDR [as_u8 cmd] n : M (list Z)).
Proof.
  intros Hcmd s u tr Hl Hc.
  assert (Hno : forall o, vout_mode_answer (I2cWriteRead TPS546_I2C_ADDR [as_u8 cmd] n, o) = None).
  { intros o. simpl. destruct n as [|[|]], o as [|[|x [|]]|]; try done.
    by rewrite (proj2 (Z.eqb_neq (as_u8 cmd) 0x20)). }
  apply wp_i2c_write_read; unfold honest.
  - rewrite reported_pending by done. split_and!; [by apply coherent_pending|done|done].
  - intros d _ _. rewrite reported_snoc, Hno, !length_app, Hl by done. split_and!; [by apply coherent_snoc|done..].
  - rewrite reported_snoc, Hno, !length_app, Hl by done. split_and!; [by apply coherent_snoc|done..].
Qed.
Lemma honest_read cmd n : as_u8 cmd <> 0x20 ->
  Honest anything (do! d := i2c_write_read BusError TPS546_I2C_ADDR [as_u8 cmd] n in ret (from_le d) : M Z).
Proof. intros Hcmd. eapply honest_bind; [by apply honest_other|]. intros d. apply honest_ret. Qed.

(** The mode the driver works with is the one in force. *)
Lemma honest_vout_mode : Honest (fun mode tr u => in_force tr u = Some mode) get_vout_mode.
Proof.
  intros s u tr Hl Hc. apply wp_mode.
  - intros m Hm. split; [|done]. split; [done|]. split; [done|].
    unfold coherent, in_force in *. destruct known; [congruence|]. by apply Hc.
  - intros Hm. assert (Hk : known = None) by (unfold coherent in Hc; destruct known; congruence).
    assert (Hr : forall x, reported (tr ++ [ask_mode]) (u ++ [Answered [x]]) = Some x)
      by (intros x; by rewrite reported_snoc).
    unfold honest. split_and!.
    + by apply coherent_pending.
    + done.
    + by rewrite reported_pending.
    + by apply coherent_snoc.
    + by rewrite !length_app, Hl.
    + by rewrite reported_snoc.
    + intros x. rewrite Hr, !length_app, Hl. unfold coherent, in_force. rewrite Hk, Hr. by split_and!.
Qed.

Lemma honest_voltage cmd volts : Honest anything (write_voltage cmd volts).
Proof.
  unfold write_voltage, encode_voltage. eapply honest_bind; [|intros value; apply honest_write].
  eapply honest_bind; [apply honest_vout_mode|]. intros mode.
  destruct (VoutMode.encode_linear16 mode volts); [apply honest_ret|apply honest_raise].
Qed.
Lemma honest_decode value : Honest (fun volts tr u => exists mode, in_force tr u = Some mode /\
  volts = VoutMode.decode_linear16 mode value) (decode_voltage value).
Proof.
  intros s u tr Hl Hc. unfold decode_voltage. apply wp_bind. eapply wp_mono; [by apply honest_vout_mode|].
  intros r s1 u1 tr1 [[Hc1 Hr] Hs]. destruct r as [mode|e| |]; simpl; [|done..]. destruct Hr as [Hl1 Hm].
  apply wp_ret. split; [|done]. split; [done|]. split; [done|]. by exists mode.
Qed.

Ltac honest := repeat first
  [ simple apply honest_ret | simple apply honest_raise | simple apply honest_write | simple apply honest_voltage
  | simple apply honest_read; discriminate | simple apply honest_other; discriminate
  | simple apply honest_get; intros ?
  | match goal with |- Honest _ (if ?b then _ else _) => destruct b end
  | simple eapply honest_bind; [|intros ?] ].

Lemma honest_config : Honest anything write_config.
Proof.
  unfold write_config, write_input_config, write_output_config, write_limits_config, write_timing_config, write_byte, write_word.
  honest.
Qed.
Lemma honest_device : Honest anything verify_device_id.
Proof. unfold verify_device_id. honest. Qed.
End Ledger.
Abbreviation anything := (fun _ _ _ => True).

(** ** Scripts: what a computation writes, [None] where a voltage does not encode *)
Definition script := list (option (list Z)).
Fixpoint until (l : script) : list (list Z) :=
  match l with Some w :: l => w :: until l | _ => [] end.
Fixpoint complete (l : script) : option (list (list Z)) :=
  match l with
  | [] => Some []
  | Some w :: l => d ← complete l; Some (w :: d)
  | None :: _ => None
  end.

Lemma complete_until l d : complete l = Some d -> until l = d.
Proof.
  revert d. induction l as [|[w|] l IH]; intros d; simpl; [by intros [= <-]| |done].
  destruct (complete l) as [d'|] eqn:Hl; [|done]. intros [= <-]. f_equal. by apply IH.
Qed.

Lemma complete_app l1 l2 d1 d2 : complete l1 = Some d1 -> complete l2 = Some d2 -> complete (l1 ++ l2) = Some (d1 ++ d2).
Proof.
  revert d1. induction l1 as [|[w|] l1 IH]; intros d1; simpl; [by intros [= <-]| |done].
  destruct (complete l1) as [d|] eqn:Hl; [|done]. intros [= <-] H2. by rewrite (IH d eq_refl H2).
Qed.

Lemma until_app l1 l2 d1 : complete l1 = Some d1 -> until (l1 ++ l2) = d1 ++ until l2.
Proof.
  revert d1. induction l1 as [|[w|] l1 IH]; intros d1; simpl; [by intros [= <-]| |done].
  destruct (complete l1) as [d|] eqn:Hl; [|done]. intros [= <-]. simpl. f_equal. by apply IH.
Qed.

Lemma until_app_prefix l1 l2 : until l1 `prefix_of` until (l1 ++ l2).
Proof. induction l1 as [|[w|] l1 IH]; simpl; [apply prefix_nil|by apply prefix_cons|apply prefix_nil]. Qed.

Section Script.
Context (c : Tps546Config).

(** A state whose cache, if any, is [mode]. *)
Definition sees (s : Tps546.t) (mode : Z) : Prop := forall m, cached_vout_mode s = Some m -> m = mode.

(** [m] writes its script as far as it comes, all of it if it returns, and keeps the
    configuration and a cached VOUT_MODE. *)
Definition Writes {A} (sc : Z -> script) (m : M A) : Prop := forall s u tr, config s = c ->
  wp m s u tr (fun r s' u' tr' =>
    config s' = config s /\ (forall m, cached_vout_mode s = Some m -> cached_vout_mode s' = Some m) /\
    forall mode, sees s' mode -> exists l, writes tr' = writes tr ++ to_chip l /\
      match r with Ret _ => complete (sc mode) = Some l | _ => l `prefix_of` until (sc mode) end).

Lemma writes_bind {A B} sc1 sc2 (m : M A) (k : A -> M B) :
  Writes sc1 m -> (forall a, Writes sc2 (k a)) -> Writes (fun mode => sc1 mode ++ sc2 mode) (bind m k).
Proof.
  intros Hm Hk s u tr Hcfg. apply wp_bind. eapply wp_mono; [by apply Hm|].
  intros r s1 u1 tr1 (Hc & Hs & H1). destruct r as [a|e| |]; simpl.
  2-4: split_and!; [done|done|]; intros mode Hmode; destruct (H1 mode Hmode) as (l & -> & Hl);
    exists l; (split; [done|]); etrans; [exact Hl|apply until_app_prefix].
  eapply wp_mono; [apply Hk; congruence|]. intros r2 s2 u2 tr2 (Hc2 & Hs2 & H2).
  split_and!; [congruence|auto|]. intros mode Hmode.
  destruct (H1 mode) as (l & Hw & Hl); [intros m' Hm'; by apply Hmode, Hs2|].
  destruct (H2 mode Hmode) as (l2 & -> & Hl2). exists (l ++ l2). split.
  - rewrite Hw. unfold to_chip. by rewrite map_app, app_assoc.
  - destruct r2; [by apply complete_app|..]; rewrite (until_app _ _ l) by done; by apply prefix_app.
Qed.

Lemma writes_quiet {A} (m : M A) :
  (forall s u tr, wp m s u tr (fun r s' u' tr' =>
    config s' = config s /\ (forall m, cached_vout_mode s = Some m -> cached_vout_mode s' = Some m) /\ writes tr' = writes tr)) ->
  Writes (fun _ => []) m.
Proof.
  intros Hm s u tr Hcfg. eapply wp_mono; [by apply Hm|]. intros r s' u' tr' (H1 & H2 & H3). split_and!; [done|done|].
  intros mode _. exists []. rewrite app_nil_r. split; [done|]. destruct r; try done; apply prefix_nil.
Qed.

Lemma quiet_read {A} n data (k : list Z -> M A) sc :
  (forall d, Writes sc (k d)) -> Writes sc (do! d := i2c_write_read BusError TPS546_I2C_ADDR data n in k d).
Proof.
  intros Hk. apply (writes_bind (fun _ => []) sc); [|done]. apply writes_quiet. intros s u tr.
  apply wp_i2c_write_read; intros; (split_and!; [done|done|]); rewrite bus_writes_app; apply app_nil_r.
Qed.

Lemma writes_ret {A} (a : A) : Writes (fun _ => []) (ret a).
Proof. apply writes_quiet. intros s u tr. by apply wp_ret. Qed.
Lemma writes_raise {A} e : Writes (fun _ => []) (raise e : M A).
Proof. apply writes_quiet. intros s u tr. by apply wp_raise. Qed.
Lemma writes_get {A} (k : Tps546.t -> M A) sc :
  (forall s, config s = c -> Writes sc (k s)) -> Writes sc (do! s := get in k s).
Proof. intros Hk s u tr Hc. apply wp_bind, wp_get. simpl. by apply Hk. Qed.

Lemma writes_one data : Writes (fun _ => [Some data]) (i2c_write BusError TPS546_I2C_ADDR data : M unit).
Proof.
  intros s u tr _. apply wp_i2c_write; (split_and!; [done|done|]); intros mode _; exists [data];
    (split; [by rewrite bus_writes_app|]); try done; apply prefix_cons, prefix_nil.
Qed.

Lemma writes_attempt {A} (m : M A) : Writes (fun _ => []) m -> Writes (fun _ => []) (attempt m).
Proof.
  intros Hm s u tr Hcfg. apply wp_attempt. eapply wp_mono; [by apply Hm|]. intros r s' u' tr' (H1 & H2 & H3).
  split_and!; [done|done|]. intros mode Hmode. destruct (H3 mode Hmode) as (l & Hw & Hl). exists l. split; [done|].
  destruct r; [done| |done..]. by apply prefix_nil_inv in Hl as ->.
Qed.

(** The word of a voltage in a script. *)
Definition voltage_word (cmd : PmbusCommand.t) (volts : float) (mode : Z) : script :=
  [match VoutMode.encode_linear16 mode volts with Ok v => Some (as_u8 cmd :: le_bytes 2 v) | Err _ => None end].

Lemma wp_get_vout_mode s u tr :
  wp (get_vout_mode : M Z) s u tr (fun r s' u' tr' =>
    config s' = config s /\ (forall m, cached_vout_mode s = Some m -> cached_vout_mode s' = Some m) /\
    writes tr' = writes tr /\ forall mode, r = Ret mode -> cached_vout_mode s' = Some mode).
Proof.
  apply wp_mode.
  - intros m Hm. split_and!; [done|done|done|]. by intros mode [= <-].
  - intros Hm. rewrite bus_writes_app, app_nil_r. split_and!; try done; try (by rewrite Hm).
    intros x. simpl. rewrite Hm. split_and!; try done. by intros mode [= <-].
Qed.

Lemma writes_voltage cmd volts : Writes (voltage_word cmd volts) (write_voltage cmd volts).
Proof.
  intros s u tr Hcfg. unfold write_voltage, encode_voltage. apply wp_bind, wp_bind. eapply wp_mono; [apply wp_get_vout_mode|].
  intros r s1 u1 tr1 (H1 & H2 & H3 & H4). destruct r as [mode|e| |]; simpl.
  2-4: split_and!; [done|done|]; intros mode _; exists []; rewrite app_nil_r; (split; [done|apply prefix_nil]).
  specialize (H4 mode eq_refl). destruct (VoutMode.encode_linear16 mode volts) as [v|e] eqn:Hv.
  - apply wp_ret. simpl. eapply wp_mono; [apply (writes_one (as_u8 cmd :: le_bytes 2 v)); congruence|].
    intros r s2 u2 tr2 (H5 & H6 & H7). split_and!; [congruence|auto|]. intros mode' Hmode'.
    assert (mode' = mode) as -> by (symmetry; by apply Hmode', H6).
    destruct (H7 mode Hmode') as (l & -> & Hl). exists l. rewrite H3. split; [done|]. unfold voltage_word. by rewrite Hv.
  - apply wp_raise. simpl. split_and!; [done|done|]. intros mode' _. exists []. rewrite app_nil_r.
    split; [done|apply prefix_nil].
Qed.

Definition byte_entry (cmd : PmbusCommand.t) (x : Z) : script := [Some [as_u8 cmd; x]].
Definition word_entry (cmd : PmbusCommand.t) (x : Z) : script := [Some (as_u8 cmd :: le_bytes 2 x)].
Definition float_entry (cmd : PmbusCommand.t) (x : float) : script := word_entry cmd (linear11.from_float x).
Definition int_entry (cmd : PmbusCommand.t) (x : Z) : script := float_entry cmd (f_of_Z f32 x).

(** The settings of a configuration, section by section. *)
Definition input_script : script :=
  byte_entry Phase (phase c) ++ int_entry FrequencySwitch (frequency_switch_khz c) ++
  (if f_lt (S754_zero false) (Voltage.volts (vin_uv_warn_limit c))
   then float_entry VinUvWarnLimit (Voltage.volts (vin_uv_warn_limit c)) else []) ++
  float_entry VinOn (Voltage.volts (vin_on c)) ++ float_entry VinOff (Voltage.volts (vin_off c)) ++
  float_entry VinOvFaultLimit (Voltage.volts (vin_ov_fault_limit c)) ++
  byte_entry VinOvFaultResponse (vin_ov_fault_response c).

Definition output_script (mode : Z) : script :=
  float_entry VoutScaleLoop (vout_scale_loop c) ++
  voltage_word VoutCommand (Voltage.volts (vout_command c)) mode ++
  voltage_word VoutMax (Voltage.volts (vout_max c)) mode ++
  voltage_word VoutMin (Voltage.volts (vout_min c)) mode ++
  voltage_word VoutOvFaultLimit (Ratio.factor (vout_ov_fault_limit c)) mode ++
  voltage_word VoutOvWarnLimit (Ratio.factor (vout_ov_warn_limit c)) mode ++
  voltage_word VoutMarginHigh (Ratio.factor (vout_margin_high c)) mode ++
  voltage_word VoutMarginLow (Ratio.factor (vout_margin_low c)) mode ++
  voltage_word VoutUvWarnLimit (Ratio.factor (vout_uv_warn_limit c)) mode ++
  voltage_word VoutUvFaultLimit (Ratio.factor (vout_uv_fault_limit c)) mode.

Definition limits_script : script :=
  float_entry IoutOcWarnLimit (iout_oc_warn_limit c) ++ float_entry IoutOcFaultLimit (iout_oc_fault_limit c) ++
  byte_entry IoutOcFaultResponse (iout_oc_fault_response c) ++
  int_entry OtWarnLimit (ot_warn_limit c) ++ int_entry OtFaultLimit (ot_fault_limit c) ++
  byte_entry OtFaultResponse (ot_fault_response c).

Definition timing_script : script :=
  int_entry TonDelay (ton_delay c) ++ int_entry TonRise (ton_rise c) ++
  int_entry TonMaxFaultLimit (ton_max_fault_limit c) ++ byte_entry TonMaxFaultResponse (ton_max_fault_response c) ++
  int_entry ToffDelay (toff_delay c) ++ int_entry ToffFall (toff_fall c) ++
  word_entry PinDetectOverride (pin_detect_override c).

Definition config_script (mode : Z) : script := input_script ++ output_script mode ++ limits_script ++ timing_script.

Ltac writes_step :=
  first
    [ apply writes_bind; [|intros ?]
    | apply writes_voltage
    | apply writes_one
    | apply writes_ret
    | match goal with |- Writes (fun _ => if ?b then _ else _) _ => destruct b end ].

Lemma writes_config : Writes config_script write_config.
Proof.
  apply writes_get. intros s ->. cbv zeta.
  apply (writes_bind (fun _ => input_script)); [unfold input_script, write_input_config; repeat writes_step|intros _].
  apply (writes_bind output_script); [unfold output_script, write_output_config; repeat writes_step|intros _].
  apply (writes_bind (fun _ => limits_script) (fun _ => timing_script));
    [unfold limits_script, write_limits_config|intros _; unfold timing_script, write_timing_config]; repeat writes_step.
Qed.

(** The whole script of [init]: the output is turned off first. *)
Definition init_script (mode : Z) : script :=
  byte_entry Operation 0x00 ++ byte_entry OnOffConfig 0x1B ++ config_script mode.

Lemma writes_ext {A} sc sc' (m : M A) : (forall mode, sc mode = sc' mode) -> Writes sc m -> Writes sc' m.
Proof.
  intros He Hm s u tr Hc. eapply wp_mono; [by apply Hm|]. intros r s' u' tr' (H1 & H2 & H3).
  split_and!; [done|done|]. intros mode. rewrite <- He. apply H3.
Qed.

(** What follows the check of the device. *)
Definition set_up : M unit :=
  write_byte Operation (Pmbus.Operation.as_u8 Pmbus.Operation.OffImmediate) ;!
  write_byte OnOffConfig (Z.lor (Z.lor (Z.lor Pmbus.OnOffConfig.DELAY Pmbus.OnOffConfig.POLARITY) Pmbus.OnOffConfig.CMD)
    Pmbus.OnOffConfig.PU) ;!
  do! vout_mode := read_byte VoutMode in
  write_config ;!
  do! status := read_word StatusWord in
  ret tt.

Lemma writes_read {A} (k : Z -> M A) sc cmd n :
  (forall x, Writes sc (k x)) ->
  Writes sc (do! x := (do! d := i2c_write_read BusError TPS546_I2C_ADDR [as_u8 cmd] n in ret (from_le d)) in k x).
Proof.
  intros Hk. apply (writes_bind (fun _ => []) sc); [|done]. apply quiet_read. intros d. apply writes_ret.
Qed.

Lemma writes_set_up : Writes init_script set_up.
Proof.
  unfold init_script, set_up. apply writes_bind; [apply writes_one|intros _].
  apply writes_bind; [apply writes_one|intros _]. apply writes_read. intros _.
  apply (writes_ext (fun mode => config_script mode ++ [])); [intros; apply app_nil_r|].
  apply writes_bind; [apply writes_config|intros _]. apply writes_read. intros _. apply writes_ret.
Qed.

Lemma until_elem w l : w ∈ until l -> Some w ∈ l.
Proof. induction l as [|[x|] l IH]; simpl; [by intros ?%elem_of_nil| |by intros ?%elem_of_nil]. set_solver. Qed.

Definition not_operation (e : option (list Z)) : Prop :=
  match e with Some (x :: _) => x <> as_u8 Operation | _ => True end.

Lemma not_operation_voltage cmd v mode : as_u8 cmd <> as_u8 Operation -> Forall not_operation (voltage_word cmd v mode).
Proof. intros Hc. unfold voltage_word. constructor; [|done]. by destruct (VoutMode.encode_linear16 mode v). Qed.

Lemma config_not_operation mode : Forall not_operation (config_script mode).
Proof.
  unfold config_script, input_script, output_script, limits_script, timing_script.
  repeat (apply Forall_app; split); try (apply not_operation_voltage; vm_compute; discriminate);
    try (destruct (f_lt _ _)); (constructor; [vm_compute; discriminate|constructor]) || constructor.
Qed.

Lemma script_switches_off mode w d : w ∈ until (init_script mode) -> w = as_u8 Operation :: d -> d = [0x00].
Proof.
  intros Hw%until_elem ->. unfold init_script in Hw. rewrite !elem_of_app in Hw. destruct Hw as [Hw|[Hw|Hw]].
  - apply list_elem_of_singleton in Hw. by injection Hw as ->.
  - by apply list_elem_of_singleton in Hw.
  - pose proof (config_not_operation mode) as Hf. rewrite Forall_forall in Hf. by specialize (Hf _ Hw).
Qed.
End Script.

(** A device the driver knows has answered. *)
Definition known_device (outcomes : list bus_outcome) : Prop :=
  exists l id, Answered (l :: id) ∈ outcomes /\ id ∈ [DEVICE_ID1; DEVICE_ID2; DEVICE_ID3].

Lemma wp_verify s u tr :
  wp (verify_device_id : M unit) s u tr (fun r s' u' tr' =>
    s' = s /\ writes tr' = writes tr /\ (r = Ret tt -> known_device u')).
Proof.
  unfold verify_device_id. apply wp_bind.
  apply wp_i2c_write_read; simpl; try (split_and!; [done|rewrite bus_writes_app; apply app_nil_r|done]).
  intros d Hd _. destruct d as [|x d]; [done|]. simpl.
  match goal with |- wp (if ?b then _ else _) _ _ _ _ => destruct b eqn:Hid end.
  - apply wp_ret. split_and!; [done|rewrite bus_writes_app; apply app_nil_r|]. intros _. exists x, d.
    split; [set_solver|]. rewrite !orb_true_iff, !bool_decide_eq_true in Hid. set_solver.
  - apply wp_raise. split_and!; [done|rewrite bus_writes_app; apply app_nil_r|done].
Qed.

(** The set-up of a device whose VOUT_MODE is not known yet has it reported. *)
Definition mode_known : Effects.post Tps546.t bus_outcome bus_op Tps546Error unit := fun r s u tr =>
  coherent None s tr u /\ (r = Ret tt -> is_Some (reported tr u)).

Lemma wp_set_up_mode s u tr : cached_vout_mode s = None -> length tr = length u -> wp set_up s u tr mode_known.
Proof.
  intros Hs. assert (Hc : forall tr u, coherent None s tr u) by (intros tr' u' m Hm; congruence).
  assert (Hstuck : forall r u tr, r <> Ret tt -> mode_known r s u tr) by (intros r u' tr' Hr; by split).
  assert (Hwrite : forall cmd x (k : M unit), (forall u tr, length tr = length u -> wp k s u tr mode_known) ->
    forall u tr, length tr = length u -> wp (write_byte cmd x ;! k) s u tr mode_known).
  { intros cmd x k Hk u' tr' Hl. apply wp_bind, wp_i2c_write; simpl; try by apply Hstuck.
    apply Hk. by rewrite !length_app, Hl. }
  revert u tr. unfold set_up. apply Hwrite, Hwrite. intros u tr Hl. unfold read_byte. apply wp_bind, wp_bind.
  apply wp_i2c_write_read; simpl; try by apply Hstuck.
  intros d Hd _. destruct d as [|x [|]]; try done. apply wp_ret. simpl.
  set (tr1 := tr ++ _). set (u1 := u ++ _). assert (Hl1 : length tr1 = length u1) by (subst tr1 u1; by rewrite !length_app, Hl).
  assert (Hr : is_Some (reported tr1 u1)) by (subst tr1 u1; rewrite reported_snoc by done; simpl; by eexists).
  assert (Hrest : Honest None anything (write_config ;! do! status := read_word StatusWord in ret tt)).
  { eapply honest_bind; [apply honest_config|intros _]. eapply honest_bind; [by apply honest_read|intros _]. apply honest_ret. }
  eapply wp_mono; [by apply Hrest|]. intros r s2 u2 tr2 [[H1 _] H2]. split; [done|]. intros _. by apply H2.
Qed.

(** [mode] is what the device last reported, if it has. *)
Definition agrees (mode : Z) (tr : list bus_op) (u : list bus_outcome) : Prop :=
  forall m, reported tr u = Some m -> m = mode.

Lemma wp_init c :
  wp init (new c) [] [] (fun r s u tr =>
    (forall mode, agrees mode tr u -> exists l, writes tr = to_chip l /\
       match r with Ret _ => complete (init_script c mode) = Some l | _ => l `prefix_of` until (init_script c mode) end) /\
    (r = Ret tt -> is_Some (reported tr u)) /\
    (writes tr <> [] -> known_device u)).
Proof.
  unfold init. apply wp_bind. eapply wp_mono; [apply wp_and; [apply wp_verify|by apply (honest_device None)]|].
  intros r s u tr [(-> & Hw & Hk) [[Hc Hl] _]]. destruct r as [[]|e| |]; simpl.
  2-4: rewrite Hw; split_and!; [|done|done]; intros mode _; exists []; split; [done|apply prefix_nil].
  fold set_up. destruct Hl as [Hl _].
  eapply wp_mono; [apply wp_and; [eapply wp_extends, writes_set_up; done|by apply wp_set_up_mode]|].
  intros r s2 u2 tr2 [[(_ & _ & H) Hu] [Hcoh Hrep]]. split_and!; [|done|].
  - intros mode Hmode. destruct (H mode) as (l & -> & Hl2); [intros m Hm; by apply Hmode, Hcoh|]. exists l. by rewrite Hw.
  - intros _. destruct (Hk eq_refl) as (x & id & Hx & Hid). exists x, id. split; [|done].
    destruct Hu as [w ->]. set_solver.
Qed.

(** C32 The regulator is set up off.  Whatever the bus does, what [init] writes is a part,
    from the start, of one script: output off, ON_OFF_CONFIG, then every setting of the
    configuration, voltages at the VOUT_MODE that the device last reported.  All of it is
    written if [init] succeeds, and then the device has reported its VOUT_MODE; nothing is
    written before a known device has answered, and the output is never switched on. *)
Theorem init_writes_configuration c es :
  let '(r, s, es', tr) := init (new c) es in
  exists used, es = used ++ es' /\
  (forall mode, agrees mode tr used -> exists l, writes tr = to_chip l /\
     match r with Ret _ => complete (init_script c mode) = Some l | _ => l `prefix_of` until (init_script c mode) end) /\
  (r = Ret tt -> is_Some (reported tr used)) /\
  (writes tr <> [] -> known_device used) /\
  (forall d, (TPS546_I2C_ADDR, as_u8 Operation :: d) ∈ writes tr -> d = [0x00]).
Proof.
  destruct (init (new c) es) as [[[r s] es'] tr] eqn:Hi. destruct (wp_init c _ _ _ _ _ Hi) as (u & -> & H & Hr & Hk).
  change ([] ++ u) with u in *. change ([] ++ tr) with tr in *. exists u. split_and!; [done..|].
  intros d Hd. set (mode := default 0 (reported tr u)).
  destruct (H mode) as (l & Hw & Hl); [unfold mode; by intros m ->|].
  rewrite Hw in Hd. apply list_elem_of_In, in_map_iff in Hd as (w & [= ->] & Hin).
  apply list_elem_of_In in Hin. eapply (script_switches_off c mode); [|done].
  destruct r; [by rewrite (complete_until _ _ Hl)|..]; destruct Hl as [k ->]; set_solver.
Qed.
