(* ===== verification/Tps546Contract.v ===== *)
(** * The TPS546 driver's contract: its handle, its status check *)
From stdpp Require Import base numbers list strings sets.
From Stdlib Require Import ZArith Lia SpecFloat.
From S2P Require Import Prelude Float FloatExact Effects Pmbus I2c Tps546 Tps546Props.
#[local] Open Scope eff_scope.
Import PmbusCommand Tps546.

(** ** The consumer's handle *)

(** Single bits. *)
Lemma contains_bit x i : 0 <= i -> contains x (2 ^ i) = Z.testbit x i.
Proof.
  intros Hi. unfold contains. destruct (Z.testbit x i) eqn:Hb.
  - apply Z.eqb_eq, Z.bits_inj'. intros n Hn. rewrite Z.land_spec, Z.pow2_bits_eqb by lia.
    destruct (Z.eqb_spec i n) as [->|]; [by rewrite Hb|apply andb_false_r].
  - apply Z.eqb_neq. intros Heq. apply (f_equal (fun y => Z.testbit y i)) in Heq.
    rewrite Z.land_spec, Z.pow2_bits_true, Hb in Heq by lia. done.
Qed.

Lemma intersects_land x y : intersects x y = negb (Z.land x y =? 0).
Proof. done. Qed.

Lemma intersects_lor x y z : intersects x (Z.lor y z) = intersects x y || intersects x z.
Proof.
  unfold intersects. rewrite Z.land_lor_distr_r, <- negb_andb. f_equal.
  destruct (Z.eqb_spec (Z.land x y) 0) as [->|H1], (Z.eqb_spec (Z.land x z) 0) as [->|H2]; simpl; try done.
  - apply Z.eqb_neq. by rewrite Z.lor_0_l.
  - apply Z.eqb_neq. intros Hz. by apply Z.lor_eq_0_iff in Hz as [].
  - apply Z.eqb_neq. intros Hz. by apply Z.lor_eq_0_iff in Hz as [].
Qed.

Lemma intersects_bit x i : 0 <= i -> intersects x (2 ^ i) = Z.testbit x i.
Proof.
  intros Hi. unfold intersects. destruct (Z.testbit x i) eqn:Hb.
  - apply negb_true_iff, Z.eqb_neq. intros Heq. apply (f_equal (fun y => Z.testbit y i)) in Heq.
    by rewrite Z.land_spec, Z.pow2_bits_true, Hb, Z.bits_0 in Heq by lia.
  - apply negb_false_iff, Z.eqb_eq, Z.bits_inj'. intros n Hn. rewrite Z.land_spec, Z.pow2_bits_eqb, Z.bits_0 by lia.
    destruct (Z.eqb_spec i n) as [->|]; [by rewrite Hb|apply andb_false_r].
Qed.

Lemma land_bit x mask i : Z.testbit mask i = true -> Z.testbit (Z.land x mask) i = Z.testbit x i.
Proof. intros Hm. by rewrite Z.land_spec, Hm, andb_true_r. Qed.

(** What an operation may write; [mode] is the VOUT_MODE in force. *)
Definition op_writes (c : Tps546Config) (mode : option Z) (op : regulator_op) (w : Z * list Z) : Prop :=
  match op with
  | Enable => w = (TPS546_I2C_ADDR, [0x01; 0x80])
  | Disable => w = (TPS546_I2C_ADDR, [0x01; 0x00])
  | SetVoltage v => vout_min c <= v <= vout_max c /\
      exists m n, mode = Some m /\ VoutMode.encode_linear16 m (Voltage.volts v) = Ok n /\
        w = (TPS546_I2C_ADDR, 0x21 :: le_bytes 2 n)
  | IsEnabled | GetVoltage => False
  end.

(** What is known when an operation returns: its bus operations, their outcomes, the answer. *)
Definition op_done (c : Tps546Config) (mode : option Z) (op : regulator_op)
    (tr : list bus_op) (used : list bus_outcome) (a : regulator_answer) : Prop :=
  match op with
  | Enable => a = Done /\ used = [Acked; Answered [0x80]]
  | Disable => a = Done /\ used = [Acked; Answered [0x00]]
  | IsEnabled => exists x, tr = [I2cWriteRead TPS546_I2C_ADDR [0x01] 1] /\ used = [Answered [x]] /\
      a = OutputOn (Z.testbit x 7)
  | SetVoltage v => a = Done /\ vout_min c <= v <= vout_max c /\ last used = Some Acked
  | GetVoltage => exists lo hi m, head tr = Some (I2cWriteRead TPS546_I2C_ADDR [0x21] 2) /\
      head used = Some (Answered [lo; hi]) /\ mode = Some m /\
      a = Target (Voltage.from_volts (VoutMode.decode_linear16 m (lo + 256 * hi)))
  end.

Section Handle.
Context (s0 : Tps546.t).
(** The mode in the cache, or the one the device reported. *)
Abbreviation mode := (in_force (cached_vout_mode s0)).

(** What is true of an operation that has ended or waits. *)
Definition op_holds (op : regulator_op) : Effects.post Tps546.t bus_outcome bus_op Tps546Error regulator_answer :=
  fun r s u tr => Forall (op_writes (config s0) (mode tr u) op) (writes tr) /\
    (forall a, r = Ret a -> op_done (config s0) (mode tr u) op tr u a).

Lemma holds_quiet op r s u tr : writes tr = [] -> (forall a, r <> Ret a) -> op_holds op r s u tr.
Proof. intros Hw Hr. split; [by rewrite Hw|]. intros a Ha. by destruct (Hr a). Qed.

(** The mode after a reading of it, if there is nothing in the cache. *)
Lemma mode_reported m tr u x : cached_vout_mode s0 = None -> length tr = length u ->
  m = ask_mode -> mode (tr ++ [m]) (u ++ [Answered [x]]) = Some x.
Proof. intros Hn Hl ->. unfold in_force. rewrite Hn, reported_snoc by done. done. Qed.

Lemma wp_switch op on :
  (op = Enable /\ on = Pmbus.Operation.On) \/ (op = Disable /\ on = Pmbus.Operation.OffImmediate) ->
  wp (write_operation on ;! ret Done : Tps546Props.M regulator_answer) s0 [] [] (op_holds op).
Proof.
  intros Hop. set (code := Pmbus.Operation.as_u8 on).
  assert (Hone : forall tr u, writes tr = [(TPS546_I2C_ADDR, [0x01; code])] ->
    Forall (op_writes (config s0) (mode tr u) op) (writes tr))
    by (intros tr u ->; repeat constructor; by destruct Hop as [[-> ->]|[-> ->]]).
  apply wp_bind. unfold write_operation. apply wp_bind. apply wp_i2c_write; simpl; try (by split; [apply Hone|]).
  unfold read_byte. apply wp_bind, wp_bind. apply wp_i2c_write_read; simpl; try (by split; [apply Hone|]).
  intros d Hd _. apply wp_ret. simpl. destruct d as [|x [|]]; try done.
  replace (from_le [x]) with x by (unfold from_le; simpl; lia). fold code. destruct (Z.eqb_spec x code) as [->|].
  - apply wp_ret. simpl. apply wp_ret. split; [by apply Hone|]. intros a [= <-].
    subst code. by destruct Hop as [[-> ->]|[-> ->]].
  - apply wp_raise. by split; [apply Hone|].
Qed.

Lemma wp_is_enabled : wp (regulate IsEnabled) s0 [] [] (op_holds IsEnabled).
Proof.
  simpl. unfold output_enabled, read_byte. do 3 apply wp_bind.
  apply wp_i2c_write_read; simpl; try by apply holds_quiet.
  intros d Hd _. destruct d as [|x [|]]; try done. do 3 (apply wp_ret; simpl). split; [constructor|].
  intros a [= <-]. exists x. split_and!; [done|done|]. f_equal.
  replace (x + 256 * 0) with x by lia. apply (intersects_bit x 7). lia.
Qed.

Lemma wp_get_voltage : wp (regulate GetVoltage) s0 [] [] (op_holds GetVoltage).
Proof.
  simpl. unfold get_vout_target, read_word. do 3 apply wp_bind.
  apply wp_i2c_write_read; simpl; try by apply holds_quiet.
  intros d Hd _. destruct d as [|lo [|hi [|]]]; try done. apply wp_ret. simpl. unfold decode_voltage. do 2 apply wp_bind.
  replace (hi + 256 * 0) with hi by lia. apply wp_mode.
  - intros m Hm. simpl. do 3 (apply wp_ret; simpl). split; [constructor|]. intros a [= <-].
    exists lo, hi, m. by rewrite Hm.
  - intros Hn. split_and!; [by apply holds_quiet|by apply holds_quiet|]. intros x. simpl. do 3 (apply wp_ret; simpl).
    split; [constructor|]. intros a [= <-]. exists lo, hi, x.
    split_and!; [done|done|by apply (mode_reported ask_mode [_] [_])|done].
Qed.

(** Once the mode is known, the set point is written. *)
Lemma wp_write_target v m s u tr : vout_min (config s0) <= v <= vout_max (config s0) ->
  mode tr u = Some m -> length tr = length u -> writes tr = [] ->
  wp (match VoutMode.encode_linear16 m (Voltage.volts v) with Ok n => ret n | Err _ => raise EncodingError end)
    s u tr (cont (write_word VoutCommand) (cont (fun _ => ret Done) (op_holds (SetVoltage v)))).
Proof.
  intros Hv Hm Hl Hw. destruct (VoutMode.encode_linear16 m (Voltage.volts v)) as [n|] eqn:Hn;
    [|apply wp_raise; by apply holds_quiet].
  apply wp_ret. simpl. unfold write_word.
  assert (Hone : forall u', mode (tr ++ [I2cWrite TPS546_I2C_ADDR (as_u8 VoutCommand :: le_bytes 2 n)]) u' = Some m ->
    Forall (op_writes (config s0) (mode (tr ++ [I2cWrite TPS546_I2C_ADDR (as_u8 VoutCommand :: le_bytes 2 n)]) u') (SetVoltage v))
      (writes (tr ++ [I2cWrite TPS546_I2C_ADDR (as_u8 VoutCommand :: le_bytes 2 n)]))).
  { intros u' Hm'. rewrite bus_writes_app, Hw, Hm'. repeat constructor; [lia|lia|by exists m, n]. }
  assert (Hpend : mode (tr ++ [I2cWrite TPS546_I2C_ADDR (as_u8 VoutCommand :: le_bytes 2 n)]) u = Some m)
    by (revert Hm; unfold in_force; destruct (cached_vout_mode s0); [done|by rewrite reported_pending]).
  assert (Hpair : forall o, mode (tr ++ [I2cWrite TPS546_I2C_ADDR (as_u8 VoutCommand :: le_bytes 2 n)]) (u ++ [o]) = Some m)
    by (intros o; revert Hm; unfold in_force; destruct (cached_vout_mode s0); [done|by rewrite reported_snoc]).
  apply wp_i2c_write; simpl; [by split; [apply Hone|]| |by split; [apply Hone|]].
  apply wp_ret. split; [by apply Hone|]. intros a [= <-]. split_and!; [done|lia|lia|by rewrite last_snoc].
Qed.

Lemma wp_set_voltage v : vout_min (config s0) <= v <= vout_max (config s0) ->
  wp (regulate (SetVoltage v)) s0 [] [] (op_holds (SetVoltage v)).
Proof.
  intros Hv. simpl. unfold set_vout_target. apply wp_bind, wp_bind, wp_get. simpl.
  rewrite (proj2 (Z.ltb_ge v _)), (proj2 (Z.ltb_ge _ v)) by lia.
  unfold write_voltage, encode_voltage. do 2 apply wp_bind. apply wp_mode.
  - intros m Hm. simpl. apply wp_write_target; try done. unfold in_force. by rewrite Hm.
  - intros Hn. split_and!; [by apply holds_quiet|by apply holds_quiet|]. intros x. simpl.
    apply (wp_write_target v x _ [Answered [x]] [ask_mode]); try done. by apply (mode_reported ask_mode [] []).
Qed.

Lemma set_voltage_refused v es : ~ vout_min (config s0) <= v <= vout_max (config s0) ->
  exists e, regulate (SetVoltage v) s0 es = (Raise e, s0, es, []).
Proof.
  intros Hv. simpl. unfold set_vout_target, bind, get.
  destruct (Z.ltb_spec v (vout_min (config s0))), (Z.ltb_spec (vout_max (config s0)) v); try lia; by eexists.
Qed.

Lemma wp_regulate op : (forall v, op = SetVoltage v -> vout_min (config s0) <= v <= vout_max (config s0)) ->
  wp (regulate op) s0 [] [] (op_holds op).
Proof.
  intros Hop. destruct op as [| | |v|].
  - apply wp_switch. by left.
  - apply wp_switch. by right.
  - apply wp_is_enabled.
  - by apply wp_set_voltage, Hop.
  - apply wp_get_voltage.
Qed.
End Handle.


(** ** A device with registers *)
Section Device.
(** The value of each register; a read of [n] bytes is answered with its [n] low bytes. *)
Context (reg : Z -> Z).

Definition answer (a : bus_op) (o : bus_outcome) : Prop :=
  match a with
  | I2cWrite addr _ => addr = TPS546_I2C_ADDR /\ o = Acked
  | I2cWriteRead addr [cmd] n => addr = TPS546_I2C_ADDR /\ o = Answered (le_bytes n (reg cmd))
  | _ => False
  end.

(** On this device [m] ends with [r] in state [s'], whatever comes after. *)
Definition Ends {A} (m : M A) (s : Tps546.t) (r : res Tps546Error A) (s' : Tps546.t) : Prop :=
  exists es tr, Forall2 answer tr es /\ forall rest, m s (es ++ rest) = (r, s', rest, tr).

Lemma ends_ret {A} (a : A) s : Ends (ret a) s (Ret a) s.
Proof. exists [], []. by split; [constructor|]. Qed.
Lemma ends_raise {A} e s : Ends (raise e : M A) s (Raise e) s.
Proof. exists [], []. by split; [constructor|]. Qed.
Lemma ends_get s : Ends (get : M Tps546.t) s (Ret s) s.
Proof. exists [], []. by split; [constructor|]. Qed.
Lemma ends_put s1 s : Ends (put s1 : M unit) s (Ret tt) s1.
Proof. exists [], []. by split; [constructor|]. Qed.

Lemma ends_bind {A B} (m : M A) (k : A -> M B) s a s1 r s2 :
  Ends m s (Ret a) s1 -> Ends (k a) s1 r s2 -> Ends (bind m k) s r s2.
Proof.
  intros (es1 & tr1 & Ha1 & H1) (es2 & tr2 & Ha2 & H2). exists (es1 ++ es2), (tr1 ++ tr2).
  split; [by apply Forall2_app|]. intros rest. unfold bind. by rewrite <- app_assoc, H1, H2.
Qed.

Lemma ends_attempt {A} (m : M A) s a s1 : Ends m s (Ret a) s1 -> Ends (attempt m) s (Ret (Ok a)) s1.
Proof. intros (es & tr & Ha & H). exists es, tr. split; [done|]. intros rest. unfold attempt. by rewrite H. Qed.

Lemma ends_write data s : Ends (i2c_write BusError TPS546_I2C_ADDR data : M unit) s (Ret tt) s.
Proof. exists [Acked], [I2cWrite TPS546_I2C_ADDR data]. split; [by repeat constructor|done]. Qed.

Lemma ends_read cmd n s :
  Ends (i2c_write_read BusError TPS546_I2C_ADDR [cmd] n : M (list Z)) s (Ret (le_bytes n (reg cmd))) s.
Proof.
  exists [Answered (le_bytes n (reg cmd))], [I2cWriteRead TPS546_I2C_ADDR [cmd] n]. split; [by repeat constructor|].
  intros rest. unfold i2c_write_read, bind, act, await. cbn [app].
  rewrite (bool_decide_eq_true_2 _ (le_bytes_length n (reg cmd))).
  replace (forallb _ (le_bytes n (reg cmd))) with true; [done|]. symmetry. apply forallb_forall. intros x Hx.
  pose proof (le_bytes_bytes n (reg cmd)) as Hb. unfold bytes in Hb. rewrite Forall_forall in Hb.
  rewrite <- list_elem_of_In in Hx. specialize (Hb x Hx). unfold uint in Hb. change (2 ^ 8) with 256 in Hb.
  apply andb_true_intro. lia.
Qed.

Lemma ends_read_reg n cmd s :
  Ends (do! d := i2c_write_read BusError TPS546_I2C_ADDR [as_u8 cmd] n in ret (from_le d) : M Z) s
    (Ret (wrap (8 * Z.of_nat n) (reg (as_u8 cmd)))) s.
Proof. eapply ends_bind; [apply ends_read|]. simpl. rewrite from_le_le_bytes. apply ends_ret. Qed.

(** ** The verdict of the registers, bit by bit *)
Definition status_byte (cmd : PmbusCommand.t) : Z := wrap 8 (reg (as_u8 cmd)).
Definition status_bit (i : Z) : bool := Z.testbit (reg (as_u8 StatusWord)) i.

Definition fault (set : bool) (label : string) (texts : list string) : list string :=
  if set then [(label +:+ StatusDecoder.join ", " texts)%string] else [].

(** Over- and undervoltage of the output, overcurrent, an input out of range or too low,
    overtemperature, any communication fault; and an output that is off though
    OPERATION is on. *)
Definition critical_faults : list string :=
  let vout := status_byte StatusVout in
  let iout := status_byte StatusIout in
  let input := status_byte StatusInput in
  let temp := status_byte StatusTemperature in
  fault (status_bit 15 && (Z.testbit vout 7 || Z.testbit vout 4)) "VOUT fault: " (StatusDecoder.decode_status_vout vout) ++
  fault (status_bit 14 && Z.testbit iout 7) "IOUT overcurrent: " (StatusDecoder.decode_status_iout iout) ++
  fault (status_bit 13 && (Z.testbit input 3 || Z.testbit input 4 || Z.testbit input 7)) "INPUT fault: "
    (StatusDecoder.decode_status_input input) ++
  fault (status_bit 2 && Z.testbit temp 7) "Overtemperature: " (StatusDecoder.decode_status_temp temp) ++
  fault (status_bit 1) "CML fault: " (StatusDecoder.decode_status_cml (status_byte StatusCml)) ++
  (if status_bit 6 && Z.testbit (status_byte Operation) 7 then ["Power controller is OFF"%string] else []).

(** The flag of a bit of STATUS_WORD, as the driver tests it. *)
Lemma status_flag i : 0 <= i < 16 ->
  contains (Pmbus.StatusWord.from_bits_truncate (wrap 16 (reg (as_u8 StatusWord)))) (2 ^ i) = status_bit i.
Proof.
  intros Hi. rewrite contains_bit by lia. unfold Pmbus.StatusWord.from_bits_truncate, status_bit.
  change 0xFFFF with (Z.ones 16). rewrite Z.land_spec, Z.ones_spec_low, andb_true_r, wrap_testbit by lia.
  by rewrite (proj2 (Z.ltb_lt i 16)) by lia.
Qed.

Lemma ends_class i cmd critical decode label cond s :
  0 <= i < 16 -> critical (status_byte cmd) = cond ->
  Ends (check_class (Pmbus.StatusWord.from_bits_truncate (wrap 16 (reg (as_u8 StatusWord)))) (2 ^ i) cmd critical decode label)
    s (Ret (fault (status_bit i && cond) label (decode (status_byte cmd)))) s.
Proof.
  intros Hi Hc. unfold check_class. rewrite status_flag by done. destruct (status_bit i); [|apply ends_ret].
  eapply ends_bind; [apply (ends_read_reg 1)|]. simpl. change (8 * Z.of_nat 1) with 8. fold (status_byte cmd).
  rewrite Hc. apply ends_ret.
Qed.

Lemma ends_vout_mode s : exists mode s', Ends (get_vout_mode : M Z) s (Ret mode) s'.
Proof.
  unfold get_vout_mode. destruct (cached_vout_mode s) as [m|] eqn:Hm.
  - exists m, s. eapply ends_bind; [apply ends_get|]. simpl. rewrite Hm. apply ends_ret.
  - eexists _, _. eapply ends_bind; [apply ends_get|]. simpl. rewrite Hm.
    eapply ends_bind; [apply (ends_read_reg 1)|]. simpl. eapply ends_bind; [apply ends_get|]. simpl.
    eapply ends_bind; [apply ends_put|]. apply ends_ret.
Qed.

(** A computation that ends with a value. *)
Definition Returns {A} (m : M A) : Prop := forall s, exists a s', Ends m s (Ret a) s'.

Lemma returns_bind {A B} (m : M A) (k : A -> M B) : Returns m -> (forall a, Returns (k a)) -> Returns (bind m k).
Proof.
  intros Hm Hk s. destruct (Hm s) as (a & s1 & H1), (Hk a s1) as (b & s2 & H2). exists b, s2. by eapply ends_bind.
Qed.
Lemma returns_attempt {A} (m : M A) : Returns m -> Returns (attempt m).
Proof. intros Hm s. destruct (Hm s) as (a & s1 & H1). exists (Ok a), s1. by apply ends_attempt. Qed.
Lemma returns_ret {A} (a : A) : Returns (ret a).
Proof. intros s. exists a, s. apply ends_ret. Qed.
Lemma returns_read_byte cmd : Returns (read_byte cmd).
Proof. intros s. eexists _, _. apply (ends_read_reg 1). Qed.
Lemma returns_read_word cmd : Returns (read_word cmd).
Proof. intros s. eexists _, _. apply (ends_read_reg 2). Qed.
Lemma returns_write_byte cmd x : Returns (write_byte cmd x).
Proof. intros s. eexists _, _. apply ends_write. Qed.
Lemma returns_vout_mode : Returns get_vout_mode.
Proof. exact ends_vout_mode. Qed.

Ltac returns := repeat first
  [ simple apply returns_read_byte | simple apply returns_read_word | simple apply returns_write_byte
  | simple apply returns_vout_mode | simple apply returns_ret | simple apply returns_attempt
  | simple apply returns_bind; [|intros ?] ].

Lemma returns_diagnostics : Returns diagnostics.
Proof. unfold diagnostics, get_vout, get_iout, get_vin, get_temperature, decode_voltage. returns. Qed.

Lemma vout_critical_bits x : vout_critical x = Z.testbit x 7 || Z.testbit x 4.
Proof.
  unfold vout_critical, Pmbus.StatusVout.from_bits_truncate. rewrite intersects_lor. change Pmbus.StatusVout.VOUT_OV_FAULT with (2 ^ 7).
  change Pmbus.StatusVout.VOUT_UV_FAULT with (2 ^ 4). rewrite !intersects_bit by lia. by rewrite !land_bit by reflexivity.
Qed.
Lemma iout_critical_bits x : iout_critical x = Z.testbit x 7.
Proof.
  unfold iout_critical, Pmbus.StatusIout.from_bits_truncate. change Pmbus.StatusIout.IOUT_OC_FAULT with (2 ^ 7). rewrite contains_bit by lia. by apply land_bit.
Qed.
Lemma temp_critical_bits x : temp_critical x = Z.testbit x 7.
Proof.
  unfold temp_critical, Pmbus.StatusTemperature.from_bits_truncate. change Pmbus.StatusTemperature.OT_FAULT with (2 ^ 7). rewrite contains_bit by lia. by apply land_bit.
Qed.
Lemma input_critical_bits x : input_critical x = Z.testbit x 3 || Z.testbit x 4 || Z.testbit x 7.
Proof.
  unfold input_critical, Pmbus.StatusInput.from_bits_truncate. rewrite !intersects_lor. change Pmbus.StatusInput.UNIT_OFF_VIN_LOW with (2 ^ 3).
  change Pmbus.StatusInput.VIN_UV_FAULT with (2 ^ 4). change Pmbus.StatusInput.VIN_OV_FAULT with (2 ^ 7).
  rewrite !intersects_bit by lia. by rewrite !land_bit by reflexivity.
Qed.

(** C39 The status check reports what the registers say.  On a device that answers, the
    check ends, whatever the registers hold: without an error exactly if there is no
    critical fault, and otherwise with all of them.  An output that is off counts only
    while OPERATION is on. *)
Theorem status_check_verdict s : exists s',
  Ends check_status s
    (match critical_faults with
     | [] => Ret tt
     | faults => Raise (FaultDetected (StatusDecoder.join "; " faults))
     end) s'.
Proof.
  assert (Hbits : wrap 16 (reg (as_u8 StatusWord)) = 0 -> critical_faults = []).
  { intros Hz. assert (Hb : forall i, 0 <= i < 16 -> status_bit i = false).
    { intros i Hi. unfold status_bit. pose proof (f_equal (fun x => Z.testbit x i) Hz) as Ht. simpl in Ht.
      rewrite wrap_testbit, Z.bits_0, (proj2 (Z.ltb_lt i 16)) in Ht by lia. done. }
    unfold critical_faults. by rewrite !Hb by lia. }
  unfold check_status.
  destruct (Z.eqb_spec (wrap 16 (reg (as_u8 StatusWord))) 0) as [Hz|Hz].
  { exists s. rewrite (Hbits Hz). eapply ends_bind; [apply (ends_read_reg 2)|]. change (8 * Z.of_nat 2) with 16.
    rewrite (proj2 (Z.eqb_eq _ _) Hz). apply ends_ret. }
  assert (Hoff : exists s',
    Ends (if contains (Pmbus.StatusWord.from_bits_truncate (wrap 16 (reg (as_u8 StatusWord)))) Pmbus.StatusWord.OFF then
            do! on := output_enabled in
            if on then diagnostics ;! ret ["Power controller is OFF"%string] else ret []
          else ret []) s
      (Ret (if status_bit 6 && Z.testbit (status_byte Operation) 7 then ["Power controller is OFF"%string] else [])) s').
  { change Pmbus.StatusWord.OFF with (2 ^ 6). rewrite status_flag by lia. destruct (status_bit 6); [|exists s; apply ends_ret].
    assert (Hon : Ends (output_enabled : M bool) s (Ret (Z.testbit (status_byte Operation) 7)) s).
    { unfold output_enabled. eapply ends_bind; [apply (ends_read_reg 1)|]. change (8 * Z.of_nat 1) with 8.
      fold (status_byte Operation). change (Pmbus.Operation.as_u8 Pmbus.Operation.On) with (2 ^ 7).
      rewrite <- intersects_land, intersects_bit by lia. apply ends_ret. }
    simpl andb. destruct (Z.testbit (status_byte Operation) 7).
    - destruct (returns_diagnostics s) as (a & s1 & Hd). exists s1. eapply ends_bind; [exact Hon|].
      eapply ends_bind; [exact Hd|]. apply ends_ret.
    - exists s. eapply ends_bind; [exact Hon|]. apply ends_ret. }
  destruct Hoff as [s' Hoff]. exists s'.
  eapply ends_bind; [apply (ends_read_reg 2)|]. change (8 * Z.of_nat 2) with 16.
  rewrite (proj2 (Z.eqb_neq _ _) Hz). cbv zeta.
  eapply ends_bind; [apply (ends_class 15); [lia|reflexivity]|].
  eapply ends_bind; [apply (ends_class 14); [lia|reflexivity]|].
  eapply ends_bind; [apply (ends_class 13); [lia|reflexivity]|].
  eapply ends_bind; [apply (ends_class 2); [lia|reflexivity]|].
  eapply ends_bind; [apply (ends_class 1); [lia|reflexivity]|].
  eapply ends_bind; [exact Hoff|].
  rewrite vout_critical_bits, iout_critical_bits, input_critical_bits, temp_critical_bits, andb_true_r.
  unfold critical_faults. cbv zeta. destruct (_ ++ _); [apply ends_ret|apply ends_raise].
Qed.
End Device.
