(* ===== verification/Connection.v ===== *)
(** * The line reader of a pool connection (stratum_v1/connection.rs)

    A connection turns the bytes of a socket into messages, one per line.  The
    outcomes of its awaits are the chunks in which bytes arrive.  What serde_json
    makes of a line and writes for a message is the class [Serde]. *)
From stdpp Require Import base numbers list strings.
From Stdlib Require Import ZArith Lia.
From S2P Require Import Prelude Text Effects Stratum.
#[local] Open Scope eff_scope.

(** ** Serialisation: serde_json on [JsonRpcMessage] *)
Class Serde := {
  to_string : JsonRpcMessage.t -> option (list Z);
  from_str : list Z -> option JsonRpcMessage.t }.

(** ** The connection *)

(** What an await of the reader or of the writer ends with: at least one byte
    arrives, the peer has closed, the socket fails, or the caller drops the read;
    a write is taken or fails. *)
Inductive arrival :=
| Bytes (b : Z) (l : list Z)
| Closed
| Broken
| Dropped
| Taken.

Inductive output := Put (l : list Z) | Flush.

Module Connection.
(** [reader]: what the buffered reader has received and not given out. *)
Record t := Mk { reader : list Z; line_buf : list Z }.

Definition MAX_MESSAGE_LEN : Z := 64 * 1024.

(** [Connection::connect] strips the scheme. *)
Definition address (url : string) : string :=
  let strip p := if String.prefix p url then Some (String.substring (String.length p) (String.length url) url) else None in
  match strip "stratum+tcp://"%string with
  | Some rest => rest
  | None => match strip "tcp://"%string with Some rest => rest | None => url end
  end.

Definition new : t := Mk [] [].

(** [open] is whether the socket to an address can be opened. *)
Definition connect (open : string -> bool) (url : string) : result StratumError t :=
  if open (address url) then Ok new else Err ConnectionFailed.

Example addresses :
  map address ["stratum+tcp://pool:3333"; "tcp://pool:3333"; "pool:3333"]%string = repeat "pool:3333"%string 3.
Proof. reflexivity. Qed.

(** What a read of at most [room] bytes takes up to the end of a line: the bytes
    taken, the bytes left, and whether it is done. *)
Fixpoint split_line (room : Z) (l : list Z) : list Z * list Z * bool :=
  if room <=? 0 then ([], l, true)
  else match l with
       | [] => ([], [], false)
       | b :: l =>
           if b =? 10 then ([b], l, true)
           else let '(taken, rest, done) := split_line (room - 1) l in (b :: taken, rest, done)
       end.

Section Connection.
Context `{J : Serde}.
Abbreviation M := (Effects.M t arrival output StratumError).

(** One round of [read_line] on [reader.take(MAX_MESSAGE_LEN + 1)]. *)
Definition fill : M (option unit) :=
  do! c := get in
  let '(taken, rest, complete) := split_line (MAX_MESSAGE_LEN + 1 - Z.of_nat (length (line_buf c))) (reader c) in
  put (Mk rest (line_buf c ++ taken)) ;!
  if (complete : bool) then ret (Some tt)
  else await (fun e => match e with
    | Bytes b l => Some (do! c := get in put (Mk (b :: l) (line_buf c)) ;! ret None)
    | Closed => Some (ret (Some tt))
    | Broken => Some (raise Io)
    | Dropped => Some cut
    | Taken => None
    end).

Definition read_line : M Z :=
  loop fill ;!
  do! c := get in
  if utf8_valid (line_buf c) then ret (Z.of_nat (length (line_buf c))) else raise Io.

(** One round of the loop of [read_message]. *)
Definition next_line : M (option (option JsonRpcMessage.t)) :=
  do! c := get in
  put (Mk (reader c) []) ;!
  do! n := read_line in
  if n =? 0 then ret (Some None)
  else
    do! c := get in
    if MAX_MESSAGE_LEN <? Z.of_nat (length (line_buf c)) then raise (MessageTooLarge MAX_MESSAGE_LEN)
    else
      let line := trim (line_buf c) in
      match line with
      | [] => ret None
      | _ => match from_str line with Some m => ret (Some (Some m)) | None => raise InvalidMessage end
      end.

(** The bytes that are there or still to come, and the closings: a bound on the
    lines. *)
Fixpoint pending (es : list arrival) : nat :=
  match es with
  | [] => 0
  | Bytes _ l :: es => S (length l) + pending es
  | _ :: es => S (pending es)
  end.

Definition read_message : M (option JsonRpcMessage.t) := fun s es =>
  rounds (S (length (reader s) + pending es)) next_line s es.

Definition send (l : list Z) : M unit :=
  act (Put l) ;! await (fun e => match e with Taken => Some (ret tt) | Broken => Some (raise Io) | _ => None end).

Definition flush : M unit :=
  act Flush ;! await (fun e => match e with Taken => Some (ret tt) | Broken => Some (raise Io) | _ => None end).

Definition write_message (m : JsonRpcMessage.t) : M unit :=
  match to_string m with
  | None => raise Json
  | Some json => send json ;! send [10] ;! flush
  end.
End Connection.
End Connection.
