(* ===== verification/ConnectionProps.v ===== *)
(** * What the line reader promises

    The reader against a reference that looks at one byte at a time, so that the
    chunks in which a stream arrives do not matter; messages written and read back;
    and what is lost when a read is dropped half way. *)
From stdpp Require Import base numbers list strings.
From Stdlib Require Import ZArith Lia SpecFloat.
From S2P Require Import Prelude Text Float Effects Stratum StratumClient StratumClientProps StratumProtocol Connection.
#[local] Open Scope eff_scope.
Import Connection.Connection.

(** The bytes that arrive before something else happens. *)
Fixpoint flow (es : list arrival) : list Z * list arrival :=
  match es with
  | Bytes b l :: es => let '(bs, rest) := flow es in (b :: l ++ bs, rest)
  | es => ([], es)
  end.

Section Reader.
Context `{J : Serde}.

(** ** The reference *)

(** What one line is: a message, nothing, or an error. *)
Definition handle_line (line : list Z) : result StratumError (option (option JsonRpcMessage.t)) :=
  if negb (utf8_valid line) then Err Io
  else if Z.of_nat (length line) =? 0 then Ok (Some None)
  else if MAX_MESSAGE_LEN <? Z.of_nat (length line) then Err (MessageTooLarge MAX_MESSAGE_LEN)
  else match trim line with
       | [] => Ok None
       | text => match from_str text with Some m => Ok (Some (Some m)) | None => Err InvalidMessage end
       end.

(** The lines of a stream, after [acc]; the last one is not ended. *)
Fixpoint lines (acc bs : list Z) : list (list Z) * list Z :=
  match bs with
  | [] => ([], acc)
  | b :: bs =>
      let acc := acc ++ [b] in
      if (b =? 10) || (MAX_MESSAGE_LEN <? Z.of_nat (length acc)) then
        let '(ls, partial) := lines [] bs in (acc :: ls, partial)
      else lines acc bs
  end.

(** The first line that is not blank, and the lines after it. *)
Fixpoint skip_blank (ls : list (list Z)) : list (list Z) :=
  match ls with
  | [] => []
  | l :: ls => match handle_line l with Ok None => skip_blank ls | _ => l :: ls end
  end.

Definition answer (h : result StratumError (option (option JsonRpcMessage.t))) :
    res StratumError (option JsonRpcMessage.t) :=
  match h with Ok (Some m) => Ret m | Ok None => Wait | Err e => Raise e end.

(** ** Lines *)
Lemma split_line_lines l : forall acc room, room = MAX_MESSAGE_LEN + 1 - Z.of_nat (length acc) -> 0 < room ->
  let '(taken, rest, complete) := split_line room l in
  if complete : bool then taken <> [] /\ (length taken + length rest = length l)%nat /\
    lines acc l = ((acc ++ taken) :: (lines [] rest).1, (lines [] rest).2)
  else taken = l /\ rest = [] /\ lines acc l = ([], acc ++ l) /\ Z.of_nat (length (acc ++ l)) <= MAX_MESSAGE_LEN.
Proof.
  induction l as [|b l IH]; intros acc room -> Hr; cbn [split_line lines];
    rewrite (proj2 (Z.leb_gt (MAX_MESSAGE_LEN + 1 - Z.of_nat (length acc)) 0)) by lia.
  - rewrite app_nil_r. split_and!; (done || lia).
  - destruct (b =? 10) eqn:Hb; simpl; [by destruct (lines [] l)|].
    rewrite length_app. simpl. destruct (Z.ltb_spec MAX_MESSAGE_LEN (Z.of_nat (length acc + 1))) as [Hm|Hm].
    + assert (Hs : split_line (MAX_MESSAGE_LEN + 1 - Z.of_nat (length acc) - 1) l = ([], l, true)).
      { destruct l; cbn [split_line]; by rewrite (proj2 (Z.leb_le _ 0)) by lia. }
      rewrite Hs. by destruct (lines [] l).
    + specialize (IH (acc ++ [b]) (MAX_MESSAGE_LEN + 1 - Z.of_nat (length acc) - 1)).
      rewrite length_app in IH. simpl in IH. specialize (IH ltac:(lia) ltac:(lia)).
      destruct (split_line _ l) as [[taken rest] [|]]; rewrite <- app_assoc in IH; simpl in IH.
      * destruct IH as (H1 & H2 & H3). rewrite H3. split_and!; [done|simpl; lia|done].
      * destruct IH as (-> & -> & H3 & H4). rewrite H3. by split_and!.
Qed.

Lemma lines_app l1 l2 : forall acc,
  lines acc (l1 ++ l2) =
    ((lines acc l1).1 ++ (lines (lines acc l1).2 l2).1, (lines (lines acc l1).2 l2).2).
Proof.
  induction l1 as [|b l1 IH]; intros acc; simpl; [by destruct (lines acc l2)|].
  case_match; [|apply IH]. rewrite IH. by destruct (lines [] l1).
Qed.

(** ** One line *)
Lemma fill_progress : Progress fill.
Proof.
  intros s es r s' es' tr. unfold fill, bind, get, put.
  destruct (split_line _ _) as [[taken rest] [|]].
  - intros [= <- <- <- <-]. exists []. by split.
  - destruct es as [|[b l| | | |] es]; simpl; intros [= <- <- <- <-];
      ((exists []; split; [reflexivity|]; intros [=]; fail) || (eexists [_]; by split)).
Qed.

(** What a pause in the bytes makes of an unfinished line. *)
Definition interrupt {A} (k : list arrival -> res StratumError A * t * list arrival * list output)
    (partial : list Z) (es : list arrival) : res StratumError A * t * list arrival * list output :=
  match es with
  | Closed :: es => k es
  | Broken :: es => (Raise Io, Mk [] partial, es, [])
  | Dropped :: es => (Cut, Mk [] partial, es, [])
  | es => (Wait, Mk [] partial, es, [])
  end.

Lemma fill_lines es : forall r lb, Z.of_nat (length lb) <= MAX_MESSAGE_LEN ->
  let '(ls, partial) := lines lb (r ++ (flow es).1) in
  match ls with
  | line :: ls => exists r' es', loop fill (Mk r lb) es = (Ret tt, Mk r' line, es', []) /\
      line <> [] /\ lines [] (r' ++ (flow es').1) = (ls, partial) /\ (flow es').2 = (flow es).2 /\
      (length r' + pending es' < length r + pending es)%nat
  | [] => loop fill (Mk r lb) es = interrupt (fun es => (Ret tt, Mk [] partial, es, [])) partial (flow es).2
  end.
Proof.
  assert (Hround : forall es r lb, Z.of_nat (length lb) <= MAX_MESSAGE_LEN ->
    let '(taken, rest, complete) := split_line (MAX_MESSAGE_LEN + 1 - Z.of_nat (length lb)) r in
    loop fill (Mk r lb) es =
      if complete : bool then (Ret tt, Mk rest (lb ++ taken), es, [])
      else match es with
           | Bytes b l :: es => loop fill (Mk (b :: l) (lb ++ taken)) es
           | es => interrupt (fun es => (Ret tt, Mk [] (lb ++ taken), es, [])) (lb ++ taken) es
           end).
  { intros es' r lb Hlb. rewrite (loop_unfold _ fill_progress). unfold fill at 1. unfold bind, get, put.
    cbn [reader line_buf]. pose proof (split_line_lines r lb _ eq_refl ltac:(lia)) as Hs.
    destruct (split_line _ r) as [[taken rest] [|]]; [done|]. destruct Hs as (-> & -> & _ & _).
    destruct es' as [|[b l| | | |] es']; try done. simpl. by destruct (loop fill _ es') as [[[? ?] ?] ?]. }
  induction es as [|e es IH]; intros r lb Hlb; pose proof (Hround) as Hr;
    pose proof (split_line_lines r lb _ eq_refl ltac:(lia)) as Hs; rewrite lines_app.
  1: specialize (Hr [] r lb Hlb). 2: specialize (Hr (e :: es) r lb Hlb).
  all: destruct (split_line _ r) as [[taken rest] [|]].
  1, 3: destruct Hs as (H1 & H2 & H3); rewrite H3, Hr; simpl; eexists _, _; split; [reflexivity|];
    rewrite lines_app; split_and!; [by destruct lb, taken|reflexivity|reflexivity|];
    destruct taken; simpl in *; (done || lia).
  - destruct Hs as (-> & -> & H3 & H4). rewrite H3, Hr. done.
  - destruct Hs as (-> & -> & H3 & H4). rewrite H3, Hr. destruct e as [b l| | | |]; [|done..].
    specialize (IH (b :: l) (lb ++ r) H4). cbn [flow]. destruct (flow es) as [bs more]. cbn [fst snd app] in *.
    destruct (lines (lb ++ r) (b :: l ++ bs)) as [[|line ls] partial]; [exact IH|].
    destruct IH as (r' & es' & H5 & H6 & H7 & H8 & H9). exists r', es'. split_and!; try done. simpl in *. lia.
Qed.

Definition result_of {A} (h : result StratumError A) : res StratumError A :=
  match h with Ok a => Ret a | Err e => Raise e end.

(** Blank lines are skipped, so the reader goes on. *)
Lemma line_read c es r' line es' :
  loop fill (Mk (reader c) []) es = (Ret tt, Mk r' line, es', []) ->
  next_line c es = (result_of (handle_line line), Mk r' line, es', []).
Proof.
  intros Hl. unfold next_line, read_line, bind, get, put. rewrite Hl. cbn [line_buf].
  unfold handle_line. destruct (utf8_valid line); [|done]. cbn -[Z.eqb Z.ltb trim MAX_MESSAGE_LEN].
  destruct (_ =? 0); [done|]. cbn -[Z.eqb Z.ltb trim MAX_MESSAGE_LEN]. destruct (_ <? _); [done|].
  destruct (trim line); [done|]. by destruct (from_str _).
Qed.

Lemma handle_line_nonempty line : line <> [] -> handle_line line <> Ok (Some None).
Proof.
  intros Hl. unfold handle_line. destruct (utf8_valid line); [|done]. simpl.
  destruct line as [|b line]; [done|]. simpl. repeat case_match; congruence.
Qed.

Lemma pending_flow es : pending es = (length (flow es).1 + pending (flow es).2)%nat.
Proof. induction es as [|[b l| | | |] es IH]; simpl; try done. destruct (flow es). simpl in *. rewrite length_app. lia. Qed.

Lemma next_line_lines c es :
  let '(ls, partial) := lines [] (reader c ++ (flow es).1) in
  match ls with
  | line :: ls => exists r' es', next_line c es = (result_of (handle_line line), Mk r' line, es', []) /\
      line <> [] /\ lines [] (r' ++ (flow es').1) = (ls, partial) /\ (flow es').2 = (flow es).2 /\
      (length r' + pending es' < length (reader c) + pending es)%nat
  | [] => next_line c es =
      interrupt (fun es => (result_of (handle_line partial), Mk [] partial, es, [])) partial (flow es).2
  end.
Proof.
  pose proof (fill_lines es (reader c) [] ltac:(unfold MAX_MESSAGE_LEN; simpl; lia)) as Hf.
  destruct (lines _ _) as [[|line ls] partial].
  - unfold interrupt in *. destruct (flow es).2 as [|[b l| | | |] more]; try (by apply line_read);
      unfold next_line, read_line, bind, get, put; by rewrite Hf.
  - destruct Hf as (r' & es' & H1 & H2 & H3 & H4 & H5). exists r', es'. split_and!; try done. by apply line_read.
Qed.

Lemma next_line_decreases : Decreases (fun c es => length (reader c) + pending es)%nat next_line.
Proof.
  intros c es c' es' tr Hn. pose proof (next_line_lines c es) as H. rewrite Hn in H.
  destruct (lines _ _) as [[|line ls] partial].
  - pose proof (pending_flow es) as Hp. unfold interrupt in H.
    destruct (flow es).2 as [|[b l| | | |] more]; try done. injection H as _ -> -> _. simpl in *. lia.
  - destruct H as (r' & es1 & [= Hh -> -> ->] & _ & _ & _ & Hlt). done.
Qed.

Lemma read_message_unfold c es :
  read_message c es = bind next_line (fun r => match r with Some m => ret m | None => read_message end) c es.
Proof.
  unfold read_message at 1. cbn [rounds]. unfold bind.
  destruct (next_line c es) as [[[r c1] es1] tr] eqn:Hn. destruct r as [[m|]|e| |]; try done.
  pose proof (next_line_decreases _ _ _ _ _ Hn) as Hd. cbn beta in Hd. unfold read_message.
  by rewrite (rounds_measure _ next_line next_line_decreases (length (reader c) + pending es)
    (S (length (reader c1) + pending es1)) c1 es1) by (simpl; lia).
Qed.

Lemma read_message_lines c es :
  let '(ls, partial) := lines [] (reader c ++ (flow es).1) in
  match skip_blank ls with
  | line :: ls => exists c' es', read_message c es = (answer (handle_line line), c', es', []) /\
      lines [] (reader c' ++ (flow es').1) = (ls, partial) /\ (flow es').2 = (flow es).2
  | [] => read_message c es =
      interrupt (fun es => match handle_line partial with
                           | Ok None => read_message (Mk [] partial) es
                           | h => (answer h, Mk [] partial, es, [])
                           end) partial (flow es).2
  end.
Proof.
  destruct (lines _ _) as [ls partial] eqn:Hls. revert c es Hls.
  induction ls as [|line ls IH]; intros c es Hls; pose proof (next_line_lines c es) as Hn; rewrite Hls in Hn;
    rewrite read_message_unfold; simpl; unfold bind.
  - rewrite Hn. unfold interrupt. destruct (flow es).2 as [|[b l| | | |] more]; try done.
    destruct (handle_line partial) as [[m|]|e]; simpl; try done.
    by destruct (read_message _ more) as [[[? ?] ?] ?].
  - destruct Hn as (r' & es' & H1 & H2 & H3 & H4 & _). rewrite H1.
    destruct (handle_line line) as [[m|]|e] eqn:Hh; simpl.
    + eexists _, _. rewrite Hh. by split_and!.
    + specialize (IH (Mk r' line) es' H3). rewrite H4 in IH. destruct (skip_blank ls) as [|line' ls'].
      * rewrite IH. by destruct (interrupt _ _ _) as [[[? ?] ?] ?].
      * destruct IH as (c2 & es2 & H5 & H6 & H7). exists c2, es2. by rewrite H5.
    + eexists _, _. rewrite Hh. by split_and!.
Qed.

(** C3 The reader is a function of the stream, not of how it arrives.  Whatever the chunks,
    [read_message] gives the first line of the stream that is not blank - the message
    it holds, or the error that it is too long, no UTF-8 or no message - and the next
    call goes on with the line after it; at the end of the stream an unfinished line
    counts as a line, and before it a read that is dropped, or a socket that fails,
    leaves nothing of the unfinished line. *)
Theorem read_message_reads_lines c es :
  let '(ls, partial) := lines [] (reader c ++ (flow es).1) in
  match skip_blank ls with
  | line :: ls => exists c' es', read_message c es = (answer (handle_line line), c', es', []) /\
      lines [] (reader c' ++ (flow es').1) = (ls, partial) /\ (flow es').2 = (flow es).2
  | [] => read_message c es =
      interrupt (fun es => match handle_line partial with
                           | Ok None => read_message (Mk [] partial) es
                           | h => (answer h, Mk [] partial, es, [])
                           end) partial (flow es).2
  end.
Proof. exact (read_message_lines c es). Qed.

(** ** Messages written and read back *)

(** What serde_json documents of compact output: UTF-8, one line, an object for a
    struct. *)
Definition compact (text : list Z) : Prop :=
  utf8_valid text = true /\ 10 ∉ text /\ exists fields, text = 0x7B :: fields ++ [0x7D].

(** A message whose text is read as the message, and fits the limit with its newline. *)
Definition deliverable (m : JsonRpcMessage.t) : Prop :=
  exists text, to_string m = Some text /\ compact text /\ from_str text = Some m /\
    Z.of_nat (length text) < MAX_MESSAGE_LEN.

(** What a list of outputs puts on the wire. *)
Definition written (tr : list output) : list Z :=
  concat (map (fun o => match o with Put l => l | Flush => [] end) tr).

Abbreviation M := (Effects.M t arrival output StratumError).

Fixpoint write_messages (ms : list JsonRpcMessage.t) : M unit :=
  match ms with
  | [] => ret tt
  | m :: ms => write_message m ;! write_messages ms
  end.
Fixpoint read_messages (n : nat) : M (list (option JsonRpcMessage.t)) :=
  match n with
  | O => ret []
  | S n => do! m := read_message in do! ms := read_messages n in ret (m :: ms)
  end.

Lemma trim_compact text : compact text -> trim (text ++ [10]) = text.
Proof.
  intros (_ & _ & fields & ->). unfold trim.
  assert (Hs : forall l, trim_start (0x7B :: l) = 0x7B :: l) by (intros [|c [|d l]]; done).
  assert (He : forall l, trim_reversed (0x7D :: l) = 0x7D :: l).
  { intros [|c [|d l]]; simpl; unfold space2, space3; simpl; rewrite ?andb_false_r; simpl; by rewrite ?andb_false_r. }
  assert (Hr : rev ((0x7B :: fields ++ [0x7D]) ++ [10]) = 10 :: 0x7D :: rev fields ++ [0x7B])
    by (by rewrite rev_app_distr; simpl; rewrite rev_app_distr).
  assert (Hb : rev (0x7D :: rev fields ++ [0x7B]) = 0x7B :: fields ++ [0x7D])
    by (by simpl; rewrite rev_app_distr, rev_involutive).
  change ((0x7B :: fields ++ [0x7D]) ++ [10]) with (0x7B :: ((fields ++ [0x7D]) ++ [10])). rewrite Hs.
  change (0x7B :: ((fields ++ [0x7D]) ++ [10])) with ((0x7B :: fields ++ [0x7D]) ++ [10]). rewrite Hr.
  change (trim_reversed (10 :: ?l)) with (trim_reversed l). by rewrite He.
Qed.

Lemma lines_line text rest : forall acc, 10 ∉ text -> Z.of_nat (length acc + length text) < MAX_MESSAGE_LEN ->
  lines acc (text ++ 10 :: rest) = ((acc ++ text ++ [10]) :: (lines [] rest).1, (lines [] rest).2).
Proof.
  induction text as [|b text IH]; intros acc Hn Hl; simpl; [by destruct (lines [] rest)|].
  apply not_elem_of_cons in Hn as [Hb Hn]. simpl in Hl.
  rewrite (proj2 (Z.eqb_neq b 10)) by congruence.
  rewrite (proj2 (Z.ltb_ge _ _)) by (rewrite length_app; simpl; lia). simpl.
  rewrite IH; [by rewrite <- app_assoc|done|rewrite length_app; simpl; lia].
Qed.

Lemma lines_open text : forall acc, 10 ∉ text -> Z.of_nat (length acc + length text) <= MAX_MESSAGE_LEN ->
  lines acc text = ([], acc ++ text).
Proof.
  induction text as [|b text IH]; intros acc Hn Hl; simpl; [by rewrite app_nil_r|].
  apply not_elem_of_cons in Hn as [Hb Hn]. simpl in Hl.
  rewrite (proj2 (Z.eqb_neq b 10)) by congruence.
  rewrite (proj2 (Z.ltb_ge _ _)) by (rewrite length_app; simpl; lia). simpl.
  rewrite IH; [by rewrite <- app_assoc|done|rewrite length_app; simpl; lia].
Qed.

Lemma handle_compact text m :
  compact text -> from_str text = Some m -> Z.of_nat (length text) < MAX_MESSAGE_LEN ->
  handle_line (text ++ [10]) = Ok (Some (Some m)).
Proof.
  intros Hc Hf Hl. unfold handle_line. rewrite (utf8_valid_app _ _ _ (Nat.le_refl _)) by apply Hc. simpl.
  rewrite length_app. simpl. rewrite (proj2 (Z.eqb_neq _ 0)) by lia. rewrite (proj2 (Z.ltb_ge _ _)) by lia.
  rewrite (trim_compact _ Hc). destruct Hc as (_ & _ & fields & ->). simpl in *. by rewrite Hf.
Qed.

Lemma write_message_sends m text c es r c' es' tr :
  to_string m = Some text -> write_message m c es = (r, c', es', tr) -> r = Ret tt ->
  written tr = text ++ [10] /\ c' = c.
Proof.
  intros Ht. unfold write_message. rewrite Ht. unfold send, flush, bind, act, await. simpl.
  destruct es as [|[] [|[] [|[] es]]]; simpl; intros [= <- <- <- <-]; try done.
Qed.

(** The lines of the messages [ms], and nothing after them. *)
Definition framed (ls : list (list Z)) (ms : list JsonRpcMessage.t) : Prop :=
  Forall2 (fun l m => handle_line l = Ok (Some (Some m))) ls ms.

Lemma write_messages_lines ms : forall c0 acks c1 acks' tr, Forall deliverable ms ->
  write_messages ms c0 acks = (Ret tt, c1, acks', tr) ->
  exists ls, framed ls ms /\ lines [] (written tr) = (ls, []).
Proof.
  induction ms as [|m ms IH]; intros c0 acks c1 acks' tr Hms Hw.
  - injection Hw as <- <- <-. exists []. split; [constructor|done].
  - apply Forall_cons in Hms as [(text & Ht & Hc & Hf & Hl) Hms]. simpl in Hw. unfold bind in Hw.
    destruct (write_message m c0 acks) as [[[r c2] acks2] tr1] eqn:H1.
    destruct r as [[]|e| |]; try discriminate Hw.
    destruct (write_message_sends _ _ _ _ _ _ _ _ Ht H1 eq_refl) as [Htr _].
    destruct (write_messages ms c2 acks2) as [[[r c3] acks3] tr2] eqn:H2. injection Hw as -> -> -> <-.
    destruct (IH _ _ _ _ _ Hms H2) as (ls & Hls & Hlines). exists ((text ++ [10]) :: ls). split.
    + constructor; [by apply handle_compact|done].
    + unfold written in *. rewrite map_app, concat_app, Htr, <- app_assoc. simpl.
      rewrite lines_line by (by apply Hc || (simpl; lia)). by rewrite Hlines.
Qed.

Lemma lines_none bs : forall acc p, lines acc bs = ([], p) -> p = acc ++ bs.
Proof.
  induction bs as [|b bs IH]; intros acc p; simpl; [intros [= <-]; by rewrite app_nil_r|].
  case_match; [by destruct (lines [] bs)|]. intros H1%IH. by rewrite <- app_assoc in H1.
Qed.

Lemma read_framed ms : forall ls c es, framed ls ms -> lines [] (reader c ++ (flow es).1) = (ls, []) ->
  exists c' es', read_messages (length ms) c es = (Ret (map Some ms), c', es', []) /\
    reader c' ++ (flow es').1 = [] /\ (flow es').2 = (flow es).2.
Proof.
  induction ms as [|m ms IH]; intros ls c es Hls Hlines; inversion Hls as [|l m' ls' ms' Hl Hls']; subst; simpl.
  - exists c, es. split_and!; try done. by apply lines_none in Hlines.
  - pose proof (read_message_lines c es) as Hr. rewrite Hlines in Hr. simpl in Hr. rewrite Hl in Hr.
    destruct Hr as (c1 & es1 & H1 & H2 & H3). unfold bind. rewrite H1, Hl. simpl.
    destruct (IH _ _ _ Hls' H2) as (c2 & es2 & H4 & H5 & H6). rewrite H4. simpl.
    exists c2, es2. split_and!; try done. by rewrite H6.
Qed.

(** C19 Messages arrive as they were written: what one side writes, message by message,
    the other reads back, in whatever chunks the bytes come, with nothing left over. *)
Theorem messages_roundtrip ms c0 acks c1 acks' tr es lb :
  Forall deliverable ms ->
  write_messages ms c0 acks = (Ret tt, c1, acks', tr) ->
  (flow es).1 = written tr ->
  exists c es', read_messages (length ms) (Mk [] lb) es = (Ret (map Some ms), c, es', []) /\
    reader c ++ (flow es').1 = [] /\ (flow es').2 = (flow es).2.
Proof.
  intros Hms Hw Hf. destruct (write_messages_lines _ _ _ _ _ _ Hms Hw) as (ls & Hls & Hlines).
  apply (read_framed _ ls); [done|]. cbn [reader app]. by rewrite Hf.
Qed.
End Reader.

(** ** A read that is dropped *)
Section Lost.
Context `{J : Serde} `{HH : HexSpec} `{D : DebugValue}.

(** What the client hears of a read. *)
Definition heard (r : res StratumError (option JsonRpcMessage.t)) : option event :=
  match r with
  | Ret (Some m) => Some (Message m)
  | Ret None => Some Eof
  | Raise e => Some (ReadFailed e)
  | _ => None
  end.

(** C14 Submitting a share can cost the connection.  The main loop drops the read it is in when
    a share is to be submitted.  If part of a message has arrived by then, that part is
    lost; the rest of it, read as a message while the client waits for the answer to the
    submission, is malformed, and ends the connection.  Undisturbed, the same bytes are
    the message. *)
Theorem submission_cuts_message text m b head b' tail s p es es' :
  compact text -> from_str text = Some m -> Z.of_nat (length text) < MAX_MESSAGE_LEN ->
  text ++ [10] = (b :: head) ++ (b' :: tail) ->
  utf8_valid (b' :: tail) = true -> trim (b' :: tail) <> [] -> from_str (trim (b' :: tail)) = None ->
  Client.has_commands s = true ->
  heard (read_message new (Bytes b head :: Bytes b' tail :: es)).1.1.1 = Some (Message m) /\
  exists c, read_message new (Bytes b head :: Dropped :: es) = (Cut, c, es, []) /\
    exists e, heard (read_message c (Bytes b' tail :: es)).1.1.1 = Some e /\
      loop Client.serve s (Command (SubmitShare p) :: Sent :: e :: es') =
        (Raise InvalidMessage, after_request s, es', [submission_request s p]).
Proof.
  intros Hc Hf Hl Happ Hu Ht Hn Hcmd.
  destruct (exists_last (l := b' :: tail) ltac:(done)) as (rest & nl & Hrest).
  assert (Htext : text = (b :: head) ++ rest /\ nl = 10).
  { rewrite Hrest, app_assoc in Happ. apply app_inj_tail in Happ as [-> <-]. done. }
  destruct Htext as [Htext ->].
  assert (Hno : 10 ∉ b :: head /\ 10 ∉ rest).
  { destruct Hc as (_ & H10 & _). rewrite Htext in H10. by apply not_elem_of_app in H10. }
  assert (Hlen : Z.of_nat (length (b :: head) + length rest) < MAX_MESSAGE_LEN)
    by (by rewrite <- length_app, <- Htext).
  split.
  - pose proof (read_message_lines new (Bytes b head :: Bytes b' tail :: es)) as Hr. simpl flow in Hr.
    destruct (flow es) as [bs more]. cbn [fst snd reader new] in Hr.
    replace ([] ++ b :: head ++ b' :: tail ++ bs) with (text ++ 10 :: bs) in Hr
      by (rewrite Htext; change (b' :: tail ++ bs) with ((b' :: tail) ++ bs); rewrite Hrest, <- !app_assoc; done).
    rewrite lines_line in Hr by (apply Hc || (simpl; lia)). cbn [app skip_blank] in Hr.
    rewrite (handle_compact _ _ Hc Hf Hl) in Hr. destruct Hr as (c' & es1 & Hr & _).
    by rewrite Hr, (handle_compact _ _ Hc Hf Hl).
  - exists (Mk [] (b :: head)). split.
    + pose proof (read_message_lines new (Bytes b head :: Dropped :: es)) as Hr. cbn [flow fst snd reader new] in Hr.
      rewrite app_nil_r, app_nil_l in Hr.
      by rewrite lines_open in Hr by (apply Hno || (simpl in *; lia)).
    + exists (ReadFailed InvalidMessage). split; [|by apply submission_read_error].
      pose proof (read_message_lines (Mk [] (b :: head)) (Bytes b' tail :: es)) as Hr. simpl flow in Hr.
      destruct (flow es) as [bs more]. cbn [fst snd reader] in Hr.
      replace ([] ++ b' :: tail ++ bs) with (rest ++ 10 :: bs) in Hr
        by (change (b' :: tail ++ bs) with ((b' :: tail) ++ bs); by rewrite Hrest, <- app_assoc).
      rewrite lines_line in Hr by (apply Hno || (simpl; lia)). cbn [app skip_blank] in Hr.
      assert (Hbad : handle_line (rest ++ [10]) = Err InvalidMessage).
      { rewrite <- Hrest. unfold handle_line. rewrite Hu, Hrest, length_app. simpl.
        rewrite (proj2 (Z.eqb_neq _ 0)) by lia. rewrite (proj2 (Z.ltb_ge _ _)) by lia.
        rewrite <- Hrest. destruct (trim (b' :: tail)); [done|]. by rewrite Hn. }
      rewrite Hbad in Hr. destruct Hr as (c' & es1 & Hr & _). by rewrite Hr, Hbad.
Qed.
End Lost.

(** ** Examples *)
(** A serialisation that knows one message. *)
Definition ping : JsonRpcMessage.t := JsonRpcMessage.notification "m" JNull.
Definition ping_text : list Z := [0x7B; 0x22; 0x6D; 0x22; 0x7D].
#[local] Instance serde_ref : Serde := {|
  to_string := fun _ => Some ping_text;
  from_str := fun text => if bool_decide (text = ping_text) then Some ping else None |}.
#[local] Existing Instance hex_ref.
#[local] Existing Instance hex_ref_spec.
#[local] Instance debug_ref : DebugValue := {| debug_value := fun _ => "?"%string |}.

(** Blank lines, a message in two chunks with spaces around it, and the end. *)
Example reads_in_chunks :
  let es := [Bytes 10 [13; 10; 32; 0x7B]; Bytes 0x22 [0x6D; 0x22; 0x7D; 13; 10]; Closed] in
  (bind read_message (fun m => bind read_message (fun m' => ret [m; m']))) new es =
    (Ret [Some ping; None], Mk [] [], [], []).
Proof. vm_compute. reflexivity. Qed.

Lemma ping_deliverable : deliverable ping.
Proof.
  exists ping_text. split_and!; [done| |by vm_compute|by vm_compute].
  split_and!; [done| |by exists [0x22; 0x6D; 0x22]].
  by apply (bool_decide_unpack _).
Qed.

Lemma messages_roundtrip_witness :
  exists c es', read_messages 2 (Mk [] []) [Bytes 0x7B [0x22; 0x6D; 0x22; 0x7D; 10; 0x7B]; Bytes 0x22 [0x6D; 0x22; 0x7D; 10]; Closed] =
    (Ret [Some ping; Some ping], c, es', []) /\ reader c ++ (flow es').1 = [] /\ (flow es').2 = [Closed].
Proof.
  pose (es := [Bytes 0x7B [0x22; 0x6D; 0x22; 0x7D; 10; 0x7B]; Bytes 0x22 [0x6D; 0x22; 0x7D; 10]; Closed]).
  assert (Hw : exists tr, write_messages [ping; ping] new (repeat Taken 6) = (Ret tt, new, [], tr) /\
    (flow es).1 = written tr) by (eexists; split; reflexivity).
  destruct Hw as (tr & Hw & Hf).
  exact (messages_roundtrip [ping; ping] new (repeat Taken 6) new [] tr es []
    (Forall_cons_2 _ _ _ ping_deliverable (Forall_cons_2 _ _ _ ping_deliverable (Forall_nil_2 _))) Hw Hf).
Defined.

Lemma submission_cuts_message_witness :
  let s := Client.with_commands (MkConfig "p" "u" "x" "a") None in
  let p := SubmitParams.Mk "u" "b1" [0; 0; 0; 1] 1700000000 42 None in
  exists c, read_message new [Bytes 0x7B [0x22; 0x6D]; Dropped] = (Cut, c, [], []) /\
    exists e, heard (read_message c [Bytes 0x22 [0x7D; 10]]).1.1.1 = Some e /\
      loop Client.serve s [Command (SubmitShare p); Sent; e] =
        (Raise InvalidMessage, after_request s, [], [submission_request s p]).
Proof.
  intros s p. destruct ping_deliverable as (text & [= <-] & Hc & Hf & Hl).
  exact (proj2 (submission_cuts_message ping_text ping 0x7B [0x22; 0x6D] 0x22 [0x7D; 10] s p [] []
    Hc Hf Hl eq_refl eq_refl ltac:(discriminate) eq_refl eq_refl)).
Defined.
