(* ===== verification/Control.v ===== *)
(** * The management protocol of a board (mgmt_protocol/bitaxe_raw)

    I2C, GPIO and LED operations travel as packets over a serial line: the formats and
    the codec of mod.rs, the request-response channel of channel.rs, and the
    operations of i2c.rs, gpio.rs, led.rs, system.rs and version.rs.  The stream of
    decoded responses is tokio-util's: what it yields is an outcome of the await. *)
From stdpp Require Import base numbers list.
From Stdlib Require Import ZArith Lia SpecFloat.
From S2P Require Import Prelude Float Text Effects.
#[local] Open Scope eff_scope.

(** Kinds of [io::Error]; an error of the serial port itself is [Port]. *)
Inductive io_error := InvalidData | TimedOut | UnexpectedEof | OtherIo | Port.

(** ** Packets *)
Inductive ResponseFormat := V0 | V1.
Definition STATUS_OK : Z := 0.

Module Page.
Inductive t := I2C | GPIO | ADC | LED | System.
Definition as_u8 (p : t) : Z :=
  match p with I2C => 0x05 | GPIO => 0x06 | ADC => 0x07 | LED => 0x08 | System => 0x09 end.
End Page.

Module I2CCommand.
Inductive t := SetFrequency | Write | Read | WriteRead.
Definition as_u8 (c : t) : Z :=
  match c with SetFrequency => 0x10 | Write => 0x20 | Read => 0x30 | WriteRead => 0x40 end.
End I2CCommand.

Definition LEDCommand_SetRGB : Z := 0x10.
Definition ADCCommand_ReadVDD : Z := 0x50.

Module ErrorCode.
Inductive t := Timeout | InvalidCommand | BufferOverflow | Custom.
Definition as_u8 (c : t) : Z :=
  match c with Timeout => 0x10 | InvalidCommand => 0x11 | BufferOverflow => 0x12 | Custom => 0xff end.
Definition try_from (value : Z) : result Z t :=
  if value =? as_u8 Timeout then Ok Timeout
  else if value =? as_u8 InvalidCommand then Ok InvalidCommand
  else if value =? as_u8 BufferOverflow then Ok BufferOverflow
  else if value =? as_u8 Custom then Ok Custom
  else Err value.
#[global] Instance eq_dec : EqDecision t.
Proof. solve_decision. Defined.
End ErrorCode.

Module Packet.
Record t := Mk { id : Z; bus : Z; page : Page.t; command : Z; data : list Z }.

Definition new (page : Page.t) (command : Z) (data : list Z) : t := Mk 0 0 page command data.
Definition with_id (p : t) (id : Z) : t := Mk id (bus p) (page p) (command p) (data p).

(** The length is cast to 16 bits. *)
Definition encode (p : t) : list Z :=
  le_bytes 2 (wrap 16 (6 + Z.of_nat (length (data p)))) ++
  [id p; bus p; Page.as_u8 (page p); command p] ++ data p.
End Packet.

Module Response.
(** A message is its text, in UTF-8. *)
Record ResponseError := MkError { code : ErrorCode.t; message : option (list Z) }.
Record t := Mk { id : Z; data : list Z; error : option ResponseError }.

Definition is_error (r : t) : bool := match error r with Some _ => true | None => false end.

Definition parse_v0 (bytes : list Z) : result io_error t :=
  match bytes with
  | [] => Err InvalidData
  | id :: data => Ok (Mk id data None)
  end.

Definition parse_v1 (bytes : list Z) : result io_error t :=
  match bytes with
  | id :: status :: payload =>
      if status =? STATUS_OK then Ok (Mk id payload None)
      else
        match ErrorCode.try_from status with
        | Err _ => Err InvalidData
        | Ok code =>
            let message :=
              if bool_decide (code = ErrorCode.Custom) && negb (length payload =? 0)%nat
              then Some (from_utf8_lossy payload) else None in
            Ok (Mk id [] (Some (MkError code message)))
        end
  | _ => Err InvalidData
  end.
End Response.

(** ** The codec *)
Module ControlCodec.
Definition max_length : Z := 4096.

(** The result and what stays in the buffer; [None] is the panic of a slice that
    starts beyond its end. *)
Definition decode (format : ResponseFormat) (src : list Z) :
    option (result io_error (option Response.t) * list Z) :=
  match src with
  | b0 :: b1 :: _ =>
      let length_field := from_le [b0; b1] in
      let total_packet_size := match format with V0 => 2 + 1 + length_field | V1 => length_field end in
      if max_length <? total_packet_size then Some (Err InvalidData, src)
      else if Z.of_nat (length src) <? total_packet_size then Some (Ok None, src)
      else
        let packet_data := take (Z.to_nat total_packet_size) src in
        let src := drop (Z.to_nat total_packet_size) src in
        if (length packet_data <? 2)%nat then None
        else
          let response_data := drop 2 packet_data in
          match (match format with V0 => Response.parse_v0 response_data | V1 => Response.parse_v1 response_data end) with
          | Ok r => Some (Ok (Some r), src)
          | Err e => Some (Err e, src)
          end
  | _ => Some (Ok None, src)
  end.

Definition encode (item : Packet.t) (dst : list Z) : result io_error (list Z) :=
  let encoded := Packet.encode item in
  if max_length <? Z.of_nat (length encoded) then Err InvalidData else Ok (dst ++ encoded).
End ControlCodec.

(** ** The channel *)

(** How its awaits end: a frame is taken by the port or not, the stream of responses
    yields an item or ends, the second allowed for the answer is over. *)
Inductive reply :=
| Written
| NotWritten
| Next (item : option (result io_error Response.t))
| Elapsed.

Module ControlChannel.
Record t := Mk { next_id : Z }.
Definition new : t := Mk 0.

(** What goes out on the port: the bytes of a frame. *)
Abbreviation M := (Effects.M t reply (list Z)).

(** [inner.writer.send(packet)]. *)
Definition write (packet : Packet.t) : M io_error unit :=
  match ControlCodec.encode packet [] with
  | Err e => raise e
  | Ok frame =>
      act frame ;!
      await (fun r => match r with
        | Written => Some (ret tt)
        | NotWritten => Some (raise Port)
        | _ => None
        end)
  end.

(** The next packet id. *)
Definition take_id : M io_error Z :=
  do! c := get in put (Mk (wrap 8 (next_id c + 1))) ;! ret (next_id c).

Definition send_packet (packet : Packet.t) : M io_error Response.t :=
  do! expected_id := take_id in
  write (Packet.with_id packet expected_id) ;!
  do! response := timeout TimedOut (await (fun r => match r with
    | Next (Some (Ok resp)) =>
        Some (if negb (Response.id resp =? expected_id) then raise InvalidData else ret resp)
    | Next (Some (Err e)) => Some (raise e)
    | Next None => Some (raise UnexpectedEof)
    | Elapsed => Some cut
    | _ => None
    end)) in
  match Response.error response with
  | Some _ => raise OtherIo
  | None => ret response
  end.

Definition send_packet_no_reply (packet : Packet.t) : M io_error unit :=
  do! id := take_id in write (Packet.with_id packet id).
End ControlChannel.

(** ** The operations *)
Inductive HwError := Io (e : io_error) | I2cOther | InvalidParameter.
Import ControlChannel.

Module BitaxeRawI2c.
Definition request (command : I2CCommand.t) (data : list Z) : M HwError Response.t :=
  map_err (fun _ => I2cOther) (send_packet (Packet.new Page.I2C (I2CCommand.as_u8 command) data)).

(** The answer must have the length of the buffer it fills. *)
Definition fill (n : nat) (response : Response.t) : M HwError (list Z) :=
  if negb (length (Response.data response) =? n)%nat then raise I2cOther
  else ret (Response.data response).

Definition write (addr : Z) (data : list Z) : M HwError unit :=
  request I2CCommand.Write ([addr] ++ data) ;! ret tt.
Definition read (addr : Z) (n : nat) : M HwError (list Z) :=
  do! response := request I2CCommand.Read [addr; wrap 8 (Z.of_nat n)] in fill n response.
Definition write_read (addr : Z) (data : list Z) (n : nat) : M HwError (list Z) :=
  do! response := request I2CCommand.WriteRead ([addr] ++ data ++ [wrap 8 (Z.of_nat n)]) in fill n response.
Definition set_frequency (hz : Z) : M HwError unit :=
  request I2CCommand.SetFrequency (le_bytes 4 hz) ;! ret tt.
End BitaxeRawI2c.

Module BitaxeRawGpioPin.
Inductive PinValue := Low | High.
Definition value_of_bool (b : bool) : PinValue := if b then High else Low.
Definition bool_of_value (v : PinValue) : bool := match v with High => true | Low => false end.

Definition write (number : Z) (value : PinValue) : M HwError unit :=
  map_err Io (send_packet (Packet.new Page.GPIO number [if bool_of_value value then 1 else 0])) ;! ret tt.
Definition read (number : Z) : M HwError PinValue :=
  do! response := map_err Io (send_packet (Packet.new Page.GPIO number [])) in
  match Response.data response with
  | [b] => ret (if negb (b =? 0) then High else Low)
  | _ => raise InvalidParameter
  end.
End BitaxeRawGpioPin.

Module BitaxeRawLed.
Record RgbColor := Rgb { r : Z; g : Z; b : Z }.
Definition BLACK : RgbColor := Rgb 0 0 0.

Definition scale (value : Z) (brightness : float) : Z :=
  f_round_to_uint 8 (f_mul f32 (f_of_Z f32 value) brightness).
(** [brightness.clamp(0.0, 1.0)]. *)
Definition clamp_unit (x : float) : float :=
  let zero := f_of_Z f32 0 in
  let one := f_of_Z f32 1 in
  let x := if f_lt x zero then zero else x in
  if f_lt one x then one else x.

Definition set (color : RgbColor) (brightness : float) : M HwError unit :=
  let brightness := clamp_unit brightness in
  map_err Io (send_packet (Packet.new Page.LED LEDCommand_SetRGB
    [scale (r color) brightness; scale (g color) brightness; scale (b color) brightness])) ;!
  ret tt.
Definition off : M HwError unit := set BLACK (f_of_Z f32 0).
End BitaxeRawLed.

Definition reboot : M io_error unit :=
  send_packet_no_reply (Packet.new Page.System 0x01 [0xDE; 0xAD; 0xBE; 0xEF]).
Definition reboot_to_bootloader : M io_error unit :=
  send_packet_no_reply (Packet.new Page.System 0x02 [0xB0; 0x07; 0x10; 0xAD]).

Module DeviceVersion.
Record t := Mk { hardware : Z; firmware_minor : Z; firmware_patch : Z }.
Definition from_bcd (bcd : Z) : t :=
  Mk (wrap 8 (Z.shiftr bcd 8)) (Z.land (Z.shiftr bcd 4) 0x0F) (Z.land bcd 0x0F).
End DeviceVersion.

Example version_0510 : DeviceVersion.from_bcd 0x0510 = DeviceVersion.Mk 5 1 0.
Proof. reflexivity. Qed.
Example scale_half : map (fun v => BitaxeRawLed.scale v (f_lit f32 1 2)) [255; 128; 0] = [128; 64; 0].
Proof. vm_compute. reflexivity. Qed.
Example error_response : Response.parse_v1 [0x42; 0xff; 98; 97; 100] =
  Ok (Response.Mk 0x42 [] (Some (Response.MkError ErrorCode.Custom (Some [98; 97; 100])))).
Proof. reflexivity. Qed.
