(* ===== verification/ControlProps.v ===== *)
(** * What the management protocol promises

    Requests and responses against the documented packet formats, the pairing of
    answers with requests, and the I2C bus the channel is for the drivers. *)
From stdpp Require Import base numbers list.
From Stdlib Require Import ZArith Lia.
From S2P Require Import Prelude Text Float FloatExact Effects I2c Control.
#[local] Open Scope eff_scope.
Import ControlChannel.

(** ** The firmware's side, from the documented formats *)
Definition page_of (b : Z) : option Page.t :=
  if b =? 0x05 then Some Page.I2C else if b =? 0x06 then Some Page.GPIO else if b =? 0x07 then Some Page.ADC
  else if b =? 0x08 then Some Page.LED else if b =? 0x09 then Some Page.System else None.

(** Reads a request: the packet, and the bytes after it. *)
Definition read_request (bs : list Z) : option (Packet.t * list Z) :=
  match bs with
  | l0 :: l1 :: id :: bus :: page :: command :: rest =>
      let n := from_le [l0; l1] in
      if (n <? 6) || (Z.of_nat (length bs) <? n) then None
      else
        p ← page_of page;
        Some (Packet.Mk id bus p command (take (Z.to_nat (n - 6)) rest), drop (Z.to_nat (n - 6)) rest)
  | _ => None
  end.

(** The frame of an answer. *)
Definition v0_frame (id : Z) (data : list Z) : list Z := le_bytes 2 (Z.of_nat (length data)) ++ id :: data.
Definition v1_frame (id status : Z) (payload : list Z) : list Z :=
  le_bytes 2 (Z.of_nat (4 + length payload)) ++ id :: status :: payload.

Lemma page_of_as_u8 p : page_of (Page.as_u8 p) = Some p.
Proof. by destruct p. Qed.

Lemma packet_length p : length (Packet.encode p) = (6 + length (Packet.data p))%nat.
Proof. unfold Packet.encode. by rewrite length_app, le_bytes_length. Qed.

Lemma le_word x : uint 16 x -> le_bytes 2 x = [x mod 256; x / 256] /\ from_le [x mod 256; x / 256] = x.
Proof.
  unfold uint. intros Hx. simpl. split.
  - do 2 f_equal. rewrite Z.mod_small; [done|]. split; [apply Z.div_pos; lia|apply Z.div_lt_upper_bound; lia].
  - pose proof (Z.div_mod x 256 ltac:(lia)). lia.
Qed.

(** Every packet the encoder accepts is a request the firmware reads as that packet, with
    what follows it untouched; it refuses exactly the packets above 4096 bytes, so the
    16-bit length never wraps. *)
Theorem control_request_roundtrip p dst :
  match ControlCodec.encode p dst with
  | Ok out => exists frame, out = dst ++ frame /\
      forall more, read_request (frame ++ more) = Some (p, more)
  | Err e => e = InvalidData /\ (4090 < length (Packet.data p))%nat
  end.
Proof.
  unfold ControlCodec.encode. rewrite packet_length. unfold ControlCodec.max_length.
  destruct (Z.ltb_spec 4096 (Z.of_nat (6 + length (Packet.data p)))) as [Hl|Hl]; [split; [done|lia]|].
  exists (Packet.encode p). split; [done|]. intros more.
  assert (Hu : uint 16 (6 + Z.of_nat (length (Packet.data p)))) by (unfold uint; lia).
  unfold Packet.encode. rewrite (wrap_id _ _ Hu), (proj1 (le_word _ Hu)). cbn [app].
  unfold read_request. rewrite (proj2 (le_word _ Hu)), page_of_as_u8.
  rewrite (proj2 (Z.ltb_ge _ 6)) by lia. simpl orb.
  rewrite (proj2 (Z.ltb_ge _ _)) by (simpl; rewrite length_app; lia). simpl.
  replace (Z.to_nat (6 + Z.of_nat (length (Packet.data p)) - 6)) with (length (Packet.data p)) by lia.
  rewrite take_app_length, drop_app_length. by destruct p.
Qed.

(** ** Responses *)

(** What the firmware answers: data, or an error with a text if it is a custom one. *)
Inductive answer :=
| Success (data : list Z)
| Failure (code : ErrorCode.t) (message : option (list Z)).

Definition answer_ok (a : answer) : Prop :=
  match a with
  | Failure ErrorCode.Custom (Some message) => utf8_valid message = true /\ message <> []
  | Failure _ (Some _) => False
  | _ => True
  end.

(** Its frame: version 0 marks an error by 0xFF before the code, version 1 has a status. *)
Definition answer_frame (format : ResponseFormat) (id : Z) (a : answer) : list Z :=
  match format, a with
  | V0, Success data => v0_frame id data
  | V0, Failure code message => v0_frame id (0xff :: ErrorCode.as_u8 code :: default [] message)
  | V1, Success data => v1_frame id 0 data
  | V1, Failure code message => v1_frame id (ErrorCode.as_u8 code) (default [] message)
  end.

(** What the host makes of it: in version 0 everything is data. *)
Definition understood (format : ResponseFormat) (id : Z) (a : answer) : Response.t :=
  match format, a with
  | _, Success data => Response.Mk id data None
  | V0, Failure code message => Response.Mk id (0xff :: ErrorCode.as_u8 code :: default [] message) None
  | V1, Failure code message => Response.Mk id [] (Some (Response.MkError code message))
  end.

(** What stands after the length, and what the length says. *)
Definition length_field (format : ResponseFormat) (total : Z) : Z :=
  match format with V0 => total - 3 | V1 => total end.

Lemma frame_parts format id a : answer_ok a ->
  exists body, answer_frame format id a = le_bytes 2 (length_field format (2 + Z.of_nat (length body))) ++ body /\
    (match format with V0 => 1 | V1 => 2 end <= length body)%nat /\
    (match format with V0 => Response.parse_v0 body | V1 => Response.parse_v1 body end) = Ok (understood format id a).
Proof.
  assert (Hv0 : forall data, exists body,
    v0_frame id data = le_bytes 2 (length_field V0 (2 + Z.of_nat (length body))) ++ body /\
    (1 <= length body)%nat /\ Response.parse_v0 body = Ok (Response.Mk id data None)).
  { intros data. exists (id :: data). unfold v0_frame, length_field.
    split_and!; [f_equal; f_equal; cbn [length]; lia|simpl; lia|done]. }
  intros Hok. destruct format; [by destruct a; apply Hv0|].
  assert (Hv1 : forall status payload r, Response.parse_v1 (id :: status :: payload) = Ok r -> exists body,
    v1_frame id status payload = le_bytes 2 (length_field V1 (2 + Z.of_nat (length body))) ++ body /\
    (2 <= length body)%nat /\ Response.parse_v1 body = Ok r).
  { intros status payload r Hr. exists (id :: status :: payload). unfold v1_frame, length_field.
    split_and!; [f_equal; f_equal; cbn [length]; lia|simpl; lia|done]. }
  destruct a as [data|code message]; apply Hv1; [done|].
  destruct code, message as [message|]; try done. destruct Hok as [Hu Hne]. destruct message; [done|].
  unfold Response.parse_v1. simpl. by rewrite from_utf8_lossy_valid.
Qed.

(** C20 The decoder reads the firmware's answers.  For data and for errors, in either
    format, from a frame of at most 4096 bytes the decoder yields the answer and leaves
    the bytes after it; from any part of the frame it waits, and leaves the part.  In
    version 1 the answer is the data, or the error with its code and text.  In version 0
    an error is yielded as data, 0xFF and the code first: its frame is that of these
    data, so that no decoder could tell. *)
Theorem control_decode_frame format id a more :
  answer_ok a ->
  let frame := answer_frame format id a in
  Z.of_nat (length frame) <= 4096 ->
  ControlCodec.decode format (frame ++ more) = Some (Ok (Some (understood format id a)), more) /\
  (forall part rest, frame = part ++ rest -> rest <> [] -> ControlCodec.decode format part = Some (Ok None, part)) /\
  (forall code message, format = V0 -> a = Failure code message ->
     frame = answer_frame V0 id (Success (0xff :: ErrorCode.as_u8 code :: default [] message))).
Proof.
  intros Hok frame Hl. destruct (frame_parts format id a Hok) as (body & Heq & Hbody & Hparse).
  fold frame in Heq. assert (Htwin : forall code message, format = V0 -> a = Failure code message ->
    frame = answer_frame V0 id (Success (0xff :: ErrorCode.as_u8 code :: default [] message)))
    by (subst frame; by intros code message -> ->).
  clearbody frame. rewrite Heq, length_app, le_bytes_length in Hl.
  set (x := length_field format (2 + Z.of_nat (length body))) in *.
  assert (Hx : uint 16 x) by (subst x; unfold uint; destruct format; simpl in *; lia).
  destruct (le_word x Hx) as [H1 H2]. rewrite H1 in Heq. cbn [app] in Heq.
  assert (Htotal : (match format with V0 => 2 + 1 + x | V1 => x end) = 2 + Z.of_nat (length body))
    by (subst x; destruct format; simpl; lia).
  split_and!; [| |exact Htwin].
  - rewrite Heq. unfold ControlCodec.decode. cbn [app]. rewrite H2, Htotal. unfold ControlCodec.max_length.
    rewrite (proj2 (Z.ltb_ge 4096 _)) by lia. rewrite (proj2 (Z.ltb_ge _ _)) by (simpl; rewrite length_app; lia).
    replace (Z.to_nat (2 + Z.of_nat (length body))) with (2 + length body)%nat by lia.
    cbn [take drop Nat.add]. rewrite take_app_length, drop_app_length.
    change (drop 0 body) with body. by rewrite Hparse.
  - intros part rest Hp Hr. rewrite Heq in Hp. destruct part as [|b0 [|b1 part]]; [done|done|].
    injection Hp as <- <- Hp.
    assert (Hlt : (length part < length body)%nat)
      by (rewrite Hp, length_app; destruct rest; simpl; [done|lia]).
    unfold ControlCodec.decode. rewrite H2, Htotal. unfold ControlCodec.max_length.
    rewrite (proj2 (Z.ltb_ge 4096 _)) by lia. by rewrite (proj2 (Z.ltb_lt _ _)) by (simpl; lia).
Qed.

(** What a corrupt length does.  The decoder panics exactly on a version 1 length of 0 or 1,
    which is shorter than the length field itself: the packet is cut off before the
    offset the code slices it at.  A length above the limit is an error that leaves the
    buffer as it is, so the next call fails on the same bytes. *)
Theorem control_decode_failures format src :
  bytes src ->
  (ControlCodec.decode format src = None <->
    format = V1 /\ exists b more, src = b :: 0 :: more /\ b < 2) /\
  (forall b0 b1 more, src = b0 :: b1 :: more ->
    4096 < (match format with V0 => 3 | V1 => 0 end) + b0 + 256 * b1 ->
    ControlCodec.decode format src = Some (Err InvalidData, src)).
Proof.
  intros Hb. unfold ControlCodec.decode, ControlCodec.max_length. split.
  - destruct src as [|b0 [|b1 src]]; [split; [done|intros (_ & b & more & [=] & _)]..|].
    apply Forall_cons in Hb as [H0 [H1 _]%Forall_cons]. unfold uint in H0, H1. simpl from_le.
    set (total := match format with V0 => _ | V1 => _ end).
    destruct (Z.ltb_spec 4096 total) as [|Hm]; [|destruct (Z.ltb_spec (Z.of_nat (length (b0 :: b1 :: src))) total) as [|Hs]].
    1, 2: split; [done|intros (-> & b & more & [= -> -> ->] & Hlt); subst total; simpl in *; lia].
    rewrite length_take. destruct (Nat.ltb_spec (Z.to_nat total `min` length (b0 :: b1 :: src)) 2) as [Hn|Hn].
    + split; [|done]. intros _. destruct format; subst total; simpl in *; [lia|]. split; [done|].
      exists b0, src. assert (b1 = 0) as -> by lia. split; [done|lia].
    + split; [by repeat case_match|]. intros (-> & b & more & [= -> -> ->] & Hlt). subst total. simpl in *. lia.
  - intros b0 b1 more -> Hlt. simpl from_le. by rewrite (proj2 (Z.ltb_lt 4096 _)) by (destruct format; lia).
Qed.

(** ** Sessions *)

(** A list of packets sent one after the other, whatever becomes of each. *)
Fixpoint session (ps : list Packet.t) : M io_error (list (result io_error Response.t)) :=
  match ps with
  | [] => ret []
  | p :: ps => do! r := attempt (send_packet p) in do! rs := session ps in ret (r :: rs)
  end.

(** The packets as they go out, numbered from [id]. *)
Fixpoint numbered (id : Z) (ps : list Packet.t) : list Packet.t :=
  match ps with
  | [] => []
  | p :: ps => Packet.with_id p id :: numbered (wrap 8 (id + 1)) ps
  end.
Definition fits (p : Packet.t) : bool := (length (Packet.data p) <=? 4090)%nat.

Lemma encode_fits p id :
  ControlCodec.encode (Packet.with_id p id) [] =
    if fits p then Ok (Packet.encode (Packet.with_id p id)) else Err InvalidData.
Proof.
  unfold ControlCodec.encode, fits, ControlCodec.max_length. rewrite packet_length. simpl.
  destruct (Nat.leb_spec (length (Packet.data p)) 4090);
    [rewrite (proj2 (Z.ltb_ge _ _)) by lia|rewrite (proj2 (Z.ltb_lt _ _)) by lia]; done.
Qed.

(** What the wait for an answer to the packet [id] makes of its outcome. *)
Definition verdict (id : Z) (o : reply) : option (result io_error Response.t) :=
  match o with
  | Next (Some (Ok r)) =>
      Some (if negb (Response.id r =? id) then Err InvalidData
            else match Response.error r with Some _ => Err OtherIo | None => Ok r end)
  | Next (Some (Err e)) => Some (Err e)
  | Next None => Some (Err UnexpectedEof)
  | Elapsed => Some (Err TimedOut)
  | _ => None
  end.

Lemma send_packet_run p c es :
  let c' := Mk (wrap 8 (next_id c + 1)) in
  let frame := Packet.encode (Packet.with_id p (next_id c)) in
  send_packet p c es =
    if fits p then
      match es with
      | Written :: o :: es =>
          match verdict (next_id c) o with
          | Some (Ok r) => (Ret r, c', es, [frame])
          | Some (Err e) => (Raise e, c', es, [frame])
          | None => (Wait, c', o :: es, [frame])
          end
      | [Written] => (Wait, c', [], [frame])
      | NotWritten :: es => (Raise Port, c', es, [frame])
      | es => (Wait, c', es, [frame])
      end
    else (Raise InvalidData, c', es, []).
Proof.
  unfold send_packet, take_id, write, timeout, await, act, raise, cut, bind, get, put, ret. cbn [next_id]. rewrite encode_fits.
  destruct (fits p); [|done].
  destruct es as [|[] [|[| |[[r|e]|]|] es]]; try done; simpl.
  destruct (Response.id r =? next_id c); simpl; [|done]. by destruct (Response.error r).
Qed.

(** C12 The channel pairs answers with requests.  Over any session and any outcomes, the packets
    that fit go out in order, the i-th under the number i after the first id, modulo 256;
    what the i-th call returns is an answer to that number without an error; and the next
    packet is numbered after the last, whatever failed. *)
Theorem control_channel_correlates ps c es rs c' es' frames :
  session ps c es = (Ret rs, c', es', frames) -> uint 8 (next_id c) ->
  frames = map Packet.encode (base.filter fits (numbered (next_id c) ps)) /\
  length rs = length ps /\
  (forall i r, rs !! i = Some (Ok r) ->
    Response.id r = wrap 8 (next_id c + Z.of_nat i) /\ Response.error r = None) /\
  next_id c' = wrap 8 (next_id c + Z.of_nat (length ps)).
Proof.
  revert c es rs c' es' frames. induction ps as [|p ps IH]; intros c es rs c' es' frames.
  - intros [= <- <- <- <-] Hu. split_and!; [done|done|by intros [|]|]. simpl. by rewrite Z.add_0_r, wrap_id.
  - simpl. unfold bind, attempt. rewrite send_packet_run. cbv zeta.
    set (c1 := Mk (wrap 8 (next_id c + 1))). intros Hs Hu.
    assert (Hstep : exists r es1 rs1 frames1, rs = r :: rs1 /\ session ps c1 es1 = (Ret rs1, c', es', frames1) /\
      frames = (if fits p then [Packet.encode (Packet.with_id p (next_id c))] else []) ++ frames1 /\
      (forall a, r = Ok a -> Response.id a = next_id c /\ Response.error a = None)).
    { destruct (fits p); [destruct es as [|o es]; [done|destruct o as [| |item|]]; try done; [destruct es as [|o es]; [done|]|]|].
      - destruct (verdict (next_id c) o) as [v|] eqn:Hv; [|done].
        assert (Ha : forall a, v = Ok a -> Response.id a = next_id c /\ Response.error a = None).
        { intros a ->. destruct o as [| |[[r|e]|]|]; try done. simpl in Hv.
          destruct (Z.eqb_spec (Response.id r) (next_id c)); simpl in Hv; [|done].
          destruct (Response.error r) eqn:He; simplify_eq. done. }
        destruct v as [a|e]; destruct (session ps c1 es) as [[[r2 c2] es2] tr2] eqn:H2;
          destruct r2; simplify_eq/=; rewrite ?app_nil_r; eexists _, es, _, tr2; split_and!; try done; eauto.
      - destruct (session ps c1 es) as [[[r2 c2] es2] tr2] eqn:H2;
          destruct r2; simplify_eq/=; rewrite ?app_nil_r; eexists _, es, _, tr2; split_and!; try done.
      - destruct (session ps c1 es) as [[[r2 c2] es2] tr2] eqn:H2;
          destruct r2; simplify_eq/=; rewrite ?app_nil_r; eexists _, es, _, tr2; split_and!; try done. }
    destruct Hstep as (r & es1 & rs1 & frames1 & -> & H1 & -> & Hr).
    destruct (IH _ _ _ _ _ _ H1) as (IH1 & IH2 & IH3 & IH4); [by apply wrap_uint|].
    assert (Hadd : forall n : nat, wrap 8 (next_id c1 + Z.of_nat n) = wrap 8 (next_id c + Z.of_nat (S n))).
    { intros n. unfold c1. simpl next_id. unfold wrap. rewrite Zplus_mod_idemp_l. f_equal. lia. }
    split_and!.
    + rewrite IH1. cbn [numbered]. unfold base.filter. cbn [list_filter]. fold c1.
      assert (Hf : fits (Packet.with_id p (next_id c)) = fits p) by done.
      case_decide as Hd; rewrite Hf in Hd; destruct (fits p); done.
    + simpl. by rewrite IH2.
    + intros [|i] a; simpl; [intros [= ->]|].
      * rewrite Z.add_0_r, wrap_id by done. by apply Hr.
      * intros Ha%IH3. by rewrite Hadd in Ha.
    + by rewrite IH4, Hadd.
Qed.

(** ** A late answer *)

(** The outcomes when the firmware answers every request once, in order, with the data of
    [cmds]: an answer that is late is not there before the second is over, and stays
    in the stream ([queue]) for the next read. *)
Fixpoint wire (id : Z) (queue : list Response.t) (cmds : list (list Z * bool)) : list reply :=
  match cmds with
  | [] => []
  | (data, late) :: cmds =>
      let own := Response.Mk id data None in
      Written ::
      match queue with
      | r :: queue => Next (Some (Ok r)) :: wire (wrap 8 (id + 1)) (queue ++ [own]) cmds
      | [] =>
          if late then Elapsed :: wire (wrap 8 (id + 1)) [own] cmds
          else Next (Some (Ok own)) :: wire (wrap 8 (id + 1)) [] cmds
      end
  end.

(** The answers numbered from [id]. *)
Fixpoint answers (id : Z) (datas : list (list Z)) : list (result io_error Response.t) :=
  match datas with
  | [] => []
  | d :: datas => Ok (Response.Mk id d None) :: answers (wrap 8 (id + 1)) datas
  end.

Definition shifted (c : t) (n : nat) : t := Nat.iter n (fun c => Mk (wrap 8 (next_id c + 1))) c.

Lemma shifted_succ c n : shifted (Mk (wrap 8 (next_id c + 1))) n = shifted c (S n).
Proof. unfold shifted. by rewrite Nat.iter_succ_r. Qed.

Lemma session_step p ps c es rs c' es' frames r es1 frame :
  attempt (send_packet p) c es = (Ret r, Mk (wrap 8 (next_id c + 1)), es1, frame) ->
  session ps (Mk (wrap 8 (next_id c + 1))) es1 = (Ret rs, c', es', frames) ->
  session (p :: ps) c es = (Ret (r :: rs), c', es', frame ++ frames).
Proof. intros H1 H2. cbn [session]. unfold bind. rewrite H1, H2. unfold ret. by rewrite app_nil_r. Qed.

(** With one answer too many in the stream, every call reads the answer before its own. *)
Lemma session_stale ps : forall c stale cmds,
  Forall (fun p => fits p = true) ps -> length cmds = length ps -> uint 8 (next_id c) ->
  next_id c = wrap 8 (Response.id stale + 1) -> uint 8 (Response.id stale) ->
  exists frames, session ps c (wire (next_id c) [stale] cmds) =
    (Ret (repeat (Err InvalidData) (length ps)), shifted c (length ps), [], frames).
Proof.
  induction ps as [|p ps IH]; intros c stale [|[d late] cmds] Hps Hl Hc Hid Hs; try done; [by exists []|].
  apply Forall_cons in Hps as [Hp Hps]. injection Hl as Hl.
  destruct (IH (Mk (wrap 8 (next_id c + 1))) (Response.Mk (next_id c) d None) cmds) as [frames IH1];
    try done; [by apply wrap_uint|].
  rewrite shifted_succ in IH1. eexists. eapply session_step; [|exact IH1].
  unfold attempt. rewrite send_packet_run, Hp. simpl.
  assert (Hne : Response.id stale =? next_id c = false).
  { apply Z.eqb_neq. rewrite Hid. unfold uint, wrap in *. destruct (decide (Response.id stale = 255)) as [->|]; [done|].
    rewrite Z.mod_small by lia. lia. }
  by rewrite Hne.
Qed.

(** C13 One late answer is the end of the channel.  As long as the firmware answers in time every
    call has its answer.  When one answer comes after the second allowed for it, that call
    times out, and from then on every call, however prompt the firmware, finds the answer
    to the call before it and fails: the late answer is never taken out of the stream. *)
Theorem late_answer_desyncs ps p ps' c datas d later :
  Forall (fun p => fits p = true) (ps ++ p :: ps') -> uint 8 (next_id c) ->
  length datas = length ps -> length later = length ps' ->
  exists frames, session (ps ++ p :: ps') c
      (wire (next_id c) [] (map (fun d => (d, false)) datas ++ (d, true) :: map (fun d => (d, false)) later)) =
    (Ret (answers (next_id c) datas ++ Err TimedOut :: repeat (Err InvalidData) (length ps')),
     shifted c (length (ps ++ p :: ps')), [], frames).
Proof.
  revert c datas. induction ps as [|q ps IH]; intros c [|d0 datas] Hps Hc Hd Hl; try done.
  - apply Forall_cons in Hps as [Hp Hps].
    destruct (session_stale ps' (Mk (wrap 8 (next_id c + 1))) (Response.Mk (next_id c) d None)
      (map (fun d => (d, false)) later)) as [frames H1]; try done; [by rewrite length_map|by apply wrap_uint|].
    rewrite shifted_succ in H1. eexists. eapply session_step; [|exact H1].
    unfold attempt. by rewrite send_packet_run, Hp.
  - apply Forall_cons in Hps as [Hp Hps]. injection Hd as Hd.
    destruct (IH (Mk (wrap 8 (next_id c + 1))) datas Hps) as [frames H1]; [by apply wrap_uint|done|done|].
    rewrite shifted_succ in H1. eexists. eapply session_step; [|exact H1].
    unfold attempt. rewrite send_packet_run, Hp. simpl. by rewrite Z.eqb_refl.
Qed.

(** ** The bus *)

(** The documented packets of the I2C page. *)
Definition i2c_request (op : bus_op) : Packet.t :=
  match op with
  | I2cWrite addr data => Packet.new Page.I2C 0x20 (addr :: data)
  | I2cWriteRead addr data n => Packet.new Page.I2C 0x40 (addr :: data ++ [Z.of_nat n])
  end.

(** Decoded data are bytes. *)
Definition reply_bytes (o : reply) : Prop :=
  match o with Next (Some (Ok r)) => bytes (Response.data r) | _ => True end.

(** How a call ends, without its outcomes. *)
Lemma send_packet_ends p c es :
  Forall reply_bytes es ->
  let '(r, c', es', frames) := send_packet p c es in
  frames `prefix_of` [Packet.encode (Packet.with_id p (next_id c))] /\
  match r with Ret a => bytes (Response.data a) | Cut => False | _ => True end.
Proof.
  intros Hb. rewrite send_packet_run. cbv zeta.
  destruct (fits p); [destruct es as [|[] [|o es]]; try (split; [first [reflexivity | apply prefix_nil]|done]); try done|split; [first [reflexivity | apply prefix_nil]|done]].
  apply Forall_cons in Hb as [_ [Ho _]%Forall_cons].
  destruct (verdict (next_id c) o) as [[a|e]|] eqn:Hv; try (split; [reflexivity|done]). split; [reflexivity|].
  destruct o as [| |[[r|e]|]|]; try done. simpl in Hv.
  destruct (negb _); [done|]. destruct (Response.error r); simplify_eq. done.
Qed.

Lemma bytes_forallb d : bytes d -> forallb (fun b => (0 <=? b) && (b <? 256)) d = true.
Proof.
  intros Hd. apply forallb_forall. intros x Hx%list_elem_of_In. eapply Forall_forall in Hd; [|done].
  unfold uint in Hd. lia.
Qed.

(** C21 The channel is an I2C bus for the drivers: whatever happens to a write or a write-read of
    up to 255 bytes on it, it ends as the operation of the bus ends for one of the
    outcomes of the bus - acknowledged, answered with exactly as many bytes as asked for,
    or refused - and nothing but the packet of that operation goes out. *)
Theorem control_i2c_refines_bus addr data n c es :
  (n < 256)%nat -> Forall reply_bytes es ->
  (let '(r, c', es', frames) := BitaxeRawI2c.write_read addr data n c es in
   frames `prefix_of` [Packet.encode (Packet.with_id (i2c_request (I2cWriteRead addr data n)) (next_id c))] /\
   (r = Wait \/ exists o, i2c_write_read I2cOther addr data n c [o] = (r, c, [], [I2cWriteRead addr data n]))) /\
  (let '(r, c', es', frames) := BitaxeRawI2c.write addr data c es in
   frames `prefix_of` [Packet.encode (Packet.with_id (i2c_request (I2cWrite addr data)) (next_id c))] /\
   (r = Wait \/ exists o, i2c_write I2cOther addr data c [o] = (r, c, [], [I2cWrite addr data]))).
Proof.
  intros Hn Hes. unfold BitaxeRawI2c.write_read, BitaxeRawI2c.write, BitaxeRawI2c.request, i2c_request.
  cbn [I2CCommand.as_u8 app]. rewrite wrap_id by (unfold uint; lia). split.
  - pose proof (send_packet_ends (Packet.new Page.I2C 0x40 (addr :: data ++ [Z.of_nat n])) c es Hes) as Hs.
    unfold bind, map_err. destruct (send_packet _ c es) as [[[r c1] es1] frames].
    destruct r as [a|e| |]; destruct Hs as [Hf Ha]; [|split; [exact Hf|right; by exists Refused]|done|by split; [|left]].
    unfold BitaxeRawI2c.fill. destruct (Nat.eqb_spec (length (Response.data a)) n) as [Hl|Hl]; simpl;
      rewrite app_nil_r; (split; [exact Hf|right]); [|by exists Refused].
    exists (Answered (Response.data a)). unfold i2c_write_read, bind, act, await.
    by rewrite bool_decide_eq_true_2, bytes_forallb.
  - pose proof (send_packet_ends (Packet.new Page.I2C 0x20 (addr :: data)) c es Hes) as Hs.
    unfold bind, map_err. destruct (send_packet _ c es) as [[[r c1] es1] frames].
    destruct r as [a|e| |]; destruct Hs as [Hf Ha]; [|split; [exact Hf|right; by exists Refused]|done|by split; [|left]].
    simpl. rewrite app_nil_r. split; [exact Hf|right]. by exists Acked.
Qed.

(** ** Examples *)
Lemma control_decode_frame_witness :
  let r := Response.Mk 7 [] (Some (Response.MkError ErrorCode.Custom (Some [98; 97; 100]))) in
  ControlCodec.decode V1 [7; 0; 7; 0xff; 98; 97; 100; 1; 2] = Some (Ok (Some r), [1; 2]) /\
  ControlCodec.decode V0 [5; 0; 7; 0xff; 0xff; 98; 97; 100; 1] =
    Some (Ok (Some (Response.Mk 7 [0xff; 0xff; 98; 97; 100] None)), [1]).
Proof.
  intros r. set (bad := Failure ErrorCode.Custom (Some [98; 97; 100])).
  assert (Hok : answer_ok bad) by (by split; vm_compute).
  split; [exact (proj1 (control_decode_frame V1 7 bad [1; 2] Hok ltac:(by vm_compute)))|].
  exact (proj1 (control_decode_frame V0 7 bad [1] Hok ltac:(by vm_compute))).
Defined.

Lemma control_decode_failures_witness :
  ControlCodec.decode V1 [1; 0; 9; 9] = None /\
  ControlCodec.decode V0 [0; 255; 9; 9] = Some (Err InvalidData, [0; 255; 9; 9]).
Proof.
  assert (H1 : bytes [1; 0; 9; 9]) by (repeat constructor; done).
  assert (H2 : bytes [0; 255; 9; 9]) by (repeat constructor; done).
  split.
  - apply (proj2 (proj1 (control_decode_failures V1 [1; 0; 9; 9] H1))). split; [done|]. by exists 1, [9; 9].
  - by apply (proj2 (control_decode_failures V0 [0; 255; 9; 9] H2) 0 255 [9; 9]).
Defined.

Definition pin (n : Z) : Packet.t := Packet.new Page.GPIO n [].

Lemma late_answer_desyncs_witness :
  exists frames, session [pin 0; pin 1; pin 2; pin 3] new
      (wire 0 [] [([1], false); ([0], true); ([1], false); ([1], false)]) =
    (Ret [Ok (Response.Mk 0 [1] None); Err TimedOut; Err InvalidData; Err InvalidData], Mk 4, [], frames).
Proof.
  apply (late_answer_desyncs [pin 0] (pin 1) [pin 2; pin 3] new [[1]] [0] [[1]; [1]]);
    [by repeat constructor|done|done|done].
Defined.

Lemma control_channel_correlates_witness :
  exists frames, session [pin 0; pin 1] (Mk 255)
      [Written; Next (Some (Ok (Response.Mk 255 [1] None))); Written; Elapsed] =
    (Ret [Ok (Response.Mk 255 [1] None); Err TimedOut], Mk 1, [], frames) /\
  frames = [[6; 0; 255; 0; 6; 0]; [6; 0; 0; 0; 6; 1]].
Proof.
  eexists. split; [reflexivity|].
  by rewrite (proj1 (control_channel_correlates [pin 0; pin 1] (Mk 255)
    [Written; Next (Some (Ok (Response.Mk 255 [1] None))); Written; Elapsed] _ _ _ _ eq_refl ltac:(done))).
Defined.

Lemma control_i2c_refines_bus_witness :
  let es := [Written; Next (Some (Ok (Response.Mk 0 [0x12; 0x34] None)))] in
  BitaxeRawI2c.write_read 0x24 [0x8B] 2 new es =
    (Ret [0x12; 0x34], Mk 1, [], [[9; 0; 0; 0; 5; 0x40; 0x24; 0x8B; 2]]) /\
  exists o, i2c_write_read I2cOther 0x24 [0x8B] 2 new [o] = (Ret [0x12; 0x34], new, [], [I2cWriteRead 0x24 [0x8B] 2]).
Proof.
  intros es. split; [reflexivity|].
  assert (Hes : Forall reply_bytes es) by (repeat constructor; done).
  destruct (proj1 (control_i2c_refines_bus 0x24 [0x8B] 2 new es ltac:(lia) Hes)) as [_ [H|H]]; [discriminate H|exact H].
Defined.
