(* ===== verification/Sensors.v ===== *)
(** * Temperature sensors and the fan controller

    The drivers of peripheral/tmp1075.rs, peripheral/tmp451.rs and
    peripheral/emc2101.rs as their bus transactions, the readings they give, and what
    those readings are. *)
From stdpp Require Import base numbers list.
From Stdlib Require Import ZArith Lia SpecFloat.
From S2P Require Import Prelude Float FloatExact Effects I2c.
#[local] Open Scope eff_scope.

(** ** TMP1075 *)
Module Tmp1075.
Definition DEVICE_ID : Z := 0x7500.
Inductive Register := Temp | Cfgr | Llim | Hlim | DieId.
Definition as_u8 (r : Register) : Z :=
  match r with Temp => 0x00 | Cfgr => 0x01 | Llim => 0x02 | Hlim => 0x03 | DieId => 0x0F end.

Inductive Error := I2c | UnexpectedDeviceId (id : Z).

(** A reading is a signed number of sixteenths of a degree. *)
Definition from_raw (raw : Z) : Z := Z.shiftr (sign 16 raw) 4.
Definition as_degrees_c (reading : Z) : float := f_mul f32 (f_of_Z f32 reading) (f_lit f32 625 10000).

(** The state of a driver is its address on the bus. *)
Abbreviation M := (Effects.M Z bus_outcome bus_op Error).

Definition read_register (reg : Register) : M Z :=
  do! address := get in
  do! buf := i2c_write_read I2c address [as_u8 reg] 2 in ret (from_be buf).

Definition init : M unit :=
  do! id := read_register DieId in
  if negb (id =? DEVICE_ID) then raise (UnexpectedDeviceId id) else ret tt.

Definition read : M Z :=
  do! raw := read_register Temp in ret (from_raw raw).
End Tmp1075.

(** ** TMP451 *)
Module Tmp451.
Definition MANUFACTURER_ID : Z := 0x55.
Inductive Register :=
| LocalTempHigh | RemoteTempHigh | Status | Config | RemoteTempLow | RemoteOffsetHigh | LocalTempLow
| NFactorCorrection | MfgId.
Definition as_u8 (r : Register) : Z :=
  match r with
  | LocalTempHigh => 0x00 | RemoteTempHigh => 0x01 | Status => 0x02 | Config => 0x03 | RemoteTempLow => 0x10
  | RemoteOffsetHigh => 0x11 | LocalTempLow => 0x15 | NFactorCorrection => 0x23 | MfgId => 0xFE
  end.

Inductive Error := I2c | UnexpectedMfgId (id : Z) | RemoteDiodeOpen.

(** The shift of an i16 that holds a byte does not overflow. *)
Definition from_high_low (high low : Z) : Z := Z.lor (Z.shiftl high 4) (Z.shiftr low 4).
Definition as_degrees_c (reading : Z) : float := f_mul f32 (f_of_Z f32 reading) (f_lit f32 625 10000).

Abbreviation M := (Effects.M Z bus_outcome bus_op Error).

Definition read_byte (reg : Register) : M Z :=
  do! address := get in
  do! buf := i2c_write_read I2c address [as_u8 reg] 1 in ret (from_le buf).
Definition write_byte (reg : Register) (value : Z) : M unit :=
  do! address := get in i2c_write I2c address [as_u8 reg; value].

Definition init : M unit :=
  do! id := read_byte MfgId in
  if negb (id =? MANUFACTURER_ID) then raise (UnexpectedMfgId id) else ret tt.

Definition read_local : M Z :=
  do! high := read_byte LocalTempHigh in
  do! low := read_byte LocalTempLow in
  ret (from_high_low high low).

Definition read_remote : M Z :=
  do! s := read_byte Status in
  if negb (Z.land s 0x04 =? 0) then raise RemoteDiodeOpen
  else
    do! high := read_byte RemoteTempHigh in
    do! low := read_byte RemoteTempLow in
    ret (from_high_low high low).

(** [degrees as u8]. *)
Definition set_remote_offset (degrees : Z) : M unit := write_byte RemoteOffsetHigh (wrap 8 degrees).
End Tmp451.

(** ** EMC2101 *)
Module Percent.
Definition new_clamped (value : Z) : Z := if 100 <? value then 100 else value.
Definition new (value : Z) : option Z := if value <=? 100 then Some value else None.
Definition ZERO : Z := 0.
Definition FULL : Z := 100.
Definition of_value (p value : Z) : Z := wrap 8 (p * value / 100).
End Percent.

Module Emc2101.
Definition DEFAULT_ADDRESS : Z := 0x4C.
Definition INTERNAL_TEMP : Z := 0x00.
Definition EXTERNAL_TEMP_HIGH : Z := 0x01.
Definition EXTERNAL_TEMP_LOW : Z := 0x10.
Definition CONFIG : Z := 0x03.
Definition FAN_CONFIG : Z := 0x4A.
Definition FAN_SETTING : Z := 0x4C.
Definition TACH_LOW : Z := 0x46.
Definition TACH_HIGH : Z := 0x47.
Definition PRODUCT_ID : Z := 0xFD.
Definition MFG_ID : Z := 0xFE.
Definition REVISION : Z := 0xFF.
Definition PWM_MAX : Z := 63.

Inductive HwError := I2c | InvalidParameter | DiodeOpen | DiodeShort.
Abbreviation M := (Effects.M Z bus_outcome bus_op HwError).

Definition read_register (reg : Z) : M Z :=
  do! address := get in
  do! buf := i2c_write_read I2c address [reg] 1 in ret (from_le buf).
Definition write_register (reg value : Z) : M unit :=
  do! address := get in i2c_write I2c address [reg; value].

(** The ten milliseconds for the tachometer to settle are left out. *)
Definition init : M unit :=
  do! mfg_id := read_register MFG_ID in
  do! product_id := read_register PRODUCT_ID in
  do! _revision := read_register REVISION in
  if negb (mfg_id =? 0x5D) then raise InvalidParameter
  else if negb ((product_id =? 0x16) || (product_id =? 0x28)) then raise InvalidParameter
  else
    do! config := read_register CONFIG in
    write_register CONFIG (Z.lor config 0x04) ;!
    write_register FAN_CONFIG 0x23.

Definition set_fan_speed (speed_percent : Z) : M unit :=
  write_register FAN_SETTING (Percent.of_value speed_percent PWM_MAX).

Definition get_fan_speed : M Z :=
  do! duty := read_register FAN_SETTING in
  ret (Percent.new_clamped (wrap 8 (duty * 100 / PWM_MAX))).

(** The two bytes as an 11-bit number, and that number in degrees. *)
Definition external_raw (high low : Z) : Z := Z.lor (Z.shiftl high 3) (Z.shiftr low 5).
Definition external_degrees (raw : Z) : float :=
  let resolution := f_lit f32 125 1000 in
  if negb (Z.land raw 0x400 =? 0)
  then f_mul f32 (f_opp (f_of_Z f32 (Z.land (2 ^ 16 - 1 - raw) 0x7FF + 1))) resolution
  else f_mul f32 (f_of_Z f32 raw) resolution.

Definition get_external_temperature : M float :=
  do! high := read_register EXTERNAL_TEMP_HIGH in
  do! low := read_register EXTERNAL_TEMP_LOW in
  let raw := external_raw high low in
  if raw =? 0x3F8 then raise DiodeOpen
  else if raw =? 0x3FF then raise DiodeShort
  else ret (external_degrees raw).

Definition get_internal_temperature : M float :=
  do! raw := read_register INTERNAL_TEMP in ret (f_of_Z f32 (sign 8 raw)).

Definition get_tach_count : M Z :=
  do! low := read_register TACH_LOW in
  do! high := read_register TACH_HIGH in
  ret (Z.lor (Z.shiftl high 8) low).

Definition get_rpm : M Z :=
  do! tach := get_tach_count in
  if (tach =? 0) || (tach =? 0xFFFF) then ret 0
  else
    let rpm := 5400000 / tach in
    if rpm =? 82 then ret 0 else ret rpm.
End Emc2101.

(** ** What the readings are *)

(** [x] is exactly [n / 2^k]. *)
Definition exactly (x : float) (n k : Z) : Prop := units 149 x = n * 2 ^ (149 - k).

Lemma sixteenths_exact n : -2048 <= n < 4096 -> exactly (f_mul f32 (f_of_Z f32 n) (f_lit f32 625 10000)) n 4.
Proof.
  intros Hn.
  assert (H : forall y, uint 13 y -> (units 149 (f_mul f32 (f_of_Z f32 (y - 2048)) (f_lit f32 625 10000)) =?
    (y - 2048) * 2 ^ 145) = true) by (apply check_uint; vm_compute; reflexivity).
  specialize (H (n + 2048) ltac:(unfold uint; lia)). apply Z.eqb_eq in H.
  by replace (n + 2048 - 2048) with n in H by lia.
Qed.

Lemma eighths_exact raw : uint 11 raw -> exactly (Emc2101.external_degrees raw) (sign 11 raw) 3.
Proof.
  intros Hr. apply Z.eqb_eq. revert raw Hr. apply check_uint. vm_compute. reflexivity.
Qed.

Lemma byte_exact n : uint 8 n -> exactly (f_of_Z f32 (sign 8 n)) (sign 8 n) 0.
Proof. intros Hn. apply Z.eqb_eq. revert n Hn. apply check_uint. vm_compute. reflexivity. Qed.

Lemma hi_lo_join h l k m : 0 <= m -> 0 <= k -> uint 8 h -> uint 8 l -> k + m = 8 ->
  Z.lor (Z.shiftl h k) (Z.shiftr l m) = h * 2 ^ k + l / 2 ^ m /\ uint k (Z.shiftr l m).
Proof.
  intros Hm Hk Hh Hl Hs. assert (Hu : uint k (Z.shiftr l m)) by (eapply (uint_shiftr 8); [lia..|done]).
  split; [|done]. rewrite lor_shiftl_add by done. by rewrite Z.shiftr_div_pow2.
Qed.

Lemma from_le_byte b : from_le [b] = b.
Proof. simpl. lia. Qed.

Lemma answered_byte {St Er} (bus_error : Er) addr data b (s : St) es :
  uint 8 b -> i2c_write_read bus_error addr data 1 s (Answered [b] :: es) = (Ret [b], s, es, [I2cWriteRead addr data 1]).
Proof.
  intros Hb. unfold i2c_write_read, bind, act, await. simpl. unfold uint in Hb.
  by rewrite (proj2 (Z.leb_le 0 b)), (proj2 (Z.ltb_lt b 256)) by lia.
Qed.

Lemma answered_word {St Er} (bus_error : Er) addr data b c (s : St) es :
  uint 8 b -> uint 8 c ->
  i2c_write_read bus_error addr data 2 s (Answered [b; c] :: es) = (Ret [b; c], s, es, [I2cWriteRead addr data 2]).
Proof.
  intros Hb Hc. unfold i2c_write_read, bind, act, await. simpl. unfold uint in Hb, Hc.
  by rewrite (proj2 (Z.leb_le 0 b)), (proj2 (Z.ltb_lt b 256)), (proj2 (Z.leb_le 0 c)), (proj2 (Z.ltb_lt c 256)) by lia.
Qed.

(** Runs the drivers on devices that answer with bytes. *)
Ltac drive :=
  unfold bind, get, ret, raise; rewrite ?answered_byte, ?answered_word by done; cbv beta iota;
  repeat (rewrite ?answered_byte, ?answered_word by done; cbv beta iota); cbn [app].

Lemma tmp1075_reads a h l : uint 8 h -> uint 8 l ->
  (Tmp1075.read a [Answered [h; l]]).1.1.1 = Ret (sign 16 (256 * h + l) / 16).
Proof.
  intros Hh Hl. unfold Tmp1075.read, Tmp1075.read_register. drive. unfold Tmp1075.from_raw, from_be. simpl from_le.
  rewrite Z.shiftr_div_pow2 by lia. replace (l + 256 * (h + 256 * 0)) with (256 * h + l) by lia. done.
Qed.

Lemma tmp451_reads a h l : uint 8 h -> uint 8 l ->
  (Tmp451.read_local a [Answered [h]; Answered [l]]).1.1.1 = Ret (16 * h + l / 16).
Proof.
  intros Hh Hl. unfold Tmp451.read_local, Tmp451.read_byte. drive. rewrite ?from_le_byte.
  unfold Tmp451.from_high_low. rewrite (proj1 (hi_lo_join h l 4 4 ltac:(lia) ltac:(lia) Hh Hl eq_refl)).
  cbn [fst snd]. f_equal. change (2 ^ 4) with 16. lia.
Qed.

Lemma test_bit_2 s : uint 8 s -> (Z.land s 0x04 =? 0) = negb (Z.testbit s 2).
Proof. intros Hs. apply Bool.eqb_prop. revert s Hs. apply check_uint. vm_compute. reflexivity. Qed.

Lemma tmp451_reads_remote a s h l : uint 8 s -> uint 8 h -> uint 8 l ->
  (Tmp451.read_remote a [Answered [s]; Answered [h]; Answered [l]]).1.1.1 =
    if Z.testbit s 2 then Raise Tmp451.RemoteDiodeOpen else Ret (16 * h + l / 16).
Proof.
  intros Hs Hh Hl. unfold Tmp451.read_remote, Tmp451.read_byte. drive. rewrite from_le_byte, test_bit_2 by done. destruct (Z.testbit s 2); [reflexivity|]; cbv beta iota delta [negb].
  drive. rewrite ?from_le_byte.
  unfold Tmp451.from_high_low. rewrite (proj1 (hi_lo_join h l 4 4 ltac:(lia) ltac:(lia) Hh Hl eq_refl)).
  cbn [fst snd]. f_equal. change (2 ^ 4) with 16. lia.
Qed.

Lemma emc2101_reads a h l : uint 8 h -> uint 8 l ->
  (Emc2101.get_external_temperature a [Answered [h]; Answered [l]]).1.1.1 =
    (let raw := 8 * h + l / 32 in
     if raw =? 0x3F8 then Raise Emc2101.DiodeOpen
     else if raw =? 0x3FF then Raise Emc2101.DiodeShort
     else Ret (Emc2101.external_degrees raw)).
Proof.
  intros Hh Hl. unfold Emc2101.get_external_temperature, Emc2101.read_register. drive. rewrite ?from_le_byte.
  unfold Emc2101.external_raw. rewrite (proj1 (hi_lo_join h l 3 5 ltac:(lia) ltac:(lia) Hh Hl eq_refl)).
  change (2 ^ 3) with 8. change (2 ^ 5) with 32. rewrite (Z.mul_comm h 8). cbv zeta.
  destruct (_ =? 0x3F8); [done|]. by destruct (_ =? 0x3FF).
Qed.

Lemma sign_bounds w x : 0 < w -> uint w x -> - 2 ^ (w - 1) <= sign w x < 2 ^ (w - 1).
Proof.
  unfold uint, sign. intros Hw Hx. assert (2 ^ w = 2 * 2 ^ (w - 1)) by (rewrite <- Z.pow_succ_r by lia; f_equal; lia).
  destruct (Z.leb_spec (2 ^ (w - 1)) x); lia.
Qed.

(** The temperatures the drivers report are exactly those in the registers: sixteenths of a
    degree in two's complement for the TMP1075, sixteenths for both channels of the
    TMP451, eighths in 11-bit two's complement for the external diode of the EMC2101,
    whole degrees for its own.  A remote diode that is open, or a code that stands for a
    faulty diode, is an error instead. *)
Theorem temperatures_exact a h l s :
  uint 8 h -> uint 8 l -> uint 8 s ->
  (exists r, (Tmp1075.read a [Answered [h; l]]).1.1.1 = Ret r /\
     exactly (Tmp1075.as_degrees_c r) (sign 16 (256 * h + l) / 16) 4) /\
  (exists r, (Tmp451.read_local a [Answered [h]; Answered [l]]).1.1.1 = Ret r /\
     (Tmp451.read_remote a [Answered [s]; Answered [h]; Answered [l]]).1.1.1 =
       (if Z.testbit s 2 then Raise Tmp451.RemoteDiodeOpen else Ret r) /\
     exactly (Tmp451.as_degrees_c r) (16 * h + l / 16) 4) /\
  (let raw := 8 * h + l / 32 in
   let r := (Emc2101.get_external_temperature a [Answered [h]; Answered [l]]).1.1.1 in
   r = (if raw =? 0x3F8 then Raise Emc2101.DiodeOpen
        else if raw =? 0x3FF then Raise Emc2101.DiodeShort
        else Ret (Emc2101.external_degrees raw)) /\
   exactly (Emc2101.external_degrees raw) (sign 11 raw) 3) /\
  (exists t, (Emc2101.get_internal_temperature a [Answered [h]]).1.1.1 = Ret t /\ exactly t (sign 8 h) 0).
Proof.
  intros Hh Hl Hs.
  assert (Hdiv : 0 <= l / 16 < 16 /\ 0 <= l / 32 < 8)
    by (unfold uint in Hl; split; split; (apply Z.div_pos; lia) || (apply Z.div_lt_upper_bound; lia)).
  refine (conj _ (conj _ (conj _ _))).
  - exists (sign 16 (256 * h + l) / 16). split; [by apply tmp1075_reads|]. apply sixteenths_exact.
    pose proof (sign_bounds 16 (256 * h + l) ltac:(lia) ltac:(unfold uint in *; lia)) as Hr.
    change (2 ^ (16 - 1)) with 32768 in Hr.
    split; [apply Z.div_le_lower_bound; lia|apply Z.div_lt_upper_bound; lia].
  - exists (16 * h + l / 16). split_and!; [by apply tmp451_reads|by apply tmp451_reads_remote|].
    apply sixteenths_exact. unfold uint in *. lia.
  - cbv zeta. split; [by apply emc2101_reads|]. apply eighths_exact. unfold uint in *. lia.
  - exists (f_of_Z f32 (sign 8 h)). split; [|by apply byte_exact].
    unfold Emc2101.get_internal_temperature, Emc2101.read_register. drive. by rewrite from_le_byte.
Qed.

(** The fan turns as fast as it is told: a speed is written as a duty cycle of at most 63,
    and read back it is that speed rounded down by at most 2 percent, full speed and
    standstill exactly. *)
Theorem fan_speed_readback a p :
  0 <= p <= 100 ->
  exists duty q, Emc2101.set_fan_speed p a [Acked] = (Ret tt, a, [], [I2cWrite a [0x4C; duty]]) /\ 0 <= duty <= 63 /\
    (Emc2101.get_fan_speed a [Answered [duty]]).1.1.1 = Ret q /\ p - 2 <= q <= p /\
    (p = 100 -> q = 100 /\ duty = 63) /\ (q = 0 -> p <= 1).
Proof.
  intros Hp.
  assert (H : (let duty := Percent.of_value p 63 in let q := Percent.new_clamped (wrap 8 (duty * 100 / 63)) in
    (p <=? 100) && (0 <=? duty) && (duty <=? 63) && (p - 2 <=? q) && (q <=? p) &&
    (negb (p =? 100) || ((q =? 100) && (duty =? 63))) && (negb (q =? 0) || (p <=? 1)) || (100 <? p)) = true).
  { assert (Hu : uint 7 p) by (unfold uint; lia). clear Hp. revert p Hu. apply check_uint. vm_compute. reflexivity. }
  cbv zeta in H. exists (Percent.of_value p 63), (Percent.new_clamped (wrap 8 (Percent.of_value p 63 * 100 / 63))).
  assert (Hd : 0 <= Percent.of_value p 63 <= 63) by lia.
  split_and!; try (done || lia).
  unfold Emc2101.get_fan_speed, Emc2101.read_register.
  assert (uint 8 (Percent.of_value p 63)) by (unfold uint; lia). drive. by rewrite from_le_byte.
Qed.

Lemma temperatures_exact_witness :
  (exists r, (Tmp1075.read 0x48 [Answered [0xE7; 0]]).1.1.1 = Ret r /\ exactly (Tmp1075.as_degrees_c r) (-400) 4) /\
  (Tmp451.read_remote 0x48 [Answered [4]; Answered [0xE7]; Answered [0]]).1.1.1 = Raise Tmp451.RemoteDiodeOpen.
Proof.
  pose proof (temperatures_exact 0x48 0xE7 0 4 ltac:(done) ltac:(done) ltac:(done)) as (H1 & (r & _ & H2 & _) & _ & _).
  assert (Hs : sign 16 (256 * 0xE7 + 0) / 16 = -400) by reflexivity. rewrite Hs in H1.
  split; [exact H1|exact H2].
Defined.

Lemma fan_speed_readback_witness :
  exists duty q, Emc2101.set_fan_speed 50 0x4C [Acked] = (Ret tt, 0x4C, [], [I2cWrite 0x4C [0x4C; duty]]) /\
    0 <= duty <= 63 /\ (Emc2101.get_fan_speed 0x4C [Answered [duty]]).1.1.1 = Ret q /\ 48 <= q <= 50 /\
    (50 = 100 -> q = 100 /\ duty = 63) /\ (q = 0 -> 50 <= 1).
Proof. exact (fan_speed_readback 0x4C 50 ltac:(lia)). Defined.
