(* ===== verification/Backplane.v ===== *)
(** * The backplane (backplane.rs) and board patterns (board/pattern.rs, board/mod.rs)

    USB devices are matched to board descriptors; the backplane starts a board for a
    device, hands its threads to the scheduler and stops it again.  The descriptors
    are those the inventory crate has collected.  Regular expressions are the regex
    crate's, and the lower case of a text is Unicode's: the class [TextMatch]. *)
From stdpp Require Import base numbers list strings gmap sets.
From Stdlib Require Import ZArith Lia.
From S2P Require Import Prelude Effects.
#[local] Open Scope eff_scope.

Class TextMatch := {
  (** [None] is a pattern that is no regular expression. *)
  regex : string -> option (string -> bool);
  to_lowercase : string -> string }.

Record UsbDeviceInfo := MkUsb {
  vid : Z; pid : Z; bcd_device : Z; serial_number : option string; manufacturer : option string;
  product : option string; device_path : string }.

(** ** Patterns *)
Inductive Match (A : Type) := Any | Specific (a : A).
Arguments Any {A}.
Arguments Specific {A} a.

Definition is_any {A} (m : Match A) : bool := match m with Any => true | Specific _ => false end.
Definition is_specific {A} (m : Match A) : bool := match m with Any => false | Specific _ => true end.

Module BcdVersionMatch.
Inductive t := Exact (v : Z) | Major (v : Z).
Definition matches (m : t) (bcd_device : Z) : bool :=
  match m with
  | Exact expected => bcd_device =? expected
  | Major major => wrap 8 (Z.shiftr bcd_device 8) =? major
  end.
Definition specificity (m : t) : Z := match m with Exact _ => 15 | Major _ => 10 end.
End BcdVersionMatch.

Module StringMatch.
Inductive t := Exact (s : string) | Regex (s : string) | Contains (s : string).

(** [str::contains]. *)
Fixpoint contains (s sub : string) : bool :=
  String.prefix sub s || match s with EmptyString => false | String _ s => contains s sub end.

Definition matches `{TextMatch} (m : t) (s : option string) : bool :=
  match s with
  | None => false
  | Some value =>
      match m with
      | Exact expected => bool_decide (value = expected)
      | Regex pattern => match regex pattern with Some is_match => is_match value | None => false end
      | Contains substring => contains (to_lowercase value) (to_lowercase substring)
      end
  end.
Definition specificity (m : t) : Z := match m with Exact _ => 20 | Regex _ => 15 | Contains _ => 10 end.
End StringMatch.

Module BoardPattern.
Record t := Mk {
  vid : Match Z; pid : Match Z; bcd_device : Match BcdVersionMatch.t; manufacturer : Match StringMatch.t;
  product : Match StringMatch.t; serial_pattern : Match StringMatch.t }.

Definition wildcard : t := Mk Any Any Any Any Any Any.

(** [if let Match::Specific(m) = field && !matches(m)]. *)
Definition refuses {A} (field : Match A) (matches : A -> bool) : bool :=
  match field with Specific m => negb (matches m) | Any => false end.

Definition matches `{TextMatch} (p : t) (device : UsbDeviceInfo) : bool :=
  if refuses (vid p) (fun v => Backplane.vid device =? v) then false
  else if refuses (pid p) (fun v => Backplane.pid device =? v) then false
  else if refuses (bcd_device p) (fun m => BcdVersionMatch.matches m (Backplane.bcd_device device)) then false
  else if refuses (manufacturer p) (fun m => StringMatch.matches m (Backplane.manufacturer device)) then false
  else if refuses (product p) (fun m => StringMatch.matches m (Backplane.product device)) then false
  else if refuses (serial_pattern p) (fun m => StringMatch.matches m (Backplane.serial_number device)) then false
  else true.

Definition points {A} (field : Match A) (score : A -> Z) : Z :=
  match field with Specific m => score m | Any => 0 end.

Definition specificity (p : t) : Z :=
  (if is_specific (vid p) then 10 else 0) + (if is_specific (pid p) then 10 else 0) +
  points (bcd_device p) BcdVersionMatch.specificity + points (manufacturer p) StringMatch.specificity +
  points (product p) StringMatch.specificity + points (serial_pattern p) StringMatch.specificity.
End BoardPattern.

Record BoardInfo := MkInfo { model : string; firmware_version : option string; info_serial : option string }.

Section Backplane.
Context `{TextMatch} {Thread Future : Type}.

(** A descriptor's factory is an await of the handler; the telemetry channel of a
    connector is handed on and not looked at. *)
Record BoardDescriptor := MkDescriptor { pattern : BoardPattern.t; name : string }.
Record VirtualBoardDescriptor := MkVirtual { device_type : string; virtual_name : string }.
Record BackplaneConnector := MkConnector {
  info : BoardInfo; threads : list Thread; conn_shutdown : option Future }.

(** What the inventory has collected. *)
Context (descriptors : list BoardDescriptor) (virtual_descriptors : list VirtualBoardDescriptor).

(** [max_by_key]: the last of the greatest. *)
Fixpoint max_by_key {A} (key : A -> Z) (best : option A) (l : list A) : option A :=
  match l with
  | [] => best
  | a :: l =>
      max_by_key key (match best with Some b => if key a <? key b then Some b else Some a | None => Some a end) l
  end.

Definition find_descriptor (device : UsbDeviceInfo) : option BoardDescriptor :=
  max_by_key (fun d => BoardPattern.specificity (pattern d)) None
    (base.filter (fun d => BoardPattern.matches (pattern d) device = true) descriptors).

Definition find_virtual (type : string) : option VirtualBoardDescriptor :=
  List.find (fun d => bool_decide (device_type d = type)) virtual_descriptors.

(** ** The event loop *)
Record CpuDeviceInfo := MkCpu { device_id : string; thread_count : Z; duty_percent : Z }.

Inductive TransportEvent :=
| UsbDeviceConnected (device : UsbDeviceInfo)
| UsbDeviceDisconnected (path : string)
| CpuDeviceConnected (device : CpuDeviceInfo)
| CpuDeviceDisconnected (id : string)
| InitialEnumerationComplete.

(** How its awaits end: the merged streams yield an event of a transport or have all
    ended, a factory makes a board or fails, a send succeeds or not, the shutdown of a
    board is over.  [Keys] is the order in which the map of boards gives its keys. *)
Inductive outcome :=
| Event (transport : nat) (event : TransportEvent)
| StreamsEnded
| Created (conn : BackplaneConnector)
| CreateFailed
| Sent
| SendFailed
| Over
| Keys (ids : list string).

Inductive action :=
| RegisterBoard (info : BoardInfo)
| RegisterThread (thread : Thread)
| EnumerationComplete
| Create (factory : string)
| Shutdown (future : Future).

Record ActiveBoard := MkActive { board_info : BoardInfo; board_shutdown : option Future }.

(** The boards, and the locals of [run]: how many transports there are, which have
    completed their first enumeration, and whether the scheduler was told. *)
Record Backplane := MkBackplane {
  boards : gmap string ActiveBoard; transport_count : nat; completed : gset nat; completion_sent : bool }.

Definition new (transports : nat) : Backplane := MkBackplane ∅ transports ∅ false.
Definition with_boards (s : Backplane) b := MkBackplane b (transport_count s) (completed s) (completion_sent s).
Definition with_completed (s : Backplane) c := MkBackplane (boards s) (transport_count s) c (completion_sent s).
Definition with_completion_sent (s : Backplane) := MkBackplane (boards s) (transport_count s) (completed s) true.

Abbreviation M := (Effects.M Backplane outcome action Empty_set).

(** A send whose failure is only logged: whether it succeeded. *)
Definition send (a : action) : M bool :=
  act a ;! await (fun o => match o with Sent => Some (ret true) | SendFailed => Some (ret false) | _ => None end).

Fixpoint send_threads (l : list Thread) : M unit :=
  match l with
  | [] => ret tt
  | thread :: l => do! ok := send (RegisterThread thread) in if (ok : bool) then send_threads l else ret tt
  end.

Definition start_board (board_id : string) (conn : BackplaneConnector) : M unit :=
  send (RegisterBoard (info conn)) ;!
  send_threads (threads conn) ;!
  do! s := get in put (with_boards s (<[board_id := MkActive (info conn) (conn_shutdown conn)]> (boards s))).

Definition send_enumeration_complete : M unit := send EnumerationComplete ;! ret tt.

(** [ActiveBoard::shutdown]: the future is taken, and awaited. *)
Definition shutdown_board (board : ActiveBoard) : M unit :=
  match board_shutdown board with
  | Some fut => act (Shutdown fut) ;! await (fun o => match o with Over => Some (ret tt) | _ => None end)
  | None => ret tt
  end.

(** [if let Some(board) = self.boards.remove(id) { board.shutdown().await; ... }]: whether
    there was a board. *)
Definition remove_board (id : string) : M bool :=
  do! s := get in
  match boards s !! id with
  | Some board => put (with_boards s (delete id (boards s))) ;! shutdown_board board ;! ret true
  | None => ret false
  end.

(** [self.boards.keys().cloned().collect()]. *)
Definition board_ids : M (list string) :=
  do! s := get in
  await (fun o => match o with
    | Keys ids => if bool_decide (NoDup ids /\ list_to_set ids = dom (boards s)) then Some (ret ids) else None
    | _ => None
    end).

Fixpoint remove_first (ids : list string) : M unit :=
  match ids with
  | [] => ret tt
  | id :: ids => do! removed := remove_board id in if (removed : bool) then ret tt else remove_first ids
  end.

Fixpoint remove_all (ids : list string) : M unit :=
  match ids with
  | [] => ret tt
  | id :: ids => remove_board id ;! remove_all ids
  end.

Definition shutdown_all_boards : M unit := do! ids := board_ids in remove_all ids.

(** [(descriptor.create_fn)(..).await]. *)
Definition create (factory : string) : M (option BackplaneConnector) :=
  act (Create factory) ;!
  await (fun o => match o with Created conn => Some (ret (Some conn)) | CreateFailed => Some (ret None) | _ => None end).

Definition handle_event (transport : nat) (event : TransportEvent) : M unit :=
  match event with
  | UsbDeviceConnected device =>
      match find_descriptor device with
      | None => ret tt
      | Some descriptor =>
          do! conn := create (name descriptor) in
          match conn with
          | Some conn => start_board (default "unknown"%string (info_serial (info conn))) conn
          | None => ret tt
          end
      end
  | UsbDeviceDisconnected _ => do! ids := board_ids in remove_first ids
  | CpuDeviceConnected device =>
      match find_virtual "cpu_miner" with
      | None => ret tt
      | Some descriptor =>
          do! conn := create (virtual_name descriptor) in
          match conn with Some conn => start_board (device_id device) conn | None => ret tt end
      end
  | CpuDeviceDisconnected id => remove_board id ;! ret tt
  | InitialEnumerationComplete =>
      do! s := get in
      let s := with_completed s ({[transport]} ∪ completed s) in
      if negb (completion_sent s) && (size (completed s) =? transport_count s)%nat then
        put s ;! send_enumeration_complete ;! do! s := get in put (with_completion_sent s)
      else put s
  end.

(** One turn of the loop. *)
Definition turn : M (option unit) :=
  await (fun o => match o with
    | Event transport event => Some (handle_event transport event ;! ret None)
    | StreamsEnded => Some (ret (Some tt))
    | _ => None
    end).

Definition run : M unit :=
  do! s := get in
  (if (transport_count s =? 0)%nat then
     send_enumeration_complete ;! do! s := get in put (with_completion_sent s)
   else ret tt) ;!
  loop turn.
End Backplane.
