(* ===== verification/BackplaneProps.v ===== *)
(** * What the backplane promises

    The descriptor it picks for a device, and when it tells the scheduler that all
    transports have been looked through. *)
From stdpp Require Import base numbers list strings gmap sets.
From Stdlib Require Import ZArith Lia.
From S2P Require Import Prelude Effects Backplane.
#[local] Open Scope eff_scope.

(** ** Descriptors *)
Lemma max_by_key_spec {A} (key : A -> Z) l : forall best,
  match max_by_key key best l with
  | None => best = None /\ l = []
  | Some m =>
      (exists l1 l2, l = l1 ++ m :: l2 /\ (forall x, x ∈ l1 -> key x <= key m) /\
        (forall x, x ∈ l2 -> key x < key m) /\ (forall b, best = Some b -> key b <= key m)) \/
      (best = Some m /\ forall x, x ∈ l -> key x < key m)
  end.
Proof.
  induction l as [|a l IH]; intros best; simpl.
  - destruct best as [b|]; [right|done]. split; [done|]. intros x Hx. inversion Hx.
  - set (best' := match best with Some b => if key a <? key b then Some b else Some a | None => Some a end).
    specialize (IH best'). destruct (max_by_key key best' l) as [m|].
    2: { destruct IH as [Hb _]. subst best'. by destruct best as [b|]; [destruct (_ <? _)|]. }
    assert (Hcase : best' = Some a /\ (forall b, best = Some b -> key b <= key a) \/
      exists b, best = Some b /\ best' = Some b /\ key a < key b).
    { subst best'. destruct best as [b|]; [|by left].
      destruct (Z.ltb_spec (key a) (key b)); [right; by exists b|left; split; [done|intros b' [= ->]; lia]]. }
    destruct IH as [(l1 & l2 & -> & H1 & H2 & H3)|[H1 H2]].
    + left. exists (a :: l1), l2. split; [done|].
      destruct Hcase as [[Hb Ha]|(b & Hb & Hb' & Hlt)]; split_and!; try done.
      * intros x [->|Hx]%elem_of_cons; [by apply H3|by apply H1].
      * intros b ->. etrans; [by apply Ha|by apply H3].
      * intros x [->|Hx]%elem_of_cons; [|by apply H1]. specialize (H3 _ Hb'). lia.
      * intros b' Heq. apply H3. congruence.
    + destruct Hcase as [[Hb Ha]|(b & Hb & Hb' & Hlt)].
      * left. assert (m = a) as -> by congruence. exists [], l. split_and!; try done. intros x Hx. inversion Hx.
      * right. assert (m = b) as -> by congruence. split; [done|].
        intros x [->|Hx]%elem_of_cons; [done|by apply H2].
Qed.

Lemma filter_split {A} (P : A -> Prop) `{forall x, Decision (P x)} l : forall l1 m l2,
  base.filter P l = l1 ++ m :: l2 ->
  exists b a, l = b ++ m :: a /\ base.filter P b = l1 /\ base.filter P a = l2 /\ P m.
Proof.
  induction l as [|x l IH]; intros l1 m l2 Hl; [by destruct l1|].
  rewrite filter_cons in Hl. case_decide as Hx.
  - destruct l1 as [|y l1]; injection Hl as <- Hl.
    + exists [], l. by split_and!.
    + destruct (IH _ _ _ Hl) as (b & a & -> & <- & <- & Hm). exists (x :: b), a.
      split_and!; try done. rewrite filter_cons. by rewrite decide_True by done.
  - destruct (IH _ _ _ Hl) as (b & a & -> & <- & <- & Hm). exists (x :: b), a.
    split_and!; try done. rewrite filter_cons. by rewrite decide_False by done.
Qed.

(** The board is the best match.  The descriptor found for a device matches it and scores
    at least as high as every other that matches, higher than those collected after it;
    none is found only if none matches. *)
Theorem best_descriptor_found `{TextMatch} descriptors device :
  let score d := BoardPattern.specificity (pattern d) in
  let matching d := BoardPattern.matches (pattern d) device = true in
  match find_descriptor descriptors device with
  | Some d => exists before after, descriptors = before ++ d :: after /\ matching d /\
      (forall d', d' ∈ before -> matching d' -> score d' <= score d) /\
      (forall d', d' ∈ after -> matching d' -> score d' < score d)
  | None => forall d, d ∈ descriptors -> ~ matching d
  end.
Proof.
  intros score matching. unfold find_descriptor.
  pose proof (max_by_key_spec score (base.filter matching descriptors) None) as Hm. fold score matching.
  destruct (max_by_key _ _ _) as [d|].
  - destruct Hm as [(l1 & l2 & Hl & H1 & H2 & _)|[[=] _]].
    destruct (filter_split _ _ _ _ _ Hl) as (b & a & -> & <- & <- & Hd). exists b, a. split_and!; try done.
    + intros d' Hin Hd'. apply H1, list_elem_of_filter. done.
    + intros d' Hin Hd'. apply H2, list_elem_of_filter. done.
  - destruct Hm as [_ Hn]. intros d Hin Hd.
    assert (Hf : d ∈ base.filter matching descriptors) by (by apply list_elem_of_filter). rewrite Hn in Hf. inversion Hf.
Qed.

(** ** Enumeration *)
Section Enumeration.
Context `{TextMatch} {Thread Future : Type}.
Context (descriptors : list BoardDescriptor) (virtual_descriptors : list VirtualBoardDescriptor).
Abbreviation outcome := (@outcome Thread Future).
Abbreviation action := (@action Thread Future).
Abbreviation state := (@Backplane Future).
Abbreviation M := (Effects.M state outcome action Empty_set).

(** The transports whose first enumeration is over. *)
Definition reported (u : list outcome) : gset nat :=
  list_to_set (omap (fun o => match o with Event t InitialEnumerationComplete => Some t | _ => None end) u).
(** The threads given to the scheduler, and the threads of the boards that were made. *)
Definition sent_threads (tr : list action) : list Thread :=
  omap (fun a => match a with RegisterThread t => Some t | _ => None end) tr.
Definition created_threads (u : list outcome) : list Thread :=
  concat (omap (fun o => match o with Created c => Some (threads c) | _ => None end) u).

Lemma reported_app u u' : reported (u ++ u') = reported u ∪ reported u'.
Proof. unfold reported. rewrite omap_app. apply leibniz_equiv, list_to_set_app. Qed.
Lemma sent_app tr tr' : sent_threads (tr ++ tr') = sent_threads tr ++ sent_threads tr'.
Proof. apply omap_app. Qed.
Lemma created_app u u' : created_threads (u ++ u') = created_threads u ++ created_threads u'.
Proof. unfold created_threads. by rewrite omap_app, concat_app. Qed.

(** The scheduler was told once, after what [u1] and [tr1] say, or not yet. *)
Definition told (n : nat) (u : list outcome) (tr : list action) : Prop :=
  (EnumerationComplete ∉ tr /\ size (reported u) <> n) \/
  (exists u1 u2 tr1 tr2, u = u1 ++ u2 /\ tr = tr1 ++ EnumerationComplete :: tr2 /\
    EnumerationComplete ∉ tr1 /\ EnumerationComplete ∉ tr2 /\ size (reported u1) = n /\
    (SendFailed ∉ u1 -> sent_threads tr1 = created_threads u1)).

(** Between awaits, when the threads [p] are still to be sent. *)
Record Inv (n : nat) (p : list Thread) (s : state) (u : list outcome) (tr : list action) : Prop := {
  inv_told : told n u tr;
  inv_completed : completed s = reported u;
  inv_count : transport_count s = n;
  inv_sent : completion_sent s = true <-> EnumerationComplete ∈ tr;
  inv_threads : SendFailed ∉ u -> sent_threads tr ++ p = created_threads u }.

Lemma told_more n u tr o : reported [o] = ∅ -> told n u tr -> told n (u ++ [o]) tr.
Proof.
  intros Ho [[H1 H2]|(u1 & u2 & tr1 & tr2 & -> & H2)].
  - left. split; [done|]. by rewrite reported_app, Ho, (right_id_L ∅ (∪)).
  - right. exists u1, (u2 ++ [o]), tr1, tr2. by rewrite app_assoc.
Qed.

Lemma told_act n u tr a : a <> EnumerationComplete -> told n u tr -> told n u (tr ++ [a]).
Proof.
  intros Ha [[H1 H2]|(u1 & u2 & tr1 & tr2 & -> & -> & H1 & H2 & H3)].
  - left. split; [|done]. rewrite elem_of_app, list_elem_of_singleton. naive_solver.
  - right. exists u1, u2, tr1, (tr2 ++ [a]). rewrite <- app_assoc. split_and!; try done; [|by apply H3..].
    rewrite elem_of_app, list_elem_of_singleton. naive_solver.
Qed.

Lemma inv_more n p p' s u tr o :
  reported [o] = ∅ -> (o <> SendFailed -> sent_threads tr ++ p = created_threads u -> sent_threads tr ++ p' = created_threads (u ++ [o])) ->
  Inv n p s u tr -> Inv n p' s (u ++ [o]) tr.
Proof.
  intros Ho Hp [H1 H2 H3 H4 H5]. split; try done; [by apply told_more|by rewrite reported_app, Ho, (right_id_L ∅ (∪))|].
  rewrite not_elem_of_app, list_elem_of_singleton. intros [Hu Hne]. apply Hp; [congruence|by apply H5].
Qed.

(** An outcome that is neither a board nor a report. *)
Lemma inv_plain n p s u tr o :
  match o with Event _ InitialEnumerationComplete | Created _ => False | _ => True end ->
  Inv n p s u tr -> Inv n p s (u ++ [o]) tr.
Proof.
  intros Ho. apply inv_more; [by destruct o as [? []| | | | | | |]|]. intros _ Hu. rewrite created_app, <- Hu.
  destruct o as [? []| | | | | | |]; try done; by rewrite app_nil_r.
Qed.

Lemma inv_failed n p p' s u tr : Inv n p s u tr -> Inv n p' s (u ++ [SendFailed]) tr.
Proof. by apply inv_more. Qed.

Lemma inv_created n s u tr c : Inv n [] s u tr -> Inv n (threads c) s (u ++ [Created c]) tr.
Proof.
  apply inv_more; [done|]. intros _. rewrite app_nil_r, created_app. intros ->.
  unfold created_threads at 3. simpl. by rewrite app_nil_r.
Qed.

Lemma inv_act n p s u tr a :
  match a with EnumerationComplete | RegisterThread _ => False | _ => True end ->
  Inv n p s u tr -> Inv n p s u (tr ++ [a]).
Proof.
  intros Ha [H1 H2 H3 H4 H5]. assert (a <> EnumerationComplete) by (by intros ->). split; try done; [by apply told_act| |].
  - rewrite H4, elem_of_app, list_elem_of_singleton. naive_solver.
  - intros Hu%H5. rewrite sent_app, <- Hu. destruct a; try done; by rewrite app_nil_r.
Qed.

Lemma inv_thread n t p s u tr : Inv n (t :: p) s u tr -> Inv n p s u (tr ++ [RegisterThread t]).
Proof.
  intros [H1 H2 H3 H4 H5]. split; try done; [by apply told_act| |].
  - rewrite H4, elem_of_app, list_elem_of_singleton. naive_solver.
  - intros Hu%H5. by rewrite sent_app, <- app_assoc.
Qed.

Lemma inv_boards n p s u tr b : Inv n p s u tr -> Inv n p (with_boards s b) u tr.
Proof. by intros []. Qed.

(** ** The handlers *)

(** What every stretch of the loop leaves: the scheduler was told as it should be, and if
    it returns, nothing is left to be sent. *)
Definition after (n : nat) {A} : post state outcome action Empty_set A := fun r s u tr =>
  told n u tr /\ (forall a, r = Ret a -> Inv n [] s u tr).
Definition keeps (n : nat) (p : list Thread) {A} (m : M A) : Prop :=
  forall s u tr, Inv n p s u tr -> wp m s u tr (after n).

Lemma after_wait {A} n p s u tr : Inv n p s u tr -> after (A := A) n Wait s u tr.
Proof. intros Hi. split; [apply Hi|done]. Qed.
Lemma after_ret {A} n s u tr (a : A) : Inv n [] s u tr -> after n (Ret a) s u tr.
Proof. intros Hi. split; [apply Hi|done]. Qed.

Lemma keeps_ret {A} n (a : A) : keeps n [] (ret a).
Proof. intros s u tr Hi. by apply wp_ret, after_ret. Qed.

Lemma keeps_bind {A B} n p (m : M A) (k : A -> M B) :
  keeps n p m -> (forall a, keeps n [] (k a)) -> keeps n p (bind m k).
Proof.
  intros Hm Hk s u tr Hi. apply wp_bind. eapply wp_mono; [by apply Hm|].
  intros [a|e| |] s' u' tr' [Ht Hr]; simpl; [apply Hk; by eapply Hr|by split..].
Qed.

Ltac outcome_cases :=
  apply wp_await; [|let o := fresh "o" in let m := fresh "m" in let H := fresh "H" in
    intros o m H; cbv beta in H; destruct o; try discriminate H; try (injection H as <-)].

Lemma keeps_get_put n (f : state -> state) :
  (forall s u tr, Inv n [] s u tr -> Inv n [] (f s) u tr) -> keeps n [] (do! s := get in put (f s)).
Proof. intros Hf s u tr Hi. repeat wp_step. by apply after_ret, Hf. Qed.

Lemma keeps_send_board n p i : forall s u tr, Inv n p s u tr ->
  wp (send (RegisterBoard i)) s u tr (fun r s u tr => told n u tr /\ (forall a, r = Ret a -> Inv n p s u tr)).
Proof.
  intros s u tr Hi. unfold send. repeat wp_step. simpl.
  apply (inv_act n p s u tr (RegisterBoard i) I) in Hi.
  outcome_cases; [by split; [apply Hi|]| |]; apply wp_ret.
  - pose proof (inv_plain n p s u _ Sent I Hi) as Hp. split; [apply Hp|done].
  - pose proof (inv_plain n p s u _ SendFailed I Hi) as Hp. split; [apply Hp|done].
Qed.

Lemma keeps_send_threads n l : keeps n l (send_threads l).
Proof.
  induction l as [|t l IH]; [apply keeps_ret|]. intros s u tr Hi. simpl. apply wp_bind. unfold send.
  repeat wp_step. simpl. apply inv_thread in Hi. outcome_cases; [by eapply after_wait|..]; apply wp_ret; simpl.
  - by apply IH, inv_plain.
  - apply wp_ret, after_ret. by eapply inv_failed.
Qed.

Lemma keeps_start_board n id conn : keeps n (threads conn) (start_board id conn).
Proof.
  intros s u tr Hi. unfold start_board. apply wp_bind. eapply wp_mono; [by apply keeps_send_board|].
  intros [ok|e| |] s' u' tr' [Ht Hr]; simpl; [|by split..]. specialize (Hr ok eq_refl).
  apply (keeps_bind n (threads conn)); [apply keeps_send_threads| |done].
  intros []. apply keeps_get_put. intros. by apply inv_boards.
Qed.

Lemma keeps_create_start n factory (id : BackplaneConnector -> string) :
  keeps n [] (do! conn := create factory in
    match conn with Some conn => start_board (id conn) conn | None => ret tt end).
Proof.
  intros s u tr Hi. apply wp_bind. unfold create. repeat wp_step. simpl.
  apply (inv_act n [] s u tr (Create factory) I) in Hi.
  outcome_cases; [by eapply after_wait|..]; apply wp_ret; simpl.
  - apply keeps_start_board. by apply inv_created.
  - apply wp_ret, after_ret. by apply inv_plain.
Qed.

Lemma keeps_remove_board n id : keeps n [] (remove_board id).
Proof.
  intros s u tr Hi. unfold remove_board. repeat wp_step; simpl; [|by apply after_ret].
  apply (inv_boards n [] s u tr (delete id (boards s))) in Hi.
  unfold shutdown_board. destruct (board_shutdown _) as [fut|]; repeat wp_step; simpl; [|by repeat wp_step; apply after_ret].
  apply (inv_act n [] _ u tr (Shutdown fut) I) in Hi.
  outcome_cases; [by eapply after_wait|]. apply wp_ret. simpl. apply wp_ret, after_ret. by apply inv_plain.
Qed.

Lemma keeps_remove_first n ids : keeps n [] (remove_first ids).
Proof.
  induction ids as [|id ids IH]; [apply keeps_ret|]. apply keeps_bind; [apply keeps_remove_board|].
  intros []; [apply keeps_ret|apply IH].
Qed.

Lemma keeps_board_ids n : keeps n [] board_ids.
Proof.
  intros s u tr Hi. unfold board_ids. repeat wp_step. simpl.
  outcome_cases; [by eapply after_wait|]. case_match; [|discriminate]. injection H0 as <-.
  apply wp_ret, after_ret. by apply inv_plain.
Qed.

(** The report that completes the enumeration tells the scheduler, no other does. *)
Lemma wp_complete n s u tr :
  transport_count s = n -> completed s = reported u -> EnumerationComplete ∉ tr -> size (reported u) = n ->
  (SendFailed ∉ u -> sent_threads tr = created_threads u) ->
  wp (send_enumeration_complete ;! do! s := get in put (with_completion_sent s)) s u tr (after n).
Proof.
  intros Hn Hc Hno Hsize Hth.
  assert (Ht : forall u', told n (u ++ u') (tr ++ [EnumerationComplete])).
  { intros u'. right. exists u, u', tr, []. split_and!; try done. inversion 1. }
  assert (Hend : forall o, reported [o] = ∅ -> created_threads [o] = [] ->
    wp (do! s := get in put (with_completion_sent s)) s (u ++ [o]) (tr ++ [EnumerationComplete]) (after n)).
  { intros o Ho Hco. apply wp_bind, wp_get. simpl. apply wp_put, after_ret. split; simpl; try done.
    - by rewrite reported_app, Ho, (right_id_L ∅ (∪)).
    - split; [|done]. intros _. by apply elem_of_app; right; apply list_elem_of_singleton.
    - intros Hu. rewrite sent_app, created_app, Hco, !app_nil_r. apply Hth.
      intros Hin. apply Hu, elem_of_app. by left. }
  unfold send_enumeration_complete, send. repeat wp_step. simpl.
  outcome_cases; [split; [specialize (Ht []); by rewrite app_nil_r in Ht|done]|..];
    apply wp_ret; simpl; apply wp_ret; simpl; by apply Hend.
Qed.

Lemma wp_handle_event n t e s u tr :
  Inv n [] s u tr -> wp (handle_event descriptors virtual_descriptors t e) s (u ++ [Event t e]) tr (after n).
Proof.
  intros Hi. destruct e as [device|path|device|id|]; simpl.
  - apply (inv_plain n [] s u tr (Event t (UsbDeviceConnected device)) I) in Hi.
    destruct (find_descriptor _ _); [by apply keeps_create_start|by apply keeps_ret].
  - apply (inv_plain n [] s u tr (Event t (UsbDeviceDisconnected path)) I) in Hi.
    revert Hi. apply keeps_bind; [apply keeps_board_ids|apply keeps_remove_first].
  - apply (inv_plain n [] s u tr (Event t (CpuDeviceConnected device)) I) in Hi.
    destruct (find_virtual _ _); [|by apply keeps_ret].
    by apply (keeps_create_start n _ (fun _ => device_id device)).
  - apply (inv_plain n [] s u tr (Event t (CpuDeviceDisconnected id)) I) in Hi.
    revert Hi. apply keeps_bind; [apply keeps_remove_board|intros; apply keeps_ret].
  - set (o := Event t InitialEnumerationComplete). destruct Hi as [H1 H2 H3 H4 H5].
    assert (Hrep : {[t]} ∪ completed s = reported (u ++ [o])).
    { rewrite H2, reported_app. unfold reported at 3. simpl. set_solver. }
    assert (Hth : SendFailed ∉ u ++ [o] -> sent_threads tr = created_threads (u ++ [o])).
    { intros Hu. rewrite created_app, <- H5, !app_nil_r; [done|]. intros Hin. apply Hu, elem_of_app. by left. }
    apply wp_bind, wp_get. simpl. rewrite Hrep, H3.
    destruct (completion_sent s) eqn:Hsent; simpl.
    + apply wp_put, after_ret. split; simpl; [|done|done|by rewrite Hsent|by rewrite app_nil_r].
      destruct H1 as [[Hno _]|(u1 & u2 & tr1 & tr2 & -> & H1)]; [by destruct (Hno (proj1 H4 eq_refl))|].
      right. exists u1, (u2 ++ [o]), tr1, tr2. by rewrite app_assoc.
    + assert (Hno : EnumerationComplete ∉ tr) by (intros Hin%H4; done).
      destruct (Nat.eqb_spec (size (reported (u ++ [o]))) n) as [Hs|Hs].
      * apply wp_bind, wp_put. simpl. by apply wp_complete.
      * apply wp_put, after_ret. split; simpl; [by left|done|done|by rewrite Hsent|by rewrite app_nil_r].
Qed.

Lemma wp_turns n s u tr : Inv n [] s u tr -> wp (loop (turn descriptors virtual_descriptors)) s u tr (after n).
Proof.
  intros Hi. apply (wp_loop (fun s u tr => Inv n [] s u tr)); [done|intros; by eapply after_wait|].
  clear. intros s u tr Hi. unfold turn. outcome_cases; [by eapply after_wait| |].
  - apply wp_bind. eapply wp_mono; [by apply wp_handle_event|].
    intros [[]|e| |] s' u' tr' [Ht Hr]; simpl; [apply wp_ret; by eapply Hr|by split..].
  - apply wp_ret. simpl. apply after_ret. by apply inv_plain.
Qed.

Lemma reported_below n (u : list outcome) :
  Forall (fun o => match o with Event t _ => (t < n)%nat | _ => True end) u -> reported u ⊆ set_seq 0 n.
Proof.
  intros Hu t. unfold reported. rewrite elem_of_list_to_set, list_elem_of_omap, elem_of_set_seq.
  intros (o & Ho & Heq). rewrite Forall_forall in Hu. specialize (Hu o Ho).
  destruct o as [t' []| | | | | | |]; try done. simplify_eq. lia.
Qed.

Lemma reported_all n u :
  Forall (fun o => match o with Event t _ => (t < n)%nat | _ => True end) u ->
  size (reported u) = n <-> forall i, (i < n)%nat -> i ∈ reported u.
Proof.
  intros Hu%reported_below. split.
  - intros Hs i Hi. assert (Heq : reported u ≡ set_seq 0 n).
    { apply set_subseteq_size_equiv; [done|]. rewrite Hs, size_set_seq. lia. }
    rewrite Heq. apply elem_of_set_seq. lia.
  - intros Hall. assert (Heq : reported u ≡ set_seq 0 n).
    { apply (anti_symm (⊆)); [done|]. intros i Hi%elem_of_set_seq. apply Hall. lia. }
    by rewrite Heq, size_set_seq.
Qed.

Lemma backplane_enumerates n outcomes :
  Forall (fun o => match o with Event t _ => (t < n)%nat | _ => True end) outcomes ->
  let '(r, s, rest, tr) := run descriptors virtual_descriptors (new n) outcomes in
  exists u, outcomes = u ++ rest /\
    ((EnumerationComplete ∉ tr /\ ~ forall i, (i < n)%nat -> i ∈ reported u) \/
     (exists u1 u2 tr1 tr2, u = u1 ++ u2 /\ tr = tr1 ++ EnumerationComplete :: tr2 /\
        EnumerationComplete ∉ tr1 /\ EnumerationComplete ∉ tr2 /\
        (forall i, (i < n)%nat -> i ∈ reported u1) /\
        (SendFailed ∉ u1 -> sent_threads tr1 = created_threads u1))).
Proof.
  intros Hrange.
  assert (Hwp : wp (run descriptors virtual_descriptors) (new n) [] [] (after n)).
  { unfold run. apply wp_bind, wp_get. simpl. apply wp_bind.
    assert (Hstart : wp (if (n =? 0)%nat then send_enumeration_complete ;! do! s := get in put (with_completion_sent s)
      else ret tt) (new n) [] [] (after n)).
    { destruct (Nat.eqb_spec n 0) as [->|Hn]; [apply wp_complete; try done; inversion 1|].
      apply wp_ret, after_ret. split; simpl; try done; [left; split; [inversion 1|]|split; [done|inversion 1]].
      change (reported []) with (∅ : gset nat). rewrite size_empty. lia. }
    eapply wp_mono; [apply Hstart|]. intros [[]|e| |] s u tr [Ht Hr]; simpl; [by eapply wp_turns, Hr|by split..]. }
  destruct (run _ _ _ _) as [[[r s] rest] tr] eqn:Hrun.
  destruct (Hwp _ _ _ _ _ Hrun) as (u & -> & [Ht _]). exists u. split; [done|].
  apply Forall_app in Hrange as [Hu _]. simpl in Ht. destruct Ht as [[Hno Hs]|(u1 & u2 & tr1 & tr2 & -> & -> & H1 & H2 & H3 & H4)].
  - left. split; [done|]. by rewrite <- reported_all.
  - right. exists u1, u2, tr1, tr2. apply Forall_app in Hu as [Hu1 _]. by rewrite reported_all in H3.
Qed.

(** C31 The scheduler is told once that all is enumerated, and not before.  In any run of the
    backplane the completion is sent when the last transport has reported the end of its
    first scan, once, and after every thread of every board that was started by then (if
    the scheduler still listens); while a transport has not reported, it is not sent. *)
Theorem enumeration_completes_once n outcomes :
  Forall (fun o => match o with Event t _ => (t < n)%nat | _ => True end) outcomes ->
  let '(r, s, rest, tr) := run descriptors virtual_descriptors (new n) outcomes in
  exists u, outcomes = u ++ rest /\
    ((EnumerationComplete ∉ tr /\ ~ forall i, (i < n)%nat -> i ∈ reported u) \/
     (exists u1 u2 tr1 tr2, u = u1 ++ u2 /\ tr = tr1 ++ EnumerationComplete :: tr2 /\
        EnumerationComplete ∉ tr1 /\ EnumerationComplete ∉ tr2 /\
        (forall i, (i < n)%nat -> i ∈ reported u1) /\
        (SendFailed ∉ u1 -> sent_threads tr1 = created_threads u1))).
Proof. apply backplane_enumerates. Qed.
(** ** Which board is stopped *)

(** The boards that were stopped. *)
Definition stopped (tr : list action) : list Future :=
  omap (fun a => match a with Shutdown f => Some f | _ => None end) tr.

(** Starting a board adds it and stops none. *)
Lemma wp_start_board id conn s u tr :
  wp (start_board id conn) s u tr (fun r s' u' tr' => stopped tr' = stopped tr /\
    (r = Ret tt -> boards s' = <[id := MkActive (info conn) (conn_shutdown conn)]> (boards s))).
Proof.
  assert (Hsend : forall a s u tr (Q : post state outcome action Empty_set bool),
    match a with RegisterBoard _ | RegisterThread _ => True | _ => False end ->
    (forall r u' tr', stopped tr' = stopped tr -> Q r s u' tr') -> wp (send a) s u tr Q).
  { intros a s1 u1 tr1 Q Ha HQ. unfold send. repeat wp_step. simpl.
    assert (stopped (tr1 ++ [a]) = stopped tr1).
    { unfold stopped. rewrite omap_app. destruct a; try done; simpl; by rewrite app_nil_r. }
    outcome_cases; try apply wp_ret; by apply HQ. }
  assert (Hthreads : forall l s u tr, wp (send_threads l) s u tr (fun r s' u' tr' =>
    stopped tr' = stopped tr /\ s' = s)).
  { induction l as [|t l IH]; intros s1 u1 tr1; simpl; [by apply wp_ret|].
    apply wp_bind, Hsend; [done|]. intros [[]|e| |] u2 tr2 Ht; simpl; try done.
    - eapply wp_mono; [apply IH|]. simpl. intros r s3 u3 tr3 [-> ->]. by rewrite Ht.
    - by apply wp_ret. }
  unfold start_board. apply wp_bind, Hsend; [done|]. intros [ok|e| |] u1 tr1 Ht; simpl; try (by split; [|intros [=]]).
  apply wp_bind. eapply wp_mono; [apply Hthreads|].
  intros [[]|e| |] s2 u2 tr2 [Ht2 ->]; simpl; rewrite Ht in Ht2; try (by split; [|intros [=]]).
  apply wp_bind, wp_get. simpl. by apply wp_put.
Qed.

Lemma remove_all_one id board (s : state) u tr :
  boards s = {[id := board]} ->
  wp (remove_all [id]) s u tr (fun r s' u' tr' =>
    stopped tr' = stopped tr ++ match board_shutdown board with Some f => [f] | None => [] end).
Proof.
  intros Hb. simpl. unfold remove_board. apply wp_bind, wp_bind, wp_get. simpl. rewrite Hb, lookup_singleton_eq.
  apply wp_bind, wp_put. simpl. apply wp_bind. unfold shutdown_board. destruct (board_shutdown board) as [f|].
  - apply wp_bind, wp_act. simpl.
    assert (Ht : stopped (tr ++ [Shutdown f]) = stopped tr ++ [f]) by (unfold stopped; by rewrite omap_app).
    outcome_cases; [done|]. apply wp_ret. simpl. apply wp_ret. simpl. by apply wp_ret.
  - apply wp_ret. simpl. apply wp_ret. simpl. apply wp_ret. by rewrite app_nil_r.
Qed.

(** Boards are told apart by their serial number alone, and USB devices not at all.  Of two
    boards that come up under one id, as two without a serial number do, the first is
    forgotten: stopping all boards stops the second only.  And when a USB device
    disconnects, the board that is stopped is any that the backplane has, whatever the
    device was: the first in the order of the map, be it the CPU miner. *)
Theorem boards_confused id c1 c2 (outcomes : list outcome) path board rest (s : state) t f :
  (let '(r, s, es, tr) := (start_board id c1 ;! start_board id c2 ;! shutdown_all_boards) (new 1) outcomes in
   r = Ret tt -> stopped tr = match conn_shutdown c2 with Some f => [f] | None => [] end) /\
  (NoDup (board :: rest) -> list_to_set (board :: rest) = dom (boards s) ->
   option_map board_shutdown (boards s !! board) = Some (Some f) ->
   handle_event (Thread := Thread) descriptors virtual_descriptors t (UsbDeviceDisconnected path) s [Keys (board :: rest); Over] =
     (Ret tt, with_boards s (delete board (boards s)), [], [Shutdown f])).
Proof.
  split.
  - assert (Hwp : wp (start_board id c1 ;! start_board id c2 ;! shutdown_all_boards) (new 1) [] [] (fun r s u tr =>
      r = Ret tt -> stopped tr = match conn_shutdown c2 with Some f => [f] | None => [] end)).
    { apply wp_bind. eapply wp_mono; [apply wp_start_board|]. intros [[]|e| |] s1 u1 tr1 [Ht1 H1]; simpl; try done.
      specialize (H1 eq_refl). apply wp_bind. eapply wp_mono; [apply wp_start_board|].
      intros [[]|e| |] s2 u2 tr2 [Ht2 H2]; simpl; try done. specialize (H2 eq_refl).
      rewrite H1 in H2. simpl in H2. rewrite insert_insert_eq in H2.
      unfold shutdown_all_boards, board_ids. apply wp_bind, wp_bind, wp_get. simpl. outcome_cases; [done|].
      case_bool_decide as Hk; [|discriminate]. injection H0 as <-. apply wp_ret. simpl.
      rewrite H2 in Hk. destruct Hk as [Hnd Hk]. rewrite dom_insert_L, dom_empty_L, (right_id_L ∅ (∪)) in Hk.
      assert (ids = [id]) as ->.
      { destruct ids as [|x [|y ids]]; simpl in Hk; [set_solver| |].
        - f_equal. set_solver.
        - exfalso. apply NoDup_cons in Hnd as [Hnot _]. apply Hnot.
          assert (x = id) as -> by set_solver. assert (y = id) as -> by set_solver. by left. }
      eapply wp_mono; [by apply remove_all_one|]. simpl. intros r s3 u3 tr3 -> _. by rewrite Ht2, Ht1. }
    
    destruct ((start_board id c1 ;! start_board id c2 ;! shutdown_all_boards) (new 1) outcomes) as [[[r s1] es] tr] eqn:Hrun.
    destruct (Hwp _ _ _ _ _ Hrun) as (u & _ & Hr). exact Hr.
  - intros Hnd Hdom Hf. destruct (boards s !! board) as [b|] eqn:Hb; [|done]. injection Hf as Hf.
    unfold handle_event, board_ids, bind, get, await. rewrite bool_decide_eq_true_2 by done.
    unfold ret at 1. cbn [remove_first]. unfold bind, remove_board, bind, get. rewrite Hb. unfold put, shutdown_board.
    by rewrite Hf.
Qed.
End Enumeration.

(** ** Examples *)
#[local] Instance text_ref : TextMatch := {| regex := fun _ => None; to_lowercase := fun s => s |}.
Definition bitaxe_ref : BoardDescriptor :=
  MkDescriptor (BoardPattern.Mk (Specific 0xc0de) (Specific 0xcafe) Any (Specific (StringMatch.Exact "OSMU"%string)) Any Any)
    "Bitaxe"%string.
Definition catch_all : BoardDescriptor := MkDescriptor BoardPattern.wildcard "any"%string.
Definition device_ref : UsbDeviceInfo := MkUsb 0xc0de 0xcafe 0x0500 None (Some "OSMU"%string) None "/sys"%string.

Example finds_bitaxe : find_descriptor [catch_all; bitaxe_ref; catch_all] device_ref = Some bitaxe_ref.
Proof. reflexivity. Qed.

Definition conn_ref (f : nat) : @BackplaneConnector nat nat :=
  MkConnector (MkInfo "Bitaxe"%string None None) [f] (Some f).

Lemma enumeration_completes_once_witness :
  let outcomes := [Event 0 (UsbDeviceConnected device_ref); Created (conn_ref 1); Sent; Sent;
                   Event 1 InitialEnumerationComplete; Event 0 InitialEnumerationComplete; Sent; StreamsEnded] in
  let '(r, s, rest, tr) := run [bitaxe_ref] [] (new 2) outcomes in
  exists u, outcomes = u ++ rest /\
    ((EnumerationComplete ∉ tr /\ ~ forall i, (i < 2)%nat -> i ∈ reported u) \/
     (exists u1 u2 tr1 tr2, u = u1 ++ u2 /\ tr = tr1 ++ EnumerationComplete :: tr2 /\
        EnumerationComplete ∉ tr1 /\ EnumerationComplete ∉ tr2 /\
        (forall i, (i < 2)%nat -> i ∈ reported u1) /\
        (SendFailed ∉ u1 -> sent_threads tr1 = created_threads u1))).
Proof.
  intros outcomes. apply (enumeration_completes_once [bitaxe_ref] [] 2 outcomes).
  repeat constructor; lia.
Defined.

Lemma boards_confused_witness :
  let boards := {["cpu"%string := MkActive (MkInfo "CPU Miner"%string None None) (Some 7%nat)]} in
  let s : @Backplane nat := MkBackplane boards 1 ∅ false in
  handle_event (Thread := nat) [] [] 0 (UsbDeviceDisconnected "/sys") s [Keys ["cpu"%string]; Over] =
    (Ret tt, with_boards s (delete "cpu"%string boards), [], [Shutdown 7%nat]).
Proof.
  intros boards s.
  apply (proj2 (boards_confused [] [] "unknown" (conn_ref 1) (conn_ref 2) [] "/sys" "cpu" [] s 0 7%nat));
    [by apply NoDup_singleton|by vm_compute|done].
Defined.
