(* ===== verification/Board.v ===== *)
(** * Boards (board/bitaxe.rs, board/emberone00.rs)

    How a board is attached, monitored and shut down, at the level of the calls to its
    drivers: a call is an action, its result the outcome of an await.  The drivers are
    in [Sensors], [Tps546] and [Control]. *)
From stdpp Require Import base numbers list strings.
From Stdlib Require Import ZArith Lia SpecFloat.
From S2P Require Import Prelude Float FloatExact Effects I2c Tps546 Control Backplane.
#[local] Open Scope eff_scope.

(** The calls to the drivers. *)
Inductive call :=
| GetSerialPorts (expected : nat) | OpenControlPort (format : ResponseFormat) | OpenDataPort
| SetPin (pin : Z) (high : bool) | SetFrequency (hz : Z)
| FanInit | SetFanSpeed (percent : Z) | GetExternalTemperature | GetFanSpeed | GetRpm
| PowerInit (config : Tps546Config) | SetVoutTarget (voltage : Z) | CheckStatus | ClearFaults | DumpConfiguration
| GetVin | GetVout | GetIout | GetPower | GetTemperature | DisableOutput
| InitTmp1075 (address : Z) | InitTmp451 (address : Z) | SetRemoteOffset (degrees : Z)
| ReadTmp1075 | ReadTmp451Local | ReadTmp451Remote | LedOff | Reboot.

(** What a monitor publishes; units as in the code. *)
Record Telemetry := MkTelemetry {
  asic_temp : option float; vr_temp : option float; fan_rpm : option Z; fan_percent : option Z;
  vin_v : option float; vout_v : option float; current_a : option float; power_w : option float }.

Inductive action :=
| Call (c : call)
| SignalThreads
| Publish (t : Telemetry)
| PublishTemperatures (left right chip : option Z).

(** A call succeeds or fails, gives a float or an integer or fails; a timer ticks, the
    monitor is cancelled; the hash threads have gone or the time for that is over; the
    reset line tells when it was released, at a time [now], or its lock is poisoned;
    the monitor task is over. *)
Inductive outcome :=
| Succeeded | Failed
| GaveFloat (x : option float)
| GaveInt (x : option Z)
| Ticked | Cancelled
| ThreadsGone | Elapsed
| ReleasedSince (since : option Z) (now : Z) | Poisoned
| MonitorOver.

(** Why a function of the board fails. *)
Inductive error := CallFailed (c : call) | ThermalEmergency | LockPoisoned.

Section Calls.
Context {St : Type}.
Abbreviation M := (Effects.M St outcome action error).

Definition call_unit (c : call) : M bool :=
  act (Call c) ;!
  await (fun o => match o with Succeeded => Some (ret true) | Failed => Some (ret false) | _ => None end).
Definition call_float (c : call) : M (option float) :=
  act (Call c) ;! await (fun o => match o with GaveFloat x => Some (ret x) | _ => None end).
Definition call_int (c : call) : M (option Z) :=
  act (Call c) ;! await (fun o => match o with GaveInt x => Some (ret x) | _ => None end).
(** [c.await?]. *)
Definition must (c : call) : M unit :=
  do! ok := call_unit c in if (ok : bool) then ret tt else raise (CallFailed c).
End Calls.

(** ** Bitaxe Gamma *)
Inductive Firmware := BitaxeRaw | RhapD.
Definition firmware_response_format (f : Firmware) : ResponseFormat :=
  match f with BitaxeRaw => V0 | RhapD => V1 end.

(** The two patterns the board registers. *)
Definition bitaxe_raw_pattern : BoardPattern.t :=
  BoardPattern.Mk Any Any Any (Specific (StringMatch.Exact "OSMU")) (Specific (StringMatch.Exact "Bitaxe")) Any.
Definition rhapd_pattern : BoardPattern.t :=
  BoardPattern.Mk (Specific 0x1209) (Specific 0x6102) Any (Specific (StringMatch.Exact "OSMU"))
    (Specific (StringMatch.Exact "Bitaxe Gamma RHAP-D")) Any.

Definition bitaxe_power_config : Tps546Config :=
  let volts n d := Voltage.from_volts (f_lit f32 n d) in
  let factor n d := Ratio.from_factor (f_lit f32 n d) in
  MkTpsConfig 0x00 650
    (volts 48 10) (volts 45 10) (volts 0 1) (volts 65 10) 0xB7
    (f_lit f32 25 100) (volts 1 1) (volts 2 1) (volts 115 100)
    (factor 125 100) (factor 116 100) (factor 110 100) (factor 90 100) (factor 90 100) (factor 75 100)
    (f_lit f32 25 1) (f_lit f32 30 1) 0xC0
    105 145 0xFF
    0 3 0 0x3B 0 0
    0xFFFF.
Definition DEFAULT_VOUT : Z := Voltage.from_volts (f_lit f32 115 100).
Definition ASIC_RESET_PIN : Z := 0.

Module Bitaxe.
(** The consecutive bad thermal readings; the reset line is shared with the hash thread
    and read through an await. *)
Record monitor := Mk { bad_thermal_count : Z }.
Abbreviation M := (Effects.M monitor outcome action error).

Definition init_fan_controller : M unit := must FanInit ;! must (SetFanSpeed 100).

Definition init_power_controller : M unit :=
  must (PowerInit bitaxe_power_config) ;!
  must (SetVoutTarget DEFAULT_VOUT) ;!
  must ClearFaults ;!
  call_unit DumpConfiguration ;! ret tt.

(** The pin of the controller is a handle; making it cannot fail. *)
Definition attach (firmware : Firmware) : M unit :=
  must (GetSerialPorts 2) ;!
  must (OpenControlPort (firmware_response_format firmware)) ;!
  must OpenDataPort ;!
  must (SetPin ASIC_RESET_PIN false) ;!
  must (SetFrequency 100000) ;!
  init_fan_controller ;!
  init_power_controller.

(** ** The monitor *)
Definition EXPECTED_MIN_C : float := f_of_Z f32 0.
Definition EXPECTED_MAX_C : float := f_of_Z f32 120.
Definition EMERGENCY_TEMP_C : float := f_of_Z f32 80.
Definition BAD_READING_LIMIT : Z := 3.
(** In milliseconds, the unit of all instants. *)
Definition DIODE_SETTLE : Z := 500.

Inductive class := Unavailable | Implausible | Emergency | Normal.
Definition classify (raw_temp : option float) : class :=
  match raw_temp with
  | None => Unavailable
  | Some t =>
      if negb (f_le EXPECTED_MIN_C t && f_le t EXPECTED_MAX_C) then Implausible
      else if f_le EMERGENCY_TEMP_C t then Emergency
      else Normal
  end.

(** The count after a reading, and the temperature that is published. *)
Definition judge (diode_ready : bool) (count : Z) (raw_temp : option float) : Z * option float :=
  if diode_ready then
    match classify raw_temp with
    | Unavailable | Implausible => (wrap 32 (count + 1), None)
    | Emergency => (wrap 32 (count + 1), raw_temp)
    | Normal => (0, raw_temp)
    end
  else (0, None).

Definition diode_ready (since : option Z) (now : Z) : bool :=
  match since with Some t => DIODE_SETTLE <=? now - t | None => false end.

(** [reset_line.released_since()?], with the clock read after it. *)
Definition read_diode_ready : M bool :=
  await (fun o => match o with
    | ReleasedSince since now => Some (ret (diode_ready since now))
    | Poisoned => Some (raise LockPoisoned)
    | _ => None
    end).

Definition milli (x : Z) : float := f_div f32 (f_of_Z f32 x) (f_of_Z f32 1000).

Definition monitor_tick : M unit :=
  do! raw_temp := call_float GetExternalTemperature in
  do! percent := call_int GetFanSpeed in
  do! rpm := call_int GetRpm in
  (do! status := call_unit CheckStatus in
   if (status : bool) then ret tt else call_unit ClearFaults ;! ret tt) ;!
  do! vin := call_int GetVin in
  do! vout := call_int GetVout in
  do! iout_ma := call_int GetIout in
  do! power_mw := call_int GetPower in
  do! vr := call_int GetTemperature in
  do! ready := read_diode_ready in
  do! m := get in
  let '(count, temp) := judge ready (bad_thermal_count m) raw_temp in
  put (Mk count) ;!
  if BAD_READING_LIMIT <=? count then
    call_unit (SetFanSpeed 100) ;! raise ThermalEmergency
  else
    act (Publish (MkTelemetry temp (option_map (f_of_Z f32) vr) rpm percent
      (option_map Voltage.volts vin) (option_map Voltage.volts vout)
      (option_map milli iout_ma) (option_map milli power_mw))).

(** The threads have two seconds to exit. *)
Definition shutdown : M unit :=
  act SignalThreads ;!
  await (fun o => match o with ThreadsGone | Elapsed => Some (ret tt) | _ => None end) ;!
  call_unit (SetPin ASIC_RESET_PIN false) ;!
  call_unit DisableOutput ;!
  ret tt.

(** One turn of the loop; [Some] ends it. *)
Definition turn : M (option unit) :=
  await (fun o => match o with
    | Ticked =>
        Some (do! r := attempt monitor_tick in
              match r with Ok _ => ret None | Err _ => shutdown ;! ret (Some tt) end)
    | Cancelled => Some (shutdown ;! call_unit (SetFanSpeed 25) ;! ret (Some tt))
    | _ => None
    end).
Definition run : M unit := loop turn.
Definition start : monitor := Mk 0.
End Bitaxe.

(** ** EmberOne/00 *)
Module EmberOne.
Definition TMP1075_LEFT : Z := 0x4A.
Definition TMP451_RIGHT : Z := 0x49.
Definition VDDIO_EN : Z := 0x02.
Definition REMOTE_OFFSET_C : Z := -7.

Definition pattern : BoardPattern.t :=
  BoardPattern.Mk Any Any Any (Specific (StringMatch.Exact "256F")) (Specific (StringMatch.Exact "EmberOne00")) Any.

Definition response_format (version : DeviceVersion.t) : ResponseFormat :=
  if 1 <=? DeviceVersion.firmware_minor version then V1 else V0.

Abbreviation M := (Effects.M unit outcome action error).

(** Up to the start of the monitor. *)
Definition attach (bcd_device : Z) : M unit :=
  must (GetSerialPorts 2) ;!
  must (OpenControlPort (response_format (DeviceVersion.from_bcd bcd_device))) ;!
  must (SetPin VDDIO_EN true) ;!
  must (InitTmp1075 TMP1075_LEFT) ;!
  must (InitTmp451 TMP451_RIGHT) ;!
  must (SetRemoteOffset REMOTE_OFFSET_C).

(** One turn of the monitor, after the first tick is discarded; cancelling ends it. *)
Definition monitor_turn : M (option unit) :=
  await (fun o => match o with
    | Cancelled => Some (ret (Some tt))
    | Ticked =>
        Some (do! t_left := call_int ReadTmp1075 in
              do! t_right := call_int ReadTmp451Local in
              do! t_chip0 := call_int ReadTmp451Remote in
              act (PublishTemperatures t_left t_right t_chip0) ;! ret None)
    | _ => None
    end).
Definition monitor : M unit :=
  await (fun o => match o with Ticked => Some (ret tt) | _ => None end) ;! loop monitor_turn.

(** The monitor is cancelled first, and awaited. *)
Definition shutdown : M unit :=
  await (fun o => match o with MonitorOver => Some (ret tt) | _ => None end) ;!
  call_unit (SetPin VDDIO_EN false) ;!
  call_unit LedOff ;!
  call_unit Reboot ;!
  ret tt.
End EmberOne.
