(* ===== verification/BoardProps.v ===== *)
(** * What the Bitaxe board promises

    The monitor stops an overheating board, and nothing else than that, a request or a
    poisoned lock stops it; a board is attached with its chips held in reset. *)
From stdpp Require Import base numbers list strings.
From Stdlib Require Import ZArith Lia SpecFloat.
From S2P Require Import Prelude Float FloatExact Effects I2c Tps546 Control Backplane Board.
#[local] Open Scope eff_scope.
Import Bitaxe.

(** ** What a log of outcomes says of the temperature *)

(** The diode is believed half a second after the chips' reset was released. *)
Definition settled (released : option Z) (now : Z) : bool :=
  match released with Some t => 500 <=? now - t | None => false end.
(** A reading that is neither missing nor out of 0 to 120 degrees nor at 80 and above: one
    from 0 to below 80 degrees. *)
Definition cool (reading : option float) : bool :=
  match reading with Some t => f_le (f_of_Z f32 0) t && f_lt t (f_of_Z f32 80) | None => false end.

(** The last reading of the external diode, and how many readings up to now were bad,
    one after the other; a reading before the diode has settled starts anew. *)
Definition observe (w : option float * Z) (o : outcome) : option float * Z :=
  let '(reading, count) := w in
  match o with
  | GaveFloat x => (x, count)
  | ReleasedSince released now => (reading, if settled released now && negb (cool reading) then count + 1 else 0)
  | _ => w
  end.
Definition observed (u : list outcome) : option float * Z := fold_left observe u (None, 0).
Definition bad_streak (u : list outcome) : Z := (observed u).2.

Lemma observed_snoc u o : observed (u ++ [o]) = observe (observed u) o.
Proof. unfold observed. by rewrite fold_left_app. Qed.

Ltac outcome_cases :=
  apply wp_await; [|let o := fresh "o" in let m := fresh "m" in let H := fresh "H" in
    intros o m H; cbv beta in H; destruct o; try discriminate H; try (injection H as <-)].

Section Calls.
Context {St : Type}.
Abbreviation M := (Effects.M St outcome action error).

Lemma wp_call_unit c s u tr (Q : post St outcome action error bool) :
  Q Wait s u (tr ++ [Call c]) ->
  (forall o b, observed (u ++ [o]) = observed u -> (o <> Cancelled /\ o <> Poisoned) -> Q (Ret b) s (u ++ [o]) (tr ++ [Call c])) ->
  wp (call_unit c) s u tr Q.
Proof.
  intros Hw Hq. unfold call_unit. apply wp_bind, wp_act. simpl. outcome_cases; [done| |];
    apply wp_ret, Hq; try done; rewrite observed_snoc; by destruct (observed u).
Qed.

Lemma wp_call_int c s u tr (Q : post St outcome action error (option Z)) :
  Q Wait s u (tr ++ [Call c]) ->
  (forall x, observed (u ++ [GaveInt x]) = observed u -> Q (Ret x) s (u ++ [GaveInt x]) (tr ++ [Call c])) ->
  wp (call_int c) s u tr Q.
Proof.
  intros Hw Hq. unfold call_int. apply wp_bind, wp_act. simpl. outcome_cases; [done|].
  apply wp_ret, Hq. rewrite observed_snoc. by destruct (observed u).
Qed.

Lemma wp_call_float c s u tr (Q : post St outcome action error (option float)) :
  Q Wait s u (tr ++ [Call c]) ->
  (forall x, Q (Ret x) s (u ++ [GaveFloat x]) (tr ++ [Call c])) ->
  wp (call_float c) s u tr Q.
Proof.
  intros Hw Hq. unfold call_float. apply wp_bind, wp_act. simpl. outcome_cases; [done|]. by apply wp_ret, Hq.
Qed.
End Calls.

(** ** The monitor *)

(** The code's classes against the temperatures. *)
Lemma classify_cool x : (match classify x with Normal => true | _ => false end) = cool x.
Proof.
  destruct x as [t|]; [|done]. unfold classify, cool, EXPECTED_MIN_C, EXPECTED_MAX_C, EMERGENCY_TEMP_C.
  destruct (f_le (f_of_Z f32 0) t) eqn:H0; [|done]. cbn [andb negb].
  assert (Hnot : f_le (f_of_Z f32 80) t = negb (f_lt t (f_of_Z f32 80))).
  { apply f_le_not_lt; [done|]. by destruct t. }
  rewrite Hnot. destruct (f_lt t (f_of_Z f32 80)) eqn:H80; cbn [negb].
  - assert (H120 : f_le t (f_of_Z f32 120) = true); [|by rewrite H120].
    apply f_lt_le, (f_lt_trans _ (f_of_Z f32 80)); [exact H80|by vm_compute].
  - by destruct (f_le t (f_of_Z f32 120)).
Qed.

Lemma judge_streak ready count x : 0 <= count < 3 ->
  (judge ready count x).1 = (if ready && negb (cool x) then count + 1 else 0) /\
  0 <= (judge ready count x).1 <= 3.
Proof.
  intros Hc. unfold judge. destruct ready; [|done]. rewrite <- classify_cool.
  assert (Hw : wrap 32 (count + 1) = count + 1) by (apply wrap_id; unfold uint; lia).
  destruct (classify x); simpl; rewrite ?Hw; lia.
Qed.

(** Between the turns. *)
Record Inv (s : monitor) (u : list outcome) (tr : list action) : Prop := {
  inv_count : bad_thermal_count s = bad_streak u;
  inv_low : 0 <= bad_streak u < 3;
  inv_running : SignalThreads ∉ tr }.

Definition fan_full : action := Call (SetFanSpeed 100).
Definition stop_sequence : list action := [SignalThreads; Call (SetPin ASIC_RESET_PIN false); Call DisableOutput].

(** How a tick ends. *)
Definition after_tick : post monitor outcome action error unit := fun r s u tr =>
  match r with
  | Ret _ => Inv s u tr
  | Raise _ => SignalThreads ∉ tr /\
      ((Poisoned ∈ u /\ bad_streak u < 3) \/ (3 <= bad_streak u /\ exists tr1, tr = tr1 ++ [fan_full]))
  | Cut => False
  | Wait => SignalThreads ∉ tr /\ (bad_streak u < 3 \/ exists tr1, tr = tr1 ++ [fan_full])
  end.

Lemma streak_eq u u' : observed u' = observed u -> bad_streak u' = bad_streak u.
Proof. unfold bad_streak. by intros ->. Qed.

Lemma not_signal_snoc tr a : a <> SignalThreads -> SignalThreads ∉ tr -> SignalThreads ∉ tr ++ [a].
Proof. rewrite not_elem_of_app, list_elem_of_singleton. intros Ha Ht. split; [done|congruence]. Qed.

(** A call in a tick that leaves the readings alone. *)
Definition tick_call {A} (m : M A) : Prop := forall s u tr,
  SignalThreads ∉ tr -> wp m s u tr (fun r s' u' tr' => s' = s /\ SignalThreads ∉ tr' /\ observed u' = observed u /\
    match r with Ret _ | Wait => True | _ => False end).

Lemma tick_call_unit c : tick_call (call_unit c).
Proof.
  intros s u tr Ht. apply wp_call_unit; [split_and!; try done; by apply not_signal_snoc|].
  intros o b Ho _. split_and!; try done. by apply not_signal_snoc.
Qed.
Lemma tick_call_int c : tick_call (call_int c).
Proof.
  intros s u tr Ht. apply wp_call_int; [split_and!; try done; by apply not_signal_snoc|].
  intros x Ho. split_and!; try done. by apply not_signal_snoc.
Qed.
Lemma tick_ret {A} (a : A) : tick_call (ret a).
Proof. intros s u tr Ht. by apply wp_ret. Qed.
Lemma tick_bind {A B} (m : M A) (k : A -> M B) :
  tick_call m -> (forall a, tick_call (k a)) -> tick_call (bind m k).
Proof.
  intros Hm Hk s u tr Ht. apply wp_bind. eapply wp_mono; [by apply Hm|].
  intros [a|e| |] s1 u1 tr1 (-> & Ht1 & Ho & Hr); simpl; try done.
  eapply wp_mono; [by apply Hk|]. simpl. intros r s2 u2 tr2 (-> & Ht2 & Ho2 & Hr2). by rewrite Ho in Ho2.
Qed.
Lemma tick_if {A} (b : bool) (m m' : M A) : tick_call m -> tick_call m' -> tick_call (if b then m else m').
Proof. by destruct b. Qed.
#[local] Hint Resolve tick_if tick_call_unit tick_call_int tick_ret tick_bind : core.

(** The continuation of such a call in a tick. *)
Lemma tick_then {A} (m : M A) (k : A -> M unit) x s u tr :
  tick_call m -> SignalThreads ∉ tr -> observed u = x -> x.2 < 3 ->
  (forall a u' tr', SignalThreads ∉ tr' -> observed u' = x -> wp (k a) s u' tr' after_tick) ->
  wp (bind m k) s u tr after_tick.
Proof.
  intros Hm Ht Hx Hlow Hk. apply wp_bind. eapply wp_mono; [by apply Hm|].
  intros [a|e| |] s1 u1 tr1 (-> & Ht1 & Ho & Hr); simpl; try done.
  - apply Hk; [done|by rewrite Ho].
  - split; [done|left]. unfold bad_streak. by rewrite Ho, Hx.
Qed.

Lemma wp_monitor_tick s u tr : Inv s u tr -> wp monitor_tick s u tr after_tick.
Proof.
  intros [Hc Hlow Ht]. unfold monitor_tick. apply wp_bind, wp_call_float.
  { split; [by apply not_signal_snoc|left; lia]. }
  intros raw. simpl.
  assert (Hx : observed (u ++ [GaveFloat raw]) = (raw, bad_streak u)).
  { rewrite observed_snoc. unfold bad_streak. by destruct (observed u). }
  assert (Ht1 : SignalThreads ∉ tr ++ [Call GetExternalTemperature]) by (by apply not_signal_snoc).
  revert Hx Ht1. generalize (u ++ [GaveFloat raw]), (tr ++ [Call GetExternalTemperature]). intros u1 tr1 Hx Ht1.
  do 8 (apply (tick_then _ _ (raw, bad_streak u)); [by auto 8|done|done|simpl; lia|];
    clear dependent u1; intros ? u1 tr2 Ht2 Hx; clear dependent tr1; rename tr2 into tr1, Ht2 into Ht1).
  apply wp_bind. unfold read_diode_ready. outcome_cases.
  - split; [done|left]. unfold bad_streak. rewrite Hx. simpl. lia.
  - apply wp_ret. simpl. apply wp_bind, wp_get. simpl. rewrite Hc.
    set (ready := diode_ready since now).
    destruct (judge_streak ready (bad_streak u) raw Hlow) as [Hj Hrange].
    assert (Hs : bad_streak (u1 ++ [ReleasedSince since now]) = (judge ready (bad_streak u) raw).1).
    { unfold bad_streak at 1. rewrite observed_snoc, Hx, Hj. done. }
    destruct (judge ready (bad_streak u) raw) as [count temp]. simpl in *.
    apply wp_bind, wp_put. simpl. destruct (Z.leb_spec BAD_READING_LIMIT count) as [Hl|Hl]; unfold BAD_READING_LIMIT in Hl.
    + apply wp_bind, wp_call_unit; [split; [by apply not_signal_snoc|right; by eexists]|].
      intros o b Ho _. simpl. apply wp_raise. split; [by apply not_signal_snoc|right].
      rewrite (streak_eq _ _ Ho), Hs. split; [lia|by eexists].
    + apply wp_act. split; [by rewrite Hs|rewrite Hs; lia|by apply not_signal_snoc].
  - apply wp_raise. split; [done|left]. unfold bad_streak. rewrite observed_snoc, Hx. split; [|simpl; lia].
    apply elem_of_app. right. by apply list_elem_of_singleton.
Qed.

(** ** Shutting down *)
Lemma wp_shutdown s u tr :
  wp shutdown s u tr (fun r s' u' tr' => observed u' = observed u /\ u `prefix_of` u' /\
    exists l, tr' = tr ++ l /\ match r with Ret _ => l = stop_sequence | Wait => l `prefix_of` stop_sequence | _ => False end).
Proof.
  unfold shutdown. apply wp_bind, wp_act. simpl. apply wp_bind.
  assert (Hsnoc : forall o : outcome, (forall w, observe w o = w) -> observed (u ++ [o]) = observed u).
  { intros o Ho. by rewrite observed_snoc. }
  assert (Hgo : forall o : outcome, observed (u ++ [o]) = observed u ->
    wp (call_unit (SetPin ASIC_RESET_PIN false) ;! call_unit DisableOutput ;! ret tt) s (u ++ [o]) (tr ++ [SignalThreads])
      (fun r s' u' tr' => observed u' = observed u /\ u `prefix_of` u' /\
        exists l, tr' = tr ++ l /\ match r with Ret _ => l = stop_sequence | Wait => l `prefix_of` stop_sequence | _ => False end)).
  { intros o Ho. apply wp_bind, wp_call_unit.
    { split_and!; [done|by exists [o]|]. eexists. rewrite <- app_assoc. split; [reflexivity|]. by exists [Call DisableOutput]. }
    intros o2 b2 Ho2 _. simpl. apply wp_bind, wp_call_unit.
    { split_and!; [by rewrite Ho2, Ho|exists [o; o2]; by rewrite <- app_assoc|].
      eexists. rewrite <- !app_assoc. split; [reflexivity|]. by exists []. }
    intros o3 b3 Ho3 _. simpl. apply wp_ret. split_and!; [by rewrite Ho3, Ho2, Ho|exists [o; o2; o3]; by rewrite <- !app_assoc|].
    eexists. by rewrite <- !app_assoc. }
  outcome_cases; [|apply wp_ret; simpl; apply Hgo, Hsnoc; by intros []..].
  split_and!; [done|reflexivity|]. eexists. split; [reflexivity|]. by eexists.
Qed.

(** Why the monitor may stop. *)
Definition cause (u : list outcome) : Prop := Cancelled ∈ u \/ Poisoned ∈ u \/ 3 <= bad_streak u.

Lemma cause_more u u' : u `prefix_of` u' -> observed u' = observed u -> cause u -> cause u'.
Proof.
  intros [w ->] Ho [H|[H|H]]; [left|right; left|right; right]; [apply elem_of_app; by left..|].
  by rewrite (streak_eq _ _ Ho).
Qed.

(** What is true of every run. *)
Definition monitored : post monitor outcome action error unit := fun r s u tr =>
  (3 <= bad_streak u -> exists tr1 tr2, tr = tr1 ++ fan_full :: tr2 /\ tr2 `prefix_of` stop_sequence /\
     (r = Ret tt -> tr2 = stop_sequence)) /\
  (SignalThreads ∈ tr -> cause u) /\
  match r with
  | Ret _ => exists tr1 tr2, tr = tr1 ++ stop_sequence ++ tr2 /\ tr2 `prefix_of` [Call (SetFanSpeed 25)]
  | Wait => True
  | _ => False
  end.

(** What holds when the monitor starts to shut down. *)
Definition stopping (u : list outcome) (tr : list action) : Prop :=
  SignalThreads ∉ tr /\ cause u /\ (3 <= bad_streak u -> exists tr1, tr = tr1 ++ [fan_full]).

Lemma monitored_wait s u tr u' l :
  stopping u tr -> observed u' = observed u -> u `prefix_of` u' -> l `prefix_of` stop_sequence ->
  monitored Wait s u' (tr ++ l).
Proof.
  intros (Hs & Hc & Hf) Ho Hu Hl. split_and!; [|intros _; by eapply cause_more|done].
  rewrite (streak_eq _ _ Ho). intros [tr1 ->]%Hf. exists tr1, l. by rewrite <- app_assoc.
Qed.

Lemma monitored_stop s u tr u' tr2 :
  stopping u tr -> observed u' = observed u -> u `prefix_of` u' -> tr2 `prefix_of` [Call (SetFanSpeed 25)] ->
  (3 <= bad_streak u -> tr2 = []) ->
  monitored (Ret tt) s u' (tr ++ stop_sequence ++ tr2).
Proof.
  intros (Hs & Hc & Hf) Ho Hu Hl Hnil. split_and!; [|intros _; by eapply cause_more|by exists tr, tr2].
  rewrite (streak_eq _ _ Ho). intros H3. rewrite (Hnil H3), app_nil_r. destruct (Hf H3) as [tr1 ->].
  exists tr1, stop_sequence. by rewrite <- app_assoc.
Qed.

Lemma monitored_running s u tr : Inv s u tr -> monitored Wait s u tr.
Proof. intros [_ Hl Hs]. split_and!; [lia|done|done]. Qed.

Lemma inv_start : Inv start [] [].
Proof. by split; [|simpl|apply not_elem_of_nil]. Qed.

Lemma wp_turn s u tr : Inv s u tr ->
  wp turn s u tr (fun r s u tr =>
    match r with
    | Ret None => Inv s u tr
    | Ret (Some a) => monitored (Ret a) s u tr
    | Raise e => monitored (Raise e) s u tr
    | Cut => monitored Cut s u tr
    | Wait => monitored Wait s u tr
    end).
Proof.
  intros Hi. unfold turn. apply wp_await; [by apply monitored_running|].
  intros o m Ho. destruct o; try discriminate Ho; injection Ho as <-.
  - assert (Hi1 : Inv s (u ++ [Ticked]) tr).
    { destruct Hi as [H1 H2 H3]. assert (Ho : observed (u ++ [Ticked]) = observed u)
        by (rewrite observed_snoc; by destruct (observed u)).
      by split; rewrite ?(streak_eq _ _ Ho). }
    apply wp_bind, wp_attempt. eapply wp_mono; [by apply wp_monitor_tick|].
    intros [[]|e| |] s1 u1 tr1 Ht; simpl; [by apply wp_ret| |done|].
    + destruct Ht as [Hs Hcase].
      assert (Hst : stopping u1 tr1).
      { destruct Hcase as [[Hp Hl]|[Hl Hf]]; split_and!; try done; [by right; left|lia|by right; right]. }
      apply wp_bind. eapply wp_mono; [apply wp_shutdown|].
      intros [[]|e2| |] s2 u2 tr2 (Hou & Hu & l & -> & Hl); simpl; try done.
      * apply wp_ret. subst l. rewrite <- (app_nil_r stop_sequence).
        by apply (monitored_stop _ u1); [..|apply prefix_nil|].
      * by apply (monitored_wait _ u1).
    + destruct Ht as [Hs [Hl|[tr0 ->]]]; (split_and!; [|done|done]); [lia|].
      intros _. exists tr0, []. split_and!; [done|apply prefix_nil|done].
  - assert (Hou : observed (u ++ [Cancelled]) = observed u) by (rewrite observed_snoc; by destruct (observed u)).
    destruct Hi as [H1 H2 H3].
    assert (Hst : stopping (u ++ [Cancelled]) tr).
    { split_and!; [done|left|rewrite (streak_eq _ _ Hou); lia]. apply elem_of_app. right. by apply list_elem_of_singleton. }
    apply wp_bind. eapply wp_mono; [apply wp_shutdown|].
    intros [[]|e2| |] s2 u2 tr2 (Hou2 & Hu & l & -> & Hl); simpl; try done.
    + subst l. apply wp_bind, wp_call_unit.
      * split_and!; [rewrite (streak_eq _ _ Hou2), (streak_eq _ _ Hou); lia| |done].
        intros _. apply (cause_more (u ++ [Cancelled])); [done|done|apply Hst].
      * intros o b Ho3 _. simpl. apply wp_ret. rewrite <- app_assoc.
        apply (monitored_stop _ (u ++ [Cancelled])); [done|by rewrite Ho3, Hou2| |done|].
        -- destruct Hu as [w ->]. exists (w ++ [o]). by rewrite !app_assoc.
        -- rewrite (streak_eq _ _ Hou). lia.
    + by apply (monitored_wait _ (u ++ [Cancelled])).
Qed.

(** C23 An overheating board is stopped.  Over every run of the Bitaxe's monitor, whatever the
    drivers answer: at the third bad thermal reading in a row - failed, implausible, or
    at 80 degrees and above, with the diode settled - the fan is set to full speed and the
    board is shut down, with nothing published in between.  A shutdown tells the hash
    threads, holds the chips in reset and turns the core voltage off, in this order.  It
    happens for such readings, on request, or when the reset line's lock is poisoned, and
    for nothing else that fails. *)
Theorem overheating_stops_board outcomes :
  let '(r, s, rest, tr) := run start outcomes in
  exists u, outcomes = u ++ rest /\ monitored r s u tr.
Proof.
  assert (Hwp : wp run start [] [] monitored).
  { unfold run. apply (wp_loop Inv); [apply inv_start|apply monitored_running|apply wp_turn]. }
  destruct (run start outcomes) as [[[r s] rest] tr] eqn:Hrun. exact (Hwp _ _ _ _ _ Hrun).
Qed.

(** ** Attaching *)

(** The calls of a log. *)
Definition calls (tr : list action) : list call :=
  omap (fun a => match a with Call c => Some c | _ => None end) tr.

(** The calls of a board that is attached. *)
Definition attach_calls (firmware : Firmware) : list call :=
  [GetSerialPorts 2; OpenControlPort (firmware_response_format firmware); OpenDataPort;
   SetPin ASIC_RESET_PIN false; SetFrequency 100000; FanInit; SetFanSpeed 100;
   PowerInit bitaxe_power_config; SetVoutTarget DEFAULT_VOUT; ClearFaults; DumpConfiguration].

Section Attach.
Context {St : Type}.
Abbreviation M := (Effects.M St outcome action error).

(** Makes the calls of the list from the start, all of them if it succeeds. *)
Definition makes (l : list call) (m : M unit) : Prop := forall s u tr,
  wp m s u tr (fun r s' u' tr' => exists l', calls tr' = calls tr ++ l' /\ l' `prefix_of` l /\ (r = Ret tt -> l' = l)).

Lemma calls_app tr tr' : calls (tr ++ tr') = calls tr ++ calls tr'.
Proof. apply omap_app. Qed.

Lemma makes_call c : makes [c] (call_unit c ;! ret tt).
Proof.
  intros s u tr. apply wp_bind, wp_call_unit; intros; try apply wp_ret; exists [c]; by rewrite calls_app.
Qed.
Lemma makes_must c : makes [c] (must c).
Proof.
  intros s u tr. unfold must. apply wp_bind, wp_call_unit; [exists [c]; by rewrite calls_app|].
  intros o b _ _. simpl. destruct b; [apply wp_ret|apply wp_raise]; exists [c]; by rewrite calls_app.
Qed.
Lemma makes_bind l1 l2 m1 m2 : makes l1 m1 -> makes l2 m2 -> makes (l1 ++ l2) (m1 ;! m2).
Proof.
  intros H1 H2 s u tr. apply wp_bind. eapply wp_mono; [apply H1|].
  intros [[]|e| |] s1 u1 tr1 (l1' & Hc & Hp & Hr); simpl; try (exists l1'; split_and!; try done; by apply prefix_app_r).
  rewrite (Hr eq_refl) in Hc. eapply wp_mono; [apply H2|].
  intros r s2 u2 tr2 (l2' & Hc2 & Hp2 & Hr2). exists (l1 ++ l2').
  rewrite Hc2, Hc, <- app_assoc. split_and!; [done|by apply prefix_app|]. intros Hret. by rewrite (Hr2 Hret).
Qed.
#[local] Hint Resolve makes_call makes_must : core.

End Attach.
#[local] Hint Resolve makes_call makes_must : core.

(** A board is attached in order: both ports, then the chips held in reset, then the bus,
    the fan at full speed and the regulator; each call is made only if all before it
    succeeded, and the reset line is never released. *)
Theorem bitaxe_attaches_in_order firmware s outcomes :
  let '(r, _, _, tr) := attach firmware s outcomes in
  calls tr `prefix_of` attach_calls firmware /\ (r = Ret tt -> calls tr = attach_calls firmware).
Proof.
  assert (Hm : makes (attach_calls firmware) (attach firmware)).
  { apply (makes_bind [_]); [done|]. apply (makes_bind [_]); [done|]. apply (makes_bind [_]); [done|].
    apply (makes_bind [_]); [done|]. apply (makes_bind [_]); [done|].
    apply (makes_bind [_; _]); [by apply (makes_bind [_])|].
    apply (makes_bind [_]); [done|]. apply (makes_bind [_]); [done|]. apply (makes_bind [_]); [done|apply makes_call]. }
  destruct (attach firmware s outcomes) as [[[r s'] rest] tr] eqn:Hrun.
  destruct (Hm _ [] [] _ _ _ _ _ Hrun) as (u & _ & l & Hc & Hp & Hr). simpl in Hc. by rewrite Hc.
Qed.

(** ** Examples *)
Example bitaxe_found `{TextMatch} :
  let device := MkUsb 0x1209 0x6102 0 None (Some "OSMU"%string) (Some "Bitaxe Gamma RHAP-D"%string) "" in
  BoardPattern.matches rhapd_pattern device = true /\ BoardPattern.matches bitaxe_raw_pattern device = false.
Proof. by split. Qed.

(** Three hot readings and the board is off. *)
Definition hot_tick (now : Z) : list outcome :=
  [Ticked; GaveFloat (Some (f_of_Z f32 95)); GaveInt (Some 100); GaveInt None; Succeeded; GaveInt None; GaveInt None;
   GaveInt None; GaveInt None; GaveInt None; ReleasedSince (Some 0) now].
Example hot_board_stops :
  let outcomes := hot_tick 2000 ++ hot_tick 4000 ++ hot_tick 6000 ++ [Succeeded; ThreadsGone; Succeeded; Succeeded] in
  let '(r, s, rest, tr) := run start outcomes in
  r = Ret tt /\ rest = [] /\ bad_streak outcomes = 3 /\
  drop (length tr - 4) tr = fan_full :: stop_sequence.
Proof. vm_compute. by split_and!. Qed.
