(* ===== verification/CpuMiner.v ===== *)
(** * The CPU miner (cpu_miner/hasher.rs, thread.rs, config.rs, board/cpu.rs)

    The mining thread is a loop over what it reads: the shutdown flag, its command
    channel and the clock, each an outcome of an await.  Instants are nanoseconds.
    Release builds wrap on overflow.  The status is shared with the handle of the
    thread, which only reads it, so it is part of the state. *)
From stdpp Require Import base numbers list strings pretty.
From Stdlib Require Import ZArith Lia Ascii.
From S2P Require Import Prelude Float U256 Version Extranonce Job Estimator HashThread Effects.
#[local] Open Scope eff_scope.

(** Each command has the channel its answer goes to. *)
Inductive MinerCommand :=
| UpdateTask (task : Task) (response_tx : nat)
| ReplaceTask (task : Task) (response_tx : nat)
| GoIdle (response_tx : nat)
| Shutdown.

(** What the thread writes of [HashThreadStatus]. *)
Record Status := MkStatus { hashrate : Z; chip_shares_found : Z; is_active : bool }.

(** The locals of [run_mining_loop], and the status. *)
Record miner := Miner {
  current_task : option Task; cached_merkle_root : option (list Z); nonce : Z;
  last_ntime_tick : Z; shares_found : Z; hashes_computed : Z; last_hashrate_update : Z;
  status : Status }.

(** What the thread reads: the shutdown flag, its channel, the clock; and that a blocking
    send of a share is over, the share taken or its receiver gone. *)
Inductive outcome :=
| Flag (set : bool)
| Received (c : MinerCommand) | Empty | Disconnected
| Clock (now : Z)
| SendOver.

Inductive action :=
| Reply (response_tx : nat) (old : option Task)
| ShareSent (share_tx : nat) (share : Share)
| Sleep (ms : Z).

Definition MILLIS : Z := 1000000.
(** [Instant::elapsed], which saturates at zero. *)
Definition elapsed (since now : Z) : Z := Z.max 0 (now - since).
Definition as_millis (d : Z) : Z := d / MILLIS.

Definition cycle_ms : Z := 1000.
Definition work_ms (duty_percent : Z) : Z :=
  f_to_uint 64 (f_div f64 (f_mul f64 (f_of_Z f64 cycle_ms) (f_of_Z f64 duty_percent)) (f_of_Z f64 100)).

Section Miner.
Context `{B : Bitcoin} `{P : BitcoinPow}.
Abbreviation M := (Effects.M miner outcome action Empty_set).

Definition compute_merkle_root (task : HashTask) : option (list Z) :=
  match merkle_root (template task) with
  | Fixed mr => Some mr
  | Computed _ => e ← task_extranonce task; job_merkle_root txid sha256d (template task) e
  end.

Definition try_nonce (task : HashTask) (root : list Z) (nonce : Z) : option Share :=
  let tmpl := template task in
  let header := MkHeader (VersionTemplate.base (version tmpl)) (prev_blockhash tmpl) root
                  (task_ntime task) (bits tmpl) nonce in
  let hash := block_hash header in
  if target_met_by (task_share_target task) hash then
    Some (MkShare nonce hash (VersionTemplate.base (version tmpl)) (task_ntime task)
            (task_extranonce task) (to_work (task_share_target task)))
  else None.

(** ** Reading *)
Definition load_shutdown : M bool := await (fun o => match o with Flag b => Some (ret b) | _ => None end).
Definition now : M Z := await (fun o => match o with Clock t => Some (ret t) | _ => None end).
Inductive received := Got (c : MinerCommand) | Nothing | Closed.
Definition try_recv : M received :=
  await (fun o => match o with
    | Received c => Some (ret (Got c)) | Empty => Some (ret Nothing) | Disconnected => Some (ret Closed)
    | _ => None end).

(** ** Commands *)
Definition update_status (m : miner) (is_active : bool) : miner :=
  Miner (current_task m) (cached_merkle_root m) (nonce m) (last_ntime_tick m) (shares_found m)
    (hashes_computed m) (last_hashrate_update m)
    (MkStatus (hashrate (status m)) (shares_found m) is_active).

(** [UpdateTask] and [ReplaceTask] do the same. *)
Definition accept (m : miner) (task : Task) : miner :=
  update_status
    (Miner (Some task) (compute_merkle_root (ht task)) 0 (last_ntime_tick m) (shares_found m)
       (hashes_computed m) (last_hashrate_update m) (status m)) true.
Definition idle (m : miner) : miner :=
  update_status
    (Miner None None (nonce m) (last_ntime_tick m) (shares_found m) (hashes_computed m)
       (last_hashrate_update m) (status m)) false.

(** True if the thread is to return. *)
Definition execute (c : MinerCommand) : M bool :=
  do! m := get in
  match c with
  | UpdateTask task response_tx | ReplaceTask task response_tx =>
      put (accept m task) ;! act (Reply response_tx (current_task m)) ;! ret false
  | GoIdle response_tx => put (idle m) ;! act (Reply response_tx (current_task m)) ;! ret false
  | Shutdown => ret true
  end.

(** The pending commands. *)
Definition drain : M bool :=
  loop (do! r := try_recv in
        match r with
        | Got c => do! stop := execute c in ret (if stop : bool then Some true else None)
        | Nothing => ret (Some false)
        | Closed => ret (Some true)
        end).

(** ** Hashing *)
Definition count_share (m : miner) : miner :=
  Miner (current_task m) (cached_merkle_root m) (nonce m) (last_ntime_tick m) (wrap 64 (shares_found m + 1))
    (hashes_computed m) (last_hashrate_update m) (status m).
Definition next_nonce (m : miner) : miner :=
  Miner (current_task m) (cached_merkle_root m) (wrap 32 (nonce m + 1)) (last_ntime_tick m) (shares_found m)
    (wrap 64 (hashes_computed m + 1)) (last_hashrate_update m) (status m).

(** [blocking_send]: the thread stands still while the channel is full. *)
Definition send_share (tx : nat) (share : Share) : M unit :=
  act (ShareSent tx share) ;! await (fun o => match o with SendOver => Some (ret tt) | _ => None end).

Definition hash_once : M unit :=
  do! m := get in
  (match current_task m, cached_merkle_root m with
   | Some task, Some root =>
       match try_nonce (ht task) root (nonce m) with
       | Some share => put (count_share m) ;! send_share (share_tx task) share
       | None => ret tt
       end
   | _, _ => ret tt
   end) ;!
  do! m := get in put (next_nonce m).

(** [Some false] ends the work of the cycle, [Some true] the thread. *)
Definition check_time (duty_percent cycle_start : Z) : M (option bool) :=
  do! m := get in
  if hashes_computed m mod 10000 =? 0 then
    do! t := now in
    if work_ms duty_percent * MILLIS <=? elapsed cycle_start t then ret (Some false)
    else do! stop := load_shutdown in ret (if stop : bool then Some true else None)
  else ret None.
Definition check_command : M (option MinerCommand) :=
  do! m := get in
  if hashes_computed m mod 1000 =? 0 then
    do! r := try_recv in ret (match r with Got c => Some c | _ => None end)
  else ret None.

Definition work_turn (duty_percent cycle_start : Z) : M (option bool) :=
  do! over := check_time duty_percent cycle_start in
  match over with
  | Some stop => ret (Some stop)
  | None =>
      do! c := check_command in
      match c with
      | Some c => do! stop := execute c in ret (Some stop)
      | None => hash_once ;! ret None
      end
  end.
(** At most 10000 hashes between two readings of the clock. *)
Definition work (duty_percent cycle_start : Z) : M bool := fun s es =>
  rounds (Z.to_nat (10000 * (1 + Z.of_nat (length es)))) (work_turn duty_percent cycle_start) s es.

(** ** A cycle *)
Definition roll_ntime (m : miner) (tick : Z) : miner :=
  Miner (option_map (fun t => with_ntime t (wrap 32 (task_ntime (ht t) + 1))) (current_task m))
    (cached_merkle_root m) (nonce m) tick (shares_found m) (hashes_computed m) (last_hashrate_update m) (status m).
Definition publish_rate (m : miner) (rate update : Z) : miner :=
  Miner (current_task m) (cached_merkle_root m) (nonce m) (last_ntime_tick m) (shares_found m) 0 update
    (MkStatus rate (shares_found m) (is_active (status m))).

Definition rest_of_cycle (cycle_start : Z) : M unit :=
  do! t := now in
  let sleep_ms := Z.max 0 (cycle_ms - wrap 64 (as_millis (elapsed cycle_start t))) in
  if 0 <? sleep_ms then act (Sleep sleep_ms) else ret tt.
Definition maybe_roll_ntime : M unit :=
  do! t := now in
  do! m := get in
  if NANOS <=? elapsed (last_ntime_tick m) t then do! t := now in put (roll_ntime m t) else ret tt.
Definition maybe_publish_rate : M unit :=
  do! t := now in
  do! m := get in
  if 5 * NANOS <=? elapsed (last_hashrate_update m) t then
    do! t := now in
    let secs := HashRate.as_secs_f64 (elapsed (last_hashrate_update m) t) in
    let rate := f_to_uint 64 (f_div f64 (f_of_Z f64 (hashes_computed m)) secs) in
    do! t := now in put (publish_rate m rate t)
  else ret tt.

(** [Some tt]: the thread returns. *)
Definition turn (duty_percent : Z) : M (option unit) :=
  do! stop := load_shutdown in
  if (stop : bool) then ret (Some tt) else
  do! stop := drain in
  if (stop : bool) then ret (Some tt) else
  do! m := get in
  match current_task m with
  | Some _ =>
      do! cycle_start := now in
      do! stop := work duty_percent cycle_start in
      if (stop : bool) then ret (Some tt) else
      rest_of_cycle cycle_start ;! maybe_roll_ntime ;! maybe_publish_rate ;! ret None
  | None => act (Sleep 100) ;! ret None
  end.

Definition run_mining_loop (duty_percent : Z) : M unit := loop (turn duty_percent).
Definition start (t t' : Z) (status : Status) : miner := Miner None None 0 t 0 0 t' status.
End Miner.

(** ** The expected hash rate *)
Section Probe.
Abbreviation M := (Effects.M Z outcome action Empty_set).

(** The state is the number of hashes; their results are thrown away. *)
Definition probe_turn (window begin : Z) : M (option unit) :=
  do! hashes := get in
  do! over := (if hashes mod 10000 =? 0 then
                 await (fun o => match o with Clock t => Some (ret (window <=? elapsed begin t)) | _ => None end)
               else ret false) in
  if (over : bool) then ret (Some tt) else put (wrap 64 (hashes + 1)) ;! ret None.

Definition probe_peak_hashrate_for (window : Z) : M HashRate.t :=
  let now := await (fun o => match o with Clock t => Some (ret t) | _ => None end) in
  do! begin := now in
  (fun s es => rounds (Z.to_nat (10000 * (1 + Z.of_nat (length es)))) (probe_turn window begin) s es) ;!
  do! t := now in
  do! hashes := get in
  ret (f_to_uint 64 (f_div f64 (f_of_Z f64 hashes) (HashRate.as_secs_f64 (elapsed begin t)))).
Definition probe_peak_hashrate : M HashRate.t := probe_peak_hashrate_for (300 * MILLIS).

(** [CpuHashThread::configure], given the peak rate. *)
Definition expected_hashrate (duty_percent peak : Z) : HashRate.t :=
  HashRate.from_megahashes
    (f_div f64 (f_mul f64 (HashRate.as_megahashes peak) (f_of_Z f64 duty_percent)) (f_of_Z f64 100)).
End Probe.

(** ** Configuration *)
Fixpoint digits (acc : Z) (s : string) : option Z :=
  match s with
  | EmptyString => Some acc
  | String c s =>
      let d := Z.of_N (Ascii.N_of_ascii c) - 48 in
      if (0 <=? d) && (d <=? 9) then digits (10 * acc + d) s else None
  end.
(** [str::parse] for the unsigned integers of [w] bits: digits after an optional sign. *)
Definition parse_uint (w : Z) (s : string) : option Z :=
  let s := match s with String "+"%char s => s | _ => s end in
  n ← (if bool_decide (s = ""%string) then None else digits 0 s);
  if n <? 2 ^ w then Some n else None.

Record CpuMinerConfig := MkConfig { thread_count : Z; duty_percent : Z }.

(** The environment is a function from names to values. *)
Definition from_env (var : string -> option string) : option CpuMinerConfig :=
  thread_count ← (s ← var "MUJINA_CPUMINER_THREADS"%string; parse_uint 64 s);
  let duty := default 50 (s ← var "MUJINA_CPUMINER_DUTY"%string; parse_uint 8 s) in
  Some (MkConfig thread_count (Z.min 100 (Z.max 1 duty))).

(** The serial number of the board, and the name and duty of each of its threads. *)
Definition create_cpu_board (var : string -> option string) : option (string * list (string * Z)) :=
  config ← from_env var;
  Some (("cpu-" +:+ pretty (thread_count config) +:+ "x" +:+ pretty (duty_percent config) +:+ "%")%string,
        map (fun i => (("CPU Core " +:+ pretty i)%string, duty_percent config))
          (seq 0 (Z.to_nat (thread_count config)))).
