(* ===== verification/CpuMinerProps.v ===== *)
(** * What the CPU miner promises

    Its shares solve the task in force, its commands are answered with the task they
    end, it returns when told to and for no other reason; the loop over nonces is bounded. *)
From stdpp Require Import base numbers list strings.
From Stdlib Require Import ZArith Lia.
From S2P Require Import Prelude Float U256 Version Extranonce Job Estimator HashThread Effects CpuMiner.
#[local] Open Scope eff_scope.

(** ** What the thread has been told

    The last reading of the clock, whether it never went back, and the task in force
    with the reading before it was accepted. *)
Record view := View { clock : Z; steady : bool; assigned : option (Task * Z) }.

Definition look (v : view) (o : outcome) : view :=
  match o with
  | Clock t => View t (steady v && (clock v <=? t)) (assigned v)
  | Received (UpdateTask task _) | Received (ReplaceTask task _) => View (clock v) (steady v) (Some (task, clock v))
  | Received (GoIdle _) => View (clock v) (steady v) None
  | _ => v
  end.
Definition view_of (t : Z) (u : list outcome) : view := fold_left look u (View t true None).

Lemma view_app t u o : view_of t (u ++ [o]) = look (view_of t u) o.
Proof. unfold view_of. by rewrite fold_left_app. Qed.

(** The task with its time advanced [k] times. *)
Definition roll (t : Task) : Task := with_ntime t (wrap 32 (task_ntime (ht t) + 1)).
Definition rolled (k : nat) (t : Task) : Task := Nat.iter k roll t.

(** The channel a command is answered on. *)
Definition response_of (o : outcome) : option nat :=
  match o with
  | Received (UpdateTask _ r) | Received (ReplaceTask _ r) | Received (GoIdle r) => Some r
  | _ => None
  end.
(** The answers of a log. *)
Definition replies (tr : list action) : list nat :=
  omap (fun a => match a with Reply r _ => Some r | _ => None end) tr.

(** Told to return, or given a reason to. *)
Definition told (o : outcome) : Prop := o = Flag true \/ o = Received Shutdown.
Definition ends (o : outcome) : Prop := told o \/ o = Disconnected.
Definition untold (u : list outcome) : Prop := Forall (fun o => ~ told o) u.
(** The last thing read is the first that told it to return, or a closed channel. *)
Definition over (u : list outcome) : Prop := exists u1 o, u = u1 ++ [o] /\ ends o /\ untold u1.

Section Contract.
Context `{B : Bitcoin} `{P : BitcoinPow}.

(** The share of a header that extends the task's job and meets its target. *)
Definition solves (t : Task) (s : Share) : Prop :=
  let tmpl := template (ht t) in
  exists root, compute_merkle_root (ht t) = Some root /\
    hash s = block_hash (MkHeader (s_version s) (prev_blockhash tmpl) root (Job.ntime s) (bits tmpl) (Job.nonce s)) /\
    target_met_by (task_share_target (ht t)) (hash s) = true /\
    s_version s = VersionTemplate.base (version tmpl) /\ Job.ntime s = task_ntime (ht t) /\
    Job.extranonce s = task_extranonce (ht t) /\ expected_work s = to_work (task_share_target (ht t)) /\
    uint 32 (Job.nonce s).

(** The task in force, with its time advanced; if the clock is steady, by at most one
    second more than have passed. *)
Definition in_force (v : view) (current : option Task) : Prop :=
  match assigned v with
  | None => current = None
  | Some (t, since) => exists k, current = Some (rolled k t) /\
      (steady v = true -> (Z.of_nat k - 1) * NANOS <= clock v - since)
  end.

(** Each action comes of what was read before it. *)
Definition justified (t : Z) (u : list outcome) (a : action) : Prop :=
  match a with
  | ShareSent tx s => exists u1 task, u1 `prefix_of` u /\
      in_force (view_of t u1) (Some task) /\ tx = share_tx task /\ solves task s
  | Reply r old => exists u1 o, u1 ++ [o] `prefix_of` u /\ response_of o = Some r /\ in_force (view_of t u1) old
  | Sleep ms => 0 < ms <= cycle_ms
  end.
End Contract.

(** ** The invariant *)
Section Invariant.
Context `{B : Bitcoin} `{P : BitcoinPow} (begin : Z).
Abbreviation M := (Effects.M miner outcome action Empty_set).

(** The time of the last roll bounds the rolls. *)
Definition paced (v : view) (m : miner) : Prop :=
  match assigned v with
  | None => current_task m = None
  | Some (t, since) => exists k, current_task m = Some (rolled k t) /\
      (steady v = true -> since <= clock v /\ (k <> 0%nat -> (Z.of_nat k - 1) * NANOS <= last_ntime_tick m - since))
  end.

Record Inv (m : miner) (u : list outcome) (tr : list action) : Prop := {
  inv_task : paced (view_of begin u) m;
  inv_tick : steady (view_of begin u) = true -> last_ntime_tick m <= clock (view_of begin u);
  inv_root : cached_merkle_root m = (t ← current_task m; compute_merkle_root (ht t));
  inv_nonce : uint 32 (nonce m);
  inv_hashes : uint 64 (hashes_computed m);
  inv_untold : untold u;
  inv_actions : Forall (justified begin u) tr;
  inv_replies : replies tr = omap response_of u }.

(** What is left of it when the thread returns. *)
Record Returned (u : list outcome) (tr : list action) : Prop := {
  ret_over : over u;
  ret_actions : Forall (justified begin u) tr;
  ret_replies : replies tr = omap response_of u }.

Lemma paced_in_force v m :
  paced v m -> (steady v = true -> last_ntime_tick m <= clock v) -> in_force v (current_task m).
Proof.
  unfold paced, in_force. destruct (assigned v) as [[t since]|]; [|done].
  intros (k & -> & Hk) Ht. exists k. split; [done|]. intros Hs. specialize (Hk Hs). specialize (Ht Hs).
  unfold NANOS in *. destruct k; [lia|]. destruct Hk as [? Hk]. specialize (Hk ltac:(done)). lia.
Qed.

Lemma justified_prefix u u' a : u `prefix_of` u' -> justified begin u a -> justified begin u' a.
Proof.
  intros Hu. destruct a as [r old|tx s|ms]; simpl; [| |done].
  - intros (u1 & o & H & ?). exists u1, o. split; [by etrans|done].
  - intros (u1 & t & H & ?). exists u1, t. split; [by etrans|done].
Qed.
Lemma actions_read u o tr : Forall (justified begin u) tr -> Forall (justified begin (u ++ [o])) tr.
Proof. intros. eapply Forall_impl; [done|]. intros a. apply justified_prefix. by exists [o]. Qed.

Lemma compute_rolled k t : compute_merkle_root (ht (rolled k t)) = compute_merkle_root (ht t).
Proof. induction k as [|k IH]; [done|]. simpl. by rewrite <- IH. Qed.

Lemma untold_snoc u o : untold u -> ~ told o -> untold (u ++ [o]).
Proof. intros Hu Ho. apply Forall_app. by split; [|constructor]. Qed.
Lemma untold_init u o : untold (u ++ [o]) -> untold u.
Proof. by intros [Hu _]%Forall_app. Qed.
Ltac not_told := intros [?|?]; discriminate.

(** Reading anything but a command or an order to return. *)
Lemma inv_read m u tr o : response_of o = None -> ~ told o -> Inv m u tr -> Inv m (u ++ [o]) tr.
Proof.
  intros Ho Hnt [Ht Hk Hr Hn Hh Hu Ha Hp].
  split; rewrite ?view_app, ?omap_app; simpl; rewrite ?Ho, ?app_nil_r;
    [| |done..|by apply untold_snoc|by apply actions_read|done].
  - destruct o as [b|[]| | |t|]; try done. unfold paced in *. simpl.
    destruct (assigned _) as [[t' since]|]; [|done]. destruct Ht as (k & Hc & Hs). exists k. split; [done|].
    intros [Hst Hle]%andb_prop. apply Z.leb_le in Hle. destruct (Hs Hst). split; [lia|done].
  - destruct o as [b|[]| | |t|]; try done. simpl.
    intros [Hst Hle]%andb_prop. apply Z.leb_le in Hle. specialize (Hk Hst). lia.
Qed.

Lemma inv_returns m u tr o : response_of o = None -> ends o -> Inv m u tr -> Returned (u ++ [o]) tr.
Proof.
  intros Ho He [_ _ _ _ _ Hu Ha Hp].
  split; rewrite ?omap_app; simpl; rewrite ?Ho, ?app_nil_r; [by exists u, o|by apply actions_read|done].
Qed.

(** What was read keeps the invariant, until the thread is to return. *)
Definition Keeps {A} (stopped : A -> bool) : Effects.post miner outcome action Empty_set A := fun r m u tr =>
  match r with
  | Ret a => if stopped a then Returned u tr else Inv m u tr
  | Wait => Inv m u tr
  | _ => False
  end.

Lemma wp_load_shutdown m u tr (Q : Effects.post miner outcome action Empty_set bool) :
  Inv m u tr -> (Inv m u tr -> Q Wait m u tr) ->
  (forall b : bool, (if b then Returned (u ++ [Flag b]) tr else Inv m (u ++ [Flag b]) tr) ->
     Q (Ret b) m (u ++ [Flag b]) tr) ->
  wp load_shutdown m u tr Q.
Proof.
  intros Hi Hw Hq. apply wp_await; [auto|]. intros o k Ho. destruct o as [b| | | | |]; simplify_eq.
  apply wp_ret, Hq. destruct b; [|by apply inv_read; [|not_told|]].
  eapply inv_returns; [done| |exact Hi]. by left; left.
Qed.
Lemma wp_now m u tr (Q : Effects.post miner outcome action Empty_set Z) :
  Inv m u tr -> (Inv m u tr -> Q Wait m u tr) ->
  (forall t, Inv m (u ++ [Clock t]) tr -> Q (Ret t) m (u ++ [Clock t]) tr) ->
  wp now m u tr Q.
Proof.
  intros Hi Hw Hq. apply wp_await; [auto|]. intros o k Ho. destruct o; simplify_eq.
  apply wp_ret, Hq. by apply inv_read; [|not_told|].
Qed.
Lemma wp_try_recv m u tr (Q : Effects.post miner outcome action Empty_set received) :
  Inv m u tr -> (Inv m u tr -> Q Wait m u tr) ->
  (forall c, Q (Ret (Got c)) m (u ++ [Received c]) tr) ->
  (Inv m (u ++ [Empty]) tr -> Q (Ret Nothing) m (u ++ [Empty]) tr) ->
  (Inv m (u ++ [Disconnected]) tr -> Q (Ret Closed) m (u ++ [Disconnected]) tr) ->
  wp try_recv m u tr Q.
Proof.
  intros Hi Hw Hg He Hc. apply wp_await; [auto|]. intros o k Ho. destruct o; simplify_eq; apply wp_ret; [done| |].
  - apply He. by apply inv_read; [|not_told|].
  - apply Hc. by apply inv_read; [|not_told|].
Qed.

(** A command is answered, and its task is in force. *)
Lemma inv_command m m' u tr o r :
  Inv m u tr -> response_of o = Some r ->
  paced (view_of begin (u ++ [o])) m' ->
  last_ntime_tick m' = last_ntime_tick m -> hashes_computed m' = hashes_computed m ->
  cached_merkle_root m' = (t ← current_task m'; compute_merkle_root (ht t)) -> uint 32 (nonce m') ->
  Inv m' (u ++ [o]) (tr ++ [Reply r (current_task m)]).
Proof.
  intros [Ht Hk Hr Hn Hh Hu Ha Hp] Ho Hpaced Htick Hhashes Hroot Hnonce.
  split; rewrite ?Htick, ?Hhashes; [done| |done..| | |].
  - rewrite view_app. destruct o as [b|[]| | |t|]; done.
  - apply untold_snoc; [done|]. intros [-> | ->]; discriminate Ho.
  - apply Forall_app. split; [by apply actions_read|]. constructor; [|done].
    exists u, o. split_and!; [done|done|]. by apply paced_in_force.
  - unfold replies. rewrite !omap_app. simpl. rewrite Ho. f_equal. exact Hp.
Qed.

Lemma wp_execute c m u tr : Inv m u tr -> wp (execute c) m (u ++ [Received c]) tr (Keeps id).
Proof.
  intros Hi. unfold execute. wp_step. wp_step. simpl.
  destruct c as [task r|task r|r|].
  1,2,3: repeat wp_step; simpl; apply inv_command; try done; rewrite ?view_app; unfold paced; simpl.
  1,2: exists 0%nat; split; [done|]; intros; split; [lia|done].
  { done. }
  { by destruct Hi. }
  apply wp_ret. eapply inv_returns; [done| |exact Hi]. by left; right.
Qed.

Lemma wp_drain m u tr : Inv m u tr -> wp drain m u tr (Keeps id).
Proof.
  intros Hi. apply (wp_loop Inv); [done|done|]. clear m u tr Hi. intros m u tr Hi.
  wp_step. apply wp_try_recv; [done|done|..]; simpl.
  - intros c. wp_step. eapply wp_mono; [by apply wp_execute|].
    intros [stop|e| |] m' u' tr'; simpl; [|done|done|done]. intros Hs.
    apply wp_ret. by destruct stop.
  - intros Hi'. by apply wp_ret.
  - intros _. apply wp_ret. eapply inv_returns; [done| |exact Hi]. by right.
Qed.

(** ** Hashing *)
Lemma solves_try t root n s :
  compute_merkle_root (ht t) = Some root -> uint 32 n -> try_nonce (ht t) root n = Some s -> solves t s.
Proof.
  unfold try_nonce, solves. intros Hroot Hn. destruct (target_met_by _ _) eqn:Hmet; [|done].
  intros [= <-]. exists root. simpl. by split_and!.
Qed.

(** Counters may change. *)
Lemma inv_same m m' u tr :
  Inv m u tr -> current_task m' = current_task m -> cached_merkle_root m' = cached_merkle_root m ->
  last_ntime_tick m' = last_ntime_tick m -> uint 32 (nonce m') -> uint 64 (hashes_computed m') -> Inv m' u tr.
Proof.
  intros [Ht Hk Hr Hn Hh Hu Ha Hp] Hc Hm Hl Hn' Hh'.
  split; rewrite ?Hm, ?Hc, ?Hl; try done.
  unfold paced in *. by rewrite Hc, Hl.
Qed.

Lemma inv_next m u tr : Inv m u tr -> Inv (next_nonce m) u tr.
Proof. intros Hi. apply (inv_same m); [done..|by apply wrap_uint|by apply wrap_uint]. Qed.

Lemma inv_share m u tr task root s :
  Inv m u tr -> current_task m = Some task -> cached_merkle_root m = Some root ->
  try_nonce (ht task) root (nonce m) = Some s ->
  Inv (count_share m) u (tr ++ [ShareSent (share_tx task) s]).
Proof.
  intros Hi Hc Hm Hs. destruct Hi as [Ht Hk Hr Hn Hh Hu Ha Hp].
  assert (Hi : Inv (count_share m) u tr) by (by apply (inv_same m)).
  destruct Hi; split; try done.
  - apply Forall_app. split; [done|]. constructor; [|done]. exists u, task. split_and!; [done| |done|].
    + rewrite <- Hc. by apply paced_in_force.
    + eapply solves_try; [|exact Hn|exact Hs]. rewrite Hm, Hc in Hr. by rewrite Hr.
  - unfold replies. rewrite omap_app. simpl. by rewrite app_nil_r.
Qed.

(** Goes on whatever is read. *)
Definition goes_on : Effects.post miner outcome action Empty_set unit := Keeps (fun _ => false).

Lemma wp_hash_once m u tr : Inv m u tr -> wp hash_once m u tr goes_on.
Proof.
  intros Hi. unfold hash_once, send_share. repeat wp_step; try by apply inv_next.
  apply wp_await; [by eapply inv_share|]. intros o k Ho. destruct o; simplify_eq. repeat wp_step.
  apply inv_next, inv_read; [done|not_told|by eapply inv_share].
Qed.

Lemma wp_check_time duty_percent t m u tr :
  Inv m u tr -> wp (check_time duty_percent t) m u tr (Keeps (fun o => default false o)).
Proof.
  intros Hi. unfold check_time. do 2 wp_step. simpl. wp_step; [|by apply wp_ret].
  wp_step. apply wp_now; [done|done|]. intros t' Hi'. simpl. wp_step; [by apply wp_ret|].
  wp_step. apply wp_load_shutdown; [done|done|]. intros b Hb. simpl. apply wp_ret. by destruct b.
Qed.

Lemma wp_check_command m u tr :
  Inv m u tr -> wp check_command m u tr (fun r m' u' tr' =>
    match r with
    | Ret (Some c) => m' = m /\ tr' = tr /\ exists u1, u' = u1 ++ [Received c] /\ Inv m u1 tr
    | Ret None | Wait => Inv m' u' tr'
    | _ => False
    end).
Proof.
  intros Hi. unfold check_command. do 2 wp_step. simpl. wp_step; [|by apply wp_ret].
  wp_step. apply wp_try_recv; [done|done|..]; simpl.
  - intros c. apply wp_ret. split_and!; eauto.
  - intros Hi'. by apply wp_ret.
  - intros Hi'. by apply wp_ret.
Qed.

Lemma wp_work_turn duty_percent t m u tr :
  Inv m u tr -> wp (work_turn duty_percent t) m u tr (Keeps (fun o => default false o)).
Proof.
  intros Hi. unfold work_turn. wp_step. eapply wp_mono; [by apply wp_check_time|].
  intros [[stop|]|e| |] m1 u1 tr1; simpl; [| |done|done|done].
  { intros Hk. by apply wp_ret. }
  intros Hi1. wp_step. eapply wp_mono; [by apply wp_check_command|].
  intros [[c|]|e| |] m2 u2 tr2; simpl; [| |done|done|done].
  - intros (-> & -> & u3 & -> & Hi3). wp_step. eapply wp_mono; [by apply wp_execute|].
    intros [stop|e| |] m4 u4 tr4; simpl; [|done|done|done]. intros Hk. by apply wp_ret.
  - intros Hi2. wp_step. eapply wp_mono; [by apply wp_hash_once|].
    intros [[]|e| |] m3 u3 tr3; simpl; [|done..]. intros Hi3. by apply wp_ret.
Qed.

Lemma wp_work duty_percent t m u tr : Inv m u tr -> wp (work duty_percent t) m u tr (Keeps id).
Proof.
  intros Hi. apply (wp_bounded (fun _ es => _) Inv); [done|done|]. clear m u tr Hi. intros m u tr Hi.
  eapply wp_mono; [by apply wp_work_turn|]. intros [[stop|]|e| |]; simpl; naive_solver.
Qed.

(** ** The rest of a cycle *)
Lemma inv_roll m u tr t t' :
  NANOS <= elapsed (last_ntime_tick m) t -> Inv m ((u ++ [Clock t]) ++ [Clock t']) tr ->
  Inv (roll_ntime m t') ((u ++ [Clock t]) ++ [Clock t']) tr.
Proof.
  intros Hroll [Ht Hk Hr Hn Hh Hu Ha Hp]. split; try done.
  - unfold paced in *. rewrite !view_app in *. simpl in *.
    destruct (assigned _) as [[task since]|]; [|by rewrite Ht].
    destruct Ht as (k & Hc & Hs). exists (S k). rewrite Hc. split; [done|]. intros Hst.
    destruct (Hs Hst) as [Hsince Hk']. specialize (Hk Hst). split; [done|]. intros _.
    apply andb_prop in Hst as [_ Hle%Z.leb_le]. unfold elapsed, NANOS in *.
    destruct k as [|k]; [lia|]. specialize (Hk' ltac:(done)). lia.
  - rewrite !view_app. simpl. lia.
  - simpl. rewrite Hr. by destruct (current_task m).
Qed.

Lemma inv_sleep m u tr ms : 0 < ms <= cycle_ms -> Inv m u tr -> Inv m u (tr ++ [Sleep ms]).
Proof.
  intros Hms [Ht Hk Hr Hn Hh Hu Ha Hp]. split; try done.
  - apply Forall_app. by split; [|constructor].
  - unfold replies. rewrite omap_app. simpl. by rewrite app_nil_r.
Qed.

Lemma wp_rest_of_cycle t m u tr : Inv m u tr -> wp (rest_of_cycle t) m u tr goes_on.
Proof.
  intros Hi. unfold rest_of_cycle. wp_step. apply wp_now; [done|done|]. intros t' Hi'. simpl.
  wp_step; wp_step; [|done]. apply inv_sleep; [|done].
  pose proof (wrap_uint 64 (as_millis (elapsed t t')) ltac:(lia)). unfold uint, cycle_ms in *. lia.
Qed.
Lemma wp_maybe_roll_ntime m u tr : Inv m u tr -> wp maybe_roll_ntime m u tr goes_on.
Proof.
  intros Hi. unfold maybe_roll_ntime. wp_step. apply wp_now; [done|done|]. intros t Hi'. simpl.
  do 2 wp_step. simpl. wp_step; [|by apply wp_ret]. wp_step. apply wp_now; [done|done|]. intros t' Hi2. simpl.
  wp_step. apply inv_roll; [lia|done].
Qed.
Lemma wp_maybe_publish_rate m u tr : Inv m u tr -> wp maybe_publish_rate m u tr goes_on.
Proof.
  intros Hi. unfold maybe_publish_rate. wp_step. apply wp_now; [done|done|]. intros t Hi'. simpl.
  do 2 wp_step. simpl. wp_step; [|by apply wp_ret]. wp_step. apply wp_now; [done|done|]. intros t' Hi2. simpl.
  wp_step. apply wp_now; [done|done|]. intros t'' Hi3. simpl. wp_step.
  apply (inv_same m); try done. by destruct Hi3.
Qed.

(** One part of a cycle after another. *)
Lemma wp_then {A} (p : M unit) (k : M A) m u tr Q :
  wp p m u tr goes_on -> (forall m u tr, Inv m u tr -> wp k m u tr Q) ->
  (forall m u tr, Inv m u tr -> Q Wait m u tr) ->
  wp (p ;! k) m u tr Q.
Proof.
  intros Hp Hk Hw. wp_step. eapply wp_mono; [exact Hp|].
  intros [[]|e| |] m' u' tr'; simpl; [|done|done|by apply Hw]. intros Hi. by apply Hk.
Qed.
Lemma wp_unless {A} (p : M bool) (a : A) (k : M A) (stopped : A -> bool) m u tr :
  stopped a = true -> wp p m u tr (Keeps id) -> (forall m u tr, Inv m u tr -> wp k m u tr (Keeps stopped)) ->
  wp (do! stop := p in if (stop : bool) then ret a else k) m u tr (Keeps stopped).
Proof.
  intros Ha Hp Hk. wp_step. eapply wp_mono; [exact Hp|].
  intros [stop|e| |] m' u' tr'; simpl; [|done|done|done]. intros Hs.
  destruct stop; [|by apply Hk]. apply wp_ret. simpl. by rewrite Ha.
Qed.

Lemma wp_miner_turn duty_percent m u tr :
  Inv m u tr -> wp (turn duty_percent) m u tr (Keeps (fun o => bool_decide (o = Some tt))).
Proof.
  intros Hi. unfold turn. apply wp_unless; [done| |].
  { apply wp_load_shutdown; [done|done|]. intros b Hb. by destruct b. }
  clear m u tr Hi. intros m u tr Hi. apply wp_unless; [done|by apply wp_drain|].
  clear m u tr Hi. intros m u tr Hi. do 2 wp_step. simpl. wp_step.
  - wp_step. apply wp_now; [done|done|]. intros t' Hi'. simpl. apply wp_unless; [done|by apply wp_work|].
    clear. intros m u tr Hi. apply wp_then; [by apply wp_rest_of_cycle| |done].
    clear. intros m u tr Hi. apply wp_then; [by apply wp_maybe_roll_ntime| |done].
    clear. intros m u tr Hi. apply wp_then; [by apply wp_maybe_publish_rate| |done].
    clear. intros m u tr Hi. by apply wp_ret.
  - repeat wp_step. by apply inv_sleep.
Qed.

Lemma miner_inv_start t' status : Inv (start begin t' status) [] [].
Proof. split; simpl; try done; first [lia|constructor]. Qed.
End Invariant.

(** ** The start of a turn *)
Section Turn.
Context `{B : Bitcoin} `{P : BitcoinPow} (duty_percent : Z).
Abbreviation M := (Effects.M miner outcome action Empty_set).

Lemma flag_ends_loop m es : run_mining_loop duty_percent m (Flag true :: es) = (Ret tt, m, es, []).
Proof. reflexivity. Qed.

Lemma bind_run {A C} (m : M A) (k : A -> M C) s es a s1 es1 tr1 r s2 es2 tr2 :
  m s es = (Ret a, s1, es1, tr1) -> k a s1 es1 = (r, s2, es2, tr2) -> bind m k s es = (r, s2, es2, tr1 ++ tr2).
Proof. intros Hm Hk. unfold bind. by rewrite Hm, Hk. Qed.

(** Pending commands are executed up to the end of the channel. *)
Lemma drain_closed cs m es n : Forall (fun c => c <> Shutdown) cs -> (length cs < n)%nat ->
  exists m' tr, rounds n (do! r := try_recv in
      match r with
      | Got c => do! stop := execute c in ret (if stop : bool then Some true else None)
      | Nothing => ret (Some false)
      | Closed => ret (Some true)
      end) m (map Received cs ++ Disconnected :: es) = (Ret true, m', es, tr).
Proof.
  match goal with |- context [rounds _ ?b _ _] => set (body := b) end.
  assert (Hstep : forall m c m1 tr1 es, execute c m es = (Ret false, m1, es, tr1) ->
    body m (Received c :: es) = (Ret None, m1, es, tr1)).
  { intros m0 c m1 tr1 es0 He. unfold body, bind, try_recv, await, ret at 1. rewrite He. unfold ret. simpl.
    by rewrite app_nil_r. }
  intros Hcs. revert m n. induction Hcs as [|c cs Hc _ IH]; intros m [|n] Hn; simpl in Hn; try lia; [by eexists _, _|].
  assert (He : exists m1 tr1, forall es1, execute c m es1 = (Ret false, m1, es1, tr1))
    by (destruct c; [by eexists _, _..|done]).
  destruct He as (m1 & tr1 & He). destruct (IH m1 n ltac:(lia)) as (m' & tr & Hr). exists m', (tr1 ++ tr).
  cbn [rounds map app]. unfold bind at 1. by rewrite (Hstep _ _ _ _ _ (He _)), Hr.
Qed.

Lemma closed_ends_loop cs m es : Forall (fun c => c <> Shutdown) cs ->
  exists m' tr, run_mining_loop duty_percent m (Flag false :: map Received cs ++ Disconnected :: es) = (Ret tt, m', es, tr).
Proof.
  intros Hcs.
  destruct (drain_closed cs m es (S (length (map Received cs ++ Disconnected :: es))) Hcs) as (m' & tr & Hd).
  { rewrite length_app, length_map. simpl. lia. }
  assert (Ht : turn duty_percent m (Flag false :: map Received cs ++ Disconnected :: es) = (Ret (Some tt), m', es, tr)).
  { unfold turn.
    rewrite (bind_run load_shutdown _ m _ false m (map Received cs ++ Disconnected :: es) [] (Ret (Some tt)) m' es tr);
      [reflexivity|reflexivity|]. cbv beta iota.
    rewrite (bind_run drain _ _ _ true m' es tr (Ret (Some tt)) m' es []); [by rewrite app_nil_r|exact Hd|reflexivity]. }
  exists m', tr. unfold run_mining_loop, Effects.loop. cbn [rounds].
  rewrite (bind_run _ _ _ _ _ _ _ _ (Ret tt) m' es [] Ht); [by rewrite app_nil_r|reflexivity].
Qed.
End Turn.



(** ** The loop over nonces ends *)
Section Bound.
Context `{B : Bitcoin} `{P : BitcoinPow} (duty_percent cycle_start : Z).

(** The hashes to the next reading of the clock, and ten thousand for each outcome. *)
Definition remaining (m : miner) (es : list outcome) : nat :=
  Z.to_nat (10000 * Z.of_nat (length es) + (- hashes_computed m) mod 10000).

(** A turn that goes on hashes once, and reads the clock if it is time to. *)
Lemma work_turn_hashes m :
  wp (work_turn duty_percent cycle_start) m [] [] (fun r m' u _ => r = Ret None ->
    hashes_computed m' = wrap 64 (hashes_computed m + 1) /\ (hashes_computed m mod 10000 = 0 -> u <> [])).
Proof.
  unfold work_turn. wp_step.
  apply (wp_mono _ _ _ _ (fun r m' u _ => r = Ret None -> m' = m /\ (hashes_computed m mod 10000 = 0 -> u <> []))).
  { unfold check_time. do 2 wp_step. simpl. wp_step; [|apply wp_ret; intros _; split; [done|]; intros ?; lia].
    wp_step. apply wp_await; [done|]. intros [] k Hk; simplify_eq. wp_step. simpl. wp_step; [by wp_step|].
    wp_step. apply wp_await; [done|]. intros [b| | | | |] k Hk; simplify_eq. wp_step. simpl. wp_step.
    intros _. by split. }
  intros [[stop|]|e| |] m1 u1 tr1; simpl; [| |done|done|done]; [intros _; by apply wp_ret|].
  intros H. destruct (H eq_refl) as [-> Hu]. clear H. wp_step.
  apply (wp_mono _ _ _ _ (fun r m' u _ => r = Ret None -> m' = m /\ u1 `prefix_of` u)).
  { unfold check_command. do 2 wp_step. simpl. wp_step; [|by apply wp_ret].
    wp_step. apply wp_await; [done|]. intros o k Hk. destruct o; simplify_eq; wp_step; simpl; wp_step; [done|..].
    all: intros _; split; [done|by eexists]. }
  intros [[c|]|e| |] m2 u2 tr2; simpl; [| |done|done|done].
  - intros _. wp_step. apply (wp_mono _ _ _ _ (fun _ _ _ _ => True)).
    { unfold execute. destruct c; repeat wp_step; done. }
    intros [stop|e| |]; simpl; try done. intros. by apply wp_ret.
  - intros H. destruct (H eq_refl) as [-> [w ->]]. wp_step. unfold hash_once.
    assert (Hend : forall (x : list outcome), hashes_computed m mod 10000 = 0 -> (u1 ++ w) ++ x <> [])
      by (intros x Hm; specialize (Hu Hm); by destruct u1).
    unfold send_share. repeat wp_step; try (intros _; split; [done|rewrite <- (app_nil_r (u1 ++ w)); apply Hend]).
    apply wp_await; [done|]. intros o k Hk. destruct o; simplify_eq. repeat wp_step. intros _. split; [done|apply Hend].
Qed.

Lemma countdown h : h mod 10000 <> 0 -> (- (h + 1)) mod 10000 < (- h) mod 10000.
Proof. intros. Z.to_euclidean_division_equations. lia. Qed.

Lemma work_turn_decreases :
  Decreases_inv (fun m => uint 64 (hashes_computed m)) remaining (work_turn duty_percent cycle_start).
Proof.
  intros m es m' es' tr Hm Hrun. destruct (work_turn_hashes m _ _ _ _ _ Hrun) as (u & -> & H).
  destruct (H eq_refl) as [Hh' Hu]. unfold remaining.
  rewrite Hh', length_app. split; [by apply wrap_uint|]. simpl in Hu.
  unfold uint in Hm. set (h := hashes_computed m) in *.
  assert (Hw : wrap 64 (h + 1) = h + 1 \/ h = 2 ^ 64 - 1 /\ wrap 64 (h + 1) = 0).
  { unfold wrap. destruct (decide (h = 2 ^ 64 - 1)) as [->|]; [by right|]. left. apply Z.mod_small. lia. }
  assert (Hlt : (- wrap 64 (h + 1)) mod 10000 < 10000 * Z.of_nat (length u) + (- h) mod 10000).
  { pose proof (Z.mod_pos_bound (- wrap 64 (h + 1)) 10000 ltac:(lia)).
    destruct Hw as [Hw|[Hh Hw]]; rewrite Hw in *.
    - destruct (decide (h mod 10000 = 0)) as [Hz|Hz].
      + destruct u; [by specialize (Hu Hz)|]. simpl. pose proof (Z.mod_pos_bound (- h) 10000 ltac:(lia)). lia.
      + pose proof (countdown h Hz). lia.
    - rewrite Hh. change (- 0 mod 10000) with 0. change (- (2 ^ 64 - 1) mod 10000) with 8385. lia. }
  pose proof (Z.mod_pos_bound (- wrap 64 (h + 1)) 10000 ltac:(lia)). pose proof (Z.mod_pos_bound (- h) 10000 ltac:(lia)).
  lia.
Qed.
End Bound.

(** The bound on the hashing of a cycle is never met.  From any count of hashes, any
    larger bound gives the same run: the clock is read at least every ten thousand hashes,
    wrapping of the counter included, so the loop over nonces ends or waits for an
    outcome it has not got. *)
Theorem mining_work_unbounded `{B : Bitcoin} `{P : BitcoinPow} duty_percent cycle_start m outcomes fuel :
  uint 64 (hashes_computed m) -> (Z.to_nat (10000 * (1 + Z.of_nat (length outcomes))) <= fuel)%nat ->
  rounds fuel (work_turn duty_percent cycle_start) m outcomes = work duty_percent cycle_start m outcomes.
Proof.
  intros Hm Hf. unfold work.
  apply (rounds_measure_inv _ _ _ (work_turn_decreases duty_percent cycle_start)); [done| |];
    unfold remaining; pose proof (Z.mod_pos_bound (- hashes_computed m) 10000 ltac:(lia)); lia.
Qed.

Lemma mining_work_unbounded_witness :
  let B := {| txid _ := None; sha256d l := l; block_hash _ := []; target_met_by _ _ := false |} in
  let m := start 0 0 (MkStatus 0 0 false) in
  uint 64 (hashes_computed m) /\
  rounds (Z.to_nat 20001) (@work_turn B bitcoin_ref 50 0) m [Clock 0] = @work B bitcoin_ref 50 0 m [Clock 0].
Proof.
  intros B m. assert (Hm : uint 64 (hashes_computed m)) by (unfold uint; simpl; lia). split; [exact Hm|].
  apply mining_work_unbounded; [exact Hm|]. simpl length. lia.
Defined.

(** ** Duty *)
(** The work of a cycle is the duty's share of it, exactly. *)
Lemma work_ms_exact d : 1 <= d <= 100 -> work_ms d = 10 * d.
Proof.
  intros Hd. assert (H : forallb (fun n => work_ms (Z.of_nat n) =? 10 * Z.of_nat n) (seq 1 100) = true) by (by vm_compute).
  rewrite forallb_forall in H. specialize (H (Z.to_nat d)). rewrite Z2Nat.id in H by lia.
  apply Z.eqb_eq, H. apply in_seq. lia.
Qed.

Lemma from_env_duty var config : from_env var = Some config -> 1 <= CpuMiner.duty_percent config <= 100.
Proof.
  unfold from_env. intros H. apply bind_Some in H as (n & _ & [= <-]). simpl. lia.
Qed.

(** ** Counting without hashing

    A task whose root of transactions cannot be computed is hashed by nobody, but its
    nonces are counted: the thread reports a hash rate for it. *)
Section Rootless.
#[local] Instance no_bitcoin : Bitcoin := {|
  txid _ := None; sha256d l := l; block_hash _ := []; target_met_by _ _ := false |}.
#[local] Existing Instance bitcoin_ref.

Definition rootless : Task :=
  HashThread.MkTask (Job.MkTask (MkJob "a"%string [] (VersionTemplate.Mk 0 GpBits.none) 0 0 0
    (Computed (MerkleRootTemplate.Mk [] [] (ExtranonceRange.Mk 0 255 1) [] []))) None
    (Some (Extranonce.Mk 0 1)) 0 7) 0.

Lemma rootless_task_reports_rate :
  let cycle t := [Clock t; Flag false] ++ repeat Empty 10 ++ [Clock (t + 500 * MILLIS)] in
  let outcomes := [Flag false; Received (UpdateTask rootless 1); Empty; Clock 0] ++ cycle 0 ++
    [Clock (600 * MILLIS); Clock (600 * MILLIS); Clock (5 * NANOS); Clock (5 * NANOS); Clock (5 * NANOS)] in
  let '(r, m, _, tr) := run_mining_loop 50 (start 0 0 (MkStatus 0 0 false)) outcomes in
  status m = MkStatus 2000 0 true /\ cached_merkle_root m = None /\ tr = [Reply 1 None; Sleep 400].
Proof. by vm_compute. Qed.
End Rootless.
