(* ===== verification/ForcedRate.v ===== *)
(** * The forced rate source (job_source/forced_rate.rs)

    A wrapper between the scheduler and a source.  What its [select!] sees is an
    outcome, and so is the fate of each message it sends; a panic of the conversion
    of rates is an error of its own. *)
From stdpp Require Import base numbers list strings.
From Stdlib Require Import ZArith Lia SpecFloat.
From S2P Require Import Prelude Float U256 Version Extranonce Job Estimator ShareRate Effects.
#[local] Open Scope eff_scope.

Inductive outcome :=
| Event (e : option SourceEvent)      (* [None]: the inner source has closed *)
| Command (c : option SourceCommand)  (* [None]: the scheduler has closed *)
| Cancelled
| Sent | Closed.

Inductive action :=
| ToScheduler (e : SourceEvent)
| ToSource (c : SourceCommand).

Inductive error := SendFailed | Panicked.

(** ** Configuration *)
Section Config.
(** The environment, and [str::parse] for f64. *)
Context (var : string -> option string) (parse_f64 : string -> option float).

Definition shares_per_min (val : string) : float :=
  match parse_f64 val with
  | Some v => if is_finite v && f_lt f64_zero v then v else f_of_Z f64 18
  | None => f_of_Z f64 18
  end.
(** The rate, if the variable is set; [Some None] is a panic. *)
Definition from_env : option (option Z) :=
  val ← var "MUJINA_POOL_FORCED_RATE"%string; Some (ShareRate.per_minute (shares_per_min val)).
End Config.

(** ** The wrapper; its state is the hash rate. *)
Section Source.
Context `{R : Ruint} (integer_decode : float -> Z * Z) (target_rate : Z).
Abbreviation M := (Effects.M HashRate.t outcome action error).

Definition with_target (job : JobTemplate) (target : Z) : JobTemplate :=
  MkJob (job_id job) (prev_blockhash job) (version job) (bits job) target (time job) (merkle_root job).

(** [None]: the conversion panics. *)
Definition modify_job (hashrate : HashRate.t) (job : JobTemplate) : option JobTemplate :=
  if HashRate.is_zero hashrate then Some job
  else target ← ShareRate.to_target integer_decode target_rate hashrate; Some (with_target job target).

Definition modify (hashrate : HashRate.t) (e : SourceEvent) : option SourceEvent :=
  match e with
  | UpdateJob job => option_map UpdateJob (modify_job hashrate job)
  | ReplaceJob job => option_map ReplaceJob (modify_job hashrate job)
  | ClearJobs => Some ClearJobs
  end.

(** [send(..).await?]. *)
Definition send (a : action) : M unit :=
  act a ;! await (fun o => match o with Sent => Some (ret tt) | Closed => Some (raise SendFailed) | _ => None end).

Definition on_event (e : SourceEvent) : M (option unit) :=
  do! hashrate := get in
  match modify hashrate e with
  | Some modified => send (ToScheduler modified) ;! ret None
  | None => raise Panicked
  end.
Definition on_command (c : SourceCommand) : M (option unit) :=
  (match c with UpdateHashRate hr => put hr | _ => ret tt end) ;!
  send (ToSource c) ;! ret None.

Definition turn : M (option unit) :=
  await (fun o => match o with
    | Event (Some e) => Some (on_event e)
    | Command (Some c) => Some (on_command c)
    | Event None | Command None | Cancelled => Some (ret (Some tt))
    | _ => None
    end).
Definition run : M unit := loop turn.
Definition start : HashRate.t := 0.
End Source.
