(* ===== verification/ForcedRateProps.v ===== *)
(** * What the forced rate source promises

    It forwards everything, once and in order, and changes nothing of it but the share
    target of a job, which becomes the target of the configured rate. *)
From stdpp Require Import base numbers list strings.
From Stdlib Require Import ZArith Lia SpecFloat.
From S2P Require Import Prelude Float U256 Version Extranonce Job Estimator ShareRate Effects ForcedRate.
#[local] Open Scope eff_scope.

(** The rate that was last announced. *)
Definition announced (u : list outcome) : HashRate.t :=
  fold_left (fun r o => match o with Command (Some (UpdateHashRate hr)) => hr | _ => r end) u 0.

(** An outcome that ends the wrapper. *)
Definition ends (o : outcome) : Prop := o = Event None \/ o = Command None \/ o = Cancelled.

Section Contract.
Context `{R : Ruint} (integer_decode : float -> Z * Z) (target_rate : Z).

(** A job as it was, or with the target of the configured rate at the hash rate. *)
Definition retargeted (hashrate : HashRate.t) (job job' : JobTemplate) : Prop :=
  job_id job' = job_id job /\ prev_blockhash job' = prev_blockhash job /\ version job' = version job /\
  bits job' = bits job /\ time job' = time job /\ merkle_root job' = merkle_root job /\
  (hashrate = 0 -> share_target job' = share_target job) /\
  (hashrate <> 0 -> ShareRate.to_target integer_decode target_rate hashrate = Some (share_target job')).

(** What becomes of a message, given all that was received up to it. *)
Inductive forwards (u : list outcome) : outcome -> action -> Prop :=
| forwards_update job job' : retargeted (announced u) job job' ->
    forwards u (Event (Some (UpdateJob job))) (ToScheduler (UpdateJob job'))
| forwards_replace job job' : retargeted (announced u) job job' ->
    forwards u (Event (Some (ReplaceJob job))) (ToScheduler (ReplaceJob job'))
| forwards_clear : forwards u (Event (Some ClearJobs)) (ToScheduler ClearJobs)
| forwards_command c : forwards u (Command (Some c)) (ToSource c).

(** The messages of a log are the forwarded ones, in order. *)
Inductive relayed : list outcome -> list action -> Prop :=
| relayed_nil : relayed [] []
| relayed_fate u tr o : o = Sent \/ o = Closed -> relayed u tr -> relayed (u ++ [o]) tr
| relayed_end u tr o : ends o -> relayed u tr -> relayed (u ++ [o]) tr
| relayed_message u tr o a : forwards u o a -> relayed u tr -> relayed (u ++ [o]) (tr ++ [a]).
#[local] Hint Constructors forwards relayed : core.

Lemma modify_retargets hr job job' :
  modify_job integer_decode target_rate hr job = Some job' -> retargeted hr job job'.
Proof.
  unfold modify_job, HashRate.is_zero. destruct (Z.eqb_spec hr 0) as [->|Hhr].
  - intros [= <-]. by split_and!.
  - intros H. apply bind_Some in H as (t & Ht & [= <-]). by split_and!.
Qed.
Lemma modify_forwards u e e' :
  modify integer_decode target_rate (announced u) e = Some e' ->
  forwards u (Event (Some e)) (ToScheduler e').
Proof.
  destruct e as [job|job|]; simpl; intros H; [apply fmap_Some in H as (job' & H & ->)..|by injection H as <-];
    auto using modify_retargets.
Qed.

Lemma announced_app u o :
  announced (u ++ [o]) = match o with Command (Some (UpdateHashRate hr)) => hr | _ => announced u end.
Proof. unfold announced. by rewrite fold_left_app. Qed.

Definition Inv (hr : HashRate.t) (u : list outcome) (tr : list action) : Prop :=
  hr = announced u /\ relayed u tr.

(** A run ends as the last outcome says. *)
Definition Post (r : res error unit) (u : list outcome) (tr : list action) : Prop :=
  match r with
  | Ret _ => relayed u tr /\ exists u1 o, u = u1 ++ [o] /\ ends o
  | Raise SendFailed => relayed u tr /\ exists u1, u = u1 ++ [Closed]
  | Raise Panicked => exists u1 e, u = u1 ++ [Event (Some e)] /\ relayed u1 tr /\
      announced u1 <> 0 /\ ShareRate.to_target integer_decode target_rate (announced u1) = None
  | Wait => relayed u tr
  | Cut => False
  end.

(** After a turn. *)
Definition Turned : Effects.post HashRate.t outcome action error (option unit) := fun r hr u tr =>
  match r with
  | Ret None => Inv hr u tr
  | Ret (Some a) => Post (Ret a) u tr
  | Raise e => Post (Raise e) u tr
  | Cut => False
  | Wait => Post Wait u tr
  end.

Lemma wp_send a hr u tr o :
  forwards u o a -> hr = announced (u ++ [o]) -> relayed u tr ->
  wp (send a ;! ret None) hr (u ++ [o]) tr Turned.
Proof.
  intros Hf -> Hr. unfold send. do 4 wp_step. apply wp_await; [simpl; auto|].
  intros o' k Ho'. destruct o'; simplify_eq; repeat wp_step.
  - split; [by rewrite !announced_app|]. auto.
  - split; [auto|]. by eexists.
Qed.

Lemma wp_forced_turn hr u tr : Inv hr u tr ->
  wp (turn integer_decode target_rate) hr u tr Turned.
Proof.
  intros [-> Hr]. apply wp_await; [done|].
  assert (Hend : forall o, ends o -> wp (ret (Some tt)) (announced u) (u ++ [o]) tr Turned).
  { intros o Ho. apply wp_ret. split; [auto|]. by exists u, o. }
  intros o k Ho. destruct o as [[e|]|[c|]| | |]; simplify_eq; try by (apply Hend; red; auto).
  - unfold on_event. do 2 wp_step. simpl. destruct (modify _ _ _ e) as [e'|] eqn:Hm.
    + eapply wp_send; [by apply modify_forwards|by rewrite announced_app|done].
    + wp_step. exists u, e. split_and!; [done|done|..];
        destruct e; simplify_eq/=; apply fmap_None in Hm; unfold modify_job, HashRate.is_zero in Hm;
        destruct (Z.eqb_spec (announced u) 0); try done; by destruct (ShareRate.to_target _ _ _).
  - unfold on_command. wp_step. destruct c as [s|hr]; wp_step;
      (eapply wp_send; [constructor|by rewrite announced_app|done]).
Qed.
End Contract.

(** The forced rate source forwards.  Over every run, all messages received from the source
    and the scheduler are sent on, once and in the order they came, unchanged but for the
    share target of jobs: with a hash rate announced it is the target at which that rate
    gives the configured rate of shares, without one it is left alone.  The wrapper ends
    when a side has closed or it is cancelled, fails when a message cannot be sent, and
    panics only where the conversion of rates has no result. *)
Theorem forced_rate_forwards `{R : Ruint} integer_decode target_rate outcomes :
  let '(r, _, rest, tr) := run integer_decode target_rate start outcomes in
  exists u, outcomes = u ++ rest /\ Post integer_decode target_rate r u tr.
Proof.
  assert (Hwp : wp (run integer_decode target_rate) start [] [] (fun r _ u tr => Post integer_decode target_rate r u tr)).
  { apply (wp_loop (Inv integer_decode target_rate)); [split; [done|constructor]|by intros ??? []|].
    intros hr u tr Hi. eapply wp_mono; [by apply wp_forced_turn|]. by intros [[[]|]|[]| |]. }
  destruct (run _ _ _ _) as [[[r hr] rest] tr] eqn:Hrun.
  destruct (Hwp _ _ _ _ _ Hrun) as (u & -> & H). by exists u.
Qed.

(** The configured rate can abort the program: the check of the variable lets every finite
    positive number through, and the interval of 10^-30 shares a minute is more than a
    duration holds. *)
Theorem forced_rate_config_panics parse_f64 :
  parse_f64 "1e-30"%string = Some (f_lit f64 1 (10 ^ 30)) ->
  from_env (fun _ => Some "1e-30"%string) parse_f64 = Some None.
Proof. intros H. unfold from_env, shares_per_min. simpl. rewrite H. by vm_compute. Qed.

Lemma forced_rate_config_panics_witness :
  let parse (s : string) := Some (f_lit f64 1 (10 ^ 30)) in
  from_env (fun _ => Some "1e-30"%string) parse = Some None.
Proof. intros parse. apply (forced_rate_config_panics parse). reflexivity. Defined.
