(* ===== verification/Usb.v ===== *)
(** * USB discovery (transport/usb.rs, transport/usb/linux.rs, macos.rs)

    The monitor that reports USB devices, and the search for the serial ports of a
    device.  The nusb crate's view of a device is the class [Nusb]; the list of
    devices, hotplug events and scans of sysfs or of the IOKit registry are outcomes. *)
From stdpp Require Import base numbers list strings gmap sorting.
From Stdlib Require Import ZArith Lia.
From S2P Require Import Prelude Text Effects Stratum Backplane.
#[local] Open Scope eff_scope.

Class Nusb := {
  DeviceId : Type;
  device_id_eq :: EqDecision DeviceId;
  device_id_countable :: Countable DeviceId;
  DeviceInfo : Type;
  id : DeviceInfo -> DeviceId;
  vendor_id : DeviceInfo -> Z; product_id : DeviceInfo -> Z; device_version : DeviceInfo -> Z;
  serial_string : DeviceInfo -> option string; manufacturer_string : DeviceInfo -> option string;
  product_string : DeviceInfo -> option string;
  sysfs_path : DeviceInfo -> list Z }.

(** [to_string_lossy] of the path's bytes. *)
Definition platform_device_path `{Nusb} (device : DeviceInfo) : string :=
  String.string_of_list_ascii (map (fun b => Ascii.ascii_of_N (Z.to_N b)) (from_utf8_lossy (sysfs_path device))).

Definition build_device_info `{Nusb} (device : DeviceInfo) : UsbDeviceInfo :=
  MkUsb (vendor_id device) (product_id device) (device_version device) (serial_string device)
    (manufacturer_string device) (product_string device) (platform_device_path device).

(** ** The monitor *)
Module Monitor.
Section Monitor.
Context `{Nusb}.

Inductive HotplugEvent := Connected (device : DeviceInfo) | Disconnected (id : DeviceId).

(** [Listed None] is an error of [list_devices]; [Hotplug None] the end of the stream. *)
Inductive outcome :=
| Listed (devices : option (list DeviceInfo))
| Sent | SendFailed
| Hotplug (event : option HotplugEvent)
| Cancelled.

(** The state is [known_devices]; the events sent are the actions. *)
Abbreviation M := (Effects.M (gmap DeviceId string) outcome TransportEvent unit).

Definition send (event : TransportEvent) : M bool :=
  act event ;! await (fun o => match o with Sent => Some (ret true) | SendFailed => Some (ret false) | _ => None end).

Definition connect (device : DeviceInfo) : M bool :=
  let info := build_device_info device in
  do! known_devices := get in
  put (<[id device := device_path info]> known_devices) ;!
  send (UsbDeviceConnected info).

(** False if the receiver is gone. *)
Fixpoint enumerate (devices : list DeviceInfo) : M bool :=
  match devices with
  | [] => ret true
  | device :: devices => do! ok := connect device in if (ok : bool) then enumerate devices else ret false
  end.

Definition hotplug (event : HotplugEvent) : M (option unit) :=
  do! known_devices := get in
  match event with
  | Connected device =>
      match known_devices !! id device with
      | Some _ => ret None
      | None => do! ok := connect device in ret (if ok : bool then None else Some tt)
      end
  | Disconnected id =>
      match known_devices !! id with
      | None => ret None
      | Some path =>
          put (delete id known_devices) ;!
          do! ok := send (UsbDeviceDisconnected path) in ret (if ok : bool then None else Some tt)
      end
  end.

Definition turn : M (option unit) :=
  await (fun o => match o with
    | Hotplug (Some event) => Some (hotplug event)
    | Hotplug None | Cancelled => Some (ret (Some tt))
    | _ => None
    end).

Definition list_devices : M (list DeviceInfo) :=
  await (fun o => match o with
    | Listed (Some devices) => Some (ret devices)
    | Listed None => Some (raise tt)
    | _ => None
    end).

Definition monitor : M unit :=
  do! devices := list_devices in
  do! ok := enumerate devices in
  if negb ok then ret tt else
  do! ok := send InitialEnumerationComplete in
  if negb ok then ret tt else loop turn.
Definition start : gmap DeviceId string := ∅.
End Monitor.
End Monitor.

(** ** The serial ports of a device *)
Module SerialPorts.
(** A scan has seen something of type [S], or has failed. *)
Inductive outcome {S : Type} := Scanned (s : S) | ScanFailed | Slept.
Arguments outcome S : clear implicits.
Inductive action := Scan | Sleep (ms : Z).
Inductive error := Failed | Missing (expected found : nat).

Definition RETRIES : nat := 20.
Definition DELAY : Z := 100.

#[export] Instance str_le_dec (s s' : string) : Decision (String.leb s s' = true).
Proof. apply _. Defined.
(** [ports.sort()]. *)
Definition sort : list string -> list string := merge_sort (fun s s' => String.leb s s' = true).

(** Both platforms retry in the same way; they differ in what of a scan is usable. *)
Section Attempts.
Context {S : Type} (usable : S -> list string).
Abbreviation M := (Effects.M unit (outcome S) action error).

Definition scan : M (list string) :=
  act Scan ;!
  await (fun o => match o with
    | Scanned s => Some (ret (usable s)) | ScanFailed => Some (raise Failed) | _ => None end).

(** The attempts that are left. *)
Fixpoint attempts (left_ : nat) (expected found : nat) : M (list string) :=
  match left_ with
  | O => raise (Missing expected found)
  | Datatypes.S left_ =>
      do! ports := scan in
      if (expected <=? length ports)%nat then ret ports
      else
        (if (0 <? left_)%nat
         then act (Sleep DELAY) ;! await (fun o => match o with Slept => Some (ret tt) | _ => None end)
         else ret tt) ;!
        attempts left_ expected (Nat.max found (length ports))
  end.
End Attempts.

(** *** Linux: the tty devices below the device in sysfs, each with its node, if it has one
    that is UTF-8, and whether access is allowed.  The scan fails if the device cannot be
    opened or scanned. *)
Module Linux.
Definition ttys : Type := list (option (string * bool)).
Definition usable (ttys : ttys) : list string :=
  let ports := omap (fun tty => tty) ttys in
  if bool_decide (ports = []) then []
  else if negb (forallb snd ports) then []
  else sort (map fst ports).
Definition get_serial_ports (expected : nat) : Effects.M unit (outcome ttys) action error (list string) :=
  attempts usable RETRIES expected 0.
End Linux.

(** *** macOS: the entries of the serial service in the IOKit registry, each with its
    callout device, if it has one that is a string, and the location of the nearest device
    above it, if there is one and it is a number.  The scan fails if IOKit does. *)
Module MacOS.
Record entry := MkEntry { callout : option string; location : option Z }.

(** [device_path] of a device by its location, and the location of a path. *)
Definition device_path (location_id : Z) : string := ("IOKit:0x" +:+ hex8 location_id)%string.
Fixpoint strip_prefix (prefix s : string) : option string :=
  match prefix, s with
  | EmptyString, _ => Some s
  | String c prefix, String d s => if bool_decide (c = d) then strip_prefix prefix s else None
  | _, EmptyString => None
  end.
Definition location_of (path : string) : option Z := s ← strip_prefix "IOKit:0x" path; u32_from_hex s.

(** A location is an [i64] that must fit a [u32] to match. *)
Definition parent_has_location_id (e : entry) (target : Z) : bool := bool_decide (location e = Some target).
Definition usable (location_id : Z) (entries : list entry) : list string :=
  sort (omap (fun e => if parent_has_location_id e location_id then callout e else None) entries).

(** A path that is not of IOKit fails in the first attempt, before the registry is read. *)
Definition get_serial_ports (path : string) (expected : nat) :
    Effects.M unit (outcome (list entry)) action error (list string) :=
  match location_of path with
  | Some location_id => attempts (usable location_id) RETRIES expected 0
  | None => raise Failed
  end.
End MacOS.
End SerialPorts.
