(* ===== verification/UsbProps.v ===== *)
(** * What USB discovery promises

    The receiver of the monitor's events can replay them to the set of devices that are
    plugged in; the ports of a device are sorted, accessible and at least as many as
    expected, or the search has failed twenty times. *)
From stdpp Require Import base numbers list strings gmap sets sorting.
From Stdlib Require Import ZArith Lia.
From S2P Require Import Prelude Text Effects Stratum Backplane Usb.
#[local] Open Scope eff_scope.

Section Monitor.
Context `{Nusb}.
Import Monitor.
Abbreviation M := (Effects.M (gmap DeviceId string) outcome TransportEvent unit).

(** ** The events with the devices they are about *)
Inductive report :=
| Up (i : DeviceId) (info : UsbDeviceInfo)
| Down (i : DeviceId) (path : string)
| Done.
Definition event_of (r : report) : TransportEvent :=
  match r with
  | Up _ info => UsbDeviceConnected info
  | Down _ path => UsbDeviceDisconnected path
  | Done => InitialEnumerationComplete
  end.

(** The devices that are up: one comes up only if it is down, and goes down under the
    path it came up with. *)
Definition replay1 (m : gmap DeviceId string) (r : report) : option (gmap DeviceId string) :=
  match r with
  | Up i info => match m !! i with None => Some (<[i := device_path info]> m) | Some _ => None end
  | Down i path => if bool_decide (m !! i = Some path) then Some (delete i m) else None
  | Done => Some m
  end.
Definition replay (l : list report) : option (gmap DeviceId string) :=
  fold_left (fun m r => m ← m; replay1 m r) l (Some ∅).

(** The devices that are plugged in, by what nusb has told. *)
Definition plug (s : gset DeviceId) (o : outcome) : gset DeviceId :=
  match o with
  | Listed (Some devices) => list_to_set (id <$> devices) ∪ s
  | Hotplug (Some (Connected device)) => {[id device]} ∪ s
  | Hotplug (Some (Disconnected i)) => s ∖ {[i]}
  | _ => s
  end.
Definition plugged (u : list outcome) : gset DeviceId := fold_left plug u ∅.

(** A report is about a device nusb has described. *)
Definition seen (u : list outcome) (r : report) : Prop :=
  match r with
  | Up i info => exists device, i = id device /\ info = build_device_info device /\
      (Hotplug (Some (Connected device)) ∈ u \/ exists devices, Listed (Some devices) ∈ u /\ device ∈ devices)
  | _ => True
  end.

Definition up (device : DeviceInfo) : report := Up (id device) (build_device_info device).

(** A list of devices has each once. *)
Definition listed_once (u : list outcome) : Prop :=
  forall devices, Listed (Some devices) ∈ u -> NoDup (id <$> devices).

(** First the devices of the list, in its order, then the end of the enumeration, then
    what changes: from there on the devices that are up are those plugged in. *)
Definition Reported (u : list outcome) (tr : list TransportEvent) : Prop :=
  exists l m, tr = map event_of l /\ replay l = Some m /\ Forall (seen u) l /\
    ((l = [] /\ forall devices, Listed (Some devices) ∉ u) \/
     exists devices, Listed (Some devices) ∈ u /\
       ((exists l', l ++ l' = map up devices) \/
        (exists l', l = map up devices ++ Done :: l' /\ Done ∉ l' /\ dom m = plugged u))).

(** ** Lemmas *)
Lemma replay_app l r : replay (l ++ [r]) = (m ← replay l; replay1 m r).
Proof. unfold replay. by rewrite fold_left_app. Qed.
Lemma plugged_app u o : plugged (u ++ [o]) = plug (plugged u) o.
Proof. unfold plugged. by rewrite fold_left_app. Qed.

Lemma seen_app u o r : seen u r -> seen (u ++ [o]) r.
Proof.
  destruct r as [i info| |]; [|done..]. simpl. intros (device & -> & -> & [Hd|(ds & Hd & Hin)]); exists device.
  - split_and!; [done..|]. left. set_solver.
  - split_and!; [done..|]. right. exists ds. set_solver.
Qed.
Lemma all_seen_app u o l : Forall (seen u) l -> Forall (seen (u ++ [o])) l.
Proof. intros Hl. eapply Forall_impl; [exact Hl|]. intros r. apply seen_app. Qed.

(** The fate of a send says nothing of devices. *)
Definition fate (o : outcome) : Prop := o = Sent \/ o = SendFailed.
Lemma plugged_fate u o : fate o -> plugged (u ++ [o]) = plugged u.
Proof. intros [-> | ->]; by rewrite plugged_app. Qed.
Lemma listed_fate u o devices : fate o -> Listed (Some devices) ∈ u ++ [o] <-> Listed (Some devices) ∈ u.
Proof. intros [-> | ->]; set_solver. Qed.

Lemma wp_report e known u tr (Q : post (gmap DeviceId string) outcome TransportEvent unit bool) :
  Q Wait known u (tr ++ [e]) ->
  (forall b o, fate o -> Q (Ret b) known (u ++ [o]) (tr ++ [e])) ->
  wp (send e) known u tr Q.
Proof.
  intros Hw Hq. unfold send. do 2 wp_step. simpl. apply wp_await; [done|].
  intros o k Ho. destruct o; simplify_eq; apply wp_ret, Hq; red; auto.
Qed.

(** ** The first enumeration *)
Record Listing (devices done_ : list DeviceInfo) (known : gmap DeviceId string) (u : list outcome)
    (tr : list TransportEvent) : Prop := {
  lst_in : Listed (Some devices) ∈ u;
  lst_done : done_ `prefix_of` devices;
  lst_tr : tr = map event_of (map up done_);
  lst_replay : replay (map up done_) = Some known;
  lst_dom : dom known = list_to_set (id <$> done_);
  lst_plugged : plugged u = list_to_set (id <$> devices) }.

Lemma listing_fate devices done_ known u tr o :
  fate o -> Listing devices done_ known u tr -> Listing devices done_ known (u ++ [o]) tr.
Proof. intros Ho []. split; try done; [by apply listed_fate|by rewrite plugged_fate]. Qed.

Lemma listing_seen devices done_ known u tr :
  Listing devices done_ known u tr -> Forall (seen u) (map up done_).
Proof.
  intros Hl. apply Forall_forall. intros r (d & -> & Hd)%list_elem_of_fmap. simpl.
  exists d. split_and!; [done..|]. right. exists devices. split; [by destruct Hl|].
  destruct Hl as [_ [w ->] _ _ _ _]. set_solver.
Qed.

Lemma listing_reported devices done_ known u tr : Listing devices done_ known u tr -> Reported u tr.
Proof.
  intros Hl. exists (map up done_), known. split_and!; [by destruct Hl|by destruct Hl|by eapply listing_seen|].
  right. exists devices. split; [by destruct Hl|]. left. destruct Hl as [_ [w ->] _ _ _ _].
  exists (map up w). by rewrite map_app.
Qed.

Lemma listing_connect devices done_ device rest known u tr :
  NoDup (id <$> devices) -> devices = done_ ++ device :: rest -> Listing devices done_ known u tr ->
  Listing devices (done_ ++ [device]) (<[id device := device_path (build_device_info device)]> known) u
    (tr ++ [UsbDeviceConnected (build_device_info device)]).
Proof.
  intros Hnd Hdev [Hin Hdone Htr Hre Hdom Hpl]. split; try done.
  - exists rest. by rewrite <- app_assoc.
  - by rewrite Htr, !map_app.
  - rewrite map_app. simpl. rewrite replay_app, Hre. simpl.
    assert (known !! id device = None) as ->; [|done].
    apply not_elem_of_dom. rewrite Hdom, elem_of_list_to_set. rewrite Hdev, fmap_app in Hnd.
    apply NoDup_app in Hnd as (_ & Hnot & _). intros Hi. apply (Hnot _ Hi). left.
  - rewrite dom_insert_L, Hdom, fmap_app, list_to_set_app_L. simpl. set_solver.
Qed.

Lemma wp_enumerate devices rest : NoDup (id <$> devices) -> forall done_ known u tr,
  devices = done_ ++ rest -> Listing devices done_ known u tr ->
  wp (enumerate rest) known u tr (fun r known u tr =>
    match r with
    | Ret ok => exists done_, Listing devices done_ known u tr /\ (ok = true -> done_ = devices)
    | Wait => exists done_, Listing devices done_ known u tr
    | _ => False
    end).
Proof.
  intros Hnd. induction rest as [|device rest IH]; intros done_ known u tr Hdev Hl; simpl.
  - apply wp_ret. exists done_. split; [done|]. by rewrite Hdev, app_nil_r.
  - wp_step. unfold connect. repeat wp_step.
    pose proof (listing_connect _ _ _ _ _ _ _ Hnd Hdev Hl) as Hl'.
    apply wp_report; simpl; [by eexists|]. intros b o Ho.
    apply (listing_fate _ _ _ _ _ o Ho) in Hl'. destruct b; [|apply wp_ret; by eexists].
    apply (IH (done_ ++ [device])); [by rewrite <- app_assoc|done].
Qed.

(** ** Watching *)
Definition Watching (known : gmap DeviceId string) (u : list outcome) (tr : list TransportEvent) : Prop :=
  exists devices l, Listed (Some devices) ∈ u /\
    tr = map event_of (map up devices ++ Done :: l) /\
    replay (map up devices ++ Done :: l) = Some known /\
    Forall (seen u) (map up devices ++ Done :: l) /\ Done ∉ l /\ dom known = plugged u.

Lemma watching_reported known u tr : Watching known u tr -> Reported u tr.
Proof.
  intros (devices & l & Hin & -> & Hre & Hs & Hd & Hp). eexists _, known. split_and!; [done..|].
  right. exists devices. split; [done|]. right. by exists l.
Qed.

Lemma watching_fate known u tr o : fate o -> Watching known u tr -> Watching known (u ++ [o]) tr.
Proof.
  intros Ho (devices & l & Hin & Htr & Hre & Hs & Hd & Hp). exists devices, l.
  split_and!; [by apply listed_fate|done|done|by apply all_seen_app|done|by rewrite plugged_fate].
Qed.

(** A change of the devices that is reported. *)
Lemma watching_report known known' u tr o r :
  Watching known u tr -> replay1 known r = Some known' -> seen (u ++ [o]) r -> r <> Done ->
  dom known' = plug (plugged u) o ->
  Watching known' (u ++ [o]) (tr ++ [event_of r]).
Proof.
  intros (devices & l & Hin & -> & Hre & Hs & Hd & Hp) Hr Hseen Hnd Hdom. exists devices, (l ++ [r]).
  assert (Happ : map up devices ++ Done :: l ++ [r] = (map up devices ++ Done :: l) ++ [r]) by (by rewrite <- app_assoc).
  rewrite Happ. split_and!.
  - set_solver.
  - by rewrite (map_app _ _ [r]).
  - rewrite replay_app, Hre. exact Hr.
  - apply Forall_app. split; [by apply all_seen_app|by repeat constructor].
  - rewrite elem_of_app, list_elem_of_singleton. naive_solver.
  - by rewrite plugged_app.
Qed.

(** An outcome that changes nothing. *)
Lemma watching_same known u tr o :
  Watching known u tr -> plug (plugged u) o = plugged u -> Watching known (u ++ [o]) tr.
Proof.
  intros (devices & l & Hin & Htr & Hre & Hs & Hd & Hp) Ho. exists devices, l.
  split_and!; [set_solver|done|done|by apply all_seen_app|done|by rewrite plugged_app, Ho].
Qed.

Definition Watched : post (gmap DeviceId string) outcome TransportEvent unit (option unit) := fun r known u tr =>
  match r with Ret _ | Wait => Watching known u tr | _ => False end.

Lemma wp_hotplug known u tr event :
  Watching known u tr -> wp (hotplug event) known (u ++ [Hotplug (Some event)]) tr Watched.
Proof.
  intros Hw. assert (Hdom : dom known = plugged u) by (by destruct Hw as (? & ? & ? & ? & ? & ? & ? & ?)).
  unfold hotplug. do 2 wp_step. simpl. destruct event as [device|i].
  - destruct (known !! id device) as [path|] eqn:Hk.
    + apply wp_ret, watching_same; [done|]. simpl. apply elem_of_dom_2 in Hk. set_solver.
    + wp_step. unfold connect. repeat wp_step.
      assert (Hw' : Watching (<[id device := device_path (build_device_info device)]> known)
        (u ++ [Hotplug (Some (Connected device))]) (tr ++ [event_of (up device)])).
      { apply (watching_report known); [done|simpl; by rewrite Hk| |done|simpl; rewrite dom_insert_L; set_solver].
        exists device. split_and!; [done..|]. left. set_solver. }
      apply wp_report; [done|]. intros b o Ho. apply (watching_fate _ _ _ o Ho) in Hw'. by apply wp_ret.
  - destruct (known !! i) as [path|] eqn:Hk.
    + repeat wp_step.
      assert (Hw' : Watching (delete i known) (u ++ [Hotplug (Some (Disconnected i))]) (tr ++ [event_of (Down i path)])).
      { apply (watching_report known); [done|simpl; by rewrite bool_decide_eq_true_2|done|done|].
        simpl. rewrite dom_delete_L. set_solver. }
      apply wp_report; [done|]. intros b o Ho. apply (watching_fate _ _ _ o Ho) in Hw'. by apply wp_ret.
    + apply wp_ret, watching_same; [done|]. simpl. apply not_elem_of_dom in Hk. set_solver.
Qed.

Lemma wp_watch_turn known u tr : Watching known u tr -> wp turn known u tr Watched.
Proof.
  intros Hw. apply wp_await; [done|]. intros o k Ho. destruct o as [| | |[event|]|]; simplify_eq.
  - by apply wp_hotplug.
  - by apply wp_ret, watching_same.
  - by apply wp_ret, watching_same.
Qed.

(** What comes after the list. *)
Lemma wp_listed devices : NoDup (id <$> devices) ->
  wp (do! ok := enumerate devices in
      if negb ok then ret tt else
      do! ok := send InitialEnumerationComplete in
      if negb ok then ret tt else loop turn)
    start [Listed (Some devices)] [] (fun _ _ u tr => Reported u tr).
Proof.
  intros Hnd.
  assert (Hl : Listing devices [] start [Listed (Some devices)] []).
  { split; try done; [set_solver|by exists devices|by unfold plugged; simpl; rewrite union_empty_r_L]. }
  wp_step. eapply wp_mono; [by apply (wp_enumerate devices devices Hnd [])|].
  intros [ok|e| |] known u tr; simpl; try done.
  2: { intros [done_ Hl']. by eapply listing_reported. }
  intros (done_ & Hl' & Hok). destruct ok; simpl.
  2: { apply wp_ret. by eapply listing_reported. }
  specialize (Hok eq_refl). subst done_.
  assert (Hw : Watching known u (tr ++ [InitialEnumerationComplete])).
  { destruct Hl' as [Hin _ Htr Hre Hdom Hpl]. exists devices, []. split_and!; [done| | | |set_solver|congruence].
    - by rewrite Htr, map_app.
    - change (map up devices ++ [Done]) with (map up devices ++ [Done]). by rewrite replay_app, Hre.
    - apply Forall_app. split; [|by repeat constructor]. eapply listing_seen. by split. }
  wp_step. apply wp_report; simpl.
  { by eapply watching_reported. }
  intros b o Ho. apply (watching_fate _ _ _ o Ho) in Hw. destruct b; simpl.
  2: { apply wp_ret. by eapply watching_reported. }
  apply (wp_loop Watching); [done|..].
  - intros. by eapply watching_reported.
  - intros k1 u1 tr1 Hw1. eapply wp_mono; [by apply wp_watch_turn|].
    intros [[[]|]|e| |] k2 u2 tr2; simpl; try done; intros Hw2; by eapply watching_reported.
Qed.

(** C25 The events of USB discovery describe the devices that are plugged in.  Over every run of
    the monitor, if the list of devices has each once: the events are about devices nusb
    has described; first come those of the list, in its order, then the end of the
    enumeration, once, and then the changes; a device comes up only when it is down, also
    when a hotplug event repeats one of the list, and goes down under the path it came up
    with; and after the enumeration the devices that are up are exactly those plugged in. *)
Theorem usb_events_track_devices outcomes :
  listed_once outcomes ->
  let '(_, _, rest, tr) := monitor start outcomes in
  exists u, outcomes = u ++ rest /\ Reported u tr.
Proof.
  intros Hl. destruct (monitor start outcomes) as [[[r known] rest] tr] eqn:Hrun.
  assert (Hnone : forall u, (forall devices, Listed (Some devices) ∉ u) -> Reported u []).
  { intros u Hu. exists [], ∅. split_and!; [done..|]. by left. }
  unfold monitor, list_devices, bind at 1, await in Hrun. destruct outcomes as [|o os].
  { injection Hrun as <- <- <- <-. exists []. split; [done|]. apply Hnone. set_solver. }
  destruct o as [[devices|]| | | |].
  2: { injection Hrun as <- <- <- <-. exists [Listed None]. split; [done|]. apply Hnone. set_solver. }
  2-5: injection Hrun as <- <- <- <-; exists []; split; [done|]; apply Hnone; set_solver.
  unfold ret at 1 in Hrun. cbv beta iota in Hrun.
  assert (Hnd : NoDup (id <$> devices)) by (apply Hl; set_solver).
  destruct ((do! ok := enumerate devices in _) start os) as [[[r1 known1] rest1] tr1] eqn:Hrest in Hrun.
  injection Hrun as <- <- <- <-. destruct (wp_listed devices Hnd _ _ _ _ _ Hrest) as (u & -> & Hpost).
  by exists (Listed (Some devices) :: u).
Qed.
End Monitor.

(** ** Serial ports *)
Section Ports.
Import SerialPorts.

Definition sorted_ports : list string -> Prop := Sorted (fun s s' => String.leb s s' = true).
Lemma sort_sorted l : sorted_ports (sort l).
Proof. apply Sorted_merge_sort. intros s s'. destruct (String.leb_total s s'); auto. Qed.

Section Attempts.
Context {S : Type} (usable : S -> list string).

(** The scans that did not fail. *)
Definition scanned (u : list (outcome S)) : list S :=
  omap (fun o => match o with Scanned s => Some s | _ => None end) u.
Definition short (expected : nat) (s : S) : Prop := (length (usable s) < expected)%nat.
Definition most (scans : list S) : nat := foldr Nat.max 0%nat (map (fun s => length (usable s)) scans).

(** The first scan that shows enough, at most twenty of them; a scan that fails ends the
    search, and so does the twentieth, with the most that one of them has shown. *)
Definition PortsFound (expected : nat) (r : res error (list string)) (u : list (outcome S)) : Prop :=
  match r with
  | Ret ports => exists scans s, scanned u = scans ++ [s] /\ (length scans < RETRIES)%nat /\
      Forall (short expected) scans /\ (expected <= length ports)%nat /\ ports = usable s
  | Raise Failed => (length (scanned u) < RETRIES)%nat /\ exists u1, u = u1 ++ [ScanFailed]
  | Raise (Missing e found) => e = expected /\ length (scanned u) = RETRIES /\ Forall (short expected) (scanned u) /\
      found = most (scanned u)
  | Wait => (length (scanned u) <= RETRIES)%nat /\ Forall (short expected) (scanned u)
  | Cut => False
  end.

Lemma max_snoc l n : foldr Nat.max 0%nat (l ++ [n]) = Nat.max (foldr Nat.max 0%nat l) n.
Proof. induction l as [|x l IH]; simpl; [lia|]. rewrite IH. lia. Qed.

Lemma most_snoc scans s : Nat.max (most scans) (length (usable s)) = most (scans ++ [s]).
Proof. unfold most. rewrite map_app. simpl. by rewrite max_snoc. Qed.

Lemma wp_attempts expected n : forall found u tr,
  (length (scanned u) + n = RETRIES)%nat -> Forall (short expected) (scanned u) -> found = most (scanned u) ->
  wp (attempts usable n expected found) tt u tr (fun r _ u _ => PortsFound expected r u).
Proof.
  induction n as [|n IH]; intros f u tr Hn Hs Hf; simpl.
  - apply wp_raise. simpl. rewrite Nat.add_0_r in Hn. by split_and!.
  - unfold scan. do 4 wp_step. simpl. apply wp_await; [simpl; split; [lia|done]|].
    intros o k Ho. destruct o as [s| |]; simplify_eq.
    + assert (Hu : scanned (u ++ [Scanned s]) = scanned u ++ [s]) by (unfold scanned; by rewrite omap_app).
      apply wp_ret. simpl. destruct (Nat.leb_spec expected (length (usable s))) as [Hle|Hlt].
      * apply wp_ret. exists (scanned u), s. split_and!; try done. lia.
      * assert (Hs' : Forall (short expected) (scanned u ++ [s])) by (apply Forall_app; by repeat constructor).
        rewrite most_snoc.
        wp_step. destruct (Nat.ltb_spec 0 n).
        -- do 2 wp_step. simpl. apply wp_await; [simpl; rewrite Hu; split; [rewrite length_app; simpl; lia|done]|].
           intros o k Ho. destruct o; simplify_eq. apply wp_ret. simpl.
           assert (Hsl : scanned ((u ++ [Scanned s]) ++ [Slept]) = scanned u ++ [s])
             by (unfold scanned in *; rewrite omap_app, Hu; simpl; by rewrite app_nil_r).
           apply IH; rewrite ?Hsl; [rewrite length_app; simpl; lia|done|done].
        -- apply wp_ret. simpl. apply IH; rewrite ?Hu; [rewrite length_app; simpl; lia|done|done].
    + apply wp_raise. simpl. unfold scanned in *. rewrite omap_app. simpl. rewrite app_nil_r. split; [lia|by eexists].
Qed.

Lemma attempts_found expected outcomes :
  let '(r, _, rest, _) := attempts usable RETRIES expected 0 tt outcomes in
  exists u, outcomes = u ++ rest /\ PortsFound expected r u.
Proof.
  destruct (attempts _ _ _ _ tt outcomes) as [[[r s] rest] tr] eqn:Hrun.
  assert (Hwp : wp (attempts usable RETRIES expected 0) tt [] [] (fun r _ u _ => PortsFound expected r u)) by (by apply wp_attempts).
  destruct (Hwp _ _ _ _ _ Hrun) as (u & -> & H). by exists u.
Qed.
End Attempts.

(** On Linux a scan gives its nodes, sorted, if all are accessible, and nothing otherwise. *)
Definition nodes (ttys : Linux.ttys) : list (string * bool) := omap (fun tty => tty) ttys.
Lemma linux_usable ttys :
  sorted_ports (Linux.usable ttys) /\
  (Linux.usable ttys = [] \/ Linux.usable ttys ≡ₚ map fst (nodes ttys) /\ Forall (fun p => p.2 = true) (nodes ttys)).
Proof.
  unfold Linux.usable. fold (nodes ttys). case_bool_decide; [by split; [constructor|left]|].
  destruct (forallb snd (nodes ttys)) eqn:Ha; simpl; [|by split; [constructor|left]]. split; [apply sort_sorted|].
  right. split; [apply merge_sort_Permutation|]. apply Forall_forall. intros p Hp.
  rewrite forallb_forall in Ha. apply Ha. by apply list_elem_of_In.
Qed.

(** The serial ports of a device on Linux.  The search gives the first scan that finds at
    least as many as expected, sorted by name, all of them accessible; it scans at most
    twenty times, and fails at once when a scan does, or with the most it found after
    twenty that were too few. *)
Theorem serial_ports_found expected outcomes :
  let '(r, _, rest, _) := Linux.get_serial_ports expected tt outcomes in
  exists u, outcomes = u ++ rest /\ PortsFound Linux.usable expected r u /\
    forall ports, r = Ret ports -> sorted_ports ports.
Proof.
  pose proof (attempts_found Linux.usable expected outcomes) as H. unfold Linux.get_serial_ports.
  destruct (attempts _ _ _ _ _ _) as [[[r s] rest] tr]. destruct H as (u & Hu & H). exists u. split_and!; [done|done|].
  intros ports ->. destruct H as (scans & ttys & _ & _ & _ & _ & ->). apply linux_usable.
Qed.

(** The location of a device survives its path. *)
Lemma location_of_device_path id : uint 32 id -> MacOS.location_of (MacOS.device_path id) = Some id.
Proof. intros Hid. unfold MacOS.location_of. simpl. by apply u32_from_hex8. Qed.

(** On macOS, from the path of a device: the search gives, sorted, the callouts of those
    entries whose location is the device's - and so not those of another device -, in the
    first scan where they are enough. *)
Theorem macos_ports_found id expected outcomes :
  uint 32 id ->
  let '(r, _, rest, _) := MacOS.get_serial_ports (MacOS.device_path id) expected tt outcomes in
  exists u, outcomes = u ++ rest /\ PortsFound (MacOS.usable id) expected r u /\
    forall ports, r = Ret ports -> sorted_ports ports /\
      exists entries, Scanned entries ∈ u /\
        forall port, port ∈ ports <-> exists e, e ∈ entries /\ MacOS.callout e = Some port /\ MacOS.location e = Some id.
Proof.
  intros Hid. pose proof (attempts_found (MacOS.usable id) expected outcomes) as H. unfold MacOS.get_serial_ports.
  rewrite location_of_device_path by done.
  destruct (attempts _ _ _ _ _ _) as [[[r s] rest] tr]. destruct H as (u & Hu & H). exists u. split_and!; [done|done|].
  intros ports ->. destruct H as (scans & entries & Hscan & _ & _ & _ & ->). split; [apply sort_sorted|].
  exists entries. split.
  - assert (Hin : entries ∈ scanned u) by (rewrite Hscan; set_solver).
    apply list_elem_of_omap in Hin as ([] & Hin & Heq); by simplify_eq.
  - intros port. unfold MacOS.usable, sort. rewrite (merge_sort_Permutation (fun s s' => String.leb s s' = true)).
    rewrite list_elem_of_omap. unfold MacOS.parent_has_location_id. split.
    + intros (e & He & Hport). exists e. case_bool_decide; by split_and!.
    + intros (e & He & Hport & Hloc). exists e. by rewrite bool_decide_eq_true_2.
Qed.
End Ports.

(** ** Examples *)
#[local] Instance nusb_ref : Nusb := {|
  DeviceId := Z; DeviceInfo := Z; id d := d; vendor_id _ := 0x1209; product_id _ := 0x6102; device_version _ := 0;
  serial_string _ := None; manufacturer_string _ := None; product_string _ := None; sysfs_path d := [0x2F; 48 + d] |}.

(** A device that is listed and plugged in again, one that comes and goes. *)
Definition plugging : list Monitor.outcome :=
  [Monitor.Listed (Some [1; 2]); Monitor.Sent; Monitor.Sent; Monitor.Sent;
   Monitor.Hotplug (Some (Monitor.Connected 2)); Monitor.Hotplug (Some (Monitor.Disconnected 1)); Monitor.Sent;
   Monitor.Hotplug (Some (Monitor.Connected 1)); Monitor.Sent; Monitor.Cancelled].

Example plugging_events :
  (Monitor.monitor Monitor.start plugging).2 =
    [UsbDeviceConnected (build_device_info 1); UsbDeviceConnected (build_device_info 2); InitialEnumerationComplete;
     UsbDeviceDisconnected "/1"%string; UsbDeviceConnected (build_device_info 1)].
Proof. by vm_compute. Qed.

Lemma usb_events_track_devices_witness :
  listed_once plugging /\
  let '(_, _, rest, tr) := Monitor.monitor Monitor.start plugging in
  exists u, plugging = u ++ rest /\ Reported u tr.
Proof.
  assert (Hl : listed_once plugging).
  { intros devices Hin. unfold plugging in Hin. repeat (apply elem_of_cons in Hin as [Hin|Hin]); simplify_eq; [|set_solver].
    simpl. by rewrite <- (bool_decide_spec (NoDup [1; 2])). }
  split; [exact Hl|]. apply (usb_events_track_devices plugging). exact Hl.
Defined.
