(* ===== verification/Startup.v ===== *)
(** * Starting up: from USB discovery to the pool (daemon.rs)

    The daemon joins the parts by channels: the events of the USB monitor are a
    transport of the backplane, the backplane's registrations go to the scheduler, the
    hash rates the scheduler announces go to the job source.  Each part is modelled
    with what it receives as its input, so a channel is a hypothesis that what one
    receives the other has sent. *)
From stdpp Require Import base numbers list strings gmap sets.
From Stdlib Require Import ZArith Lia.
From S2P Require Import Prelude Float U256 Version Extranonce Job Estimator ShareRate Scheduler SchedulerInv SchedulerFrame SchedulerProps SchedulerLife Effects Stratum StratumClient StratumSource Backplane BackplaneProps Usb UsbProps.

(** ** The backplane *)
Section Transports.
Context `{X : TextMatch} {Thread Future : Type}.
Context (descriptors : list BoardDescriptor) (virtual_descriptors : list VirtualBoardDescriptor).

Lemma reported_event (u : list (@outcome Thread Future)) i :
  i ∈ reported u -> Event i InitialEnumerationComplete ∈ u.
Proof.
  unfold reported. rewrite elem_of_list_to_set, list_elem_of_omap. intros (o & Ho & Heq).
  destruct o as [t []| | | | | | |]; by simplify_eq.
Qed.

(** A transport that never reports keeps the scheduler from being told. *)
Lemma unreported_holds n i outcomes :
  (i < n)%nat -> Forall (fun o => match o with Event t _ => (t < n)%nat | _ => True end) outcomes ->
  Event i InitialEnumerationComplete ∉ outcomes ->
  EnumerationComplete ∉ (run (Thread := Thread) (Future := Future) descriptors virtual_descriptors (new n) outcomes).2.
Proof.
  intros Hi Hrange Hno. pose proof (backplane_enumerates descriptors virtual_descriptors n outcomes Hrange) as Hrun.
  destruct (run _ _ _ _) as [[[r s] rest] tr]. destruct Hrun as (u & -> & [[Hn _]|Hrun]); [done|].
  destruct Hrun as (u1 & u2 & tr1 & tr2 & -> & -> & _ & _ & Hall & _). specialize (Hall i Hi).
  apply reported_event in Hall. destruct Hno. set_solver.
Qed.
End Transports.

(** ** The job source *)
Section Waiting.
Context `{R : Ruint} `{P : BitcoinPow} `{L : FloatLib} (integer_decode : float -> Z * Z) (jitter_hash : Z -> Z).
Import StratumSource.Source.

Definition gives_rate (i : input) : Prop := exists rate, i = FromScheduler (UpdateHashRate rate).

(** Without a hash rate it does nothing. *)
Lemma source_waits l : forall s b clock r outs,
  (forall now i, (now, i) ∈ l -> ~ gives_rate i) ->
  run integer_decode jitter_hash (MkRun s WaitingForThreads b) clock l = Some (r, outs) ->
  outs = [] /\ (at_mode r = WaitingForThreads \/ at_mode r = Stopped true).
Proof.
  induction l as [|[now i] l IH]; intros s b clock r outs Hl; cbn [run].
  { intros [= <- <-]. split; [done|by left]. }
  destruct (negb (clock <=? now) || negb _) eqn:Hfit; [done|]. apply orb_false_elim in Hfit as [_ Hfit].
  assert (Hl' : forall now i, (now, i) ∈ l -> ~ gives_rate i) by (intros t j Hj; apply (Hl t j); by right).
  assert (Hi : ~ gives_rate i) by (apply (Hl now i); by left).
  destruct i as [| | | | | |[share|rate]| | | |]; try done; simpl.
  - destruct (run _ _ _ now l) as [[r' outs']|] eqn:Hrun; [|done]. intros [= <- <-]. by apply IH in Hrun.
  - destruct Hi. by exists rate.
  - destruct l as [|[now' i'] l]; cbn [run]; [intros [= <- <-]; split; [done|by right]|].
    replace (fits _ now' i') with false by (by destruct i'). by rewrite orb_true_r.
Qed.
End Waiting.

(** ** A failure of USB discovery *)
Section Startup.
Context `{N : Nusb} `{X : TextMatch} {Thread Future : Type} `{E : Scheduler.Env} `{L : FloatLib}.
Context (descriptors : list BoardDescriptor) (virtual_descriptors : list VirtualBoardDescriptor).
Context (jitter_hash : Z -> Z).

(** C24 A failure to list the USB devices idles the miner for good.  The monitor then ends
    without an event; the daemon only logs it.  Whatever other transports report, the
    backplane never tells the scheduler that the enumeration has ended; as long as no
    thread leaves, the scheduler then announces no hash rate, however many threads have
    registered and reported, and its timeout is not armed; and the job source waits for
    a hash rate before it connects.  So a CPU miner that is up never gets a pool. *)
Theorem usb_failure_idles_miner usb_rest i n bp_outcomes s evs eff config clock inputs r outs :
  let usb_events := (Monitor.monitor Monitor.start (Monitor.Listed None :: usb_rest)).2 in
  let told := (run (Thread := Thread) (Future := Future) descriptors virtual_descriptors (new n) bp_outcomes).2 in
  (i < n)%nat ->
  Forall (fun o => match o with Event t _ => (t < n)%nat | _ => True end) bp_outcomes ->
  (forall e, Event i e ∈ bp_outcomes -> e ∈ usb_events) ->
  sched_run s evs eff ->
  (Scheduler.InitialEnumerationComplete ∈ evs -> EnumerationComplete ∈ told) ->
  (forall now rate, (now, Source.FromScheduler (UpdateHashRate rate)) ∈ inputs ->
     exists sid, (sid, rate) ∈ announcements eff) ->
  Source.run (R := Scheduler.ruint_) (P := Scheduler.pow_) Scheduler.decode_float jitter_hash (Source.start config) clock inputs = Some (r, outs) ->
  outs = [] /\ (Source.at_mode r = Source.WaitingForThreads \/ Source.at_mode r = Source.Stopped true).
Proof.
  intros usb_events told Hi Hrange Husb Hsched Htold Hsrc Hrun.
  assert (Hno : EnumerationComplete ∉ told).
  { apply (unreported_holds _ _ n i); [done|done|]. intros Hev%Husb. by apply elem_of_nil in Hev. }
  destruct (silent_until_enumerated _ _ _ Hsched) as [_ Hsilent]; [by intros Hev%Htold|].
  eapply source_waits; [|exact Hrun]. intros now input Hin [rate ->].
  apply Hsrc in Hin as [sid Hin]. rewrite Hsilent in Hin. by apply elem_of_nil in Hin.
Qed.
End Startup.

(** ** Example

    The CPU miner comes up, its thread registers and reports, a source registers; the
    list of USB devices has failed. *)
#[local] Existing Instance env_ref.
#[local] Existing Instance nusb_ref.
#[local] Existing Instance BackplaneProps.text_ref.

Definition cpu_ref : VirtualBoardDescriptor := MkVirtual "cpu_miner" "CPU Miner".
Definition bp_ref : list (@outcome nat nat) :=
  [Event 1 (CpuDeviceConnected (MkCpu "cpu-1x50%" 1 50)); Created (MkConnector (MkInfo "CPU Miner" None None) [0%nat] None);
   Sent; Sent; Event 1 InitialEnumerationComplete].
Definition evs_ref : list Scheduler.event :=
  [Scheduler.SourceRegistered "pool" None; Scheduler.ThreadRegistered; Scheduler.ThreadEv 0 (ExpectedHashRate (10 ^ 6))].

Definition fed (l : list Scheduler.event) : option (Scheduler.t * list Scheduler.effect) :=
  fold_left (fun acc ev => '(s, eff) ← acc; '(s, eff') ← Scheduler.iteration s ∅ ∅ ∅ ev 1; Some (s, eff ++ eff'))
    l (Some (Scheduler.new, [])).

Lemma fed_runs l s eff : fed l = Some (s, eff) -> sched_run s l eff.
Proof.
  revert s eff. induction l as [|ev l IH] using rev_ind; intros s eff.
  - intros [= <- <-]. constructor.
  - unfold fed. rewrite fold_left_app. simpl. fold (fed l). intros H. apply bind_Some in H as ([s1 eff1] & H1 & H).
    apply bind_Some in H as ([s2 eff2] & H2 & [= <- <-]). econstructor; [by apply IH|exact H2].
Qed.

Definition config_ref : StratumClient.PoolConfig := StratumClient.MkConfig "stratum+tcp://pool:3333" "user" "x" "mujina".
#[local] Instance no_logs : FloatLib := {| log10 := fun x => x; log2 := fun x => x; pow10 := fun _ => f_of_Z f64 1 |}.

Lemma usb_failure_idles_miner_witness : exists r outs,
  Source.run (R := Scheduler.ruint_) (P := Scheduler.pow_) Scheduler.decode_float (fun x => x) (Source.start config_ref) 0
    [(5, Source.ShutdownRequested)] = Some (r, outs) /\ outs = [].
Proof.
  destruct (fed evs_ref) as [[s eff]|] eqn:Hfed; [|vm_compute in Hfed; discriminate].
  eexists _, _. split; [reflexivity|].
  refine (proj1 (usb_failure_idles_miner (Future := nat) [] [cpu_ref] (fun x => x) [] 0 2 bp_ref s evs_ref eff config_ref 0
    [(5, Source.ShutdownRequested)] _ _ _ _ _ (fed_runs _ _ _ Hfed) _ _ eq_refl)).
  - lia.
  - repeat constructor; lia.
  - intros e He. unfold bp_ref in He. set_solver.
  - intros Hev. unfold evs_ref in Hev. set_solver.
  - intros now rate Hin. apply list_elem_of_singleton in Hin. discriminate.
Defined.
