(* ===== verification/Serial.v ===== *)
(** * The serial port (transport/serial.rs)

    Configuration and I/O of a port as its system calls.  The settings of a terminal are
    rustix's [Termios], the class below; a call is an action, its result an outcome. *)
From stdpp Require Import base numbers list strings.
From Stdlib Require Import ZArith Lia.
From S2P Require Import Prelude Effects.
#[local] Open Scope eff_scope.

(** [set_speed] fails for a speed that is not supported; the flags are those of
    [ControlModes]. *)
Class Termios := {
  termios : Type;
  make_raw : termios -> termios;
  set_speed : termios -> Z -> option termios;
  speed : termios -> Z;
  control_modes : termios -> Z;
  with_control_modes : termios -> Z -> termios;
  CSIZE : Z; CS5 : Z; CS6 : Z; CS7 : Z; CS8 : Z; PARENB : Z; PARODD : Z; CSTOPB : Z }.

(** What the documentation says: the speed and the modes are fields, the sizes are
    different values of one field, the flags are single bits apart from it. *)
Class TermiosSpec (T : Termios) : Prop := {
  speed_set t r t' : set_speed t r = Some t' -> speed t' = r /\ control_modes t' = control_modes t;
  modes_set t m : control_modes (with_control_modes t m) = m /\ speed (with_control_modes t m) = speed t;
  sizes_within : Z.land CS5 CSIZE = CS5 /\ Z.land CS6 CSIZE = CS6 /\ Z.land CS7 CSIZE = CS7 /\ Z.land CS8 CSIZE = CS8;
  sizes_differ : NoDup [CS5; CS6; CS7; CS8];
  flags_single : exists a b c, 0 <= a /\ 0 <= b /\ 0 <= c /\ PARENB = 2 ^ a /\ PARODD = 2 ^ b /\ CSTOPB = 2 ^ c /\
    a <> b /\ a <> c /\ b <> c;
  flags_apart : Z.land PARENB CSIZE = 0 /\ Z.land PARODD CSIZE = 0 /\ Z.land CSTOPB CSIZE = 0 }.

Inductive Parity := ParityNone | ParityOdd | ParityEven.
Definition parity_as_u8 (p : Parity) : Z := match p with ParityNone => 0 | ParityOdd => 1 | ParityEven => 2 end.
Record SerialConfig := MkConfig { baud_rate : Z; data_bits : Z; stop_bits : Z; parity : Parity }.
Definition default_config : SerialConfig := MkConfig 115200 8 1 ParityNone.

Inductive errno := AGAIN | EIO | EPIPE | Other (n : Z).
Inductive io_error := HardwareError | BrokenPipe | Errno (n : Z) | ReadyError.
Inductive SerialError := OpenError | ConfigError | IoError.

(** The fields of [SerialInner]; the descriptor and the lock are in the outcomes. *)
Record SerialInner := MkInner {
  a_baud_rate : Z; a_data_bits : Z; a_stop_bits : Z; a_parity : Z; bytes_read : Z; bytes_written : Z }.

Inductive ready := NotReady | IsReady | ReadyFailed.
Inductive when := Now | Drain.

Section Serial.
Context `{T : Termios}.

Inductive outcome :=
| Opened (ok : bool)
| GotAttr (t : option termios)
| SetAttr (ok : bool)
| Registered (ok : bool)           (* [AsyncFd::new] *)
| Locked (ok : bool)
| Readiness (r : ready)
| DidRead (r : result errno (list Z))
| DidWrite (r : result errno Z).

Inductive action :=
| Open (path : string)
| Tcgetattr
| Tcsetattr (w : when) (t : termios)
| Read (len : nat)
| Write (buf : list Z).

Abbreviation M := (Effects.M SerialInner outcome action SerialError).
Abbreviation IO := (Effects.M SerialInner outcome action io_error).

(** ** Configuration *)
Definition tcgetattr : M termios :=
  act Tcgetattr ;!
  await (fun o => match o with
    | GotAttr (Some t) => Some (ret t) | GotAttr None => Some (raise ConfigError) | _ => None end).
Definition tcsetattr (w : when) (t : termios) : M unit :=
  act (Tcsetattr w t) ;!
  await (fun o => match o with SetAttr true => Some (ret tt) | SetAttr false => Some (raise ConfigError) | _ => None end).

Definition or_error {A} (o : option A) : M A := match o with Some a => ret a | None => raise ConfigError end.

(** [modes |= f] and [modes &= !f]. *)
Definition add_modes (t : termios) (f : Z) : termios := with_control_modes t (Z.lor (control_modes t) f).
Definition clear_modes (t : termios) (f : Z) : termios := with_control_modes t (Z.ldiff (control_modes t) f).

Definition set_data_bits (t : termios) (bits : Z) : option termios :=
  let t := clear_modes t CSIZE in
  if bits =? 5 then Some (add_modes t CS5)
  else if bits =? 6 then Some (add_modes t CS6)
  else if bits =? 7 then Some (add_modes t CS7)
  else if bits =? 8 then Some (add_modes t CS8)
  else None.
Definition set_parity (t : termios) (p : Parity) : termios :=
  match p with
  | ParityNone => clear_modes t PARENB
  | ParityOdd => add_modes (add_modes t PARENB) PARODD
  | ParityEven => clear_modes (add_modes t PARENB) PARODD
  end.
Definition set_stop_bits (t : termios) (bits : Z) : option termios :=
  if bits =? 1 then Some (clear_modes t CSTOPB)
  else if bits =? 2 then Some (add_modes t CSTOPB)
  else None.

Definition apply_serial_config (config : SerialConfig) : M unit :=
  do! t := tcgetattr in
  let t := make_raw t in
  do! t := or_error (set_speed t (baud_rate config)) in
  do! t := or_error (set_data_bits t (data_bits config)) in
  let t := set_parity t (parity config) in
  do! t := or_error (set_stop_bits t (stop_bits config)) in
  tcsetattr Now t.

Definition with_config (path : string) (config : SerialConfig) : M unit :=
  act (Open path) ;!
  await (fun o => match o with Opened true => Some (ret tt) | Opened false => Some (raise OpenError) | _ => None end) ;!
  apply_serial_config config ;!
  await (fun o => match o with Registered true => Some (ret tt) | Registered false => Some (raise IoError) | _ => None end) ;!
  put (MkInner (baud_rate config) (data_bits config) (stop_bits config) (parity_as_u8 (parity config)) 0 0).
Definition new (path : string) (baud : Z) : M unit :=
  with_config path (MkConfig baud (data_bits default_config) (stop_bits default_config) (parity default_config)).

(** ** The control handle *)
Definition set_baud_rate (baud : Z) : M unit :=
  await (fun o => match o with Locked true => Some (ret tt) | Locked false => Some (raise ConfigError) | _ => None end) ;!
  do! t := tcgetattr in
  do! t := or_error (set_speed t baud) in
  tcsetattr Drain t ;!
  do! s := get in
  put (MkInner baud (a_data_bits s) (a_stop_bits s) (a_parity s) (bytes_read s) (bytes_written s)).

Definition current_parity (s : SerialInner) : Parity :=
  if a_parity s =? 0 then ParityNone else if a_parity s =? 1 then ParityOdd
  else if a_parity s =? 2 then ParityEven else ParityNone.
Definition current_config (s : SerialInner) : SerialConfig :=
  MkConfig (a_baud_rate s) (a_data_bits s) (a_stop_bits s) (current_parity s).

Record SerialStats := MkStats { st_bytes_read : Z; st_bytes_written : Z; st_baud_rate : Z }.
Definition stats (s : SerialInner) : SerialStats := MkStats (bytes_read s) (bytes_written s) (a_baud_rate s).
Definition reset_stats (s : SerialInner) : SerialInner :=
  MkInner (a_baud_rate s) (a_data_bits s) (a_stop_bits s) (a_parity s) 0 0.

(** ** I/O *)
Definition count_read (n : Z) (s : SerialInner) : SerialInner :=
  MkInner (a_baud_rate s) (a_data_bits s) (a_stop_bits s) (a_parity s) (wrap 64 (bytes_read s + n)) (bytes_written s).
Definition count_written (n : Z) (s : SerialInner) : SerialInner :=
  MkInner (a_baud_rate s) (a_data_bits s) (a_stop_bits s) (a_parity s) (bytes_read s) (wrap 64 (bytes_written s + n)).

Definition io_error_of (e : errno) : io_error :=
  match e with EIO => HardwareError | EPIPE => BrokenPipe | Other n => Errno n | AGAIN => Errno 11 end.

(** [ready!(..)?]: false is pending. *)
Definition poll_ready : IO bool :=
  await (fun o => match o with
    | Readiness NotReady => Some (ret false) | Readiness IsReady => Some (ret true)
    | Readiness ReadyFailed => Some (raise ReadyError) | _ => None end).

(** The bytes read, for a buffer with room for [len]; [None] is pending. *)
Definition poll_read (len : nat) : IO (option (list Z)) :=
  loop (do! ok := poll_ready in
        if negb ok then ret (Some None) else
        act (Read len) ;!
        await (fun o => match o with
          | DidRead (Ok bytes) =>
              if (length bytes <=? len)%nat then
                Some (do! s := get in
                      (if (0 <? length bytes)%nat then put (count_read (Z.of_nat (length bytes)) s) else ret tt) ;!
                      ret (Some (Some bytes)))
              else None
          | DidRead (Err AGAIN) => Some (ret None)
          | DidRead (Err e) => Some (raise (io_error_of e))
          | _ => None
          end)).

Definition poll_write (buf : list Z) : IO (option Z) :=
  loop (do! ok := poll_ready in
        if negb ok then ret (Some None) else
        act (Write buf) ;!
        await (fun o => match o with
          | DidWrite (Ok n) =>
              if (0 <=? n) && (n <=? Z.of_nat (length buf)) then
                Some (do! s := get in
                      (if 0 <? n then put (count_written n s) else ret tt) ;! ret (Some (Some n)))
              else None
          | DidWrite (Err AGAIN) => Some (ret None)
          | DidWrite (Err e) => Some (raise (io_error_of e))
          | _ => None
          end)).
End Serial.
