(* ===== verification/SerialProps.v ===== *)
(** * What the serial port promises

    The settings written are those of the configuration, a change of the baud rate leaves
    the others, and the counters count the bytes that were moved. *)
From stdpp Require Import base numbers list strings sets.
From Stdlib Require Import ZArith Lia.
From S2P Require Import Prelude Effects Serial.
#[local] Open Scope eff_scope.

(** Decides the equality tests the hypotheses know about. *)
Ltac eqb_known :=
  repeat match goal with
  | |- context [?x =? ?x] => rewrite (Z.eqb_refl x)
  | H : ?x <> ?y |- context [?x =? ?y] => rewrite (proj2 (Z.eqb_neq x y) H)
  | H : ?y <> ?x |- context [?x =? ?y] => rewrite (proj2 (Z.eqb_neq x y) (not_eq_sym H))
  end.

Section Props.
Context `{TS : TermiosSpec}.

(** ** What the settings of a terminal mean *)
Definition has (t : termios) (f : Z) : bool := negb (Z.land (control_modes t) f =? 0).

Definition size_of (m : Z) : option Z :=
  let size := Z.land m CSIZE in
  if size =? CS5 then Some 5 else if size =? CS6 then Some 6 else if size =? CS7 then Some 7
  else if size =? CS8 then Some 8 else None.

Definition config_of (t : termios) : option SerialConfig :=
  bits ← size_of (control_modes t);
  Some (MkConfig (speed t) bits (if has t CSTOPB then 2 else 1)
    (if has t PARENB then if has t PARODD then ParityOdd else ParityEven else ParityNone)).

(** ** Bits *)
Lemma has_testbit t f a : 0 <= a -> f = 2 ^ a -> has t f = Z.testbit (control_modes t) a.
Proof.
  intros Ha ->. unfold has. destruct (Z.eqb_spec (Z.land (control_modes t) (2 ^ a)) 0) as [H0|H0].
  - apply (f_equal (fun x => Z.testbit x a)) in H0.
    rewrite Z.land_spec, Z.pow2_bits_true, andb_true_r, Z.bits_0 in H0 by done. by rewrite H0.
  - destruct (Z.testbit (control_modes t) a) eqn:Hb; [done|]. destruct H0. apply Z.bits_inj'. intros n Hn.
    rewrite Z.land_spec, Z.bits_0, Z.pow2_bits_eqb by done. destruct (Z.eqb_spec a n) as [<-|]; [by rewrite Hb|apply andb_false_r].
Qed.

Lemma apart_bits f n : Z.land f CSIZE = 0 -> Z.testbit f n && Z.testbit CSIZE n = false.
Proof. intros H. by rewrite <- Z.land_spec, H, Z.bits_0. Qed.

(** Flags do not touch the size, and single bits not one another. *)
Lemma land_lor_apart m f : Z.land f CSIZE = 0 -> Z.land (Z.lor m f) CSIZE = Z.land m CSIZE.
Proof. intros H. by rewrite Z.land_lor_distr_l, H, Z.lor_0_r. Qed.
Lemma land_ldiff_apart m f : Z.land f CSIZE = 0 -> Z.land (Z.ldiff m f) CSIZE = Z.land m CSIZE.
Proof.
  intros H. apply Z.bits_inj'. intros n Hn. rewrite !Z.land_spec, Z.ldiff_spec. pose proof (apart_bits f n H).
  by destruct (Z.testbit m n), (Z.testbit f n), (Z.testbit CSIZE n).
Qed.
Lemma land_size m s : Z.land s CSIZE = s -> Z.land (Z.lor (Z.ldiff m CSIZE) s) CSIZE = s.
Proof.
  intros Hs. rewrite Z.land_lor_distr_l, Hs. apply Z.bits_inj'. intros n Hn.
  rewrite Z.lor_spec, Z.land_spec, Z.ldiff_spec. by destruct (Z.testbit m n), (Z.testbit CSIZE n), (Z.testbit s n).
Qed.

Lemma size_of_sizes :
  size_of CS5 = Some 5 /\ size_of CS6 = Some 6 /\ size_of CS7 = Some 7 /\ size_of CS8 = Some 8.
Proof.
  destruct sizes_within as (H5 & H6 & H7 & H8). unfold size_of. rewrite H5, H6, H7, H8.
  pose proof sizes_differ as Hnd. rewrite !NoDup_cons, !not_elem_of_cons in Hnd.
  destruct Hnd as ((? & ? & ? & _) & (? & ? & _) & (? & _) & _). by eqb_known.
Qed.

(** ** The settings that are written *)
Lemma set_size t t' bits :
  set_data_bits t bits = Some t' ->
  speed t' = speed t /\ size_of (control_modes t') = Some bits /\ 5 <= bits <= 8.
Proof.
  destruct sizes_within as (H5 & H6 & H7 & H8), size_of_sizes as (S5 & S6 & S7 & S8).
  assert (Hsize : forall s k, Z.land s CSIZE = s -> size_of s = Some k ->
    speed (add_modes (clear_modes t CSIZE) s) = speed t /\
    size_of (control_modes (add_modes (clear_modes t CSIZE) s)) = Some k).
  { intros s k Hs Hk. unfold add_modes, clear_modes. rewrite !(proj1 (modes_set _ _)), !(proj2 (modes_set _ _)).
    split; [done|]. unfold size_of in *. by rewrite land_size, <- Hk, Hs by done. }
  unfold set_data_bits.
  destruct (Z.eqb_spec bits 5) as [->|]; [intros [= <-]; destruct (Hsize CS5 5 H5 S5); split_and!; (done || lia)|].
  destruct (Z.eqb_spec bits 6) as [->|]; [intros [= <-]; destruct (Hsize CS6 6 H6 S6); split_and!; (done || lia)|].
  destruct (Z.eqb_spec bits 7) as [->|]; [intros [= <-]; destruct (Hsize CS7 7 H7 S7); split_and!; (done || lia)|].
  destruct (Z.eqb_spec bits 8) as [->|]; [intros [= <-]; destruct (Hsize CS8 8 H8 S8); split_and!; (done || lia)|done].
Qed.

(** Setting and clearing flags leaves the speed and the size. *)
Lemma flag_keeps t f : Z.land f CSIZE = 0 ->
  (speed (add_modes t f) = speed t /\ size_of (control_modes (add_modes t f)) = size_of (control_modes t)) /\
  (speed (clear_modes t f) = speed t /\ size_of (control_modes (clear_modes t f)) = size_of (control_modes t)).
Proof.
  intros Hf. unfold add_modes, clear_modes, size_of. rewrite !(proj1 (modes_set _ _)), !(proj2 (modes_set _ _)).
  by rewrite land_lor_apart, land_ldiff_apart.
Qed.

Definition keeps (t t' : termios) : Prop := speed t' = speed t /\ size_of (control_modes t') = size_of (control_modes t).
Lemma keeps_trans t1 t2 t3 : keeps t1 t2 -> keeps t2 t3 -> keeps t1 t3.
Proof. unfold keeps. intros [] []. split; congruence. Qed.

Lemma set_parity_keeps t p : keeps t (set_parity t p).
Proof.
  destruct flags_apart as (Fa & Fb & _). unfold set_parity.
  destruct p; [apply flag_keeps, Fa| |];
    (eapply (keeps_trans _ (add_modes t PARENB)); [apply flag_keeps, Fa|apply flag_keeps, Fb]).
Qed.
Lemma set_stop_keeps t bits t' : set_stop_bits t bits = Some t' -> keeps t t'.
Proof.
  destruct flags_apart as (_ & _ & Fc). unfold set_stop_bits.
  destruct (bits =? 1); [|destruct (bits =? 2); [|done]]; intros [= <-]; apply flag_keeps, Fc.
Qed.

Lemma testbit_add t n b : 0 <= b ->
  Z.testbit (control_modes (add_modes t (2 ^ b))) n = Z.testbit (control_modes t) n || (b =? n).
Proof. intros Hb. unfold add_modes. by rewrite (proj1 (modes_set _ _)), Z.lor_spec, Z.pow2_bits_eqb. Qed.
Lemma testbit_clear t n b : 0 <= b ->
  Z.testbit (control_modes (clear_modes t (2 ^ b))) n = Z.testbit (control_modes t) n && negb (b =? n).
Proof. intros Hb. unfold clear_modes. by rewrite (proj1 (modes_set _ _)), Z.ldiff_spec, Z.pow2_bits_eqb. Qed.

Lemma set_flags t p bits t' :
  set_stop_bits (set_parity t p) bits = Some t' ->
  (if has t' CSTOPB then 2 else 1) = bits /\
  (if has t' PARENB then if has t' PARODD then ParityOdd else ParityEven else ParityNone) = p.
Proof.
  destruct flags_single as (a & b & c & Ha & Hb & Hc & Ea & Eb & Ec & Hab & Hac & Hbc).
  rewrite (has_testbit _ _ c), (has_testbit _ _ a), (has_testbit _ _ b) by done.
  unfold set_stop_bits, set_parity. rewrite Ea, Eb, Ec. intros Hset.
  destruct (Z.eqb_spec bits 1) as [->|]; [|destruct (Z.eqb_spec bits 2) as [->|]; [|done]];
    injection Hset as <-; destruct p;
    rewrite ?testbit_clear, ?testbit_add, ?testbit_clear, ?testbit_add, ?testbit_clear by done; eqb_known;
    by rewrite ?andb_true_r, ?andb_false_r, ?orb_true_r, ?orb_false_r.
Qed.

(** The settings computed for a configuration mean that configuration. *)
Lemma settings_mean config t0 t1 t2 t3 :
  set_speed (make_raw t0) (baud_rate config) = Some t1 ->
  set_data_bits t1 (data_bits config) = Some t2 ->
  set_stop_bits (set_parity t2 (parity config)) (stop_bits config) = Some t3 ->
  config_of t3 = Some config.
Proof.
  intros [H1 _]%speed_set (H2 & Hs2 & _)%set_size H3. pose proof (set_flags _ _ _ _ H3) as [Hstop Hpar].
  apply set_stop_keeps in H3. destruct (keeps_trans _ _ _ (set_parity_keeps t2 (parity config)) H3) as [Hk Hs].
  unfold config_of. rewrite Hs, Hs2, Hk, H2, H1, Hstop, Hpar. by destruct config.
Qed.

(** ** Runs *)
Abbreviation M := (Effects.M SerialInner outcome action SerialError).

(** The settings a log has written. *)
Definition written (tr : list action) : list (when * termios) :=
  omap (fun a => match a with Tcsetattr w t => Some (w, t) | _ => None end) tr.
Lemma settings_written_app tr a : written (tr ++ [a]) = written tr ++ written [a].
Proof. apply omap_app. Qed.

Lemma wp_tcgetattr s u tr (Q : Effects.post SerialInner outcome action SerialError termios) :
  Q Wait s u (tr ++ [Tcgetattr]) ->
  (forall o, Q (Raise ConfigError) s (u ++ [o]) (tr ++ [Tcgetattr])) ->
  (forall t, Q (Ret t) s (u ++ [GotAttr (Some t)]) (tr ++ [Tcgetattr])) ->
  wp tcgetattr s u tr Q.
Proof.
  intros Hw Hr Hq. unfold tcgetattr. do 2 wp_step. simpl. apply wp_await; [done|].
  intros [|[t|]| | | | | |] k Hk; simplify_eq; [by apply wp_ret|by apply wp_raise].
Qed.

Lemma wp_tcsetattr w t s u tr (Q : Effects.post SerialInner outcome action SerialError unit) :
  Q Wait s u (tr ++ [Tcsetattr w t]) ->
  (forall o, Q (Raise ConfigError) s (u ++ [o]) (tr ++ [Tcsetattr w t])) ->
  (forall o, Q (Ret tt) s (u ++ [o]) (tr ++ [Tcsetattr w t])) ->
  wp (tcsetattr w t) s u tr Q.
Proof.
  intros Hw Hr Hq. unfold tcsetattr. do 2 wp_step. simpl. apply wp_await; [done|].
  intros [| |[|]| | | | |] k Hk; simplify_eq; [by apply wp_ret|by apply wp_raise].
Qed.

Lemma wp_or_error {A} (o : option A) s u tr (Q : Effects.post SerialInner outcome action SerialError A) :
  Q (Raise ConfigError) s u tr -> (forall a, o = Some a -> Q (Ret a) s u tr) -> wp (or_error o) s u tr Q.
Proof. intros Hr Hq. destruct o as [a|]; [apply wp_ret; auto|by apply wp_raise]. Qed.

Definition Configured (config : SerialConfig) (r : res SerialError unit) (tr : list action) : Prop :=
  match r with
  | Ret _ => exists t, written tr = [(Now, t)] /\ config_of t = Some config
  | _ => written tr = [] \/ exists t, written tr = [(Now, t)] /\ config_of t = Some config
  end.

Lemma wp_apply config s u tr :
  written tr = [] -> wp (apply_serial_config config) s u tr (fun r s' u tr => s' = s /\ Configured config r tr).
Proof.
  intros Htr. unfold apply_serial_config.
  assert (Htr' : written (tr ++ [Tcgetattr]) = []) by (by rewrite settings_written_app, Htr).
  wp_step. apply wp_tcgetattr; simpl; [by auto..|]. intros t0.
  wp_step. apply wp_or_error; simpl; [by auto|]. intros t1 H1.
  wp_step. apply wp_or_error; simpl; [by auto|]. intros t2 H2.
  wp_step. apply wp_or_error; simpl; [by auto|]. intros t3 H3.
  pose proof (settings_mean _ _ _ _ _ H1 H2 H3) as Hmean.
  assert (Hw : written ((tr ++ [Tcgetattr]) ++ [Tcsetattr Now t3]) = [(Now, t3)]) by (by rewrite settings_written_app, Htr').
  apply wp_tcsetattr; simpl; eauto.
Qed.

Lemma parity_back s p : a_parity s = parity_as_u8 p -> current_parity s = p.
Proof. unfold current_parity. intros ->. by destruct p. Qed.

Lemma wp_with_config path config s :
  wp (with_config path config) s [] [] (fun r s' _ tr => Configured config r tr /\
    (r = Ret tt -> current_config s' = config /\ stats s' = MkStats 0 0 (baud_rate config)) /\ (r <> Ret tt -> s' = s)).
Proof.
  unfold with_config. do 2 wp_step. simpl. wp_step.
  assert (Hno : forall r, r <> Ret tt -> Configured config r [Open path] /\
    (r = Ret tt -> current_config s = config /\ stats s = MkStats 0 0 (baud_rate config)) /\ (r <> Ret tt -> s = s)).
  { intros r Hr. split_and!; try done. destruct r as [[]| | |]; try done; by left. }
  apply wp_await; [by apply Hno|]. intros [[|]| | | | | | |] k Hk; simplify_eq; [|by apply wp_raise, Hno].
  wp_step. simpl. wp_step. eapply wp_mono; [by apply wp_apply|].
  intros [[]|e| |] s1 u1 tr1 [-> Hc]; simpl; try (by split_and!).
  destruct Hc as (t & Hw & Hm). assert (Hc : Configured config (Wait : res SerialError unit) tr1) by (right; by exists t).
  wp_step. apply wp_await; [by split_and!|]. intros [| | |[|]| | | |] k Hk; simplify_eq.
  2: { apply wp_raise. by split_and!. }
  repeat wp_step. simpl. split_and!; [by exists t|intros _; split; [|done]|done].
  unfold current_config. simpl. rewrite (parity_back _ (parity config)) by done. by destruct config.
Qed.

Lemma wp_set_baud baud s :
  wp (set_baud_rate baud) s [] [] (fun r s' u tr =>
    (forall w t', (w, t') ∈ written tr -> w = Drain /\ speed t' = baud /\
       exists t, GotAttr (Some t) ∈ u /\ control_modes t' = control_modes t) /\
    (r = Ret tt -> written tr <> [] /\ s' = MkInner baud (a_data_bits s) (a_stop_bits s) (a_parity s) (bytes_read s) (bytes_written s)) /\
    (r <> Ret tt -> s' = s)).
Proof.
  assert (Hnone : forall (tr : list action) u (w : when) (t' : termios), written tr = [] -> (w, t') ∈ written tr ->
    w = Drain /\ speed t' = baud /\ exists t : termios, GotAttr (Some t) ∈ (u : list outcome) /\ control_modes t' = control_modes t).
  { intros tr u w t' -> Hin. by apply elem_of_nil in Hin. }
  unfold set_baud_rate. wp_step. apply wp_await; [split_and!; try done; intros; by eapply (Hnone [])|].
  intros [| | | |[|]| | |] k Hk; simplify_eq; [|apply wp_raise; simpl; split_and!; try done; intros; by eapply (Hnone [])].
  wp_step. simpl. wp_step. apply wp_tcgetattr; simpl; [try intros o; split_and!; try done; intros; by eapply (Hnone [Tcgetattr])..|].
  intros t. wp_step. apply wp_or_error; simpl; [split_and!; try done; intros; by eapply (Hnone [Tcgetattr])|].
  intros t' [Hsp Hm]%speed_set. wp_step.
  assert (Hin : forall u (w : when) (x : termios), (w, x) ∈ written [Tcgetattr; Tcsetattr Drain t'] ->
    w = Drain /\ speed x = baud /\ exists t0 : termios, GotAttr (Some t0) ∈ [Locked true; GotAttr (Some t)] ++ u /\ control_modes x = control_modes t0).
  { intros u w x Hx. apply list_elem_of_singleton in Hx. injection Hx as -> ->. split_and!; [done|done|].
    exists t. split; [set_solver|done]. }
  apply wp_tcsetattr; simpl; [split_and!; try done; apply (Hin [])|intros o; split_and!; try done; apply (Hin [o])|].
  intros o. repeat wp_step. simpl. split_and!; [apply (Hin [o])|done|done].
Qed.

(** The settings of a serial port.  Opening a port writes at most one setting, and that is
    the configuration asked for: the speed, the size, the stop bits and the parity read off
    it are those given; it succeeds only if it was written, and then the handle reports
    this configuration and no bytes moved.  A size or a number of stop bits that does not
    exist is refused with nothing written.  A change of the baud rate, once output has
    drained, writes the settings the port had with the new speed, and the handle reports the
    new rate and all else as before; if it fails, the report is unchanged. *)
Theorem serial_settings path config baud s0 outcomes outcomes' :
  (let '(r, s, _, tr) := with_config path config s0 outcomes in
   Configured config r tr /\
   (r = Ret tt -> current_config s = config /\ stats s = MkStats 0 0 (baud_rate config)) /\ (r <> Ret tt -> s = s0)) /\
  (let '(r, s, rest, tr) := set_baud_rate baud s0 outcomes' in
   (forall w t', (w, t') ∈ written tr -> w = Drain /\ speed t' = baud /\
      exists t, GotAttr (Some t) ∈ outcomes' /\ control_modes t' = control_modes t) /\
   (r = Ret tt -> written tr <> [] /\ current_config s =
      MkConfig baud (a_data_bits s0) (a_stop_bits s0) (current_parity s0) /\ bytes_read s = bytes_read s0 /\
      bytes_written s = bytes_written s0) /\
   (r <> Ret tt -> s = s0)).
Proof.
  split.
  - destruct (with_config path config s0 outcomes) as [[[r s] rest] tr] eqn:Hrun.
    by destruct (wp_with_config path config s0 _ _ _ _ _ Hrun) as (u & _ & H).
  - destruct (set_baud_rate baud s0 outcomes') as [[[r s] rest] tr] eqn:Hrun.
    destruct (wp_set_baud baud s0 _ _ _ _ _ Hrun) as (u & -> & H1 & H2 & H3). split_and!; [|intros Hr|done].
    + intros w t' Hin. destruct (H1 w t' Hin) as (-> & ? & t & Ht & ?). split_and!; try done. exists t. set_solver.
    + destruct (H2 Hr) as [Hw ->]. by split_and!.
Qed.
End Props.

(** ** I/O *)
Section Io.
Context `{T : Termios}.

(** Tries that found nothing to do although the port was ready. *)
Fixpoint retries (again : outcome) (n : nat) : list outcome :=
  match n with O => [] | S n => retries again n ++ [Readiness IsReady; again] end.

(** A read gives the bytes of the first system call that had any to give, or is pending
    when the port is not ready; only the bytes given are counted. *)
Lemma poll_read_counts len s outcomes :
  let '(r, s', rest, tr) := poll_read len s outcomes in
  exists u n, outcomes = retries (DidRead (Err AGAIN)) n ++ u ++ rest /\
    match r with
    | Ret (Some bytes) => u = [Readiness IsReady; DidRead (Ok bytes)] /\ (length bytes <= len)%nat /\
        (s' = count_read (Z.of_nat (length bytes)) s \/ bytes = [] /\ s' = s)
    | Ret None => u = [Readiness NotReady] /\ s' = s
    | Raise e => s' = s /\ (e = ReadyError /\ u = [Readiness ReadyFailed] \/
        exists errno, errno <> AGAIN /\ e = io_error_of errno /\ u = [Readiness IsReady; DidRead (Err errno)])
    | _ => s' = s
    end.
Proof.
  set (Post := fun (r : res io_error (option (list Z))) s' v => exists u n, v = retries (DidRead (Err AGAIN)) n ++ u /\
    match r with
    | Ret (Some bytes) => u = [Readiness IsReady; DidRead (Ok bytes)] /\ (length bytes <= len)%nat /\
        (s' = count_read (Z.of_nat (length bytes)) s \/ bytes = [] /\ s' = s)
    | Ret None => u = [Readiness NotReady] /\ s' = s
    | Raise e => s' = s /\ (e = ReadyError /\ u = [Readiness ReadyFailed] \/
        exists errno, errno <> AGAIN /\ e = io_error_of errno /\ u = [Readiness IsReady; DidRead (Err errno)])
    | _ => s' = s
    end).
  assert (Hwp : wp (poll_read len) s [] [] (fun r s' v _ => Post r s' v)).
  { apply (wp_loop (fun s' v _ => s' = s /\ exists n, v = retries (DidRead (Err AGAIN)) n)).
    - split; [done|]. by exists 0%nat.
    - intros s' v tr [-> [n ->]]. exists [], n. by rewrite app_nil_r.
    - intros s' v tr [-> [n ->]]. wp_step. unfold poll_ready. apply wp_await.
      { exists [], n. by rewrite app_nil_r. }
      intros [| | | | |[]| |] k Hk; simplify_eq.
      + wp_step. simpl. wp_step. eexists _, n. by split_and!.
      + wp_step. simpl. wp_step. wp_step. simpl. apply wp_await; [by exists [Readiness IsReady], n|].
        intros [| | | | | |[bytes|[]]|] k Hk; simplify_eq;
          try (wp_step; rewrite <- app_assoc; eexists _, n; (split; [done|]); (split; [done|]); right; eexists; split; [|split; [|reflexivity]; reflexivity]; done).
        * destruct (Nat.leb_spec (length bytes) len); [|done]. injection Hk as <-.
          rewrite <- app_assoc. repeat wp_step; eexists _, n; split_and!; try done; [by left|right].
          destruct bytes; [done|]. simpl in *. discriminate.
        * wp_step. split; [done|]. exists (S n). by rewrite <- app_assoc.
      + wp_step. eexists _, n. by auto. }
  destruct (poll_read len s outcomes) as [[[r s'] rest] tr] eqn:Hrun.
  destruct (Hwp _ _ _ _ _ Hrun) as (v & -> & u & n & Hv & Hr). simpl in Hv. exists u, n. split; [|done].
  by rewrite Hv, app_assoc.
Qed.
End Io.

(** ** Example

    A terminal with its modes and its speed. *)
#[local] Instance termios_ref : Termios := {|
  termios := Z * Z; make_raw t := t; set_speed t r := if r =? 0 then None else Some (t.1, r); speed t := t.2;
  control_modes t := t.1; with_control_modes t m := (m, t.2);
  CSIZE := 0x30; CS5 := 0; CS6 := 0x10; CS7 := 0x20; CS8 := 0x30; PARENB := 0x100; PARODD := 0x200; CSTOPB := 0x40 |}.

Lemma termios_ref_spec : TermiosSpec termios_ref.
Proof.
  split; try done.
  - intros [m r0] r t'. simpl. destruct (r =? 0); by intros [= <-].
  - by rewrite !NoDup_cons, !not_elem_of_cons; split_and!; try done; try apply not_elem_of_nil; try apply NoDup_nil_2.
  - exists 8, 9, 6. split_and!; done || lia.
Qed.

Lemma serial_settings_witness :
  let config := MkConfig 115200 7 2 ParityOdd in
  let outcomes := [Opened true; GotAttr (Some (0xFFFF, 9600)); SetAttr true; Registered true] in
  let s0 := MkInner 0 0 0 0 0 0 in
  let '(r, s, _, tr) := with_config "/dev/ttyACM1" config s0 outcomes in
  Configured config r tr /\
  (r = Ret tt -> current_config s = config /\ stats s = MkStats 0 0 (baud_rate config)) /\ (r <> Ret tt -> s = s0).
Proof.
  intros config outcomes s0.
  exact (proj1 (@serial_settings termios_ref termios_ref_spec "/dev/ttyACM1" config 0 s0 outcomes [])).
Defined.
