(* ===== verification/Api.v ===== *)
(** * The HTTP API (api/registry.rs, server.rs, v0.rs, commands.rs, api_client/types.rs)

    The handlers behind the routes.  A watch channel is the value last sent and whether
    its sender lives; routing, JSON text and the server loop are the libraries'. *)
From stdpp Require Import base numbers list strings gmap.
From Stdlib Require Import ZArith Lia SpecFloat.
From S2P Require Import Prelude Float U256 Job Estimator Scheduler Effects.
#[local] Open Scope eff_scope.

(** ** What is served *)
Record Fan := MkFan { fan_name : string; rpm : option Z; percent : option Z; target_percent : option Z }.
Record TemperatureSensor := MkSensor { sensor_name : string; temperature : option float }.
Record PowerMeasurement := MkPower {
  power_name : string; voltage_v : option float; current_a : option float; power_w : option float }.
Record ThreadTelemetry := MkThreadTelemetry { thread_name : string; thread_hashrate : Z; thread_active : bool }.
Record BoardTelemetry := MkBoard {
  board_name : string; model : string; serial : option string; fans : list Fan;
  temperatures : list TemperatureSensor; powers : list PowerMeasurement; board_threads : list ThreadTelemetry }.

(** The scheduler's part, and the boards. *)
Record MinerTelemetry := MkMiner { from_scheduler : Scheduler.MinerTelemetry; boards : list BoardTelemetry }.
Record MinerPatchRequest := MkPatch { paused : option bool }.

(** JSON of a difficulty: whole numbers are cast to i64, which saturates. *)
Inductive number := Null | Integer (z : Z) | Floating (x : float).
Definition whole (x : float) : option Z :=
  match x with
  | S754_zero _ => Some 0
  | S754_finite s m e =>
      let z := if 0 <=? e then Z.pos m * 2 ^ e else Z.pos m / 2 ^ (- e) in
      if (0 <=? e) || (Z.pos m mod 2 ^ (- e) =? 0) then Some (if s then - z else z) else None
  | _ => None
  end.
Definition serialize_opt_f64_as_integer_when_whole (value : option float) : number :=
  match value with
  | None => Null
  | Some v =>
      match whole v with
      | Some z => Integer (Z.max (- 2 ^ 63) (Z.min (2 ^ 63 - 1) z))
      | None => Floating v
      end
  end.

(** ** The shared state *)

(** A channel of a board: its last telemetry, while it is connected. *)
Abbreviation channels := (gmap nat (BoardTelemetry * bool)).
Definition connected (c : channels) (i : nat) : bool :=
  match c !! i with Some (_, alive) => alive | None => false end.
Definition current (c : channels) (i : nat) : option BoardTelemetry := fst <$> c !! i.

Module BoardRegistry.
(** The channels of the registered boards. *)
Abbreviation t := (list nat).
Definition new : t := [].
Definition push (r : t) (reg : nat) : t := r ++ [reg].
(** The snapshots, and the registry without those that are gone. *)
Definition boards (r : t) (c : channels) : list BoardTelemetry * t :=
  let r := base.filter (fun i => connected c i = true) r in
  (omap (current c) r, r).
End BoardRegistry.

Record SharedState := MkState {
  miner_telemetry_rx : Scheduler.MinerTelemetry; board_registry : BoardRegistry.t; board_channels : channels }.
Definition with_registry (s : SharedState) r := MkState (miner_telemetry_rx s) r (board_channels s).

Definition boards_of (s : SharedState) : list BoardTelemetry * SharedState :=
  let '(l, r) := BoardRegistry.boards (board_registry s) (board_channels s) in (l, with_registry s r).
Definition miner_telemetry (s : SharedState) : MinerTelemetry * SharedState :=
  let '(l, s') := boards_of s in (MkMiner (miner_telemetry_rx s) l, s').

(** ** Handlers *)
Inductive StatusCode := NOT_FOUND | INTERNAL_SERVER_ERROR.

Definition get_miner (s : SharedState) : MinerTelemetry * SharedState := miner_telemetry s.
Definition get_boards (s : SharedState) : list BoardTelemetry * SharedState := boards_of s.
Definition get_board (s : SharedState) (name : string) : result StatusCode BoardTelemetry * SharedState :=
  let '(l, s) := boards_of s in
  (match List.find (fun b => bool_decide (board_name b = name)) l with Some b => Ok b | None => Err NOT_FOUND end, s).
Definition get_sources (s : SharedState) : list Scheduler.SourceTelemetry := Scheduler.mt_sources (miner_telemetry_rx s).
Definition get_source (s : SharedState) (name : string) : result StatusCode Scheduler.SourceTelemetry :=
  match List.find (fun x => bool_decide (Scheduler.st_name x = name)) (get_sources s) with
  | Some x => Ok x | None => Err NOT_FOUND end.

(** The command is taken by the scheduler's channel or that is closed; the reply comes,
    is dropped, or does not come in five seconds.  Meanwhile others change the state. *)
Inductive outcome :=
| Accepted | ChannelClosed
| Replied (ok : bool) (now : SharedState) | ReplyDropped | TimedOut.
Inductive action := Command (c : Scheduler.SchedulerCommand).
Abbreviation M := (Effects.M SharedState outcome action StatusCode).

Definition patch_miner (req : MinerPatchRequest) : M MinerTelemetry :=
  (match paused req with
   | Some p =>
       act (Command (if p : bool then Scheduler.PauseMining else Scheduler.ResumeMining)) ;!
       await (fun o => match o with
         | Accepted => Some (ret tt) | ChannelClosed => Some (raise INTERNAL_SERVER_ERROR) | _ => None end) ;!
       await (fun o => match o with
         | Replied true s => Some (put s)
         | Replied false _ | ReplyDropped | TimedOut => Some (raise INTERNAL_SERVER_ERROR)
         | _ => None
         end)
   | None => ret tt
   end) ;!
  do! s := get in
  let '(telemetry, s) := miner_telemetry s in
  put s ;! ret telemetry.

(** ** The registry forgets nothing that is connected *)

(** What happens to the boards: one is registered, one changes its telemetry, one goes,
    and somebody asks for all of them. *)
Inductive event :=
| Registered (i : nat) (b : BoardTelemetry)
| Updated (i : nat) (b : BoardTelemetry)
| Gone (i : nat)
| Asked.

Definition happen (s : SharedState) (e : event) : SharedState :=
  match e with
  | Registered i b =>
      MkState (miner_telemetry_rx s) (BoardRegistry.push (board_registry s) i) (<[i := (b, true)]> (board_channels s))
  | Updated i b => MkState (miner_telemetry_rx s) (board_registry s)
      (alter (fun p => (if p.2 : bool then b else p.1, p.2)) i (board_channels s))
  | Gone i => MkState (miner_telemetry_rx s) (board_registry s) (alter (fun p => (p.1, false)) i (board_channels s))
  | Asked => (boards_of s).2
  end.

(** The boards registered so far. *)
Definition registered (es : list event) : list nat :=
  omap (fun e => match e with Registered i _ => Some i | _ => None end) es.

Lemma filter_same (P Q : nat -> Prop) `{!forall x, Decision (P x), !forall x, Decision (Q x)} (l : list nat) :
  (forall x, x ∈ l -> P x <-> Q x) -> base.filter P l = base.filter Q l.
Proof.
  induction l as [|x l IH]; intros HPQ; [done|].
  assert (IH' : base.filter P l = base.filter Q l) by (apply IH; intros y Hy; apply HPQ; by right).
  assert (Hx : P x <-> Q x) by (apply HPQ; by left). destruct (decide (P x)).
  - rewrite !filter_cons_True by tauto. by rewrite IH'.
  - rewrite !filter_cons_False by tauto. done.
Qed.

Lemma filter_filter (P Q : nat -> Prop) `{!forall x, Decision (P x), !forall x, Decision (Q x)} (l : list nat) :
  (forall x, x ∈ l -> Q x -> P x) -> base.filter Q (base.filter P l) = base.filter Q l.
Proof.
  induction l as [|x l IH]; intros HPQ; [done|].
  assert (IH' : base.filter Q (base.filter P l) = base.filter Q l) by (apply IH; intros y Hy; apply HPQ; by right).
  destruct (decide (P x)) as [Hp|Hp].
  - rewrite filter_cons_True by done. destruct (decide (Q x)).
    + by rewrite !filter_cons_True, IH' by done.
    + by rewrite !filter_cons_False, IH' by done.
  - rewrite filter_cons_False by done. rewrite IH', filter_cons_False; [done|]. intros Hq. apply Hp, HPQ; [by left|done].
Qed.

Lemma filter_sub (P Q : nat -> Prop) `{!forall x, Decision (P x), !forall x, Decision (Q x)} (l l' : list nat) :
  (forall x, Q x -> P x) -> base.filter P l = base.filter P l' -> base.filter Q l = base.filter Q l'.
Proof. intros HPQ Heq. by rewrite <- (filter_filter P Q l), <- (filter_filter P Q l'), Heq by auto. Qed.

(** The registry serves what the list [l] of all registrations would. *)
Definition is_connected (s : SharedState) (i : nat) : Prop := connected (board_channels s) i = true.
#[export] Instance is_connected_dec s i : Decision (is_connected s i) := decide (connected (board_channels s) i = true).
Definition synced (s : SharedState) (l : list nat) : Prop :=
  base.filter (is_connected s) (board_registry s) = base.filter (is_connected s) l /\
  (forall i, i ∉ l -> board_channels s !! i = None) /\ board_registry s ⊆ l.

Lemma synced_channels rx r l c c' :
  (forall i, connected c' i = true -> connected c i = true) -> (forall i, c !! i = None -> c' !! i = None) ->
  synced (MkState rx r c) l -> synced (MkState rx r c') l.
Proof.
  intros Hc Hn (Heq & Hfresh & Hsub). split_and!; [|simpl in *; auto|done].
  exact (filter_sub (is_connected (MkState rx r c)) _ _ _ Hc Heq).
Qed.

Lemma synced_push rx r l c i b :
  i ∉ l -> synced (MkState rx r c) l ->
  synced (MkState rx (BoardRegistry.push r i) (<[i := (b, true)]> c)) (l ++ [i]).
Proof.
  intros Hi (Heq & Hfresh & Hsub). simpl in *.
  assert (Hsame : forall k : list nat, k ⊆ l -> base.filter (is_connected (MkState rx r (<[i := (b, true)]> c))) k =
    base.filter (is_connected (MkState rx r c)) k).
  { intros k Hk. apply filter_same. intros j Hj. unfold is_connected, connected. simpl.
    rewrite lookup_insert_ne; [done|]. intros ->. apply Hi, Hk, Hj. }
  split_and!; unfold BoardRegistry.push; simpl.
  - rewrite !filter_app. f_equal. etransitivity; [exact (Hsame _ Hsub)|]. rewrite Heq. symmetry. by apply Hsame.
  - intros j Hj. rewrite elem_of_app, list_elem_of_singleton in Hj. rewrite lookup_insert_ne by naive_solver.
    apply Hfresh. naive_solver.
  - intros j. rewrite !elem_of_app. naive_solver.
Qed.

Lemma synced_step s l e :
  synced s l -> (forall i, i ∈ registered [e] -> i ∉ l) -> synced (happen s e) (l ++ registered [e]).
Proof.
  destruct s as [rx r c]. intros Hs Hnew. destruct e as [i b|i b|i|]; simpl in *; rewrite ?app_nil_r.
  - apply synced_push; [apply Hnew; by left|done].
  - refine (synced_channels _ _ _ c _ _ _ Hs); intros j.
    + unfold connected. destruct (decide (i = j)) as [->|]; [|by rewrite lookup_alter_ne].
      rewrite lookup_alter_eq. by destruct (c !! j) as [[]|].
    + by rewrite lookup_alter_None.
  - refine (synced_channels _ _ _ c _ _ _ Hs); intros j.
    + unfold connected. destruct (decide (i = j)) as [->|]; [|by rewrite lookup_alter_ne].
      rewrite lookup_alter_eq. by destruct (c !! j) as [[]|].
    + by rewrite lookup_alter_None.
  - destruct Hs as (Heq & Hfresh & Hsub). split_and!; [|done|].
    + etransitivity; [|exact Heq]. exact (filter_filter _ _ _ (fun _ _ H => H)).
    + simpl. intros j [_ Hj]%list_elem_of_filter. by apply Hsub.
Qed.

Lemma synced_run rx es :
  NoDup (registered es) -> synced (fold_left happen es (MkState rx BoardRegistry.new ∅)) (registered es).
Proof.
  induction es as [|e es IH] using rev_ind; [done|]. unfold registered. rewrite omap_app, fold_left_app.
  intros (Hnd & Hnot & _)%NoDup_app. apply synced_step; [by apply IH|]. intros i Hi Hl. by apply (Hnot i).
Qed.

(** C30 The registry of boards is as good as one that is never cleaned.  Whatever boards come,
    change and go, each under a channel of its own, and however often somebody asks in
    between, the boards served are exactly those registered and still connected, in the
    order of registration, each with its latest telemetry. *)
Theorem registry_serves_connected rx es :
  NoDup (registered es) ->
  let s := fold_left happen es (MkState rx BoardRegistry.new ∅) in
  (get_boards s).1 =
    omap (current (board_channels s)) (base.filter (fun i => connected (board_channels s) i = true) (registered es)).
Proof.
  intros Hnd s. unfold get_boards, boards_of, BoardRegistry.boards. simpl. f_equal.
  apply (synced_run rx es Hnd).
Qed.

Definition a_board (n : string) : BoardTelemetry := MkBoard n n None [] [] [] [].
Definition no_miner : Scheduler.MinerTelemetry := Scheduler.MkTelemetry 0 0 0 false [].
Lemma registry_serves_connected_witness :
  (get_boards (fold_left happen
     [Registered 1 (a_board "gamma"); Registered 2 (a_board "emberone"); Asked; Gone 1; Asked;
      Registered 3 (a_board "cpu"); Updated 2 (a_board "emberone-hot")] (MkState no_miner BoardRegistry.new ∅))).1 =
  [a_board "emberone-hot"; a_board "cpu"].
Proof.
  rewrite (registry_serves_connected no_miner
    [Registered 1 (a_board "gamma"); Registered 2 (a_board "emberone"); Asked; Gone 1; Asked;
     Registered 3 (a_board "cpu"); Updated 2 (a_board "emberone-hot")]).
  - vm_compute. reflexivity.
  - apply (bool_decide_unpack _). vm_compute. exact I.
Defined.

(** A request to pause that is answered in time shows what it asked for: the scheduler takes
    the command, publishes and only then replies. *)
Theorem patch_reads_its_write `{Scheduler.Env, FloatLib} (p : bool) s0 s sch now start es :
  let c := if p then Scheduler.PauseMining else Scheduler.ResumeMining in
  miner_telemetry_rx s = (Scheduler.Scheduler.compute_miner_telemetry (Scheduler.Scheduler.with_paused sch p) start now).1 ->
  exists telemetry s',
    patch_miner (MkPatch (Some p)) s0 (Accepted :: Replied true s :: es) = (Ret telemetry, s', es, [Command c]) /\
    Scheduler.mt_paused (from_scheduler telemetry) = p.
Proof.
  intros c Hs. unfold patch_miner, miner_telemetry, boards_of, BoardRegistry.boards. simpl. eexists _, _.
  split; [reflexivity|]. simpl. by rewrite Hs.
Qed.
