(* ===== verification/Led.v ===== *)
(** * Status LEDs (peripheral/led, hw_trait/rgb_led.rs)

    Colours, the calibration of a LED, the animations and the board's status LED.  A LED
    is owned by one task at a time, so what it shows is the sequence of the writes of
    the tasks that own it in turn.  A step of a task is what it does between two awaits. *)
From stdpp Require Import base numbers list.
From Stdlib Require Import ZArith Lia SpecFloat.
From S2P Require Import Prelude Float Control.
Import BitaxeRawLed.

(** Operations of libm at binary32. *)
Class LedMath := { f_sin : float -> float; f_exp : float -> float; f_powf : float -> float -> float }.

Definition WHITE : RgbColor := Rgb 255 255 255.
Definition RED : RgbColor := Rgb 255 0 0.
Definition GREEN : RgbColor := Rgb 0 255 0.
Definition BLUE : RgbColor := Rgb 0 0 255.
Definition ORANGE : RgbColor := Rgb 255 40 0.

(** ** Calibration *)
Module CalibratedLed.
Section CalibratedLed.
Context `{LedMath}.

Definition channel (value : Z) (scale brightness gamma : float) : Z :=
  let linear := f_mul f32 (f_mul f32 (f_div f32 (f_of_Z f32 value) (f_of_Z f32 255)) scale) brightness in
  let corrected := f_powf (clamp_unit linear) gamma in
  f_round_to_uint 8 (f_mul f32 corrected (f_of_Z f32 255)).

Record ColorProfile := MkProfile {
  brightness : float; gamma : float; scale_r : float; scale_g : float; scale_b : float }.
Definition SK6812 : ColorProfile :=
  MkProfile (f_lit f32 1 10) (f_lit f32 25 10) (f_of_Z f32 1) (f_lit f32 69 100) (f_lit f32 94 100).

(** What is passed on to the LED inside. *)
Definition set (p : ColorProfile) (color : RgbColor) (level : float) : RgbColor * float :=
  let level := f_mul f32 (clamp_unit level) (brightness p) in
  (Rgb (channel (r color) (scale_r p) level (gamma p)) (channel (g color) (scale_g p) level (gamma p))
     (channel (b color) (scale_b p) level (gamma p)), f_of_Z f32 1).
End CalibratedLed.
End CalibratedLed.

(** ** What an animation shows *)
Section Led.
Context `{LedMath}.

(** [x % 1.0]: exact, with the sign of [x]. *)
Definition f_fract (x : float) : float :=
  match x with
  | S754_finite s m e =>
      if 0 <=? e then S754_zero s
      else let rest := Z.pos m mod 2 ^ (- e) in
           binary_normalize (prec f32) (emax f32) (if s then - rest else rest) e s
  | S754_zero s => S754_zero s
  | _ => S754_nan
  end.
Definition rem_euclid_1 (x : float) : float :=
  let rest := f_fract x in
  if f_lt rest (f_of_Z f32 0) then f_add f32 rest (f_of_Z f32 1) else rest.

(** The constants of [std::f32::consts], which are these multiples of 2^-22. *)
Definition E : float := f_lit f32 11401300 (2 ^ 22).
Definition PI : float := f_lit f32 13176795 (2 ^ 22).

Definition breathe_brightness (cycle_fraction : float) : float :=
  let t := rem_euclid_1 cycle_fraction in
  let inv_e := f_div f32 (f_of_Z f32 1) E in
  let raw := f_exp (f_sin (f_sub f32 (f_mul f32 (f_mul f32 (f_of_Z f32 2) PI) t) (f_div f32 PI (f_of_Z f32 2)))) in
  f_div f32 (f_sub f32 raw inv_e) (f_sub f32 E inv_e).

(** Times and durations are nanoseconds. *)
Definition MS : Z := 1000000.
Definition as_millis (d : Z) : Z := d / MS.
Definition elapsed_ms (epoch now : Z) : Z := wrap 64 (as_millis (Z.max 0 (now - epoch))).

Definition TICK_INTERVAL : Z := 50 * MS.
Definition BREATHE_PERIOD : Z := 3000 * MS.

(** An animation as what it needs to be resumed: the states of the [Resume] trait. *)
Inductive animation :=
| Breathe (color : RgbColor) (period epoch : Z)
| Blink (color : RgbColor) (phase epoch : Z)
| Hold (color : RgbColor) (level : float)
| Off
| Flash (color : RgbColor) (remaining : Z).

(** The time in the cycle, of an animation that loops. *)
Definition phase_ms (a : animation) (now : Z) : option Z :=
  match a with
  | Breathe _ period epoch => Some (elapsed_ms epoch now mod as_millis period)
  | Blink _ phase epoch => Some (elapsed_ms epoch now mod as_millis (2 * phase))
  | _ => None
  end.

(** The write an animation makes at a time. *)
Definition breathe_write (color : RgbColor) (period epoch now : Z) : RgbColor * float :=
  let cycle_fraction := f_div f32 (f_of_Z f32 (elapsed_ms epoch now mod as_millis period)) (f_of_Z f32 (as_millis period)) in
  (color, breathe_brightness cycle_fraction).
Definition blink_write (color : RgbColor) (phase epoch now : Z) : RgbColor * float :=
  let on := elapsed_ms epoch now mod as_millis (2 * phase) <? as_millis phase in
  (color, if on then f_of_Z f32 1 else f_of_Z f32 0).
(** [RgbLed::off]. *)
Definition off_write : RgbColor * float := (BLACK, f_of_Z f32 0).
Definition look (a : animation) (now : Z) : RgbColor * float :=
  match a with
  | Breathe color period epoch => breathe_write color period epoch now
  | Blink color phase epoch => blink_write color phase epoch now
  | Hold color level => (color, level)
  | Off => off_write
  | Flash color _ => (color, f_of_Z f32 1)
  end.

(** ** Tasks *)
Inductive StopMode := Immediate | FinishCycle.

(** Where a task is: not polled yet, in [led.set], waiting for a tick, asleep since
    [start], done.  [stop] is the mode received so far. *)
Inductive place :=
| Fresh
| Setting (stop : option StopMode)
| Ticking (stop : option StopMode)
| Sleeping (start : Z) (finishing : bool)
| Done (state : animation).

(** A handle is the task it stands for and the mode sent to it and not yet received.  The
    tasks of [interrupt] hold the handle they own: before they first run, while they stop
    it, during the one-shot, after they have resumed, and while they stop that. *)
Inductive task :=
| Playing (a : animation) (p : place) (sent : option StopMode)
| Interrupting (inner : task) (one_shot : animation) (sent : option StopMode)
| Stopping (inner : task) (one_shot : animation) (sent : option StopMode)
| OneShot (inner : task) (state : animation) (sent : option StopMode)
| Resumed (inner : task) (sent : option StopMode)
| Returning (inner : task).

Definition spawn (a : animation) : task := Playing a Fresh None.

Definition breathe (color : RgbColor) (now : Z) : task := spawn (Breathe color BREATHE_PERIOD now).
Definition blink (color : RgbColor) (phase now : Z) : task := spawn (Blink color phase now).
Definition hold (color : RgbColor) (level : float) : task := spawn (Hold color level).
Definition off : task := spawn Off.

(** [Resume::resume]. *)
Definition flash_resume (color : RgbColor) (remaining : Z) : task :=
  if remaining =? 0 then off else spawn (Flash color remaining).
Definition resume (a : animation) : task :=
  match a with
  | Flash color remaining => flash_resume color remaining
  | _ => spawn a
  end.

(** [tx.send]: a task of [hold] or [off] has dropped its receiver. *)
Definition send (t : task) (mode : StopMode) : task :=
  match t with
  | Playing a p _ => Playing a p (Some mode)
  | Interrupting inner f _ => Interrupting inner f (Some mode)
  | Stopping inner f _ => Stopping inner f (Some mode)
  | OneShot inner state _ => OneShot inner state (Some mode)
  | Resumed inner _ => Resumed inner (Some mode)
  | Returning inner => Returning inner
  end.

(** What the task returns: the LED and the state it can be resumed from. *)
Fixpoint result (t : task) : option animation :=
  match t with
  | Playing _ (Done state) _ => Some state
  | Returning inner => result inner
  | _ => None
  end.

(** [AnimationHandle::interrupt]. *)
Definition interrupt (t : task) (one_shot : animation) : task := Interrupting t one_shot None.

(** Of the task that plays: it is polled for the first time, or as a mode has arrived;
    [led.set] returns, whatever it did; a tick; the end of the sleep.  [Woken n] is of the
    [n]-th task around it, from outside: it runs for the first time, what it awaits has
    ended, or a mode has arrived. *)
Inductive event := Polled | WriteDone | Ticked | Slept | Woken (n : nat).

Definition write : Type := Z * (RgbColor * float).

(** The end of a turn of the loops of [spawn_breathe] and [spawn_blink]. *)
Definition ends_cycle (a : animation) (stop : option StopMode) (now : Z) : bool :=
  match stop, phase_ms a now with
  | Some Immediate, _ => true
  | Some FinishCycle, Some phase => phase <? as_millis TICK_INTERVAL * 2
  | _, _ => false
  end.

(** The loops of [spawn_breathe] and [spawn_blink]. *)
Definition loop_step (now : Z) (e : event) (a : animation) (p : place) (sent : option StopMode) :
  option (task * list write) :=
  match p, e with
  | Fresh, Polled => Some (Playing a (Setting None) sent, [(now, look a now)])
  | Setting stop, WriteDone => Some (Playing a (Ticking stop) sent, [])
  | Ticking stop, Ticked =>
      let stop := match sent with Some mode => Some mode | None => stop end in
      if ends_cycle a stop now then Some (Playing a (Done a) None, [])
      else Some (Playing a (Setting stop) None, [(now, look a now)])
  | _, _ => None
  end.
Definition breathe_step now e color period epoch := loop_step now e (Breathe color period epoch).
Definition blink_step now e color phase epoch := loop_step now e (Blink color phase epoch).

Definition hold_step (now : Z) (e : event) color level (p : place) (sent : option StopMode) :
  option (task * list write) :=
  match p, e with
  | Fresh, Polled => Some (Playing (Hold color level) (Setting None) sent, [(now, (color, level))])
  | Setting stop, WriteDone => Some (Playing (Hold color level) (Done (Hold color level)) sent, [])
  | _, _ => None
  end.
Definition off_step (now : Z) (e : event) (p : place) (sent : option StopMode) : option (task * list write) :=
  match p, e with
  | Fresh, Polled => Some (Playing Off (Setting None) sent, [(now, off_write)])
  | Setting stop, WriteDone => Some (Playing Off (Done Off) sent, [])
  | _, _ => None
  end.

(** [FinishCycle] makes it sleep on, deaf; its sleep ends no earlier than it should. *)
Definition flash_step (now : Z) (e : event) color remaining (p : place) (sent : option StopMode) :
  option (task * list write) :=
  let at_ := Playing (Flash color remaining) in
  match p, e with
  | Fresh, Polled => Some (at_ (Setting None) sent, [(now, (color, f_of_Z f32 1))])
  | Setting stop, WriteDone => Some (at_ (Sleeping now false) sent, [])
  | Sleeping start _, Slept =>
      if start + remaining <=? now then Some (at_ (Done (Flash color 0)) sent, []) else None
  | Sleeping start false, Polled =>
      match sent with
      | Some Immediate => Some (at_ (Done (Flash color (Z.max 0 (remaining - (now - start))))) None, [])
      | Some FinishCycle => Some (at_ (Sleeping start true) None, [])
      | None => None
      end
  | _, _ => None
  end.

(** A step of a task that plays an animation. *)
Definition step_playing (now : Z) (e : event) (a : animation) (p : place) (sent : option StopMode) :
  option (task * list write) :=
  match a with
  | Breathe color period epoch => breathe_step now e color period epoch p sent
  | Blink color phase epoch => blink_step now e color phase epoch p sent
  | Hold color level => hold_step now e color level p sent
  | Off => off_step now e p sent
  | Flash color remaining => flash_step now e color remaining p sent
  end.

(** A step of the task that owns the LED, or of one around it. *)
Fixpoint step (now : Z) (e : event) (t : task) : option (task * list write) :=
  let inside inner (around : task -> task) :=
    let e := match e with Woken (S n) => Some (Woken n) | Woken O => None | _ => Some e end in
    e ← e; '(inner, w) ← step now e inner; Some (around inner, w) in
  match t with
  | Playing a p sent => step_playing now e a p sent
  | Interrupting inner f sent =>
      match e with
      | Woken O => Some (Stopping (send inner Immediate) f sent, [])
      | _ => inside inner (fun inner => Interrupting inner f sent)
      end
  | Stopping inner f sent =>
      match result inner, e with
      | Some state, Woken O => Some (OneShot (send (spawn f) FinishCycle) state sent, [])
      | _, _ => inside inner (fun inner => Stopping inner f sent)
      end
  | OneShot inner state sent =>
      match result inner, e with
      | Some _, Woken O => Some (Resumed (resume state) sent, [])
      | _, _ => inside inner (fun inner => OneShot inner state sent)
      end
  | Resumed inner sent =>
      match sent, e with
      | Some mode, Woken O => Some (Returning (send inner mode), [])
      | _, _ => inside inner (fun inner => Resumed inner sent)
      end
  | Returning inner => inside inner Returning
  end.

(** ** The status LED *)
Inductive Status := Initializing | Idle | Hashing | Fault | Identify.
Definition FLASH_DURATION : Z := 150 * MS.
Definition FAULT_BLINK_PHASE : Z := 500 * MS.
Definition IDENTIFY_BLINK_PHASE : Z := 125 * MS.

Definition apply_status (status : Status) (now : Z) : task :=
  match status with
  | Initializing => breathe ORANGE now
  | Hashing => breathe WHITE now
  | Identify => blink BLUE IDENTIFY_BLINK_PHASE now
  | Idle => hold WHITE (f_of_Z f32 1)
  | Fault => blink RED FAULT_BLINK_PHASE now
  end.

(** What [set] and [off] start once they have the LED. *)
Inductive call := SetStatus (s : Status) | TurnOff.

(** A call that waits for the LED has taken the handle. *)
Inductive handle := Has (t : task) | Taken (t : task) (by_ : call).
Record StatusLed := MkStatus { handle_ : handle; status : Status }.

Definition new (s : Status) (now : Z) : StatusLed := MkStatus (Has (apply_status s now)) s.

(** [set] and [off] up to the await in [take_led], and [flash_share]. *)
Definition begin (l : StatusLed) (c : call) : option StatusLed :=
  match handle_ l with
  | Has t => Some (MkStatus (Taken (send t Immediate) c) (status l))
  | Taken _ _ => None
  end.
Definition flash_share (l : StatusLed) : option StatusLed :=
  match handle_ l with
  | Has t => Some (MkStatus (Has (interrupt t (Flash ORANGE FLASH_DURATION))) (status l))
  | Taken _ _ => None
  end.
(** The rest of [set] and [off], with the LED. *)
Definition finish (l : StatusLed) (now : Z) : option StatusLed :=
  match handle_ l with
  | Taken t c =>
      match result t, c with
      | Some _, SetStatus s => Some (MkStatus (Has (apply_status s now)) s)
      | Some _, TurnOff => Some (MkStatus (Has off) (status l))
      | None, _ => None
      end
  | Has _ => None
  end.

(** What happens: the board calls, a call returns, a task takes a step. *)
Inductive happening := Begins (c : call) | Flashes | Finishes | Steps (e : event).

Definition happen (l : StatusLed) (now : Z) (h : happening) : option (StatusLed * list write) :=
  match h with
  | Begins c => l ← begin l c; Some (l, [])
  | Flashes => l ← flash_share l; Some (l, [])
  | Finishes => l ← finish l now; Some (l, [])
  | Steps e =>
      match handle_ l with
      | Has t => '(t, w) ← step now e t; Some (MkStatus (Has t) (status l), w)
      | Taken t c => '(t, w) ← step now e t; Some (MkStatus (Taken t c) (status l), w)
      end
  end.

Fixpoint run (l : StatusLed) (hs : list (Z * happening)) : option (StatusLed * list write) :=
  match hs with
  | [] => Some (l, [])
  | (now, h) :: hs => '(l, w) ← happen l now h; '(l, w') ← run l hs; Some (l, w ++ w')
  end.
End Led.
