(* ===== verification/LedProps.v ===== *)
(** * What the status LED promises

    It shows the status it was last given, in the phase the clock dictates, whatever
    flashes come in between; and a call that takes the LED back gets it. *)
From stdpp Require Import base numbers list.
From Stdlib Require Import ZArith Lia SpecFloat.
From S2P Require Import Prelude Float Control Led.
Import BitaxeRawLed.

Section Props.
Context `{LedMath}.

(** The one-shot of [flash_share]. *)
Definition share_flash : animation := Flash ORANGE FLASH_DURATION.

(** The animation that shows a status from [now] on. *)
Definition status_animation (status : Status) (now : Z) : animation :=
  match status with
  | Initializing => Breathe ORANGE BREATHE_PERIOD now
  | Hashing => Breathe WHITE BREATHE_PERIOD now
  | Identify => Blink BLUE IDENTIFY_BLINK_PHASE now
  | Idle => Hold WHITE (f_of_Z f32 1)
  | Fault => Blink RED FAULT_BLINK_PHASE now
  end.
Lemma apply_status_spawns s now : apply_status s now = spawn (status_animation s now).
Proof. by destruct s. Qed.

Definition lasting (a : animation) : Prop := match a with Flash _ _ => False | _ => True end.

Lemma status_lasting s now : lasting (status_animation s now).
Proof. by destruct s. Qed.
Lemma resume_lasting a : lasting a -> resume a = spawn a.
Proof. by destruct a. Qed.

(** ** Calibration *)

(** Without corrections a channel keeps its value. *)
Lemma channel_identity v : (forall x, f_powf x (f_of_Z f32 1) = x) -> 0 <= v < 256 ->
  CalibratedLed.channel v (f_of_Z f32 1) (f_of_Z f32 1) (f_of_Z f32 1) = v.
Proof.
  intros Hpow Hv. unfold CalibratedLed.channel. rewrite Hpow.
  apply (all_below_spec 256 (fun v => f_round_to_uint 8 (f_mul f32 (clamp_unit (f_mul f32 (f_mul f32
    (f_div f32 (f_of_Z f32 v) (f_of_Z f32 255)) (f_of_Z f32 1)) (f_of_Z f32 1))) (f_of_Z f32 255)) = v)); [|done].
  vm_compute. repeat split.
Qed.

(** ** Tasks that play an animation

    [halting] tasks have been sent [Immediate]. *)
Definition halting (t : task) : Prop :=
  match t with
  | Playing _ (Done _) _ => True
  | Playing _ _ sent | Interrupting _ _ sent | Stopping _ _ sent | OneShot _ _ sent | Resumed _ sent => sent = Some Immediate
  | Returning _ => True
  end.
Definition only_immediate (sent : option StopMode) : Prop := sent = None \/ sent = Some Immediate.

(** The places of an animation that lasts. *)
Definition place_of (a : animation) (p : place) : Prop :=
  match p with
  | Fresh => True
  | Setting stop => stop = None
  | Ticking stop => stop = None /\ phase_ms a 0 <> None
  | Sleeping _ _ => False
  | Done state => state = a
  end.

(** The task of the flash: its [finish] has been called. *)
Definition flashing (t : task) : Prop :=
  match t with
  | Playing a p sent => a = share_flash /\
      match p with
      | Fresh | Setting None => sent = Some FinishCycle
      | Sleeping _ finishing => sent = (if finishing : bool then None else Some FinishCycle)
      | Done _ => True
      | _ => False
      end
  | _ => False
  end.

Inductive plays (a : animation) : task -> Prop :=
| plays_playing p sent : place_of a p -> only_immediate sent -> plays a (Playing a p sent)
| plays_interrupting inner sent : plays a inner -> only_immediate sent -> plays a (Interrupting inner share_flash sent)
| plays_stopping inner sent :
    plays a inner -> halting inner -> only_immediate sent -> plays a (Stopping inner share_flash sent)
| plays_oneshot inner sent : flashing inner -> only_immediate sent -> plays a (OneShot inner a sent)
| plays_resumed inner sent : plays a inner -> only_immediate sent -> plays a (Resumed inner sent)
| plays_returning inner : plays a inner -> halting inner -> plays a (Returning inner).

Lemma plays_result a t state : plays a t -> result t = Some state -> state = a.
Proof.
  induction 1 as [p sent Hp| | | | |]; simpl; try done. destruct p; simpl in *; congruence.
Qed.

Lemma plays_send a t : plays a t -> plays a (send t Immediate) /\ halting (send t Immediate).
Proof.
  assert (Hi : only_immediate (Some Immediate)) by (by right).
  destruct 1 as [p sent| | | | |]; simpl; split; try done; try by constructor. by destruct p.
Qed.

Lemma plays_spawn a : plays a (spawn a).
Proof. constructor; [done|by left]. Qed.

(** What a task writes at [now]. *)
Definition writes_ok (a : animation) (t : task) (now : Z) (w : list write) : Prop :=
  w = [] \/ w = [(now, look a now)] \/
  w = [(now, (ORANGE, f_of_Z f32 1))] /\ match t with Playing _ _ _ => False | _ => True end.

Lemma writes_ok_inside a inner t now w :
  match t with Playing _ _ _ => False | _ => True end -> writes_ok a inner now w -> writes_ok a t now w.
Proof. unfold writes_ok. tauto. Qed.

(** A step of a task around another is its own or inside. *)
Definition outward (e : event) : event := match e with Woken n => Woken (S n) | _ => e end.
Definition inside (around : task -> task) now e inner t w : Prop :=
  exists e' inner', step now e' inner = Some (inner', w) /\ t = around inner' /\ e = outward e'.

Lemma inside_inv (around : task -> task) now e inner t w :
  (e ← match e with Woken (S n) => Some (Woken n) | Woken O => None | _ => Some e end;
   '(inner, w) ← step now e inner; Some (around inner, w)) = Some (t, w) ->
  inside around now e inner t w.
Proof.
  intros (e' & He & H2)%bind_Some. apply bind_Some in H2 as ([inner' w'] & Hs & [= <- <-]).
  exists e', inner'. split_and!; [done|done|]. by destruct e as [| | | |[]]; simplify_eq/=.
Qed.

#[export] Instance event_eq_dec : EqDecision event.
Proof. solve_decision. Defined.

Lemma step_inv now e t t' w :
  step now e t = Some (t', w) ->
  match t with
  | Playing a p sent => step_playing now e a p sent = Some (t', w)
  | Interrupting inner f sent =>
      e = Woken 0 /\ t' = Stopping (send inner Immediate) f sent /\ w = [] \/
      inside (fun inner => Interrupting inner f sent) now e inner t' w
  | Stopping inner f sent =>
      (exists state, result inner = Some state /\ e = Woken 0 /\ t' = OneShot (send (spawn f) FinishCycle) state sent /\ w = []) \/
      inside (fun inner => Stopping inner f sent) now e inner t' w
  | OneShot inner state sent =>
      is_Some (result inner) /\ e = Woken 0 /\ t' = Resumed (resume state) sent /\ w = [] \/
      inside (fun inner => OneShot inner state sent) now e inner t' w
  | Resumed inner sent =>
      (exists mode, sent = Some mode /\ e = Woken 0 /\ t' = Returning (send inner mode) /\ w = []) \/
      inside (fun inner => Resumed inner sent) now e inner t' w
  | Returning inner => inside Returning now e inner t' w
  end.
Proof.
  destruct t as [| inner f sent|inner f sent|inner st sent|inner sent|inner]; cbn [step]; [done|..]; intros Hs.
  - destruct (decide (e = Woken 0)) as [->|He]; [by simplify_eq; left|right].
    apply inside_inv. by destruct e as [| | | |[]].
  - destruct (decide (e = Woken 0)) as [->|He].
    + destruct (result inner); [|done]. simplify_eq. left. eauto.
    + right. apply inside_inv. by destruct (result inner), e as [| | | |[]].
  - destruct (decide (e = Woken 0)) as [->|He].
    + destruct (result inner); [|done]. simplify_eq. left. eauto.
    + right. apply inside_inv. by destruct (result inner), e as [| | | |[]].
  - destruct (decide (e = Woken 0)) as [->|He].
    + destruct sent as [mode|]; [|done]. simplify_eq. left. eauto.
    + right. apply inside_inv. by destruct sent, e as [| | | |[]].
  - by apply inside_inv.
Qed.

Lemma flashing_step now e t t' w :
  flashing t -> step now e t = Some (t', w) ->
  flashing t' /\ (w = [] \/ w = [(now, (ORANGE, f_of_Z f32 1))]).
Proof.
  destruct t as [a p sent| | | | |]; try done. intros [-> Hp].
  destruct p as [|[]|[]|start []|], e; simpl in *; try done; intros Hs; subst sent; simplify_eq/=; auto 10.
  all: case_match; simplify_eq/=; auto 10.
Qed.

(** What the invariant says of a place, and of the mode sent where it is received. *)
Ltac place_cases Hp Hsent :=
  lazymatch type of Hp with
  | _ /\ _ => destruct Hp as [-> _], Hsent as [-> | ->]
  | _ = None => subst
  | _ => idtac
  end; unfold loop_step; simpl.

Lemma playing_step a p sent now e t' w :
  lasting a -> place_of a p -> only_immediate sent -> step_playing now e a p sent = Some (t', w) ->
  plays a t' /\ (halting (Playing a p sent) -> halting t') /\ (w = [] \/ w = [(now, look a now)]).
Proof.
  intros Ha Hp Hsent. assert (only_immediate None) by (by left). assert (only_immediate (Some Immediate)) by (by right).
  destruct a; [..|done]; destruct p as [|stop|stop| |], e; simpl in *; try done.
  all: place_cases Hp Hsent; intros [= <- <-];
    (split_and!; [by constructor|done|by (left + right)]).
Qed.

(** A step keeps the animation, and makes only its writes and those of a flash. *)
Lemma plays_step a t : lasting a -> plays a t -> forall now e t' w,
  step now e t = Some (t', w) -> plays a t' /\ (halting t -> halting t') /\ writes_ok a t now w.
Proof.
  intros Ha. unfold writes_ok. induction 1 as [p sent Hp Hsent|inner sent Hin IH Hsent|inner sent Hin IH Hh Hsent
    |inner sent Hin Hsent|inner sent Hin IH Hsent|inner Hin IH Hh]; intros now e t' w Hs%step_inv.
  - destruct (playing_step a p sent now e t' w) as (? & ? & [?|?]); auto 10.
  - destruct Hs as [(-> & -> & ->)|(e' & inner' & Hs & -> & ->)].
    + destruct (plays_send a inner Hin). split_and!; [by constructor|done|by left].
    + apply IH in Hs as (? & _ & Hw). split_and!; [by constructor|done|]. clear IH. naive_solver.
  - destruct Hs as [(state & Hr & -> & -> & ->)|(e' & inner' & Hs & -> & ->)].
    + rewrite (plays_result _ _ _ Hin Hr). split_and!; [by constructor|done|by left].
    + apply IH in Hs as (? & ? & Hw). split_and!; [by constructor; auto|done|]. clear IH. naive_solver.
  - destruct Hs as [(_ & -> & -> & ->)|(e' & inner' & Hs & -> & ->)].
    + rewrite resume_lasting by done. split_and!; [by constructor; [constructor; [done|by left]|]|done|by left].
    + destruct (flashing_step _ _ _ _ _ Hin Hs) as (? & Hw). split_and!; [by constructor|done|]. naive_solver.
  - destruct Hs as [(mode & -> & -> & -> & ->)|(e' & inner' & Hs & -> & ->)].
    + destruct Hsent as [|[= ->]]; [done|]. destruct (plays_send a inner Hin). split_and!; [by constructor|done|by left].
    + apply IH in Hs as (? & _ & Hw). split_and!; [by constructor|done|]. clear IH. naive_solver.
  - destruct Hs as (e' & inner' & Hs & -> & ->).
    apply IH in Hs as (? & ? & Hw). split_and!; [by constructor; auto|done|]. clear IH. naive_solver.
Qed.

(** ** What the LED shows *)

(** What the board has asked for: the animation of the last call that has returned, the
    call that has not, the flashes since. *)
Record asked := MkAsked { shown : animation; pending : option call; flashes : nat }.

Definition asks (k : asked) (x : Z * happening) : asked :=
  match x with
  | (_, Begins c) => MkAsked (shown k) (Some c) (flashes k)
  | (_, Flashes) => MkAsked (shown k) (pending k) (S (flashes k))
  | (now, Finishes) =>
      match pending k with
      | Some (SetStatus s) => MkAsked (status_animation s now) None 0
      | Some TurnOff => MkAsked Off None 0
      | None => k
      end
  | (_, Steps _) => k
  end.
Definition history (s : Status) (t0 : Z) (hs : list (Z * happening)) : asked :=
  fold_left asks hs (MkAsked (status_animation s t0) None 0).

Definition task_of (l : StatusLed) : task := match handle_ l with Has t | Taken t _ => t end.
Definition led_inv (l : StatusLed) (k : asked) : Prop :=
  lasting (shown k) /\ plays (shown k) (task_of l) /\
  (match task_of l with Playing _ _ _ => True | _ => (0 < flashes k)%nat end) /\
  match handle_ l with
  | Has _ => pending k = None
  | Taken t c => pending k = Some c /\ halting t
  end.

Lemma step_playing_stays now e t t' w :
  step now e t = Some (t', w) -> match t' with Playing _ _ _ => False | _ => True end ->
  match t with Playing _ _ _ => False | _ => True end.
Proof.
  destruct t as [a p sent| | | | |]; try done. simpl. intros Hs.
  destruct a, p as [|stop|stop|start []|], e; simpl in Hs; unfold loop_step in Hs; repeat case_match; by simplify_eq/=.
Qed.

Lemma led_step l k now h l' w :
  led_inv l k -> happen l now h = Some (l', w) ->
  led_inv l' (asks k (now, h)) /\
  (w = [] \/ w = [(now, look (shown k) now)] \/ w = [(now, (ORANGE, f_of_Z f32 1))] /\ (0 < flashes k)%nat).
Proof.
  intros (Hl & Hp & Hf & Hh) Hs. destruct l as [hd st], h as [c| | |e]; unfold led_inv in *; simpl in *.
  - destruct hd as [t|]; simplify_eq/=. destruct (plays_send _ _ Hp). split; [|by left].
    split_and!; try done. by destruct t.
  - destruct hd as [t|]; simplify_eq/=. split; [|by left]. split_and!; try done; [|lia]. constructor; [done|by left].
  - destruct hd as [|t c]; simplify_eq/=. destruct Hh as [-> _].
    unfold finish in Hs. simpl in Hs.
    destruct (result t), c; simplify_eq/=; rewrite ?apply_status_spawns; (split; [|by left]); simpl;
      split_and!; try done; apply status_lasting || apply plays_spawn.
  - assert (Ht : exists t t', step now e t = Some (t', w) /\ t = task_of (MkStatus hd st) /\ t' = task_of l').
    { destruct hd as [t|t c]; simpl in *; destruct (step now e t) as [[t' w']|] eqn:Ht; simplify_eq/=; eauto. }
    destruct Ht as (t & t' & Ht & Et & Et'). change (match hd with Has u | Taken u _ => u end) with (task_of (MkStatus hd st)) in *.
    rewrite <- Et in Hp, Hf. destruct (plays_step _ _ Hl Hp _ _ _ _ Ht) as (Hp' & Hk & Hw).
    assert (Hstay := step_playing_stays _ _ _ _ _ Ht).
    split; [split_and!|]; [done|by rewrite <- Et'|..].
    + rewrite <- Et'. destruct t'; try done; destruct t; naive_solver.
    + destruct hd as [u|u c]; change (t = u) in Et; subst u; rewrite Ht in Hs; simpl in Hs; injection Hs as <-; simpl; tauto.
    + destruct Hw as [?|[?|[? Hn]]]; [by left|by right; left|]. right. right. split; [done|].
      by destruct t.
Qed.

Lemma led_run hs : forall l k l' w,
  led_inv l k -> run l hs = Some (l', w) -> led_inv l' (fold_left asks hs k).
Proof.
  induction hs as [|[now h] hs IH]; intros l k l' w Hi; cbn [run fold_left]; [by intros [= <- <-]|].
  intros ([l1 w1] & H1 & H2)%bind_Some. apply bind_Some in H2 as ([l2 w2] & H2 & [= <- <-]).
  eapply IH; [|exact H2]. by eapply led_step.
Qed.

Lemma led_new s t0 : led_inv (new s t0) (MkAsked (status_animation s t0) None 0).
Proof.
  unfold led_inv, new. rewrite apply_status_spawns. simpl. pose proof (status_lasting s t0). pose proof (plays_spawn (status_animation s t0)). done.
Qed.

(** C27 The LED shows what the board asked for last.  Whatever calls, flashes and steps of
    the tasks there have been, in any order and at any times: each write is the look, at
    its time, of the animation of the last call that has returned - breathing and
    blinking in the phase counted from that return, however often they were interrupted
    since, black after [off] - or it is an orange flash, and a share was found since. *)
Theorem led_shows_status s t0 hs l ws now h l' w :
  run (new s t0) hs = Some (l, ws) -> happen l now h = Some (l', w) ->
  let k := history s t0 hs in
  w = [] \/ w = [(now, look (shown k) now)] \/ w = [(now, (ORANGE, f_of_Z f32 1))] /\ (0 < flashes k)%nat.
Proof. intros Hrun Hh. eapply led_step; [|exact Hh]. eapply led_run; [apply led_new|exact Hrun]. Qed.

(** ** Taking the LED back

    A bound on the steps until a task that is to stop has stopped; the loops it owns and
    has not stopped yet count as if they had just begun. *)
Definition play_cost (p : place) : nat :=
  match p with Fresh => 3 | Setting _ => 2 | Ticking _ => 1 | _ => 0 end.
Definition flash_cost (t : task) : nat :=
  match t with
  | Playing _ Fresh _ => 4
  | Playing _ (Setting _) _ => 3
  | Playing _ (Sleeping _ finishing) _ => if finishing : bool then 1 else 2
  | _ => 0
  end.
Fixpoint cost (stopped : bool) (t : task) : nat :=
  match t with
  | Playing _ p _ => if stopped then play_cost p else 3
  | Interrupting inner _ _ => cost false inner + 11
  | Stopping inner _ _ => cost true inner + 10
  | OneShot inner _ _ => flash_cost inner + 5
  | Resumed inner _ => cost false inner + 1
  | Returning inner => cost true inner
  end.

(** The task whose turn it is, where the tasks inside may go on before it. *)
Fixpoint waker (t : task) : option nat :=
  match t with
  | Interrupting _ _ _ | Resumed _ (Some _) => Some O
  | Stopping inner _ _ | Returning inner => S <$> waker inner
  | _ => None
  end.

Lemma cost_stopped t : (cost true t <= cost false t)%nat.
Proof. destruct t as [a p sent| | | | |]; simpl; [destruct p; simpl; lia|lia..]. Qed.
Lemma cost_send stopped t mode : cost stopped (send t mode) = cost stopped t.
Proof. by destruct t. Qed.

Lemma flash_cost_step now e t t' w :
  flashing t -> step now e t = Some (t', w) -> (flash_cost t' < flash_cost t)%nat.
Proof.
  destruct t as [a p sent| | | | |]; try done. intros [-> Hp].
  destruct p as [|[]|[]|start []|], e; simpl in *; try done; intros Hs; subst sent; simplify_eq/=; try lia.
  all: case_match; simplify_eq/=; lia.
Qed.

Lemma playing_cost a p sent now e t' w :
  lasting a -> place_of a p -> only_immediate sent -> step_playing now e a p sent = Some (t', w) ->
  cost false t' = 3%nat /\ (halting (Playing a p sent) -> (cost true t' < play_cost p)%nat).
Proof.
  intros Ha Hp Hsent. destruct a; [..|done]; destruct p as [|stop|stop| |], e; simpl in *; try done.
  all: place_cases Hp Hsent; intros [= <- <-];
    simpl; split; try done; lia.
Qed.

Lemma free_cost a t : lasting a -> plays a t -> forall now e t' w,
  step now e t = Some (t', w) ->
  (cost false t' <= cost false t)%nat /\
  (halting t -> (cost true t' < cost true t)%nat \/
    cost true t' = cost true t /\ exists n, waker t = Some n /\ waker t' = Some n /\ e <> Woken n).
Proof.
  intros Ha. induction 1 as [p sent Hp Hsent|inner sent Hin IH Hsent|inner sent Hin IH Hh Hsent
    |inner sent Hin Hsent|inner sent Hin IH Hsent|inner Hin IH Hh]; intros now e t' w Hs%step_inv.
  - destruct (playing_cost a p sent now e t' w) as [Hc Hd]; [done..|]. rewrite Hc. simpl. auto.
  - destruct Hs as [(-> & -> & ->)|(e' & inner' & Hs & -> & ->)]; simpl.
    + rewrite cost_send. pose proof (cost_stopped inner). lia.
    + apply IH in Hs as [Hle _]. split; [lia|]. intros _. destruct (decide (cost false inner' = cost false inner)); [right|left; lia].
      split; [lia|]. exists O. by destruct e'.
  - destruct Hs as [(state & Hr & -> & -> & ->)|(e' & inner' & Hs & -> & ->)]; simpl.
    + lia.
    + apply IH in Hs as [_ Hd]. destruct (Hd Hh) as [|(? & n & Hn & Hn' & He)]; [lia|]. rewrite Hn, Hn'.
      split; [lia|]. intros _. right. split; [lia|]. exists (S n). split_and!; [done..|]. destruct e'; try done. simpl. congruence.
  - destruct Hs as [(_ & -> & -> & ->)|(e' & inner' & Hs & -> & ->)].
    + rewrite resume_lasting by done. simpl. lia.
    + apply flash_cost_step in Hs; [|done]. simpl. lia.
  - destruct Hs as [(mode & -> & -> & -> & ->)|(e' & inner' & Hs & -> & ->)]; simpl.
    + rewrite cost_send. pose proof (cost_stopped inner). lia.
    + apply IH in Hs as [Hle _]. split; [lia|]. intros ->. destruct (decide (cost false inner' = cost false inner)); [right|left; lia].
      split; [lia|]. exists O. by destruct e'.
  - destruct Hs as (e' & inner' & Hs & -> & ->). simpl.
    apply IH in Hs as [_ Hd]. destruct (Hd Hh) as [|(? & n & Hn & Hn' & He)]; [lia|]. rewrite Hn, Hn'.
    split; [lia|]. intros _. right. split; [lia|]. exists (S n). split_and!; [done..|]. destruct e'; try done. simpl. congruence.
Qed.

Definition enabled (now : Z) (e : event) (t : task) : Prop := is_Some (step now e t).

(** What is possible inside is possible. *)
Lemma enabled_outward now e inner :
  enabled now e inner ->
  (forall f sent, enabled now (outward e) (Interrupting inner f sent) /\ enabled now (outward e) (Stopping inner f sent)) /\
  (forall state sent, enabled now (outward e) (OneShot inner state sent)) /\
  (forall sent, enabled now (outward e) (Resumed inner sent)) /\ enabled now (outward e) (Returning inner).
Proof.
  intros [[inner' w] Hs].
  split_and!; intros; try split; unfold enabled; destruct e; simpl; repeat case_match; rewrite Hs; simpl; eauto.
Qed.

Lemma waker_enabled t : forall n now, waker t = Some n -> enabled now (Woken n) t.
Proof.
  induction t as [a p sent|inner IH f sent|inner IH f sent|inner IH st sent|inner IH sent|inner IH];
    intros n now; simpl; try done.
  - intros [= <-]. unfold enabled. simpl. eauto.
  - destruct (waker inner) as [m|]; [|done]. intros [= <-].
    by apply (enabled_outward now (Woken m) inner (IH m now eq_refl)).
  - destruct sent; [|done]. intros [= <-]. unfold enabled. simpl. eauto.
  - destruct (waker inner) as [m|]; [|done]. intros [= <-].
    by apply (enabled_outward now (Woken m) inner (IH m now eq_refl)).
Qed.

Lemma flashing_moves t : flashing t -> result t = None -> exists e late, forall now, late <= now -> enabled now e t.
Proof.
  destruct t as [a p sent| | | | |]; try done. intros [-> Hp] Hr. unfold enabled.
  destruct p as [|[]|[]|start fin|]; try done.
  - exists Polled, 0. simpl. eauto.
  - exists WriteDone, 0. simpl. eauto.
  - exists Slept, (start + FLASH_DURATION). intros now Hn. simpl. rewrite (proj2 (Z.leb_le _ _) Hn). destruct fin; eauto.
Qed.

Lemma halting_moves a t : lasting a -> plays a t -> halting t -> result t = None ->
  exists e late, forall now, late <= now -> enabled now e t.
Proof.
  intros Ha. induction 1 as [p sent Hp Hsent|inner sent Hin IH Hsent|inner sent Hin IH Hh Hsent
    |inner sent Hin Hsent|inner sent Hin IH Hsent|inner Hin IH Hh]; intros Hhalt Hr.
  - destruct p as [|stop|stop| |]; try done; [exists Polled|exists WriteDone|exists Ticked]; exists 0; intros now _;
      unfold enabled; destruct a; try done; simpl; unfold loop_step; try case_match; try done; destruct Hp; done.
  - exists (Woken 0), 0. unfold enabled. simpl. eauto.
  - destruct (result inner) as [st|] eqn:Hi.
    + exists (Woken 0), 0. unfold enabled. simpl. rewrite Hi. eauto.
    + destruct IH as (e & late & He); [done..|]. exists (outward e), late. intros now Hn. by apply enabled_outward, He.
  - destruct (result inner) as [st|] eqn:Hi.
    + exists (Woken 0), 0. unfold enabled. simpl. rewrite Hi. eauto.
    + destruct (flashing_moves inner) as (e & late & He); [done..|]. exists (outward e), late. intros now Hn. by apply enabled_outward, He.
  - simpl in Hhalt. subst sent. exists (Woken 0), 0. unfold enabled. simpl. eauto.
  - destruct IH as (e & late & He); [done..|]. exists (outward e), late. intros now Hn. by apply enabled_outward, He.
Qed.

(** An infinite run of the tasks in which a task that can always run some time does. *)
Definition runs_forever (tasks : nat -> task) (evs : nat -> Z * event) : Prop :=
  forall i, exists w, step (evs i).1 (evs i).2 (tasks i) = Some (tasks (S i), w).
Definition fair (tasks : nat -> task) (evs : nat -> Z * event) : Prop :=
  forall i n, (forall j now, (i <= j)%nat -> enabled now (Woken n) (tasks j)) -> exists j, (i <= j)%nat /\ (evs j).2 = Woken n.

Lemma halting_ends a (tasks : nat -> task) evs :
  lasting a -> runs_forever tasks evs -> fair tasks evs -> plays a (tasks O) -> halting (tasks O) -> False.
Proof.
  intros Ha Hrun Hfair H0 Hh0.
  assert (Hinv : forall i, plays a (tasks i) /\ halting (tasks i)).
  { induction i as [|i [Hp Hh]]; [done|]. destruct (Hrun i) as [w Hs].
    destruct (plays_step _ _ Ha Hp _ _ _ _ Hs) as (? & ? & _). auto. }
  assert (Hstep : forall i, (cost true (tasks (S i)) < cost true (tasks i))%nat \/
    cost true (tasks (S i)) = cost true (tasks i) /\
    exists n, waker (tasks i) = Some n /\ waker (tasks (S i)) = Some n /\ (evs i).2 <> Woken n).
  { intros i. destruct (Hinv i) as [Hp Hh], (Hrun i) as [w Hs]. by apply (free_cost _ _ Ha Hp _ _ _ _ Hs). }
  assert (Hall : forall k i, cost true (tasks i) = k -> False); [|exact (Hall _ O eq_refl)].
  intros k. induction (lt_wf k) as [k _ IH]. intros i Hk.
  assert (Hsame : forall d, cost true (tasks (d + i)%nat) = k).
  { induction d as [|d IHd]; [done|]. simpl. destruct (Hstep (d + i)%nat) as [Hlt|[-> _]]; [|done].
    exfalso. eapply IH; [|reflexivity]. rewrite <- IHd. exact Hlt. }
  assert (Hkeep : forall d, exists n, waker (tasks (d + i)%nat) = Some n /\ waker (tasks (S (d + i))) = Some n /\ (evs (d + i)%nat).2 <> Woken n).
  { intros d. destruct (Hstep (d + i)%nat) as [Hlt|[_ ?]]; [|done].
    pose proof (Hsame d). pose proof (Hsame (S d)) as HS. simpl in HS. lia. }
  destruct (Hkeep O) as (n & Hn & _ & _).
  assert (Hw : forall d, waker (tasks (d + i)%nat) = Some n).
  { induction d as [|d IHd]; [done|]. destruct (Hkeep d) as (m & Hm & Hm' & _). simpl. congruence. }
  destruct (Hfair i n) as (j & Hj & He).
  - intros j now Hj. replace j with ((j - i) + i)%nat by lia. by apply waker_enabled.
  - replace j with ((j - i) + i)%nat in He by lia. destruct (Hkeep (j - i)%nat) as (m & Hm & _ & Hne). rewrite Hw in Hm. by simplify_eq.
Qed.

(** C26 A call that takes the LED back gets it.  Whatever has happened before [set] or [off]
    is called - flashes not over yet, flashes that interrupted flashes, tasks that have
    not run: as long as the LED has not come back, some task can go on, at the latest when
    the flash that is shown is over; and the tasks do not go on for ever, if a task that
    can run some time does. *)
Theorem status_led_returns s t0 hs l ws t c :
  run (new s t0) hs = Some (l, ws) -> handle_ l = Taken t c ->
  (result t = None -> exists e late, forall now, late <= now -> enabled now e t) /\
  (forall tasks evs, tasks O = t -> runs_forever tasks evs -> fair tasks evs -> False).
Proof.
  intros Hrun Ht. destruct (led_run _ _ _ _ _ (led_new s t0) Hrun) as (Ha & Hp & _ & Hh).
  unfold task_of in Hp. rewrite Ht in Hp, Hh. destruct Hh as [_ Hh]. split.
  - by eapply halting_moves.
  - intros tasks evs <- Hrun' Hfair. by eapply halting_ends.
Qed.
End Props.

(** ** Example

    Hashing from second 1; a share is found at 2 s, another during its flash, and the board
    turns the LED off before that is over. *)
#[local] Instance math_ref : LedMath := {| f_sin x := x; f_exp x := x; f_powf x _ := x |}.
Definition at_ms (ms : Z) (h : happening) : Z * happening := (ms * MS, h).
Definition found_ref : list (Z * happening) :=
  [at_ms 1000 (Steps Polled); at_ms 1001 (Steps WriteDone); at_ms 2000 Flashes; at_ms 2001 (Steps (Woken 0));
   at_ms 2002 (Steps Ticked); at_ms 2003 (Steps (Woken 0)); at_ms 2004 (Steps Polled); at_ms 2005 (Steps WriteDone);
   at_ms 2006 Flashes; at_ms 2007 (Begins TurnOff)].

Lemma led_shows_status_witness :
  match run (new Hashing (1000 * MS)) found_ref with
  | Some (l, ws) =>
      map (fun w => (w.1 / MS, w.2.1)) ws = [(1000, WHITE); (2004, ORANGE)] /\
      forall l' w, happen l (2155 * MS) (Steps Slept) = Some (l', w) ->
        w = [] \/ w = [(2155 * MS, look (Breathe WHITE BREATHE_PERIOD (1000 * MS)) (2155 * MS))] \/
        w = [(2155 * MS, (ORANGE, f_of_Z f32 1))] /\ (0 < 2)%nat
  | None => False
  end.
Proof.
  destruct (run (new Hashing (1000 * MS)) found_ref) as [[l ws]|] eqn:Hrun; [|by vm_compute in Hrun].
  split; [by vm_compute in Hrun; simplify_eq|]. intros l' w Hh.
  exact (led_shows_status Hashing (1000 * MS) found_ref l ws _ _ l' w Hrun Hh).
Defined.

(** The LED comes back when both flashes are over, and then goes black. *)
Definition rest_ref : list (Z * happening) :=
  [at_ms 2155 (Steps Slept); at_ms 2156 (Steps (Woken 0)); at_ms 2157 (Steps (Woken 1)); at_ms 2158 (Steps (Woken 1));
   at_ms 2158 (Steps Polled); at_ms 2159 (Steps WriteDone); at_ms 2160 (Steps Ticked); at_ms 2161 (Steps (Woken 0));
   at_ms 2162 (Steps Polled); at_ms 2163 (Steps WriteDone); at_ms 2313 (Steps Slept); at_ms 2314 (Steps (Woken 0));
   at_ms 2315 (Steps (Woken 0)); at_ms 2316 (Steps Polled); at_ms 2317 (Steps WriteDone); at_ms 2318 (Steps Ticked);
   at_ms 2319 Finishes; at_ms 2320 (Steps Polled)].
Example off_waits_for_flashes :
  (x ← run (new Hashing (1000 * MS)) (found_ref ++ rest_ref); Some (map (fun w => (w.1 / MS, w.2.1)) x.2)) =
  Some [(1000, WHITE); (2004, ORANGE); (2158, WHITE); (2162, ORANGE); (2316, WHITE); (2320, BLACK)].
Proof. vm_compute. reflexivity. Qed.

Definition taken_ref : task :=
  match run (new Hashing (1000 * MS)) found_ref with Some (l, _) => task_of l | None => spawn Off end.

Lemma status_led_returns_witness :
  result taken_ref = None /\ (exists e late, forall now, late <= now -> enabled now e taken_ref) /\
  (forall tasks evs, tasks O = taken_ref -> runs_forever tasks evs -> fair tasks evs -> False).
Proof.
  destruct (run (new Hashing (1000 * MS)) found_ref) as [[l ws]|] eqn:Hrun; [|by vm_compute in Hrun].
  destruct (status_led_returns Hashing (1000 * MS) found_ref l ws taken_ref TurnOff Hrun) as [Hp Hn].
  { vm_compute in Hrun. injection Hrun as <- _. vm_compute. reflexivity. }
  assert (Hr : result taken_ref = None) by (vm_compute; reflexivity).
  split_and!; [exact Hr|exact (Hp Hr)|exact Hn].
Defined.
