(* ===== verification/Dummy.v ===== *)
(** * The dummy source (job_source/dummy.rs, test_blocks.rs)

    The source used without a pool: one job made of a block that was mined, sent again
    and again.  The block is block 881,423; what its constants are is theirs. *)
From stdpp Require Import base numbers list strings.
From Stdlib Require Import ZArith Lia SpecFloat.
From S2P Require Import Prelude Float U256 Version Extranonce Job Estimator ShareRate Effects.
#[local] Open Scope eff_scope.

(** ** The block; an array of bytes is written as its hexadecimal digits *)
Module Block881423.
Definition VERSION : Z := sign 32 0x2e596000.
Definition PREV_BLOCKHASH : list Z :=
  be_bytes 32 0xe3c96a8a70ca15fe215e99f84ab64c43e1b5d2c43b5401000000000000000000.
Definition MERKLE_ROOT : list Z :=
  be_bytes 32 0x76f63a35f1b8b5016d3eb0cce2eebbdf58bf8fbea4e870c8f770346bdfcf622d.
Definition TIME : Z := 0x679ac169.
Definition BITS : Z := 0x17029a8a.
Definition NONCE : Z := 0xff05fb02.
Definition HEADER_BYTES : list Z :=
  be_bytes 40 0x0060592ee3c96a8a70ca15fe215e99f84ab64c43e1b5d2c43b540100000000000000000076f63a35 ++
  be_bytes 40 0xf1b8b5016d3eb0cce2eebbdf58bf8fbea4e870c8f770346bdfcf622d69c19a678a9a021702fb05ff.
(** The hash as it is written, the last byte first. *)
Definition BLOCK_HASH : list Z :=
  rev (be_bytes 32 0x0000000000000000000269d52c24ea451225613aab095d90d771d4e29aa96cdd).
Definition COINBASE_TX : list Z :=
  be_bytes 40 0x010000000001010000000000000000000000000000000000000000000000000000000000000000ff ++
  be_bytes 40 0xffffff3d030f730d000469c19a6704830cee220cf1ad9a67b6600000000000000a41706f6c6c6f19 ++
  be_bytes 40 0x2f6d696e65642062792032353620466f756e646174696f6e2fffffffff0275aac012000000001600 ++
  be_bytes 40 0x14c64b1b9283ba1ea86bb9e7b696b0c8f68dad04000000000000000000266a24aa21a9edb395560a ++
  be_bytes 40 0xb72068c2afb1d7e6c7db26b813482089d2c4d2471b9036c5e8261406012000000000000000000000 ++
  be_bytes 26 0x0000000000000000000000000000000000000000000000000000.
Definition coinbase_prefix_bytes : list Z := take 54 COINBASE_TX.
Definition extranonce_prefix_bytes : list Z := take 4 (drop 54 COINBASE_TX).
Definition extranonce_bytes : list Z := take 4 (drop 58 COINBASE_TX).
Definition EXTRANONCE : Extranonce.t := Extranonce.from_array extranonce_bytes.
Definition coinbase_suffix_bytes : list Z := drop 62 COINBASE_TX.
Definition MERKLE_BRANCHES : list (list Z) :=
  [be_bytes 32 0x4282357ab0a2f4e8e562c8c5eae1d63b559068f9072374b72e26b88ac841908f;
   be_bytes 32 0xc2bbae90d06f8025ade3516ca2e42d79318b6e56fccb9609df85a654a8341068;
   be_bytes 32 0xcbb30084acbcb5ce6d5436e853bc612466df0c00702be6f51d47072f1a5d0480;
   be_bytes 32 0xbb092e533f70b79246fc9e4bdc9b81ac8332e56f2651e3b237a150d6d807b081;
   be_bytes 32 0x0d32959988733447cb340326a1fe4d3c2cff5d636e32a4e08c3fc5a234f6f6bc;
   be_bytes 32 0x8ba3477940924a90067cff3dd30bc46916cf4c2f73fb6229b8f8197b83b6ddb9;
   be_bytes 32 0x3fe97cc5dec1cddd66c9d3780888c145c12418590cd983c4871b1bf03fabbf9e;
   be_bytes 32 0xbd1c6a3bcd0ebaa0eca54d9c802540f312c7705435601d776b4f59bb52cff67d;
   be_bytes 32 0x8638c10190b8f4f558bafdbb57f46226c349a83f229f431143ae75e425fb5cbd;
   be_bytes 32 0x6d6f4eae41cccb21a7c97ac496d9f89b8a4f772389b76f7691519dda38264221;
   be_bytes 32 0x82dad7a1e2613af0e61f77f03d6208c83e72f917dade4235cc35e37ee3ad6e3f].
End Block881423.

(** ** The source *)
Section Source.
Context `{R : Ruint} (integer_decode : float -> Z * Z).
Import Block881423.

(** [v & !0x1fff_e000]. *)
Definition base_cleaned : Z := sign 32 (Z.land (wrap 32 VERSION) (Z.lxor 0x1fffe000 (2 ^ 32 - 1))).

(** The job; [None] is a panic. *)
Definition job_template : option JobTemplate :=
  version ← match VersionTemplate.new base_cleaned GpBits.full with Ok v => Some v | Err _ => None end;
  rate ← ShareRate.per_minute (f_of_Z f64 6);
  target ← ShareRate.to_target integer_decode rate (HashRate.from_terahashes (f_of_Z f64 1));
  Some (MkJob "dummy-0" PREV_BLOCKHASH version BITS target TIME
    (Computed (MerkleRootTemplate.Mk coinbase_prefix_bytes extranonce_prefix_bytes
       (ExtranonceRange.starting_at EXTRANONCE) coinbase_suffix_bytes MERKLE_BRANCHES))).
End Source.

(** What [run] sees, with the time.  [Elapsed] is the end of the sleep. *)
Inductive outcome :=
| Sent (now : Z) | SendFailed
| Elapsed (now : Z) | Command (c : SourceCommand) (now : Z) | Cancelled.

(** The state is when the sleep of this turn has begun. *)
Section Run.
Context (job : JobTemplate) (interval : Z).
Abbreviation M := (Effects.M Z outcome SourceEvent unit).

Definition send_job : M unit :=
  act (UpdateJob job) ;!
  await (fun o => match o with Sent now => Some (put now) | SendFailed => Some (raise tt) | _ => None end).

(** Every turn starts a sleep of its own. *)
Definition turn : M (option unit) :=
  do! started := get in
  await (fun o => match o with
    | Elapsed now => if started + interval <=? now then Some (send_job ;! ret None) else None
    | Command (SubmitShare _) now | Command (UpdateHashRate _) now => Some (put now ;! ret None)
    | Cancelled => Some (ret (Some tt))
    | _ => None
    end).

Definition run : M unit := send_job ;! loop turn.
End Run.
