(* ===== verification/DummyProps.v ===== *)
(** * What the dummy source promises

    Its job is that of the block, and it is sent again only when nothing is submitted. *)
From stdpp Require Import base numbers list strings.
From Stdlib Require Import ZArith Lia SpecFloat.
From S2P Require Import Prelude Float U256 Version Extranonce Job Estimator ShareRate Effects Response HashThread Dummy.
#[local] Open Scope eff_scope.
Import Block881423.

(** ** The hash functions of the bitcoin crate: SHA-256 as FIPS 180-4 defines it *)
Module Sha256.
Definition add (x y : Z) : Z := wrap 32 (x + y).
Definition rotr (n x : Z) : Z := Z.lor (Z.shiftr x n) (wrap 32 (Z.shiftl x (32 - n))).
Definition xor3 (x y z : Z) : Z := Z.lxor x (Z.lxor y z).

(** The constants: the first 32 bits of the fractional parts of the square roots of eight
    primes and of the cube roots of 64. [iroot e n] is the largest [r] with [r ^ e <= n]
    among those of 36 bits. *)
Definition iroot (e n : Z) : Z :=
  fold_left (fun r i => let r' := r + 2 ^ Z.of_nat i in if r' ^ e <=? n then r' else r) (rev (seq 0 36)) 0.
Definition frac_root (e p : Z) : Z := wrap 32 (iroot e (p * 2 ^ (32 * e))).
Definition primes : list Z :=
  filter (fun p => forallb (fun d => negb (p mod d =? 0)) (seqZ 2 (p - 2)) = true) (seqZ 2 310).
Definition K : list Z := Eval cbv in map (frac_root 3) primes.
Definition H0 : list Z := Eval cbv in map (frac_root 2) (take 8 primes).

(** The schedule, the last word first. *)
Fixpoint extend (k : nat) (w : list Z) : list Z :=
  match k with
  | O => w
  | S k =>
      let at_ i := nth i w 0 in
      let s0 := xor3 (rotr 7 (at_ 14%nat)) (rotr 18 (at_ 14%nat)) (Z.shiftr (at_ 14%nat) 3) in
      let s1 := xor3 (rotr 17 (at_ 1%nat)) (rotr 19 (at_ 1%nat)) (Z.shiftr (at_ 1%nat) 10) in
      extend k (add (add (at_ 15%nat) s0) (add (at_ 6%nat) s1) :: w)
  end.

Definition round (h : list Z) (kw : Z * Z) : list Z :=
  match h with
  | [a; b; c; d; e; f; g; h] =>
      let s1 := xor3 (rotr 6 e) (rotr 11 e) (rotr 25 e) in
      let ch := Z.lxor (Z.land e f) (Z.land (Z.lxor e (2 ^ 32 - 1)) g) in
      let t1 := add (add h s1) (add ch (add kw.1 kw.2)) in
      let s0 := xor3 (rotr 2 a) (rotr 13 a) (rotr 22 a) in
      let maj := xor3 (Z.land a b) (Z.land a c) (Z.land b c) in
      [add t1 (add s0 maj); a; b; c; add d t1; e; f; g]
  | _ => h
  end.

Fixpoint words (b : list Z) : list Z :=
  match b with w :: x :: y :: z :: b => from_be [w; x; y; z] :: words b | _ => [] end.
Definition compress (h block : list Z) : list Z :=
  zip_with add h (fold_left round (zip K (rev (extend 48 (rev (words block))))) h).

Fixpoint blocks (k : nat) (b : list Z) : list (list Z) :=
  match k with O => [] | S k => take 64 b :: blocks k (drop 64 b) end.
Definition hash (b : list Z) : list Z :=
  let n := length b in
  let zeros := ((119 - n mod 64) mod 64)%nat in
  let padded := b ++ [0x80] ++ repeat 0 zeros ++ be_bytes 8 (8 * Z.of_nat n) in
  flat_map (be_bytes 4) (fold_left compress (blocks (length padded / 64) padded) H0).
End Sha256.

Example sha256_abc : from_be (Sha256.hash [97; 98; 99]) = 0xba7816bf8f01cfea414140de5dae2223b00361a396177a9cb410ff61f20015ad.
Proof. vm_compute. reflexivity. Qed.

Definition header_bytes (h : BlockHeader) : list Z :=
  le_bytes 4 (wrap 32 (h_version h)) ++ h_prev_blockhash h ++ h_merkle_root h ++
  le_bytes 4 (h_time h) ++ le_bytes 4 (h_bits h) ++ le_bytes 4 (h_nonce h).

(** The id of a coinbase is the hash of its bytes without marker, flag and its witness,
    which is one item of 32 bytes; a hash meets a target as a little endian number. *)
Definition double_sha (b : list Z) : list Z := Sha256.hash (Sha256.hash b).
#[local] Instance real_bitcoin : Bitcoin := {|
  txid b := let n := length b in Some (double_sha (take 4 b ++ take (n - 44) (drop 6 b) ++ drop (n - 4) b));
  sha256d := double_sha;
  block_hash h := double_sha (header_bytes h);
  target_met_by target h := from_le h <=? target |}.

(** The target that [BITS] encodes. *)
Definition network_target : Z := Z.land BITS 0x7fffff * 2 ^ (8 * (Z.shiftr BITS 24 - 3)).

(** The general purpose bits of the version of the block. *)
Definition winning_bits : GpBits.t := GpBits.from_mask (be_bytes 4 (wrap 32 VERSION)).

#[local] Opaque Sha256.hash COINBASE_TX MERKLE_BRANCHES BLOCK_HASH HEADER_BYTES.

(** ** The job *)
Lemma split_starts r n part parts :
  ExtranonceRange.split r n = Some (part :: parts) -> ExtranonceRange.start part = ExtranonceRange.start r.
Proof.
  unfold ExtranonceRange.split. destruct ((n =? 0) || _); [done|]. intros [= Hs].
  destruct (Z.to_nat n) as [|k]; [done|]. simpl in Hs. by injection Hs as <- _.
Qed.

Lemma block_found :
  VersionTemplate.new base_cleaned GpBits.full = Ok (VersionTemplate.Mk base_cleaned GpBits.full) /\
  GpBits.apply_to_version winning_bits base_cleaned = VERSION /\
  MerkleRootTemplate.compute_merkle_root txid sha256d
    (MerkleRootTemplate.Mk coinbase_prefix_bytes extranonce_prefix_bytes (ExtranonceRange.starting_at EXTRANONCE)
       coinbase_suffix_bytes MERKLE_BRANCHES) EXTRANONCE = Some MERKLE_ROOT /\
  header_bytes (MkHeader VERSION PREV_BLOCKHASH MERKLE_ROOT TIME BITS NONCE) = HEADER_BYTES /\
  double_sha HEADER_BYTES = BLOCK_HASH /\ target_met_by network_target BLOCK_HASH = true.
Proof. split_and!; vm_compute; reflexivity. Qed.

Lemma job_template_shape `{R : Ruint} integer_decode job :
  job_template integer_decode = Some job ->
  exists target, job = MkJob "dummy-0" PREV_BLOCKHASH (VersionTemplate.Mk base_cleaned GpBits.full) BITS target TIME
    (Computed (MerkleRootTemplate.Mk coinbase_prefix_bytes extranonce_prefix_bytes
       (ExtranonceRange.starting_at EXTRANONCE) coinbase_suffix_bytes MERKLE_BRANCHES)).
Proof.
  unfold job_template. intros (v & Hv' & H)%bind_Some. apply bind_Some in H as (rate & _ & H).
  apply bind_Some in H as (target & _ & H). destruct block_found as [Hv _]. rewrite Hv in Hv'.
  injection Hv' as <-. injection H as <-. by exists target.
Qed.

(** C28 The dummy source's job is the block that was mined: with SHA-256 in place of the bitcoin
    crate's hash functions, a thread that has the first part of the job's extranonces,
    whatever the number of parts, and whose chip reports the block's nonce and version
    bits, rebuilds the coinbase's merkle root, the 80 bytes of the header and the hash of
    the block, which meets the block's own target. *)
Theorem dummy_job_is_the_block `{R : Ruint} integer_decode job n part parts task nonce :
  job_template integer_decode = Some job ->
  match merkle_root job with
  | Fixed _ => False
  | Computed m =>
      ExtranonceRange.split (MerkleRootTemplate.extranonce_range m) n = Some (part :: parts) ->
      template task = job -> task_ntime task = time job ->
      Response.version nonce = winning_bits -> Response.nonce nonce = NONCE ->
      job_merkle_root txid sha256d job (ExtranonceRange.start part) = Some MERKLE_ROOT /\
      let header := nonce_header task MERKLE_ROOT nonce in
      header_bytes header = HEADER_BYTES /\ block_hash header = BLOCK_HASH /\
      target_met_by network_target (block_hash header) = true
  end.
Proof.
  destruct block_found as (_ & Hbits & Hroot & Hhead & Hhash & Hmet).
  intros (target & ->)%job_template_shape. cbn [merkle_root MerkleRootTemplate.extranonce_range time].
  intros Hsplit%split_starts Ht Hn Hgp Hnonce. rewrite Hsplit. split; [exact Hroot|].
  unfold nonce_header. rewrite Ht, Hn, Hgp, Hnonce. cbn [Job.version VersionTemplate.base prev_blockhash bits].
  rewrite Hbits. unfold block_hash, target_met_by in *. cbn [real_bitcoin] in *. rewrite Hhead, Hhash.
  split; [reflexivity|]. split; [reflexivity|exact Hmet].
Qed.

(** ** The interval *)

(** When the last sleep has begun, and the sleeps that have ended. *)
Definition stamp (o : outcome) : option Z := match o with Sent now | Command _ now => Some now | _ => None end.
Definition since (u : list outcome) : option Z := last (omap stamp u).
Definition elapses (u : list outcome) : nat :=
  length (omap (fun o => match o with Elapsed now => Some now | _ => None end) u).

Definition paced (interval : Z) (u : list outcome) : Prop :=
  forall u1 now u2, u = u1 ++ Elapsed now :: u2 -> exists started, since u1 = Some started /\ started + interval <= now.

Lemma since_app u o : since (u ++ [o]) = match stamp o with Some now => Some now | None => since u end.
Proof. unfold since. rewrite omap_app. simpl. destruct (stamp o); [by rewrite last_snoc|by rewrite app_nil_r]. Qed.
Lemma elapses_app u o : elapses (u ++ [o]) = (elapses u + match o with Elapsed _ => 1 | _ => 0 end)%nat.
Proof. unfold elapses. rewrite omap_app, length_app. by destruct o. Qed.

Lemma paced_app interval u o :
  paced interval u ->
  (forall now, o = Elapsed now -> exists started, since u = Some started /\ started + interval <= now) ->
  paced interval (u ++ [o]).
Proof.
  intros Hu Ho u1 now u2 Heq. destruct u2 as [|o' u2 _] using rev_ind.
  - apply app_inj_tail in Heq as [-> ->]. auto.
  - rewrite app_comm_cons, app_assoc in Heq. apply app_inj_tail in Heq as [-> _]. by eapply Hu.
Qed.

Section Pace.
Context (job : JobTemplate) (interval : Z).

Definition jobs (u : list outcome) (tr : list SourceEvent) : Prop :=
  paced interval u /\ tr = replicate (S (elapses u)) (UpdateJob job).

Lemma jobs_app u tr o :
  jobs u tr -> (forall now, o <> Elapsed now) -> jobs (u ++ [o]) tr.
Proof.
  intros [Hp ->] Ho. split; [apply paced_app; [done|by intros now ->; destruct (Ho now)]|].
  rewrite elapses_app. destruct o; rewrite ?Nat.add_0_r; try done. by destruct (Ho now).
Qed.

(** The job is sent once more than [u] tells. *)
Lemma wp_send_dummy s u tr :
  jobs u (tr ++ [UpdateJob job]) ->
  wp (send_job job) s u tr (fun r s u tr => jobs u tr /\ match r with Ret _ => since u = Some s | _ => True end).
Proof.
  intros Hj. unfold send_job. do 2 wp_step. simpl. apply wp_await; [done|]. intros o m Ho.
  destruct o; simplify_eq; wp_step; (split; [by apply jobs_app|]); try done. by rewrite since_app.
Qed.

Lemma wp_dummy_turn s u tr :
  jobs u tr -> since u = Some s ->
  wp (turn job interval) s u tr (fun r s u tr => jobs u tr /\ match r with Ret None => since u = Some s | _ => True end).
Proof.
  intros Hj Hs. unfold turn. do 2 wp_step. simpl. apply wp_await; [done|]. intros o m Ho.
  destruct o as [| |now|[|] now|]; simplify_eq/=.
  - destruct (Z.leb_spec (s + interval) now) as [Hle|]; simplify_eq. wp_step. eapply wp_mono.
    + apply wp_send_dummy. destruct Hj as [Hp ->]. split.
      * apply paced_app; [done|]. intros ? [= <-]. eauto.
      * rewrite elapses_app, Nat.add_1_r, (replicate_S_end (S _)). done.
    + intros [[]|[]| |] s' u' tr' [H1 H2]; simpl; try done. by wp_step.
  - do 2 wp_step. simpl. wp_step. rewrite since_app. by split; [apply jobs_app|].
  - do 2 wp_step. simpl. wp_step. rewrite since_app. by split; [apply jobs_app|].
  - wp_step. by split; [apply jobs_app|].
Qed.
End Pace.

(** The dummy source waits for quiet.  It is meant to send its job at a fixed interval; but
    every turn of its loop starts a sleep of its own.  Over every run it sends the job
    once, and once more for each sleep that ends; and no sleep ends before the interval
    has passed since the last send or the last command - share or hash rate - received.
    While commands come faster than that, the job is not sent again. *)
Theorem dummy_jobs_paced job interval s outcomes :
  let '(_, _, rest, tr) := run job interval s outcomes in
  exists u, outcomes = u ++ rest /\ tr = replicate (S (elapses u)) (UpdateJob job) /\ paced interval u.
Proof.
  assert (Hwp : wp (run job interval) s [] [] (fun _ _ u tr => jobs job interval u tr)).
  { apply wp_bind. eapply wp_mono.
    - apply (wp_send_dummy job interval). split; [|done]. intros [] now u2; done.
    - intros [[]|[]| |] s' u tr [Hj Hs]; simpl; try done.
      apply (wp_loop (fun s u tr => jobs job interval u tr /\ since u = Some s)); [done|by intros ??? []|].
      intros s1 u1 tr1 [Hj1 Hs1]. eapply wp_mono; [by apply wp_dummy_turn|]. intros [[[]|]|[]| |] ??? []; auto. }
  destruct (run _ _ _ _) as [[[r s'] rest] tr] eqn:Hrun.
  destruct (Hwp _ _ _ _ _ Hrun) as (u & -> & Hp & Htr). by exists u.
Qed.

(** ** Examples *)
#[local] Existing Instance ruint_ref.

Definition dummy_ref : JobTemplate :=
  MkJob "dummy-0" [] (VersionTemplate.Mk base_cleaned GpBits.full) BITS 0 TIME (Fixed []).

(** Shares every 20 s keep a source of 30 s from sending its job. *)
Example shares_starve_dummy :
  let share := SubmitShare (MkSourceShare "dummy-0" NONCE TIME VERSION None) in
  let '(_, _, _, tr) := run dummy_ref 30 0 [Sent 0; Command share 20; Command share 40; Command share 60; Elapsed 89] in
  tr = [UpdateJob dummy_ref].
Proof. vm_compute. reflexivity. Qed.

Definition found_task : HashTask :=
  match job_template integer_decode_ref with
  | Some job => Job.MkTask job None None 0 TIME
  | None => Job.MkTask dummy_ref None None 0 TIME
  end.
Definition found_nonce : Response.nonce_response := Response.MkNonce NONCE 3 0 winning_bits 0.

Lemma dummy_job_is_the_block_witness :
  exists job part parts,
    job_template integer_decode_ref = Some job /\ template found_task = job /\
    ExtranonceRange.split (ExtranonceRange.starting_at EXTRANONCE) 3 = Some (part :: parts) /\
    job_merkle_root txid sha256d job (ExtranonceRange.start part) = Some MERKLE_ROOT /\
    block_hash (nonce_header found_task MERKLE_ROOT found_nonce) = BLOCK_HASH.
Proof.
  destruct (job_template integer_decode_ref) as [job|] eqn:Hjob; [|by vm_compute in Hjob].
  destruct (ExtranonceRange.split (ExtranonceRange.starting_at EXTRANONCE) 3) as [[|part parts]|] eqn:Hsplit;
    [by vm_compute in Hsplit| |by vm_compute in Hsplit].
  destruct (job_template_shape _ _ Hjob) as (target & Heq).
  assert (Htask : template found_task = job) by (unfold found_task; rewrite Hjob; reflexivity).
  assert (Htime : task_ntime found_task = time job) by (unfold found_task; rewrite Hjob, Heq; reflexivity).
  pose proof (dummy_job_is_the_block integer_decode_ref job 3 part parts found_task found_nonce Hjob) as H.
  assert (Hroot := f_equal merkle_root Heq). cbn [merkle_root] in Hroot. rewrite Hroot in H. cbn [merkle_root MerkleRootTemplate.extranonce_range] in H.
  destruct (H Hsplit Htask Htime eq_refl eq_refl) as (H1 & _ & H2 & _).
  exists job, part, parts. split_and!; try done.
Defined.
