(* ===== verification/Settings.v ===== *)
(** * Settings: the environment and its documentation (env_help.rs, daemon.rs)

    The help text on environment variables with its line wrapping, and what the daemon
    sets up as the variables say.  Texts are their UTF-8 bytes, the environment is a
    function from names to values. *)
From stdpp Require Import base numbers list strings pretty.
From Stdlib Require Import ZArith Lia.
From S2P Require Import Prelude Text Float U256 Estimator ShareRate Backplane StratumClient StratumSource CpuMiner ForcedRate.

Definition bytes (s : string) : list Z := map (fun c => Z.of_N (Ascii.N_of_ascii c)) (String.list_ascii_of_string s).
Definition NL : Z := 10.
Definition SP : Z := 32.

(** ** [str::split_whitespace] *)

(** [word] is what has been read of the current word. *)
Definition cut (word : list Z) (words : list (list Z)) : list (list Z) := if bool_decide (word = []) then words else word :: words.
Fixpoint split_words (word l : list Z) : list (list Z) :=
  match l with
  | b :: l1 =>
      if ascii_space b then cut word (split_words [] l1)
      else match l1 with
           | c :: l2 =>
               if space2 b c then cut word (split_words [] l2)
               else match l2 with
                    | d :: l3 => if space3 b c d then cut word (split_words [] l3) else split_words (word ++ [b]) l1
                    | [] => split_words (word ++ [b]) l1
                    end
           | [] => split_words (word ++ [b]) l1
           end
  | [] => cut word []
  end.
Definition split_whitespace (l : list Z) : list (list Z) := split_words [] l.

(** ** The help text *)
Module EnvHelp.
Definition INDENT : list Z := bytes "      ".
Definition WIDTH : nat := 79.

(** A turn of the loop: the text so far and the line. *)
Definition add_word (indent : list Z) (avail : nat) (st : list Z * list Z) (word : list Z) : list Z * list Z :=
  let '(out, line) := st in
  let '(out, line) :=
    if negb (bool_decide (line = [])) && (avail <? length line + 1 + length word)%nat
    then (out ++ indent ++ line ++ [NL], []) else (out, line) in
  let line := if negb (bool_decide (line = [])) then line ++ [SP] else line in
  (out, line ++ word).

Definition wrap (text indent : list Z) (width : nat) : list Z :=
  let avail := (width - length indent)%nat in
  let '(out, line) := fold_left (add_word indent avail) (split_whitespace text) ([], []) in
  if negb (bool_decide (line = [])) then out ++ indent ++ line ++ [NL] else out.

Record EnvVar := MkVar { name : string; summary : string; default : option string; example : option string }.
Record EnvGroup := MkGroup { title : string; vars : list EnvVar }.

Definition GROUPS : list EnvGroup :=
  [MkGroup "Pool (job source)"
     [MkVar "MUJINA_POOL_URL"
        "Stratum v1 pool URL. When unset, the daemon runs a built-in dummy job source instead."
        None (Some "stratum+tcp://pool.example.com:3333");
      MkVar "MUJINA_POOL_USER"
        "Worker username sent to the pool."
        (Some "mujina-testing") (Some "myworker.1");
      MkVar "MUJINA_POOL_PASS"
        "Worker password sent to the pool."
        (Some "x") None;
      MkVar "MUJINA_POOL_FORCED_RATE"
        "Override the share target so the source receives roughly this many shares per minute regardless of pool difficulty, for testing share submission at low hashrate. Requires MUJINA_POOL_URL."
        (Some "18 when set to an invalid value") None];
   MkGroup "CPU miner"
     [MkVar "MUJINA_CPUMINER_THREADS"
        "Number of CPU mining threads. Setting this enables the CPU mining backend, which needs no ASIC hardware."
        (Some "unset disables CPU mining") (Some "4");
      MkVar "MUJINA_CPUMINER_DUTY"
        "CPU duty cycle percent (1-100). Each thread hashes this fraction of every second and sleeps the rest, capping sustained CPU load."
        (Some "50") None];
   MkGroup "API server"
     [MkVar "MUJINA_API_LISTEN"
        "Address the REST API listens on. A bare host or IP gets the default port :7785 appended."
        (Some "127.0.0.1:7785") (Some "0.0.0.0:7785")];
   MkGroup "Hardware"
     [MkVar "MUJINA_USB_DISABLE"
        "Set to any value to skip USB board discovery, useful for CPU-only runs."
        (Some "unset enables USB discovery") None];
   MkGroup "Logging"
     [MkVar "MUJINA_LOG"
        "Log filter for Mujina's own modules, overriding RUST_LOG. Module names are written as the log output shows them, without a crate prefix. A bare level like 'debug' applies to all of Mujina."
        None (Some "asic::bm13xx=trace");
      MkVar "RUST_LOG"
        "Log filter in tracing-subscriber EnvFilter syntax. A directive that names a crate adds to the built-in defaults; a bare level like 'debug' replaces them, as in any Rust program."
        (Some "warn,mujina_miner=info") (Some "nusb=debug")]].

Definition optional_line (label : string) (value : option string) : list Z :=
  match value with Some v => INDENT ++ bytes label ++ bytes v ++ [NL] | None => [] end.
Definition var_text (var : EnvVar) : list Z :=
  bytes "  " ++ bytes (name var) ++ [NL] ++ wrap (bytes (summary var)) INDENT WIDTH ++
  optional_line "default: " (default var) ++ optional_line "example: " (example var).
Definition help_text : list Z :=
  bytes "Configuration is read from environment variables:" ++ [NL] ++
  flat_map (fun group => [NL] ++ bytes (title group) ++ bytes ":" ++ [NL] ++ flat_map var_text (vars group)) GROUPS.
End EnvHelp.

(** ** What the daemon sets up *)
Module Daemon.
Section Daemon.
Context (var : string -> option string) (parse_f64 : string -> option Float.float).

(** The events the daemon itself sends for the CPU miner. *)
Definition cpu_device (config : CpuMinerConfig) : TransportEvent :=
  CpuDeviceConnected (MkCpu
    ("cpu-" +:+ pretty (thread_count config) +:+ "x" +:+ pretty (duty_percent config) +:+ "%")%string
    (thread_count config) (duty_percent config)).

(** The transports, in the order of their channels. *)
Inductive transport := Usb | Cpu (events : list TransportEvent).
Definition transports : list transport :=
  (match var "MUJINA_USB_DISABLE" with None => [Usb] | Some _ => [] end) ++
  (match CpuMiner.from_env var with Some config => [Cpu [cpu_device config; InitialEnumerationComplete]] | None => [] end).

(** The job source: its name and address as registered, and what it is. *)
Inductive job_source :=
| Stratum (config : PoolConfig) (forced_rate : option Z)
| Dummy (interval_secs : Z).
Record registration := MkRegistration { source_name : string; source_url : option string; source : job_source }.

Definition pool_config (pool_url : string) : PoolConfig :=
  StratumClient.MkConfig pool_url (default "mujina-testing" (var "MUJINA_POOL_USER")) (default "x" (var "MUJINA_POOL_PASS"))
    "mujina-miner/0.1.0-alpha".

(** [None] is a panic of the conversion of the forced rate. *)
Definition choose_source : option registration :=
  match var "MUJINA_POOL_URL" with
  | Some pool_url =>
      let config := pool_config pool_url in
      let nm := Source.name (Source.new config) in
      match ForcedRate.from_env var parse_f64 with
      | Some (Some rate) => Some (MkRegistration (nm +:+ " (forced-rate)")%string (Some pool_url) (Stratum config (Some rate)))
      | Some None => None
      | None => Some (MkRegistration nm (Some pool_url) (Stratum config None))
      end
  | None => Some (MkRegistration "dummy" None (Dummy 30))
  end.

Definition API_PORT : Z := 7785.
Definition bind_addr : string :=
  match var "MUJINA_API_LISTEN" with
  | Some addr => if StringMatch.contains addr ":" then addr else (addr +:+ ":" +:+ pretty API_PORT)%string
  | None => ("127.0.0.1:" +:+ pretty API_PORT)%string
  end.
End Daemon.
End Daemon.
