(* ===== verification/Logging.v ===== *)
(** * Logging (tracing.rs)

    The filter built from RUST_LOG and MUJINA_LOG, the test whether standard error is the
    journal, and the text of an event.  Parsing a level, the Debug texts of the fields and
    the clock are the libraries'. *)
From stdpp Require Import base numbers list strings.
From Stdlib Require Import ZArith Lia.
From S2P Require Import Prelude Text CpuMiner Settings.

(** ** Splitting at an ASCII character, and joining *)
Fixpoint split_at (sep : Z) (l : list Z) : list (list Z) :=
  match l with
  | [] => [[]]
  | b :: l =>
      if b =? sep then [] :: split_at sep l
      else match split_at sep l with w :: ws => (b :: w) :: ws | [] => [[b]] end
  end.
Fixpoint join (sep : Z) (ws : list (list Z)) : list Z :=
  match ws with
  | [] => []
  | [w] => w
  | w :: ws => w ++ sep :: join sep ws
  end.
Definition COMMA : Z := 44.

(** ** The filter *)
Section Filter.
(** Whether a text parses as a [LevelFilter]. *)
Context (is_bare_level : list Z -> bool).

Definition DEFAULT_LOG_FILTER : list Z := bytes "warn,mujina_miner=info".
Definition elements (v : option (list Z)) : list (list Z) :=
  base.filter (fun e => e <> []) (map trim (split_at COMMA (default [] v))).

Definition filter_string (rust_log mujina_log : option (list Z)) : list Z :=
  let rust_log := elements rust_log in
  let directives := if existsb is_bare_level rust_log then [] else [DEFAULT_LOG_FILTER] in
  let directives := directives ++ rust_log in
  let directives := directives ++ map (fun directive =>
    if is_bare_level directive then bytes "mujina_miner=" ++ directive
    else bytes "mujina_miner::" ++ directive) (elements mujina_log) in
  join COMMA directives.
End Filter.

(** ** The journal *)

(** [stat] is the device and inode of standard error, if [fstat] succeeds. *)
Definition stderr_is_journal_stream (journal_stream : option string) (stat : option (Z * Z)) : bool :=
  let text l := String.string_of_list_ascii (map (fun b => Ascii.ascii_of_N (Z.to_N b)) l) in
  match journal_stream with
  | None => false
  | Some journal_stream =>
      match split_at 58 (bytes journal_stream) with
      | [dev; ino] =>
          match parse_uint 64 (text dev), parse_uint 64 (text ino), stat with
          | Some expected_dev, Some expected_ino, Some (st_dev, st_ino) =>
              (st_dev =? expected_dev) && (st_ino =? expected_ino)
          | _, _, _ => false
          end
      | _ => false
      end
  end.

(** ** The text of an event *)
Fixpoint strip_prefix (p l : list Z) : option (list Z) :=
  match p, l with
  | [], _ => Some l
  | b :: p, c :: l => if b =? c then strip_prefix p l else None
  | _, [] => None
  end.
Definition strip_suffix (p l : list Z) : option (list Z) := option_map (@rev Z) (strip_prefix (rev p) (rev l)).

(** [trim_matches] of an ASCII character. *)
Fixpoint trim_start_matches (c : Z) (l : list Z) : list Z :=
  match l with b :: l' => if b =? c then trim_start_matches c l' else l | [] => [] end.
Definition trim_matches (c : Z) (l : list Z) : list Z := rev (trim_start_matches c (rev (trim_start_matches c l))).
Definition QUOTE : Z := 34.

Record FieldCollector := MkFields { fields : list (list Z * list Z); message : option (list Z) }.
Definition record_debug (f : FieldCollector) (name value : list Z) : FieldCollector :=
  if bool_decide (name = bytes "message") then MkFields (fields f) (Some value)
  else
    let cleaned := match strip_prefix (bytes "Some(") value with
      | Some inner => default inner (strip_suffix (bytes ")") inner)
      | None => value
      end in
    MkFields (fields f ++ [(name, cleaned)]) (message f).

Inductive Level := ERROR | WARN | INFO | DEBUG | TRACE.
Definition ESC : list Z := [0x1b].
Definition level_text (l : Level) : list Z :=
  match l with
  | ERROR => ESC ++ bytes "[31mERROR" | WARN => ESC ++ bytes "[33mWARN " | INFO => ESC ++ bytes "[32mINFO "
  | DEBUG => ESC ++ bytes "[34mDEBUG" | TRACE => ESC ++ bytes "[35mTRACE"
  end.

Definition short_target (target : list Z) (visitor : FieldCollector) : list Z :=
  match strip_prefix (bytes "mujina_miner::") target with
  | Some stripped => stripped
  | None =>
      if bool_decide (target = bytes "log") then
        match List.find (fun kv => bool_decide (kv.1 = bytes "log.target")) (fields visitor) with
        | Some (_, v) => trim_matches QUOTE v
        | None => target
        end
      else target
  end.

(** The fields of the event come with their names and Debug texts. *)
Definition format_event (timestamp : list Z) (level : Level) (target : list Z) (event : list (list Z * list Z)) : list Z :=
  let visitor := fold_left (fun f kv => record_debug f kv.1 kv.2) event (MkFields [] None) in
  let display_fields := base.filter (fun kv => strip_prefix (bytes "log.") kv.1 = None) (fields visitor) in
  timestamp ++ [SP] ++ level_text level ++ ESC ++ bytes "[0m " ++ short_target target visitor ++ bytes ": " ++
  match message visitor with Some msg => trim_matches QUOTE msg | None => [] end ++
  (if bool_decide (display_fields = []) then []
   else [NL] ++ ESC ++ bytes "[90m               " ++
        mjoin (imap (fun i kv => (if (0 <? i)%nat then bytes ", " else []) ++ kv.1 ++ bytes "=" ++ trim_matches QUOTE kv.2)
          display_fields) ++
        ESC ++ bytes "[0m") ++
  [NL].
