(* ===== verification/SettingsProps.v ===== *)
(** * What the settings and the log promise *)
From stdpp Require Import base numbers list strings.
From Stdlib Require Import ZArith Lia.
From S2P Require Import Prelude Text Settings Logging.
Import EnvHelp.

(** ** Words *)
Lemma cut_nonempty word words :
  Forall (fun w => w <> []) words -> Forall (fun w : list Z => w <> []) (cut word words).
Proof. intros H. unfold cut. case_bool_decide; [done|]. by constructor. Qed.

Lemma split_words_nonempty n : forall l word, (length l <= n)%nat -> Forall (fun w => w <> []) (split_words word l).
Proof.
  induction n as [|n IH]; intros [|b l] word Hn; simpl in *; try lia; try (by apply cut_nonempty).
  destruct (ascii_space b); [apply cut_nonempty, IH; lia|]. destruct l as [|c l]; [apply IH; simpl; lia|].
  destruct (space2 b c); [apply cut_nonempty, IH; simpl in *; lia|]. destruct l as [|d l]; [apply IH; simpl in *; lia|].
  destruct (space3 b c d); [apply cut_nonempty, IH; simpl in *; lia|apply IH; simpl in *; lia].
Qed.

(** ** Wrapped lines *)
Section Wrap.
Context (indent : list Z) (avail : nat).

Definition render (ws : list (list Z)) : list Z := indent ++ join SP ws ++ [NL].
(** A line fits or is one word. *)
Definition fits (ws : list (list Z)) : Prop := ws <> [] /\ ((length (join SP ws) <= avail)%nat \/ exists w, ws = [w]).
(** The first word of a line did not fit on the line before. *)
Definition packed (lines : list (list (list Z))) : Prop :=
  forall i ws w ws', lines !! i = Some ws -> lines !! S i = Some (w :: ws') ->
    (avail < length (join SP ws) + 1 + length w)%nat.

Lemma join_snoc cur w : cur <> [] -> join SP (cur ++ [w]) = join SP cur ++ SP :: w.
Proof.
  induction cur as [|x [|y cur] IH]; [done|done|]. intros _. simpl in *. rewrite IH by done.
  by rewrite <- app_assoc.
Qed.
Lemma join_nonempty cur : cur <> [] -> Forall (fun w => w <> []) cur -> join SP cur <> [].
Proof. destruct cur as [|w [|? ?]]; [done|..]; intros _ [Hw _]%Forall_cons; simpl; [done|]. by destruct w. Qed.

Definition Wrapped (ws : list (list Z)) (st : list Z * list Z) : Prop :=
  ws = [] /\ st = ([], []) \/
  exists lines cur, cur <> [] /\ mjoin lines ++ cur = ws /\ st = (flat_map render lines, join SP cur) /\
    Forall fits (lines ++ [cur]) /\ packed (lines ++ [cur]).

Lemma packed_snoc lines cur w :
  packed (lines ++ [cur]) -> (avail < length (join SP cur) + 1 + length w)%nat -> packed ((lines ++ [cur]) ++ [[w]]).
Proof.
  intros Hp Hw i ws w' ws' Hi [[Hl Hsi]|[Hl Heq]]%lookup_snoc_Some; apply lookup_snoc_Some in Hi as [[_ Hi]|[-> _]]; try lia.
  - by eapply Hp.
  - apply lookup_snoc_Some in Hi as [[Hi _]|[_ ->]]; [rewrite length_app in Hl; simpl in Hl; lia|]. by simplify_eq.
Qed.

Lemma packed_grow lines cur w : cur <> [] -> packed (lines ++ [cur]) -> packed (lines ++ [cur ++ [w]]).
Proof.
  intros Hc Hp i ws w' ws' Hi [[Hl Hsi]|[Hl Heq]]%lookup_snoc_Some; apply lookup_snoc_Some in Hi as [[? Hi]|[-> _]]; try lia.
  - eapply Hp; apply lookup_snoc_Some; [left|left]; eauto.
  - destruct cur as [|c cur]; [done|]. simplify_eq/=. eapply Hp; apply lookup_snoc_Some; eauto.
Qed.

Lemma wrapped_word ws st w :
  w <> [] -> Forall (fun w => w <> []) ws -> Wrapped ws st -> Wrapped (ws ++ [w]) (add_word indent avail st w).
Proof.
  intros Hw Hws [[-> ->]|(lines & cur & Hc & <- & -> & Hf & Hp)]; right.
  - exists [], [w]. unfold add_word. simpl. split_and!; [done|done|done|by repeat constructor; eauto|].
    intros [|i]; by intros.
  - apply Forall_app in Hws as [_ Hcur]. pose proof (join_nonempty cur Hc Hcur) as Hj.
    unfold add_word. rewrite bool_decide_eq_false_2 by done. simpl.
    destruct (Nat.ltb_spec avail (length (join SP cur) + 1 + length w)) as [Hlt|Hge]; simpl.
    + exists (lines ++ [cur]), [w]. rewrite join_app, flat_map_app. simpl. rewrite !app_nil_r.
      split_and!; [done|done|done| |by apply packed_snoc].
      apply Forall_app. split; [done|]. by repeat constructor; eauto.
    + exists lines, (cur ++ [w]). rewrite bool_decide_eq_false_2 by done. simpl. rewrite join_snoc by done.
      split_and!; [by destruct cur|by rewrite app_assoc|by rewrite <- app_assoc| |by apply packed_grow].
      apply Forall_app in Hf as [Hf _]. apply Forall_app. split; [done|]. constructor; [|done].
      split; [by destruct cur|]. left. rewrite join_snoc, length_app by done. simpl. lia.
Qed.
End Wrap.

(** Wrapping keeps the words and fills the lines.  The text is split into its words; the
    result is a list of lines that hold all of them, in their order, each line its words
    with a space between behind the indent; a line is no wider than the width, unless it
    is a single word, and the first word of a line would not have fitted on the line
    before. *)
Theorem wrap_fills_lines text indent width :
  let avail := (width - length indent)%nat in
  exists lines, mjoin lines = split_whitespace text /\ wrap text indent width = flat_map (render indent) lines /\
    Forall (fits avail) lines /\ packed avail lines.
Proof.
  intros avail. unfold wrap. fold avail.
  assert (Hne : Forall (fun w => w <> []) (split_whitespace text)) by by eapply split_words_nonempty.
  assert (Hfold : Wrapped indent avail (split_whitespace text) (fold_left (add_word indent avail) (split_whitespace text) ([], []))).
  { revert Hne. induction (split_whitespace text) as [|w ws IH] using rev_ind; intros Hne; [by left|].
    rewrite fold_left_app. apply Forall_app in Hne as [Hws [Hw _]%Forall_cons]. simpl. apply wrapped_word; auto. }
  destruct Hfold as [[Hws ->]|(lines & cur & Hc & Hws & -> & Hf & Hp)].
  - exists []. rewrite Hws. split_and!; [done|done|constructor|]. intros i ws w ws' Hi. done.
  - exists (lines ++ [cur]). rewrite join_app, flat_map_app. simpl. rewrite !app_nil_r.
    rewrite <- Hws in Hne. apply Forall_app in Hne as [_ Hcur]. pose proof (join_nonempty cur Hc Hcur).
    rewrite bool_decide_eq_false_2 by done. done.
Qed.

(** The help text is within its width. *)
Example help_text_wraps_within_width : forallb (fun l => (length l <=? WIDTH)%nat) (split_at NL help_text) = true.
Proof. vm_compute. reflexivity. Qed.

(** ** The log filter *)
Definition levels (l : list Z) : bool := existsb (fun s => bool_decide (l = bytes s)) ["error"; "warn"; "info"; "debug"; "trace"; "off"].
Definition filters (r m : option string) : list Z := filter_string levels (option_map bytes r) (option_map bytes m).

Example filters_of_variables :
  filters None None = bytes "warn,mujina_miner=info" /\
  filters (Some " ,") (Some "trace") = bytes "warn,mujina_miner=info,mujina_miner=trace" /\
  filters None (Some "asic::bm13xx=trace, board=debug") =
    bytes "warn,mujina_miner=info,mujina_miner::asic::bm13xx=trace,mujina_miner::board=debug" /\
  filters (Some "debug,nusb=trace") None = bytes "debug,nusb=trace" /\
  filters (Some "trace") (Some "warn") = bytes "trace,mujina_miner=warn".
Proof. by vm_compute. Qed.

Example event_text :
  format_event (bytes "12:00:00") WARN (bytes "mujina_miner::scheduler")
    [(bytes "message", bytes "slow"); (bytes "pool", bytes "Some(x)"); (bytes "log.line", bytes "7")] =
  bytes "12:00:00 " ++ ESC ++ bytes "[33mWARN " ++ ESC ++ bytes "[0m scheduler: slow" ++ [NL] ++
  ESC ++ bytes "[90m               pool=x" ++ ESC ++ bytes "[0m" ++ [NL].
Proof. by vm_compute. Qed.

(** ** The daemon *)

(** A bare address gets the port, unless it is one of IPv6, which has a colon of its own. *)
Example bind_addresses :
  map (fun a => Daemon.bind_addr (fun _ => a)) [None; Some "0.0.0.0"; Some "0.0.0.0:80"; Some "::1"]%string =
  ["127.0.0.1:7785"; "0.0.0.0:7785"; "0.0.0.0:80"; "::1"]%string.
Proof. by vm_compute. Qed.
