(* ===== verification/Connector.v ===== *)
(** * What a board hands to the backplane (board/bitaxe.rs, emberone00.rs)

    Creating a board after it is attached: its names, its first telemetry and its hash
    threads; and the reset line that thread and monitor share. *)
From stdpp Require Import base numbers list strings.
From Stdlib Require Import ZArith Lia.
From S2P Require Import Prelude Text Effects Control Backplane Board Settings Api.
#[local] Open Scope eff_scope.

(** [&s[..n]]: a panic inside a character. *)
Definition is_char_boundary (s : string) (n : nat) : bool :=
  match n with
  | O => true
  | _ => match bytes s !! n with Some b => negb (continuation b) | None => (n =? String.length s)%nat end
  end.
Definition slice_to (s : string) (n : nat) : option string :=
  if is_char_boundary s n then Some (String.substring 0 n s) else None.

(** A thread is its name here; the telemetry channel is what is sent first. *)
Record Connector := MkCreated {
  connector : @BackplaneConnector string unit; initial_state : BoardTelemetry }.

Inductive failure := AttachFailed (e : Board.error) | Panicked.

Definition first_telemetry (name model : string) (serial : option string) : BoardTelemetry :=
  MkBoard name model serial [] [] [] [].

Module Bitaxe.
Definition firmware_name (f : Firmware) : string := match f with BitaxeRaw => "bitaxe-raw" | RhapD => "RHAP-D" end.

Definition thread_name (serial_number : option string) : option string :=
  match serial_number with
  | Some serial =>
      s ← slice_to serial (Nat.min 8 (String.length serial)); Some ("Bitaxe-Gamma-" +:+ s)%string
  | None => Some "Bitaxe-Gamma"%string
  end.
Definition board_name (serial_number : option string) : string :=
  ("bitaxe-" +:+ default "unknown" serial_number)%string.

Abbreviation M := (Effects.M Board.Bitaxe.monitor Board.outcome Board.action failure).

(** The monitor is spawned and the hash thread made between the names and the result. *)
Definition create_from_usb (device : UsbDeviceInfo) (firmware : Firmware) : M Connector :=
  map_err AttachFailed (Board.Bitaxe.attach firmware) ;!
  let serial := serial_number device in
  match thread_name serial with
  | None => raise Panicked
  | Some name =>
      ret (MkCreated
        (MkConnector (MkInfo "Bitaxe Gamma" (Some (firmware_name firmware)) serial) [name] (Some tt))
        (first_telemetry (board_name serial) "Bitaxe Gamma" serial))
  end.
End Bitaxe.

Module EmberOne.
Definition board_name (serial_number : option string) : string :=
  ("emberone00-" +:+ default "unknown" serial_number)%string.

Definition create_from_usb (device : UsbDeviceInfo) : Effects.M unit Board.outcome Board.action failure Connector :=
  map_err AttachFailed (Board.EmberOne.attach (bcd_device device)) ;!
  let serial := serial_number device in
  ret (MkCreated (MkConnector (MkInfo "emberOne/00" None serial) [] (Some tt))
         (first_telemetry (board_name serial) "emberOne/00" serial)).
End EmberOne.

(** ** The reset line; its state is when reset was last released. *)
Module ResetLine.
(** A write of the pin, with the clock read after it. *)
Inductive outcome := Wrote (now : Z) | WriteFailed.
Inductive action := Write (high : bool).
Abbreviation M := (Effects.M (option Z) outcome action unit).

Definition write (high : bool) : M Z :=
  act (Write high) ;!
  await (fun o => match o with Wrote now => Some (ret now) | WriteFailed => Some (raise tt) end).
Definition assert : M unit := write false ;! put None.
Definition release : M unit := do! now := write true in put (Some now).
End ResetLine.

(** ** The name of a thread *)

(** A serial number whose ninth byte continues a character stops the program. *)
Lemma thread_name_panics serial :
  Bitaxe.thread_name (Some serial) = None <->
  exists b, bytes serial !! 8%nat = Some b /\ continuation b = true.
Proof.
  assert (Hlen : length (bytes serial) = String.length serial).
  { unfold bytes. rewrite length_map. induction serial as [|c s IH]; [done|]. simpl. by rewrite IH. }
  unfold Bitaxe.thread_name, slice_to. destruct (is_char_boundary _ _) eqn:Hb.
  - split; [done|]. intros (b & Hlook & Hc). apply lookup_lt_Some in Hlook as Hlt.
    rewrite Nat.min_l in Hb by lia. simpl in Hb. rewrite Hlook, Hc in Hb. done.
  - split; [intros _|done]. unfold is_char_boundary in Hb. destruct (Nat.min 8 (String.length serial)) as [|n] eqn:Hn; [done|].
    destruct (bytes serial !! S n) as [b|] eqn:Hlook.
    + apply lookup_lt_Some in Hlook as Hlt. assert (S n = 8%nat) as Heq by lia. rewrite Heq in Hlook.
      exists b. split; [done|]. by destruct (continuation b).
    + apply Nat.eqb_neq in Hb. apply lookup_ge_None in Hlook. lia.
Qed.

(** The eighth character of seven letters and one beyond ASCII is in the bytes 7 and 8. *)
Example thread_names :
  Bitaxe.thread_name (Some "e2f56f9b01") = Some "Bitaxe-Gamma-e2f56f9b"%string /\
  Bitaxe.thread_name (Some "abc") = Some "Bitaxe-Gamma-abc"%string /\
  Bitaxe.thread_name (Some ("bitaxe-" +:+ String (Ascii.ascii_of_nat 0xC3) (String (Ascii.ascii_of_nat 0xA9) EmptyString)))%string = None.
Proof. by vm_compute. Qed.
