(* ===== verification/Dispatch.v ===== *)
(** * Tasks and shares between the scheduler and its threads

    The scheduler hands out a task and waits for the thread's answer
    (assign_job_to_threads, assign_cached_jobs_to_thread); each task has a channel of 32
    places for its shares, which the scheduler reads between handlers only
    (asic/bm13xx/thread.rs, cpu_miner/thread.rs: the handles and what they run).  A
    thread is a [Worker]: [HashThread]'s actor and [CpuMiner]'s loop are instances. *)
From stdpp Require Import base numbers list gmap relations.
From Stdlib Require Import ZArith Lia.
From S2P Require Import Prelude Job Scheduler HashThread.

(** ** What a thread promises *)

(** What it does to the channels: a share for the channel of a task, the answer to the
    command (true for [Ok]). *)
Inductive out := ShareOut (share_tx : nat) (share : Share) | Answer (accepted : bool).

(** What one handler does, to its end; false if the thread then ends. [own] is what it
    does without a command, [holds] says that it has a sender of a channel. *)
Class Worker (W : Type) := {
  own : W -> W -> list out -> bool -> Prop;
  obey : W -> Scheduler.AssignMode -> Task -> W -> list out -> bool -> Prop;
  holds : W -> nat -> Prop;
  own_outs w w' outs go : own w w' outs go -> outs = [] \/ exists tx share, outs = [ShareOut tx share] /\ holds w tx;
  own_holds w w' outs go tx : own w w' outs go -> holds w' tx -> holds w tx;
  obey_outs w mode t w' outs go : obey w mode t w' outs go -> exists accepted, outs = [Answer accepted];
  obey_holds w mode t w' outs go tx : obey w mode t w' outs go -> holds w' tx -> tx = share_tx t \/ holds w tx;
  obey_total w mode t : exists w' outs go, obey w mode t w' outs go }.

Section System.
Context `{K : Worker W}.

(** The commands a thread has not taken, what its handler has still to send, and if its
    loop goes on. *)
Record thread := MkThread { worker : W; outbox : list out; inbox : list (Scheduler.AssignMode * Task); running : bool }.

(** A channel the scheduler can read: the source of its task, the shares not read. *)
Record channel := MkChannel { source : nat; queue : list Share }.
Definition capacity : nat := 32.

(** Where the scheduler is: in its select; in a handler with calls left to make, each a
    thread and the source of the job; in one of these, for a task. *)
Inductive phase :=
| Select
| Assigning (mode : Scheduler.AssignMode) (calls : list (nat * nat))
| Waiting (mode : Scheduler.AssignMode) (thread : nat) (task : Task) (calls : list (nat * nat)).

Record sys := MkSys { threads : gmap nat thread; channels : gmap nat channel; next : nat; at_phase : phase }.
Definition with_thread (s : sys) (i : nat) (t : thread) : sys :=
  MkSys (<[i := t]> (threads s)) (channels s) (next s) (at_phase s).
Definition with_channel (s : sys) (tx : nat) (c : channel) : sys :=
  MkSys (threads s) (<[tx := c]> (channels s)) (next s) (at_phase s).

(** ** The steps of the scheduler *)

(** [remove_tasks_where] closes the channels of tasks. *)
Definition remove_tasks_where (s : sys) (closed : channel -> bool) : sys :=
  MkSys (threads s) (filter (fun p => closed p.2 = false) (channels s)) (next s) (at_phase s).

(** [assign_job_to_threads]: for a replacement the old tasks of the source are removed. *)
Definition assign_job (s : sys) (mode : Scheduler.AssignMode) (src : nat) (eligible : list nat) : sys :=
  let s := match mode with
           | Scheduler.Replace => remove_tasks_where s (fun c => (source c =? src)%nat)
           | Scheduler.Update => s
           end in
  MkSys (threads s) (channels s) (next s) (Assigning mode (map (fun i => (i, src)) eligible)).

(** [assign_cached_jobs_to_thread]: the job of each source for one thread. *)
Definition assign_cached (s : sys) (i : nat) (sources : list nat) : sys :=
  MkSys (threads s) (channels s) (next s) (Assigning Scheduler.Update (map (fun src => (i, src)) sources)).

(** A task with a new channel is sent to a thread. *)
Definition call (s : sys) (mode : Scheduler.AssignMode) (i src : nat) (w : thread) (task : Task) (calls : list (nat * nat)) : sys :=
  MkSys (<[i := MkThread (worker w) (outbox w) (inbox w ++ [(mode, task)]) (running w)]> (threads s))
    (<[next s := MkChannel src []]> (channels s)) (S (next s)) (Waiting mode i task calls).

(** Its answer: the channel is kept, or closed if the task was not accepted. *)
Definition answered (s : sys) (mode : Scheduler.AssignMode) (task : Task) (accepted : bool) (calls : list (nat * nat)) : sys :=
  MkSys (threads s) (if accepted then channels s else delete (share_tx task) (channels s)) (next s)
    (Assigning mode calls).

(** ** The system: a step and the thread that makes it, none if it is the scheduler *)
Inductive step (s : sys) : option nat -> sys -> Prop :=
| step_own i w q w' outs go :
    threads s !! i = Some (MkThread w [] q true) -> own w w' outs go ->
    step s (Some i) (with_thread s i (MkThread w' outs q go))
| step_obey i w mode t q w' outs go :
    threads s !! i = Some (MkThread w [] ((mode, t) :: q) true) -> obey w mode t w' outs go ->
    step s (Some i) (with_thread s i (MkThread w' outs q go))
(* a send waits for a place, and fails when the channel is closed *)
| step_share i w tx share outs q go c :
    threads s !! i = Some (MkThread w (ShareOut tx share :: outs) q go) ->
    channels s !! tx = Some c -> (length (queue c) < capacity)%nat ->
    step s (Some i)
      (with_channel (with_thread s i (MkThread w outs q go)) tx (MkChannel (source c) (queue c ++ [share])))
| step_stale i w tx share outs q go :
    threads s !! i = Some (MkThread w (ShareOut tx share :: outs) q go) -> channels s !! tx = None ->
    step s (Some i) (with_thread s i (MkThread w outs q go))
| step_answer i w accepted outs q go mode t calls :
    threads s !! i = Some (MkThread w (Answer accepted :: outs) q go) -> at_phase s = Waiting mode i t calls ->
    step s (Some i) (answered (with_thread s i (MkThread w outs q go)) mode t accepted calls)
(* the thread has ended: its end of the channels is gone *)
| step_no_answer i w q mode t calls :
    threads s !! i = Some (MkThread w [] q false) -> at_phase s = Waiting mode i t calls ->
    step s (Some i) (answered (with_thread s i (MkThread w [] [] false)) mode t false calls)
| step_call i src t task mode calls :
    at_phase s = Assigning mode ((i, src) :: calls) -> threads s !! i = Some t ->
    running t = true \/ outbox t <> [] -> share_tx task = next s ->
    step s None (call s mode i src t task calls)
| step_call_fails i src w q mode calls :
    at_phase s = Assigning mode ((i, src) :: calls) -> threads s !! i = Some (MkThread w [] q false) ->
    step s None (MkSys (threads s) (channels s) (S (next s)) (Assigning mode calls))
| step_done mode :
    at_phase s = Assigning mode [] -> step s None (MkSys (threads s) (channels s) (next s) Select)
| step_read tx src share q :
    at_phase s = Select -> channels s !! tx = Some (MkChannel src (share :: q)) ->
    step s None (with_channel s tx (MkChannel src q))
| step_job mode src eligible :
    at_phase s = Select -> NoDup eligible -> Forall (fun i => is_Some (threads s !! i)) eligible ->
    step s None (assign_job s mode src eligible)
| step_cached i sources :
    at_phase s = Select -> is_Some (threads s !! i) ->
    step s None (assign_cached s i sources)
| step_remove closed :
    at_phase s = Select -> step s None (remove_tasks_where s closed).

Definition moves (s s' : sys) : Prop := exists who, step s who s'.

(** Nothing is under way, and no channel is known that has not been made. *)
Record initial (s : sys) : Prop := {
  initial_phase : at_phase s = Select;
  initial_threads i t : threads s !! i = Some t -> outbox t = [] /\ inbox t = [];
  initial_holds i t tx : threads s !! i = Some t -> holds (worker t) tx -> (tx < next s)%nat;
  initial_channels tx c : channels s !! tx = Some c -> (tx < next s)%nat }.
Definition reachable (s : sys) : Prop := exists s0, initial s0 /\ rtc moves s0 s.

(** The scheduler waits for the answer of a thread, which waits for the scheduler to
    read its shares. *)
Definition wedged (i : nat) (s : sys) : Prop :=
  (exists mode t calls, at_phase s = Waiting mode i t calls) /\
  exists w tx share outs q go c,
    threads s !! i = Some (MkThread w (ShareOut tx share :: outs) q go) /\
    channels s !! tx = Some c /\ (capacity <= length (queue c))%nat.
End System.
