(* ===== verification/DispatchThreads.v ===== *)
(** * The hash threads of the program as workers (Dispatch)

    The actor of the BM13xx thread and the loop of the CPU miner keep what [Worker]
    asks: one answer to a command, no share but for a task they have been given. *)
From stdpp Require Import base numbers list.
From Stdlib Require Import ZArith Lia.
From S2P Require Import Prelude Float U256 Version Extranonce Job Estimator ShareRate Scheduler Effects CpuMiner Register Chain ChipConfig Command Response RegisterClient Dispatch HashThread.

Lemma elem_of_insert_nth {A} (l : list A) n x y : y ∈ <[n := x]> l -> y = x \/ y ∈ l.
Proof.
  intros [i Hi]%list_elem_of_lookup. destruct (decide (n = i)) as [->|Hne].
  - left. apply list_lookup_insert_Some in Hi. by destruct Hi as [(_ & -> & _)|(? & _)].
  - right. rewrite list_lookup_insert_ne in Hi by done. by apply list_elem_of_lookup_2 in Hi.
Qed.

(** ** The BM13xx thread *)
Section Actor.
Context `{B : Bitcoin} `{R : Ruint} `{P : BitcoinPow}.

Definition out_of (o : output) : option out :=
  match o with
  | ShareSent tx share => Some (ShareOut tx share)
  | Respond r => Some (Answer (match r with Ok _ => true | Err _ => false end))
  | Act _ | Tell _ => None
  end.
Definition goes_on (f : flow) : bool := match f with Continue => true | Break => false end.

(** What is not a command of the scheduler, which never asks a thread to idle. *)
Definition unasked (i : input) : Prop :=
  match i with UpdateTask _ | ReplaceTask _ | GoIdle => False | _ => True end.
Definition actor_own (a a' : actor) (outs : list out) (go : bool) : Prop :=
  exists i es es' out f, unasked i /\ HashThread.step a i es = Some (a', out, es', f) /\ outs = omap out_of out /\ go = goes_on f.
Definition replaces (mode : Scheduler.AssignMode) : bool :=
  match mode with Scheduler.Replace => true | Scheduler.Update => false end.
Definition actor_obey (a : actor) (mode : Scheduler.AssignMode) (t : Task) (a' : actor) (outs : list out) (go : bool) : Prop :=
  exists es es' out f, assign_task a t (replaces mode) es = Some (a', out, es', f) /\
    outs = omap out_of out /\ go = goes_on f.
Definition actor_holds (a : actor) (tx : nat) : Prop :=
  exists t, (current_task a = Some t \/ Some t ∈ ChipJobTracker.tasks (chip_jobs a)) /\ share_tx t = tx.

Lemma omap_acts tr : omap out_of (map Act tr) = [].
Proof. by induction tr. Qed.

Lemma handle_nonce_outs a n out : handle_nonce a n = Some out ->
  omap out_of out = [] \/ exists tx share, omap out_of out = [ShareOut tx share] /\ actor_holds a tx.
Proof.
  unfold handle_nonce. destruct (ChipJobTracker.get _ _) as [task|] eqn:Hget; [|intros [= <-]; by left].
  destruct (mbind _ _) as [root|]; [|intros [= <-]; by left].
  destruct (target_met_by _ _); [|intros [= <-]; by left].
  destruct (Log2Difficulty.to_work_of _) as [w|]; [|done]. cbn [mbind option_bind]. intros [= <-]. right.
  eexists _, _. split; [done|]. exists task. split; [right|done].
  unfold ChipJobTracker.get in Hget. destruct (_ !! _) as [o|] eqn:Hl; [|done]. simpl in Hget. subst o.
  by apply list_elem_of_lookup_2 in Hl.
Qed.

(** ensure_keeps without its last part, for a thread that is up or not. *)
Lemma ensure_same a es r a' es' tr : ensure_chain_initialized a es = Some (r, a', es', tr) ->
  current_task a' = current_task a /\ chip_jobs a' = chip_jobs a.
Proof.
  unfold ensure_chain_initialized. destruct (chain_initialized a).
  - destruct es as [|[] es]; intros [= <- <- <- <-]; by split.
  - destruct (initialize_chain _ _ _ _) as [[[[[u|e] c] es1] tr1]|]; [| |done]; intros [= <- <- <- <-]; by split.
Qed.

Lemma assign_outs a t replace es a' out es' f : assign_task a t replace es = Some (a', out, es', f) ->
  exists accepted, omap out_of out = [Answer accepted].
Proof.
  unfold assign_task. destruct (ensure_chain_initialized a es) as [[[[r a1] es1] tr]|]; [|done]. cbn [mbind option_bind].
  assert (forall l, omap out_of (map Act tr ++ l) = omap out_of l) as Happ by (intros l; by rewrite omap_app, omap_acts).
  destruct r as [[]|e]; [|destruct e; intros [= <- <- <- <-]; rewrite Happ; by eexists].
  destruct (ChipJobTracker.insert _ _) as [id jobs]. destruct (task_to_job_full _ _) as [job|e];
    [|intros [= <- <- <- <-]; rewrite Happ; by eexists].
  destruct (send_job job es1) as [[[] es2]|]; [| |done]; cbn [mbind option_bind negb];
    intros [= <- <- <- <-]; rewrite Happ; by eexists.
Qed.

Lemma assign_holds a t replace es a' out es' f tx : assign_task a t replace es = Some (a', out, es', f) ->
  actor_holds a' tx -> tx = share_tx t \/ actor_holds a tx.
Proof.
  unfold assign_task. destruct (ensure_chain_initialized a es) as [[[[r a1] es1] tr]|] eqn:He; [|done].
  destruct (ensure_same _ _ _ _ _ _ He) as [Hct Hcj]. cbn [mbind option_bind].
  assert (actor_holds a1 tx -> actor_holds a tx) as Hsame by (unfold actor_holds; by rewrite Hct, Hcj).
  destruct r as [[]|e]; [|destruct e; intros [= <- <- <- <-]; by auto].
  set (a2 := if replace then _ else a1).
  assert (forall b, current_task b = Some t -> ChipJobTracker.tasks (chip_jobs b) =
      <[Z.to_nat (ChipJobTracker.next_id (chip_jobs a2)) := Some t]> (ChipJobTracker.tasks (chip_jobs a2)) ->
    actor_holds b tx -> tx = share_tx t \/ actor_holds a tx) as Hb.
  { intros b Hbt Hbj (u & Hu & Htx). rewrite Hbt, Hbj in Hu. destruct Hu as [[= ->]|Hu]; [by left|].
    apply elem_of_insert_nth in Hu as [[= ->]|Hu]; [by left|]. right. unfold a2 in Hu. destruct replace.
    - apply list_elem_of_In, repeat_spec in Hu. done.
    - apply Hsame. exists u. by split; [right|]. }
  unfold ChipJobTracker.insert. destruct (task_to_job_full _ _) as [job|e]; [|intros [= <- <- <- <-]; by apply Hb].
  destruct (send_job job es1) as [[[] es2]|]; [| |done]; cbn [mbind option_bind negb]; intros [= <- <- <- <-]; by apply Hb.
Qed.

Lemma actor_obeys a mode t : exists a' outs go, actor_obey a mode t a' outs go.
Proof.
  assert (exists es res, assign_task a t (replaces mode) es = Some res) as (es & [[[a' out] es'] f] & Hres);
    [|by exists a', (omap out_of out), (goes_on f), es, es', out, f].
  unfold assign_task, ensure_chain_initialized. destruct (chain_initialized a).
  - exists [Done]. cbn [mbind option_bind]. destruct (ChipJobTracker.insert _ _) as [id jobs].
    destruct (task_to_job_full _ _); simpl; by eexists.
  - exists [Cancelled]. simpl. by eexists.
Qed.

Lemma roll_own a es a' out es' tx : roll_ntime a es = Some (a', out, es') ->
  omap out_of out = [] /\ (actor_holds a' tx -> actor_holds a tx).
Proof.
  unfold roll_ntime. destruct (current_task a) as [task|] eqn:Ht; [|done]. cbn [mbind option_bind].
  set (task' := with_ntime task _).
  assert (forall b, current_task b = Some task' -> ChipJobTracker.tasks (chip_jobs b) =
      <[Z.to_nat (ChipJobTracker.next_id (chip_jobs a)) := Some task']> (ChipJobTracker.tasks (chip_jobs a)) ->
    actor_holds b tx -> actor_holds a tx) as Hb.
  { intros b Hbt Hbj (u & Hu & Htx). assert (u = task' \/ Some u ∈ ChipJobTracker.tasks (chip_jobs a)) as [->|Hin].
    - rewrite Hbt, Hbj in Hu. destruct Hu as [[= ->]|Hu]; [by left|].
      apply elem_of_insert_nth in Hu as [[= ->]|Hu]; [by left|by right].
    - exists task. split; [by left|exact Htx].
    - exists u. split; [by right|done]. }
  unfold ChipJobTracker.insert. destruct (task_to_job_full _ _) as [job|e].
  - destruct (send_job job es) as [[sent es2]|]; [|done]. cbn [mbind option_bind]. intros [= <- <- <-]. split; [done|by apply Hb].
  - intros [= <- <- <-]. split; [done|by apply Hb].
Qed.

Lemma actor_own_outs a a' outs go : actor_own a a' outs go ->
  outs = [] \/ exists tx share, outs = [ShareOut tx share] /\ actor_holds a tx.
Proof.
  intros (i & es & es' & out & f & Hi & Hstep & -> & ->). destruct i; try done; simpl in Hstep;
    try (injection Hstep as <- <- <- <-; by left).
  - destruct (handle_nonce a n) as [o|] eqn:Hn; [|done]. injection Hstep as <- <- <- <-. by eapply handle_nonce_outs.
  - destruct (roll_ntime a es) as [[[a1 o] es1]|] eqn:Hr; [|done]. injection Hstep as <- <- <- <-.
    left. by eapply (roll_own _ _ _ _ _ 0).
Qed.

Lemma actor_own_holds a a' outs go tx : actor_own a a' outs go -> actor_holds a' tx -> actor_holds a tx.
Proof.
  intros (i & es & es' & out & f & Hi & Hstep & -> & ->). destruct i; try done; simpl in Hstep;
    try (injection Hstep as <- <- <- <-; by intros).
  - destruct (handle_nonce a n) as [o|]; [|done]. by injection Hstep as <- <- <- <-.
  - destruct (roll_ntime a es) as [[[a1 o] es1]|] eqn:Hr; [|done]. injection Hstep as <- <- <- <-. by eapply roll_own.
Qed.

#[export] Program Instance actor_worker : Worker actor := {|
  own := actor_own; obey := actor_obey; holds := actor_holds |}.
Next Obligation. exact actor_own_outs. Qed.
Next Obligation. exact actor_own_holds. Qed.
Next Obligation. intros a mode t a' outs go (es & es' & out & f & Hs & -> & ->). by eapply assign_outs. Qed.
Next Obligation. intros a mode t a' outs go tx (es & es' & out & f & Hs & -> & ->). by eapply assign_holds. Qed.
Next Obligation. exact actor_obeys. Qed.
End Actor.

(** ** The CPU miner *)
Section Miner.
Context `{B : Bitcoin} `{P : BitcoinPow}.

Definition out_of_miner (a : CpuMiner.action) : option out :=
  match a with
  | CpuMiner.ShareSent tx share => Some (ShareOut tx share)
  | CpuMiner.Reply _ _ => Some (Answer true)
  | CpuMiner.Sleep _ => None
  end.

(** Between two looks at its commands it hashes (a share it finds it waits to be rid of), rolls the time and publishes its rate;
    or it returns. *)
Definition miner_own (m m' : miner) (outs : list out) (go : bool) : Prop :=
  (exists es tr, hash_once m es = (Ret tt, m', [], tr) /\ outs = omap out_of_miner tr /\ go = true) \/
  (exists tick, m' = CpuMiner.roll_ntime m tick /\ outs = [] /\ go = true) \/
  (exists rate update, m' = publish_rate m rate update /\ outs = [] /\ go = true) \/
  (m' = m /\ outs = [] /\ go = false).
Definition miner_obey (m : miner) (mode : Scheduler.AssignMode) (t : Task) (m' : miner) (outs : list out) (go : bool) : Prop :=
  exists tx tr, execute (match mode with Scheduler.Update => CpuMiner.UpdateTask t tx | Scheduler.Replace => CpuMiner.ReplaceTask t tx end) m [] =
    (Ret (negb go), m', [], tr) /\ outs = omap out_of_miner tr.
Definition miner_holds (m : miner) (tx : nat) : Prop :=
  exists t, CpuMiner.current_task m = Some t /\ share_tx t = tx.

Lemma hash_once_does m es m' tr : hash_once m es = (Ret tt, m', [], tr) ->
  CpuMiner.current_task m' = CpuMiner.current_task m /\
  (tr = [] \/ exists t share, tr = [CpuMiner.ShareSent (share_tx t) share] /\ CpuMiner.current_task m = Some t).
Proof.
  unfold hash_once. cbn.
  destruct (CpuMiner.current_task m) as [t|] eqn:Ht; [destruct (cached_merkle_root m) as [root|];
    [destruct (try_nonce (ht t) root (nonce m)) as [share|];
      [destruct es as [|[] es]|]|]|]; cbn; try done; intros [= <- _ <-]; (split; [done|]).
  all: first [by left|right; by exists t, share].
Qed.

#[export] Program Instance miner_worker : Worker miner := {|
  own := miner_own; obey := miner_obey; holds := miner_holds |}.
Next Obligation.
  intros m m' outs go [(es & tr & Htr & -> & _)|[(tick & _ & -> & _)|[(r & u & _ & -> & _)|(_ & -> & _)]]]; try by left.
  destruct (hash_once_does _ _ _ _ Htr) as [_ Hres].
  destruct Hres as [->|(t & share & -> & Ht)]; [by left|]. right. eexists _, _. split; [done|]. by exists t.
Qed.
Next Obligation.
  intros m m' outs go tx [(es & tr & Htr & -> & _)|[(tick & -> & -> & _)|[(r & u & -> & -> & _)|(-> & -> & _)]]]; try done.
  - destruct (hash_once_does _ _ _ _ Htr) as [Hct _]. unfold miner_holds. by rewrite Hct.
  - intros (t & Ht & Htx). simpl in Ht. destruct (CpuMiner.current_task m) as [u|] eqn:Hu; [|done]. injection Ht as <-.
    exists u. by split.
Qed.
Next Obligation.
  intros m mode t m' outs go (tx & tr & Hex & ->). destruct mode; cbn in Hex; injection Hex as _ _ <-; by eexists.
Qed.
Next Obligation.
  intros m mode t m' outs go tx (r & tr & Hex & ->) (u & Hu & <-).
  destruct mode; cbn in Hex; injection Hex as _ <- _; simpl in Hu; injection Hu as <-; by left.
Qed.
Next Obligation.
  intros m mode t. exists (accept m t), [Answer true], true, 0%nat, [CpuMiner.Reply 0 (CpuMiner.current_task m)].
  by destruct mode.
Qed.
End Miner.
