(* ===== verification/DispatchProps.v ===== *)
(** * Waiting for an answer (Dispatch)

    When a thread the scheduler waits for can answer: always, unless it waits itself
    for a place in a channel; never again then; a replacement closes the channels
    before it calls. *)
From stdpp Require Import base numbers list strings gmap relations.
From Stdlib Require Import ZArith Lia.
From S2P Require Import Prelude Float U256 Version Extranonce Job Estimator ShareRate Register Chain ChipConfig Command Response RegisterClient Scheduler HashThread HashThreadProps Dispatch DispatchThreads.

Section Props.
Context `{K : Worker W}.
Implicit Types s : sys (W := W).

(** ** Invariants *)
Definition sends (t : thread (W := W)) (tx : nat) : Prop :=
  holds (worker t) tx \/ exists share, ShareOut tx share ∈ outbox t.
Definition no_answer (t : thread (W := W)) : Prop := forall accepted, Answer accepted ∉ outbox t.
Definition quiet (t : thread (W := W)) : Prop := inbox t = [] /\ no_answer t.

(** A thread that is asked has the command before it, or has answered. *)
Definition asked (t : thread (W := W)) mode task : Prop :=
  (inbox t = [(mode, task)] /\ no_answer t) \/ (inbox t = [] /\ exists accepted, outbox t = [Answer accepted]).

Definition expected (p : phase) (i : nat) (t : thread (W := W)) : Prop :=
  match p with Waiting mode j task _ => if decide (i = j) then asked t mode task else quiet t | _ => quiet t end.

Record inv s : Prop := {
  inv_sends i t tx : threads s !! i = Some t -> sends t tx -> (tx < next s)%nat;
  inv_inbox i t mode task : threads s !! i = Some t -> (mode, task) ∈ inbox t -> (share_tx task < next s)%nat;
  inv_channels tx c : channels s !! tx = Some c -> (tx < next s)%nat;
  inv_quiet i t : threads s !! i = Some t ->
    expected (at_phase s) i t;
  inv_waiting mode i task calls : at_phase s = Waiting mode i task calls -> is_Some (threads s !! i) }.

Lemma step_next s who s' : step s who s' -> (next s <= next s')%nat.
Proof. destruct 1 as [| | | | | | | | | |[] ? ?| |]; simpl; lia. Qed.

(** The threads after a step: all but one are as before, and that one has changed its
    worker and boxes in one of these ways. *)
Inductive turns (t : thread (W := W)) : thread (W := W) -> Prop :=
| turns_own w' outs go q :
    t = MkThread (worker t) [] q true -> own (worker t) w' outs go -> turns t (MkThread w' outs q go)
| turns_obey mode task w' outs go q :
    t = MkThread (worker t) [] ((mode, task) :: q) true -> obey (worker t) mode task w' outs go ->
    turns t (MkThread w' outs q go)
| turns_send o outs q go :
    t = MkThread (worker t) (o :: outs) q go -> turns t (MkThread (worker t) outs q go)
| turns_end q : t = MkThread (worker t) [] q false -> turns t (MkThread (worker t) [] [] false).

Lemma step_threads s who s' i t' : step s who s' -> threads s' !! i = Some t' ->
  exists t, threads s !! i = Some t /\ (t' = t \/ turns t t' \/ exists mode task,
    t' = MkThread (worker t) (outbox t) (inbox t ++ [(mode, task)]) (running t) /\
    share_tx task = next s /\ next s' = S (next s)).
Proof.
  destruct 1 as [? w ? w' ? ? Hj|? w ? ? ? w' ? ? Hj|? w ? ? ? ? ? ? Hj|? w ? ? ? ? ? Hj|? w ? ? ? ? ? ? ? Hj|
    ? w ? ? ? ? Hj|? ? t task mode ? ? Hj| | | |[] ? ? | |]; simpl; try (intros Hi; exists t'; by auto);
    rewrite lookup_insert_Some; intros [[<- <-]|[Hne Hi]]; try (exists t'; by auto); eexists; (split; [exact Hj|right]);
    first [right; by exists mode, task|left; by econstructor].
Qed.

Lemma turns_sends t t' tx : turns t t' -> sends t' tx ->
  sends t tx \/ exists mode task, (mode, task) ∈ inbox t /\ tx = share_tx task.
Proof.
  destruct 1 as [w' outs go q Ht Hown|mode task w' outs go q Ht Hobey|o outs q go Ht|q Ht];
    intros [Hs|[sh Hs]]; simpl in *.
  - left. left. by eapply own_holds.
  - left. destruct (own_outs _ _ _ _ Hown) as [->|(tx' & sh' & -> & Hh)]; [by apply elem_of_nil in Hs|].
    apply list_elem_of_singleton in Hs. simplify_eq. by left.
  - destruct (obey_holds _ _ _ _ _ _ _ Hobey Hs) as [->|Hh]; [right|left; by left].
    exists mode, task. split; [|done]. rewrite Ht. by left.
  - destruct (obey_outs _ _ _ _ _ _ Hobey) as [a ->]. apply list_elem_of_singleton in Hs. by simplify_eq.
  - left. by left.
  - left. right. exists sh. rewrite Ht. by right.
  - left. by left.
  - by apply elem_of_nil in Hs.
Qed.

Lemma step_channels s who s' tx c : step s who s' -> channels s' !! tx = Some c ->
  (exists c, channels s !! tx = Some c) \/ (tx = next s /\ next s' = S (next s)).
Proof.
  destruct 1 as [ | |? ? tx' | | | | | | |? ? ? ? ? Hc|[] ? ? | |]; simpl; try (intros Hc; left; by exists c).
  - rewrite lookup_insert_Some. intros [[<- <-]|[Hne Hc]]; left; by eexists.
  - destruct accepted; [intros Hc; left; by exists c|]. rewrite lookup_delete_Some. intros [_ Hc]. left. by exists c.
  - rewrite lookup_delete_Some. intros [_ Hc]. left. by exists c.
  - rewrite lookup_insert_Some. intros [[<- <-]|[Hne Hc]]; [by right|left; by exists c].
  - rewrite lookup_insert_Some. intros [[<- <-]|[Hne Hc']]; left; by eexists.
  - intros Hc%map_lookup_filter_Some. left. exists c. by apply Hc.
  - intros Hc%map_lookup_filter_Some. left. exists c. by apply Hc.
Qed.

Lemma turns_inbox t t' c : turns t t' -> c ∈ inbox t' -> c ∈ inbox t.
Proof.
  destruct 1 as [? ? ? ? Ht ?|? ? ? ? ? ? Ht ?|? ? ? ? Ht|? Ht]; rewrite Ht; simpl; try done.
  - intros Hc. by right.
  - by intros []%elem_of_nil.
Qed.

Lemma own_expected p i w q w' outs go :
  own w w' outs go -> expected p i (MkThread w [] q true) -> expected p i (MkThread w' outs q go).
Proof.
  intros Hown. assert (Hno : no_answer (MkThread w' outs q go)).
  { intros a Ha. simpl in Ha. destruct (own_outs _ _ _ _ Hown) as [->|(tx & sh & -> & _)].
    - by apply elem_of_nil in Ha.
    - apply list_elem_of_singleton in Ha. by simplify_eq. }
  unfold expected, asked, quiet. destruct p as [| |mode j task calls]; simpl; try (intros [? _]; by split).
  case_decide; [|intros [? _]; by split]. intros [[? _]|[_ [a Ha]]]; [by left|done].
Qed.

Lemma send_expected p i w tx share outs q go :
  expected p i (MkThread w (ShareOut tx share :: outs) q go) -> expected p i (MkThread w outs q go).
Proof.
  assert (Hno : no_answer (MkThread w (ShareOut tx share :: outs) q go) -> no_answer (MkThread w outs q go))
    by (intros Hno a Ha; apply (Hno a); by right).
  unfold expected, asked, quiet. destruct p as [| |mode j task calls]; simpl; try (intros [? ?]; by auto).
  case_decide; [|intros [? ?]; by auto]. intros [[? ?]|[_ [a Ha]]]; [by auto|done].
Qed.

Lemma obey_expected p i w mode task q w' outs go :
  obey w mode task w' outs go -> expected p i (MkThread w [] ((mode, task) :: q) true) ->
  expected p i (MkThread w' outs q go).
Proof.
  intros Hobey. destruct (obey_outs _ _ _ _ _ _ Hobey) as [a ->].
  unfold expected, asked, quiet. destruct p as [| |mode' j task' calls]; simpl; try (intros [? _]; done).
  case_decide; [|intros [? _]; done]. intros [[? _]|[? _]]; [|done]. simplify_eq. right. split; [done|]. by exists a.
Qed.

(** Once it has answered a thread is quiet, as the others are. *)
Lemma answer_expected mode task calls i j w accepted outs q go t p :
  (i = j -> t = MkThread w outs q go) ->
  expected (Waiting mode j task calls) j (MkThread w (Answer accepted :: outs) q go) ->
  (i <> j -> expected (Waiting mode j task calls) i t) ->
  (forall m k t c, p <> Waiting m k t c) -> expected p i t.
Proof.
  intros Ht Hj Hi Hp. assert (quiet t) as Hq; [|destruct p as [| |m k u c]; [done|done|by destruct (Hp m k u c)]].
  simpl in *. destruct (decide (i = j)) as [Heq|Hne].
  - rewrite Ht by done. rewrite decide_True in Hj by done. destruct Hj as [[_ Hno]|[Hin [a Ha]]].
    + destruct (Hno accepted). by left.
    + simpl in *. simplify_eq. split; [done|]. by intros b []%elem_of_nil.
  - by apply Hi.
Qed.

Lemma inv_expected s who s' i t' : inv s -> step s who s' -> threads s' !! i = Some t' -> expected (at_phase s') i t'.
Proof.
  intros [_ _ _ Hq _] Hstep. destruct Hstep as
    [j w q w' outs go Hj Hown|j w mode t q w' outs go Hj Hobey|j w tx share outs q go c Hj|j w tx share outs q go Hj|
     j w acc outs q go mode t calls Hj Hp|j w q mode t calls Hj Hp|j src t task mode calls Hp Hj|j src w q mode calls Hp|
     mode Hp|tx src share q Hp|[] src el Hp|j sources Hp|closed Hp]; simpl;
    try (intros Hi; specialize (Hq i t' Hi); first [exact Hq|rewrite Hp in Hq; exact Hq]);
    rewrite lookup_insert_Some; intros Hi.
  - destruct Hi as [[<- <-]|[_ Hi]]; [eapply own_expected|]; by eauto.
  - destruct Hi as [[<- <-]|[_ Hi]]; [eapply obey_expected|]; by eauto.
  - destruct Hi as [[<- <-]|[_ Hi]]; [eapply send_expected|]; by eauto.
  - destruct Hi as [[<- <-]|[_ Hi]]; [eapply send_expected|]; by eauto.
  - apply Hq in Hj as Hqj. rewrite Hp in Hqj.
    apply (answer_expected mode t calls i j w acc outs q go t' (Assigning mode calls)); [by naive_solver|done| |done].
    intros Hne. destruct Hi as [[? _]|[_ Hi]]; [done|]. rewrite <- Hp. by apply Hq.
  - destruct Hi as [[<- <-]|[Hne Hi]]; [split; [done|]; by intros a []%elem_of_nil|].
    apply Hq in Hi. rewrite Hp in Hi. simpl in Hi. by rewrite decide_False in Hi.
  - destruct Hi as [[<- <-]|[Hne Hi]]; simpl.
    + apply Hq in Hj. rewrite Hp in Hj. destruct Hj as [Hin Hno]. rewrite decide_True, Hin by done. by left.
    + apply Hq in Hi. rewrite Hp in Hi. by rewrite decide_False.
Qed.

Lemma inv_step s who s' : inv s -> step s who s' -> inv s'.
Proof.
  intros Hinv Hstep. pose proof (step_next _ _ _ Hstep) as Hnext. split.
  - intros i t' tx Hi Hs. destruct (step_threads _ _ _ _ _ Hstep Hi) as (t & Ht & [->|[Hturn|(m & task & -> & _)]]).
    + pose proof (inv_sends _ Hinv _ _ _ Ht Hs). lia.
    + destruct (turns_sends _ _ _ Hturn Hs) as [Hs'|(m & task & Hin & ->)].
      * pose proof (inv_sends _ Hinv _ _ _ Ht Hs'). lia.
      * pose proof (inv_inbox _ Hinv _ _ _ _ Ht Hin). lia.
    + pose proof (inv_sends _ Hinv _ _ _ Ht Hs). lia.
  - intros i t' m task Hi Hin. destruct (step_threads _ _ _ _ _ Hstep Hi) as (t & Ht & [->|[Hturn|(m' & task' & -> & Htx & Hn)]]).
    + pose proof (inv_inbox _ Hinv _ _ _ _ Ht Hin). lia.
    + pose proof (inv_inbox _ Hinv _ _ _ _ Ht (turns_inbox _ _ _ Hturn Hin)). lia.
    + apply elem_of_app in Hin as [Hin|Hin%list_elem_of_singleton].
      * pose proof (inv_inbox _ Hinv _ _ _ _ Ht Hin). lia.
      * simplify_eq. lia.
  - intros tx c Hc. destruct (step_channels _ _ _ _ _ Hstep Hc) as [[c' Hc']|[-> ->]]; [|lia].
    pose proof (inv_channels _ Hinv _ _ Hc'). lia.
  - intros i t' Hi. by eapply inv_expected.
  - intros m i task calls Hp. destruct Hinv as [_ _ _ _ Hw]. destruct Hstep; simpl in *; simplify_eq; try congruence;
      try (destruct (decide (i = i0)) as [->|]; rewrite ?lookup_insert_eq, ?lookup_insert_ne by done; by eauto).
    all: try (by destruct mode). all: try (by eapply Hw). by rewrite lookup_insert_eq.
Qed.

Lemma initial_inv s : initial s -> inv s.
Proof.
  intros [Hp Ht Hh Hc]. split.
  - intros i t tx Hi [Hs|[sh Hs]]; [by eapply Hh|]. destruct (Ht _ _ Hi) as [Ho _]. rewrite Ho in Hs. by apply elem_of_nil in Hs.
  - intros i t m task Hi Hin. destruct (Ht _ _ Hi) as [_ Hb]. rewrite Hb in Hin. by apply elem_of_nil in Hin.
  - done.
  - intros i t Hi. rewrite Hp. destruct (Ht _ _ Hi) as [Ho Hb]. split; [done|]. intros a Ha. rewrite Ho in Ha. by apply elem_of_nil in Ha.
  - intros. congruence.
Qed.

Lemma moves_inv s s' : rtc moves s s' -> inv s -> inv s'.
Proof. induction 1 as [|s s1 s' [who Hstep] _ IH]; [done|]. intros Hinv. apply IH. by eapply inv_step. Qed.
Lemma sys_reachable_inv s : reachable s -> inv s.
Proof. intros (s0 & Hi & Hs). eapply moves_inv; [done|]. by apply initial_inv. Qed.

(** ** The thread that is waited for *)

Definition moves_of (i : nat) s s' : Prop := step s (Some i) s'.

Lemma asked_thread s mode i task calls : inv s -> at_phase s = Waiting mode i task calls ->
  exists t, threads s !! i = Some t /\ asked t mode task.
Proof.
  intros Hinv Hp. destruct (inv_waiting _ Hinv _ _ _ _ Hp) as [t Hi]. exists t. split; [done|].
  pose proof (inv_quiet _ Hinv _ _ Hi) as Hq. rewrite Hp in Hq. simpl in Hq. by rewrite decide_True in Hq.
Qed.

Lemma answer_now s mode i task calls w a outs q go :
  at_phase s = Waiting mode i task calls -> threads s !! i = Some (MkThread w (Answer a :: outs) q go) ->
  exists s', moves_of i s s' /\ at_phase s' = Assigning mode calls.
Proof. intros Hp Hi. eexists. split; [by eapply step_answer|done]. Qed.

(** With steps of its own it gets to its answer, or to wait for a place. *)
Lemma answers_or_wedges n : forall s mode i task calls t,
  inv s -> at_phase s = Waiting mode i task calls -> threads s !! i = Some t -> length (outbox t) = n ->
  exists s', rtc (moves_of i) s s' /\ (at_phase s' = Assigning mode calls \/ wedged i s').
Proof.
  induction n as [|n IH]; intros s mode i task calls t Hinv Hp Hi Hn;
    destruct (asked_thread _ _ _ _ _ Hinv Hp) as (t' & Hi' & Hq); rewrite Hi in Hi'; injection Hi' as <-;
    destruct t as [w o q go], o as [|[tx sh|a] o]; simpl in Hn; try done.
  - destruct Hq as [[Hin _]|[_ [? ?]]]; [|done]. simpl in Hin. subst q. destruct go.
    + destruct (obey_total w mode task) as (w' & outs & go & Hobey).
      pose proof (step_obey _ _ _ _ _ _ _ _ _ Hi Hobey) as Hstep.
      destruct (obey_outs _ _ _ _ _ _ Hobey) as [a ->].
      destruct (answer_now (with_thread s i (MkThread w' [Answer a] [] go)) mode i task calls w' a [] [] go) as (s' & Hs' & Hp');
        [done|by simpl; rewrite lookup_insert_eq|].
      exists s'. split; [|by left]. eapply rtc_l; [exact Hstep|]. by apply rtc_once.
    + eexists. split; [apply rtc_once; by eapply step_no_answer|by left].
  - assert (forall s1, moves_of i s s1 -> at_phase s1 = Waiting mode i task calls ->
      threads s1 !! i = Some (MkThread w o q go) ->
      exists s', rtc (moves_of i) s s' /\ (at_phase s' = Assigning mode calls \/ wedged i s')) as Hgo.
    { intros s1 Hs1 Hp1 Hi1. destruct (IH s1 mode i task calls _ (inv_step _ _ _ Hinv Hs1) Hp1 Hi1) as (s' & Hs' & Hres);
        [by simpl; lia|]. exists s'. split; [by eapply rtc_l|done]. }
    destruct (channels s !! tx) as [c|] eqn:Hc.
    + destruct (decide (length (queue c) < capacity)%nat) as [Hlt|Hge].
      * eapply Hgo; [by eapply step_share|done|by simpl; rewrite lookup_insert_eq].
      * exists s. split; [done|]. right. split; [by eauto|]. exists w, tx, sh, o, q, go, c. split_and!; [done|done|lia].
    + eapply Hgo; [by eapply step_stale|done|by simpl; rewrite lookup_insert_eq].
  - destruct (answer_now s _ _ _ _ _ _ _ _ _ Hp Hi) as (s' & Hs' & Hp').
    exists s'. split; [by apply rtc_once|by left].
Qed.

(** Who waits for each other does so for ever. *)
Lemma wedged_step i s who s' : wedged i s -> step s who s' -> wedged i s'.
Proof.
  intros [(mode & t & calls & Hp) (w & tx & sh & outs & q & go & c & Hi & Hc & Hlen)] Hstep.
  destruct Hstep as [j ? ? ? ? ? Hj|j ? ? ? ? ? ? ? Hj|j ? tx' ? ? ? ? c' Hj Hc' Hlt|j ? tx' ? ? ? ? Hj Hc'|
    j ? ? ? ? ? ? ? ? Hj Hp'|j ? ? ? ? ? Hj Hp'| | | | | | |]; try congruence;
    (split; [by exists mode, t, calls|]); exists w, tx, sh, outs, q, go; simpl;
    assert (j <> i) by (intros ->; simplify_eq/=; lia); rewrite lookup_insert_ne by done; try by exists c.
  destruct (decide (tx' = tx)) as [->|].
  - rewrite Hc in Hc'. simplify_eq. lia.
  - rewrite lookup_insert_ne by done. by exists c.
Qed.

Lemma wedged_forever i s s' : wedged i s -> rtc moves s s' -> wedged i s'.
Proof. intros Hw. induction 1 as [|s s1 s' [who Hstep] _ IH]; [done|]. apply IH. by eapply wedged_step. Qed.

(** ** A replacement *)

(** No channel is open that a thread could send on. *)
Definition closed_to s (i : nat) : Prop :=
  forall t tx, threads s !! i = Some t -> sends t tx -> channels s !! tx = None.
Definition has_answered s (i : nat) : Prop :=
  exists t accepted, threads s !! i = Some t /\ outbox t = [Answer accepted].

(** While the handler runs the threads still to be called are cut off, and so is the one
    it waits for until it answers. *)
Definition cut_off s : Prop :=
  match at_phase s with
  | Select => True
  | Assigning Scheduler.Replace calls => NoDup calls.*1 /\ forall j, j ∈ calls.*1 -> closed_to s j
  | Waiting Scheduler.Replace i task calls =>
      NoDup (i :: calls.*1) /\ (forall j, j ∈ calls.*1 -> closed_to s j) /\ (closed_to s i \/ has_answered s i)
  | _ => False
  end.

Lemma closed_step s who s' j : inv s -> step s who s' -> closed_to s j -> closed_to s' j \/ has_answered s' j.
Proof.
  intros Hinv Hstep Hcl. destruct (threads s' !! j) as [t'|] eqn:Hj; [|left; intros t tx Ht; congruence].
  destruct (step_threads _ _ _ _ _ Hstep Hj) as (t & Ht & Hturn).
  assert ((forall tx, sends t' tx -> sends t tx) \/ exists a, outbox t' = [Answer a]) as [Hsends|[a Ha]].
  - destruct Hturn as [->|[Hturn|(m & task & -> & _)]]; [by left| |by left].
    destruct Hturn as [w' outs go q Ht' Hown|m task w' outs go q _ Hobey|o outs q go Ht'|q Ht'].
    + left. intros tx Hs. destruct (turns_sends _ _ tx (turns_own _ _ _ _ _ Ht' Hown) Hs) as [|(m & task & Hin & ->)]; [done|].
      destruct Hs as [Hs|[sh Hs]].
      * left. by eapply own_holds.
      * simpl in Hs. destruct (own_outs _ _ _ _ Hown) as [->|(tx' & sh' & -> & Hh)]; [by apply elem_of_nil in Hs|].
        apply list_elem_of_singleton in Hs. simplify_eq. by left.
    + right. by apply obey_outs in Hobey.
    + left. intros tx [Hs|[sh Hs]]; [by left|]. right. exists sh. rewrite Ht'. by right.
    + left. intros tx [Hs|[sh Hs]]; [by left|]. by apply elem_of_nil in Hs.
  - left. intros t0 tx Ht0 Hs. rewrite Hj in Ht0. injection Ht0 as <-. apply Hsends in Hs.
    destruct (channels s' !! tx) as [c|] eqn:Hc; [|done]. exfalso.
    destruct (step_channels _ _ _ _ _ Hstep Hc) as [[c' Hc']|[-> _]].
    + by rewrite (Hcl _ _ Ht Hs) in Hc'.
    + pose proof (inv_sends _ Hinv _ _ _ Ht Hs). lia.
  - right. by exists t', a.
Qed.

(** A thread that is not asked stays cut off. *)
Lemma closed_step_quiet s who s' j : inv s -> step s who s' -> closed_to s j ->
  (forall m task calls, at_phase s' <> Waiting m j task calls) -> closed_to s' j.
Proof.
  intros Hinv Hstep Hcl Hp. destruct (closed_step _ _ _ _ Hinv Hstep Hcl) as [|(t & a & Hj & Ha)]; [done|].
  pose proof (inv_quiet _ (inv_step _ _ _ Hinv Hstep) _ _ Hj) as Hq. exfalso.
  assert (quiet t) as [_ Hno].
  { destruct (at_phase s') as [| |m k task calls]; simpl in Hq; try done. case_decide; [|done]. subst. by edestruct Hp. }
  apply (Hno a). rewrite Ha. by left.
Qed.

Lemma answered_step s who s' i : step s who s' -> has_answered s i ->
  has_answered s' i \/ exists m t calls, at_phase s = Waiting m i t calls /\ at_phase s' = Assigning m calls.
Proof.
  intros Hstep (t & a & Hi & Ha). destruct Hstep as [j ? ? ? ? ? Hj|j ? ? ? ? ? ? ? Hj|j ? ? ? ? ? ? ? Hj|j ? ? ? ? ? ? Hj|
    j ? ? ? ? ? m u calls Hj Hp|j ? ? ? ? ? Hj|j ? t' ? ? ? ? Hj| | | |[] ? ?| |];
    try (by left; exists t, a);
    destruct (decide (i = j)) as [->|Hne]; simplify_eq/=;
    try (by left; exists t, a; simpl; rewrite lookup_insert_ne by done).
  - right. by exists m, u, calls.
  - left. eexists _, a. simpl. by rewrite lookup_insert_eq.
Qed.

(** What a step makes of the handler. *)
Lemma step_phase s who s' : step s who s' -> at_phase s <> Select ->
  at_phase s' = at_phase s \/
  match at_phase s with
  | Assigning mode [] => at_phase s' = Select
  | Assigning mode (c :: calls) => at_phase s' = Assigning mode calls \/ exists task, at_phase s' = Waiting mode c.1 task calls
  | Waiting mode i task calls => at_phase s' = Assigning mode calls
  | Select => False
  end.
Proof.
  destruct 1 as [ | | | |? ? ? ? ? ? ? ? ? ? Hp|? ? ? ? ? ? ? Hp|? ? ? ? ? ? Hp|? ? ? ? ? ? Hp|? Hp| | | |]; try done;
    intros Hs; try (by left); right; rewrite Hp; simpl; try done; first [by left|by right; eexists].
Qed.

Lemma cut_off_step s who s' : inv s -> step s who s' -> at_phase s <> Select -> cut_off s -> cut_off s'.
Proof.
  intros Hinv Hstep Hs Hcut. pose proof (fun j => closed_step_quiet _ _ _ j Hinv Hstep) as Hquiet.
  assert (forall calls : list (nat * nat), (forall j, j ∈ calls.*1 -> closed_to s j) ->
    (forall m task rest j, j ∈ calls.*1 -> at_phase s' <> Waiting m j task rest) ->
    forall j, j ∈ calls.*1 -> closed_to s' j) as Hcalls by (intros calls Hc Hne j Hj; eauto).
  pose proof (fun i => answered_step s who s' i Hstep) as Hans. pose proof (fun i => closed_step _ _ _ i Hinv Hstep) as Hclosed.
  destruct (step_phase _ _ _ Hstep Hs) as [Heq|Hp]; unfold cut_off in *.
  - destruct (at_phase s) as [|[] calls|[] i task calls]; try done; rewrite Heq in *.
    + destruct Hcut as [Hnd Hcl]. split; [done|]. by apply Hcalls.
    + destruct Hcut as (Hnd & Hcl & Hi). split_and!; [done| |].
      * apply Hcalls; [done|]. intros m task' rest j Hj [= _ ->]. by apply NoDup_cons in Hnd as [? _].
      * destruct Hi as [Hi|Hi]; [by auto|]. destruct (Hans i Hi) as [|(? & ? & ? & _ & ?)]; [by right|done].
  - destruct (at_phase s) as [|[] [|[i src] calls]|[] i task calls]; try done.
    + by rewrite Hp.
    + destruct Hcut as [Hnd Hcl]. apply NoDup_cons in Hnd as Hnd'.
      assert (forall j, j ∈ calls.*1 -> closed_to s j) as Hcl' by (intros j Hj; apply Hcl; by right).
      destruct Hp as [Hp|[task Hp]]; rewrite Hp in *.
      * split; [by apply Hnd'|]. by apply Hcalls.
      * split_and!; [done| |].
        -- apply Hcalls; [done|]. intros m task' rest j Hj [= _ ->]. by apply (proj1 Hnd').
        -- apply Hclosed, Hcl. by left.
    + destruct Hcut as (Hnd & Hcl & _). rewrite Hp in *. split; [by apply NoDup_cons in Hnd as [_ ?]|]. by apply Hcalls.
Qed.

(** The handler from its start, as long as it runs. *)
Definition handles s s' : Prop := moves s s' /\ at_phase s' <> Select.

Lemma cut_off_handler s s' : rtc handles s s' -> inv s -> at_phase s <> Select -> cut_off s -> inv s' /\ cut_off s'.
Proof.
  induction 1 as [|s s1 s' [[who Hstep] Hs1] _ IH]; [done|]. intros Hinv Hs Hcut.
  apply IH; [by eapply inv_step|done|by eapply cut_off_step].
Qed.

Lemma moves_of_handles i s s' : rtc (moves_of i) s s' -> at_phase s <> Select -> rtc handles s s'.
Proof.
  induction 1 as [|s s1 s' Hstep _ IH]; [done|]. intros Hp.
  assert (at_phase s1 <> Select) as Hp1 by (inversion Hstep; subst; simpl; congruence).
  eapply rtc_l; [|by apply IH]. split; [by eexists|done].
Qed.

Lemma cut_off_not_wedged s i : cut_off s -> ~ wedged i s.
Proof.
  unfold cut_off. intros Hcut [(mode & task & calls & Hp) (w & tx & sh & outs & q & go & c & Hi & Hc & _)].
  rewrite Hp in Hcut. destruct mode; [done|]. destruct Hcut as (_ & _ & [Hcl|(t & a & Ht & Ha)]).
  - rewrite (Hcl _ tx Hi) in Hc; [done|]. right. exists sh. by left.
  - rewrite Hi in Ht. simplify_eq.
Qed.

(** C7 A replacement is answered.  When a replacing job is handed out, and the threads it
    goes to have only tasks of its source, then in every state of the handler in which
    the scheduler waits for a thread - whatever the threads and their chips have done,
    at any interleaving - the thread does not wait for the scheduler, and steps of its
    own bring its answer. *)
Theorem replacement_answered s0 src eligible s mode i task calls :
  reachable s0 -> at_phase s0 = Select -> NoDup eligible -> Forall (fun j => is_Some (threads s0 !! j)) eligible ->
  (forall j t tx c, j ∈ eligible -> threads s0 !! j = Some t -> sends t tx -> channels s0 !! tx = Some c -> source c = src) ->
  rtc handles (assign_job s0 Scheduler.Replace src eligible) s -> at_phase s = Waiting mode i task calls ->
  ~ wedged i s /\
  exists s', rtc (moves_of i) s s' /\ at_phase s' = Assigning mode calls.
Proof.
  intros Hreach Hsel Hnd Hall Hsrc Hrun Hp.
  assert (inv (assign_job s0 Scheduler.Replace src eligible)) as Hinv0
    by (eapply inv_step; [by apply sys_reachable_inv|by apply step_job]).
  destruct (cut_off_handler _ _ Hrun Hinv0) as [Hinv Hcut]; [done| |].
  { unfold cut_off. simpl. rewrite <- list_fmap_compose. unfold compose. simpl. rewrite list_fmap_id.
    split; [done|]. intros j Hj t tx Ht Hs. simpl in *. apply map_lookup_filter_None. right. intros c Hc Hopen.
    simpl in Hopen. apply Nat.eqb_neq in Hopen. by eapply Hopen, Hsrc. }
  assert (mode = Scheduler.Replace) as -> by (unfold cut_off in Hcut; rewrite Hp in Hcut; by destruct mode).
  assert (forall s1, rtc (moves_of i) s s1 -> ~ wedged i s1) as Hno.
  { intros s1 Hs1 Hw. destruct (cut_off_handler s s1) as [_ Hcut1]; [|done|by rewrite Hp|done|by eapply cut_off_not_wedged].
    apply (moves_of_handles i); [done|by rewrite Hp]. }
  split; [by apply Hno|]. destruct (asked_thread _ _ _ _ _ Hinv Hp) as (t & Hi & _).
  destruct (answers_or_wedges _ _ _ _ _ _ _ Hinv Hp Hi eq_refl) as (s' & Hs' & [Hp'|Hw]); [by exists s'|].
  by destruct (Hno _ Hs').
Qed.

(** ** A thread that is slow to answer *)

(** A thread that finds shares fills its channel while the scheduler waits for another. *)
Lemma fills_channel n : forall s i w tx share src q,
  at_phase s <> Select -> own w w [ShareOut tx share] true ->
  threads s !! i = Some (MkThread w [] [] true) -> channels s !! tx = Some (MkChannel src q) ->
  (capacity = length q + n)%nat ->
  exists q', length q' = capacity /\
    rtc moves s (with_channel (with_thread s i (MkThread w [ShareOut tx share] [] true)) tx (MkChannel src q')).
Proof.
  induction n as [|n IH]; intros s i w tx share src q Hp Hown Hi Hc Hlen.
  - exists q. split; [lia|]. apply rtc_once. exists (Some i).
    replace (with_channel _ _ _) with (with_thread s i (MkThread w [ShareOut tx share] [] true)); [by eapply step_own|].
    unfold with_channel, with_thread. simpl. by rewrite (insert_id (channels s)) by done.
  - set (s1 := with_thread s i (MkThread w [ShareOut tx share] [] true)).
    set (s2 := with_channel (with_thread s1 i (MkThread w [] [] true)) tx (MkChannel src (q ++ [share]))).
    destruct (IH s2 i w tx share src (q ++ [share])) as (q' & Hq' & Hrun); [done|done| | | |].
    + simpl. by rewrite lookup_insert_eq.
    + simpl. by rewrite lookup_insert_eq.
    + rewrite length_app. simpl. lia.
    + exists q'. split; [done|]. eapply (rtc_l _ _ s1); [exists (Some i); by eapply step_own|].
      eapply (rtc_l _ _ s2); [exists (Some i); eapply (step_share s1 i w tx share [] [] true (MkChannel src q)); simpl; [by rewrite lookup_insert_eq|done|lia]|].
      enough (with_channel s1 tx (MkChannel src q') =
        with_channel (with_thread s2 i (MkThread w [ShareOut tx share] [] true)) tx (MkChannel src q')) as -> by done.
      unfold s2, s1, with_channel, with_thread. simpl. by rewrite !insert_insert_eq.
Qed.

(** C6 Threads can lock the scheduler up.  An update is handed to two threads: the first is
    slow - its chips are brought up, which takes seconds - and meanwhile the second, busy
    with the task it has, finds shares.  The scheduler reads no shares while it waits:
    the channel fills up, the second thread waits for a place in it and never takes the
    command that it is sent next.  From there on, whatever happens, the scheduler waits
    for that thread: no share of any thread is read and no job handed out any more. *)
Theorem slow_thread_locks_scheduler s i j w wj tx share src :
  reachable s -> at_phase s = Select -> i <> j ->
  threads s !! i = Some (MkThread w [] [] true) -> own w w [ShareOut tx share] true ->
  channels s !! tx = Some (MkChannel src []) -> threads s !! j = Some (MkThread wj [] [] true) ->
  exists s1, rtc moves (assign_job s Scheduler.Update src [j; i]) s1 /\
    forall s2, rtc moves s1 s2 -> exists mode task calls, at_phase s2 = Waiting mode i task calls.
Proof.
  intros Hreach Hp Hij Hi Hown Hc Hj. pose proof (inv_channels _ (sys_reachable_inv _ Hreach) _ _ Hc) as Htx.
  set (task tx := MkTask (Job.MkTask (MkJob "" [] (VersionTemplate.Mk 0 GpBits.none) 0 0 0 (Fixed [])) None None 0 0) tx).
  set (a := assign_job s Scheduler.Update src [j; i]).
  set (b := call a Scheduler.Update j src (MkThread wj [] [] true) (task (next s)) [(i, src)]).
  destruct (fills_channel capacity b i w tx share src []) as (q & Hq & Hfill); [done|done| | |done|].
  { simpl. by rewrite lookup_insert_ne. }
  { simpl. rewrite lookup_insert_ne by lia. done. }
  set (c := with_channel _ tx _) in Hfill.
  destruct (obey_total wj Scheduler.Update (task (next s))) as (wj' & outs & go & Hobey).
  destruct (obey_outs _ _ _ _ _ _ Hobey) as [accepted ->].
  set (d := with_thread c j (MkThread wj' [Answer accepted] [] go)).
  set (e := answered (with_thread d j (MkThread wj' [] [] go)) Scheduler.Update (task (next s)) accepted [(i, src)]).
  set (f := call e Scheduler.Update i src (MkThread w [ShareOut tx share] [] true) (task (S (next s))) []).
  assert (rtc moves a f) as Hrun.
  { eapply (rtc_l _ _ b); [exists None; by eapply step_call; [done|done|by left|done]|].
    etrans; [exact Hfill|].
    eapply (rtc_l _ _ d); [exists (Some j); eapply step_obey; [|exact Hobey]|].
    { simpl. rewrite lookup_insert_ne by done. by rewrite lookup_insert_eq. }
    eapply (rtc_l _ _ e); [exists (Some j); eapply step_answer; [|done]|].
    { simpl. by rewrite lookup_insert_eq. }
    apply rtc_once. exists None. eapply step_call; [done| |by left|done].
    simpl. rewrite !lookup_insert_ne by done. by rewrite lookup_insert_eq. }
  assert (wedged i f) as Hw.
  { split; [by eauto|]. exists w, tx, share, [], [(Scheduler.Update, task (S (next s)))], true, (MkChannel src q).
    split_and!; [simpl; by rewrite lookup_insert_eq| |by rewrite <- Hq].
    simpl. rewrite lookup_insert_ne by lia.
    destruct accepted; simpl; [|rewrite lookup_delete_ne by lia]; by rewrite lookup_insert_eq. }
  exists f. split; [done|]. intros s2 Hs2. destruct (wedged_forever _ _ _ Hw Hs2) as [(mode & t & calls & Hp2) _].
  by exists mode, t, calls.
Qed.
End Props.

(** ** Two BM13xx threads: the first has not been brought up, the second mines *)
Section Examples.
#[local] Existing Instance bitcoin_ref.
#[local] Existing Instance ruint_ref.
#[local] Existing Instance pow_ref.

Definition cold_ref : actor :=
  Actor ChipConfig.bm1370 (Chain.Mk [] []) (Log2Difficulty.Mk 8) false None ChipJobTracker.new false.
Definition sys_ref : sys (W := actor) :=
  MkSys (<[0%nat := MkThread cold_ref [] [] true]> {[1%nat := MkThread (actor_ref computed_ref) [] [] true]})
    {[4%nat := MkChannel 0 []]} 5 Select.

Lemma sys_ref_thread i t : threads sys_ref !! i = Some t ->
  t = MkThread cold_ref [] [] true \/ t = MkThread (actor_ref computed_ref) [] [] true.
Proof. simpl. intros [[_ <-]|[_ [_ <-]%lookup_singleton_Some]]%lookup_insert_Some; first [by left|by right]. Qed.

Lemma sys_ref_holds i t tx : threads sys_ref !! i = Some t -> holds (worker t) tx -> tx = 4%nat.
Proof.
  intros [->| ->]%sys_ref_thread (u & Hu & <-); simpl in Hu;
    (destruct Hu as [Hu|Hu%list_elem_of_In]; [by simplify_eq|]); simpl in Hu; repeat destruct Hu as [Hu|Hu]; by simplify_eq.
Qed.

Lemma sys_ref_reachable : reachable sys_ref.
Proof.
  exists sys_ref. split; [|done]. split; [done| | |].
  - by intros i t [->| ->]%sys_ref_thread.
  - intros i t tx Hi Hh. apply (sys_ref_holds _ _ _ Hi) in Hh as ->. simpl. lia.
  - intros tx c Hc. change (({[4%nat := MkChannel 0 []]} : gmap nat channel) !! tx = Some c) in Hc.
    apply lookup_singleton_Some in Hc as [<- _]. simpl. lia.
Qed.

Lemma slow_thread_locks_scheduler_witness :
  exists s1, rtc moves (assign_job sys_ref Scheduler.Update 0 [0%nat; 1%nat]) s1 /\
    forall s2, rtc moves s1 s2 -> exists mode task calls, at_phase s2 = Waiting mode 1 task calls.
Proof.
  apply (slow_thread_locks_scheduler sys_ref 1 0 (actor_ref computed_ref) cold_ref 4 share_ref 0).
  - exact sys_ref_reachable.
  - reflexivity.
  - discriminate.
  - reflexivity.
  - exists (NonceReport (report_ref 5)), [], [], [ShareSent 4 share_ref], Continue. by vm_compute.
  - reflexivity.
  - reflexivity.
Defined.

Lemma replacement_answered_witness :
  let s := call (assign_job sys_ref Scheduler.Replace 0 [1%nat]) Scheduler.Replace 1 0
             (MkThread (actor_ref computed_ref) [] [] true) (MkTask (ht (task_ref computed_ref)) 5) [] in
  ~ wedged 1 s /\ exists s', rtc (moves_of 1) s s' /\ at_phase s' = Assigning Scheduler.Replace [].
Proof.
  intros s. apply (replacement_answered sys_ref 0 [1%nat] s Scheduler.Replace 1 (MkTask (ht (task_ref computed_ref)) 5)).
  - exact sys_ref_reachable.
  - reflexivity.
  - by apply NoDup_singleton.
  - apply Forall_singleton. by eexists.
  - intros j t tx c _ _ _ Hc. change (({[4%nat := MkChannel 0 []]} : gmap nat channel) !! tx = Some c) in Hc.
    apply lookup_singleton_Some in Hc as [_ <-]. reflexivity.
  - apply rtc_once. split; [exists None|done]. by eapply step_call; [done|done|by left|done].
  - reflexivity.
Defined.
End Examples.
