(* ===== verification/Display.v ===== *)
(** * How extranonces are written (job_source/extranonce.rs)

    The texts of the logs: an extranonce in hexadecimal, a wide one with its longest run
    of zeros left out as in an IPv6 address; a range by its start and its length. *)
From stdpp Require Import base numbers list strings pretty.
From Stdlib Require Import ZArith Lia Ascii.
From S2P Require Import Prelude Extranonce Stratum CpuMiner.

(** ** Writing *)

(** [write_bytes]: [{b:02x}] of each byte. *)
Definition write_bytes (b : list Z) : string := hex_encode_ref b.

(** The inner loop: the zeros at the start. *)
Fixpoint zeros (b : list Z) : nat :=
  match b with x :: b => if x =? 0 then S (zeros b) else O | [] => O end.

(** The outer loop, with [k] rounds at most: [best] is the longest run so far, from its
    first index to the one behind it. *)
Fixpoint longest (k i : nat) (best : nat * nat) (b : list Z) : nat * nat :=
  match k with
  | O => best
  | S k =>
      if (i <? length b)%nat then
        let start := i in
        let i := (i + zeros (drop i b))%nat in
        let best := if (best.2 - best.1 <? i - start)%nat then (start, i) else best in
        longest k (i + 1) best b
      else best
  end.

Definition write_compressed (b : list Z) : string :=
  let best := longest (length b) 0 (0%nat, 0%nat) b in
  if (best.2 - best.1 <? 2)%nat then write_bytes b
  else (write_bytes (take best.1 b) +:+ "::" +:+ write_bytes (drop best.2 b))%string.

Definition write_extranonce (e : Extranonce.t) : string :=
  let b := Extranonce.into_vec e in
  if (Extranonce.width_bytes e <=? COUNTER_WIDTH)%nat then write_bytes b
  else (write_compressed b +:+ "/" +:+ pretty (Extranonce.width e))%string.

(** A power of two from 2^10 on is written as one; a count is at most 2^64. *)
Definition write_count (count : Z) : string :=
  if (2 ^ Z.log2 count =? count) && (2 ^ 10 <=? count) then ("2^" +:+ pretty (Z.log2 count))%string
  else pretty count.

Definition write_range (r : ExtranonceRange.t) : string :=
  ("{ start: " +:+ write_extranonce (ExtranonceRange.start r) +:+ ", len: " +:+
   write_count (ExtranonceRange.len r) +:+ " }")%string.

(** [Debug]. *)
Definition debug_extranonce (e : Extranonce.t) : string := ("Extranonce(" +:+ write_extranonce e +:+ ")")%string.
Definition debug_range (r : ExtranonceRange.t) : string := ("ExtranonceRange " +:+ write_range r)%string.

(** ** The examples of the code's tests *)
Definition ext (b : list Z) : string :=
  match Extranonce.from_bytes b with Ok e => write_extranonce e | Err _ => "" end.
Example extranonce_texts :
  ext [0; 0; 0x12; 0x34] = "00001234"%string /\ ext [0xab] = "ab"%string /\
  ext (repeat 0 30 ++ [0x12; 0x34]) = "::1234/32"%string /\ ext (repeat 0 32) = "::/32"%string /\
  ext [0; 0; 0x12; 0; 0; 0; 0x34; 0; 0] = "000012::340000/9"%string /\
  ext [0; 0; 1; 0; 0; 2; 3; 4; 5] = "::01000002030405/9"%string /\
  ext [0; 1; 2; 3; 4; 5; 6; 7; 8] = "000102030405060708/9"%string /\
  write_range (ExtranonceRange.Mk 0 (2 ^ 64 - 1) 32) = "{ start: ::/32, len: 2^64 }"%string /\
  write_range (ExtranonceRange.Mk 0 511 2) = "{ start: 0000, len: 512 }"%string /\
  write_range (ExtranonceRange.Mk 0x40000000 (0x40000000 + 2 ^ 30 - 1) 4) = "{ start: 40000000, len: 2^30 }"%string.
Proof. vm_compute. auto 12. Qed.

(** ** The longest run of zeros *)
Definition is_run (b : list Z) (s e : nat) : Prop :=
  (s <= e <= length b)%nat /\ forall k, (s <= k < e)%nat -> b !! k = Some 0.

Lemma zeros_run b : is_run b 0 (zeros b) /\ b !! zeros b <> Some 0.
Proof.
  induction b as [|x b IH]; simpl; [by split; [split; [simpl; lia|lia]|]|].
  destruct (Z.eqb_spec x 0) as [->|Hx]; [|split; [split; [simpl; lia|lia]|simpl; congruence]].
  destruct IH as [[Hlen Hrun] Hend]. split; [split; [simpl; lia|]|done].
  intros [|k] Hk; [done|]. apply Hrun. lia.
Qed.

Lemma zeros_from b i : (i <= length b)%nat ->
  is_run b i (i + zeros (drop i b)) /\ b !! (i + zeros (drop i b))%nat <> Some 0.
Proof.
  intros Hi. destruct (zeros_run (drop i b)) as [[Hlen Hrun] Hend]. rewrite length_drop in Hlen.
  rewrite lookup_drop in Hend. split; [split; [lia|]|done].
  intros k Hk. specialize (Hrun (k - i)%nat ltac:(lia)). rewrite lookup_drop in Hrun.
  by replace (i + (k - i))%nat with k in Hrun by lia.
Qed.

(** The best of the runs that start before [i], the first of the longest ones. *)
Definition best_before (b : list Z) (i : nat) (best : nat * nat) : Prop :=
  is_run b best.1 best.2 /\ (best.1 <= i)%nat /\
  forall s e, is_run b s e -> (s < e)%nat -> (s < i)%nat ->
    (e - s <= best.2 - best.1)%nat /\ ((e - s = best.2 - best.1)%nat -> (best.1 <= s)%nat).

Lemma best_before_step b i best : (i < length b)%nat -> best_before b i best ->
  let j := (i + zeros (drop i b))%nat in
  best_before b (j + 1) (if (best.2 - best.1 <? j - i)%nat then (i, j) else best).
Proof.
  intros Hi (Hrun & Hle & Hbest) j. destruct (zeros_from b i) as [Hz Hend]; [lia|]. fold j in Hz, Hend.
  assert (Hij : (i <= j)%nat) by (unfold j; lia).
  assert (Hnew : forall s e, is_run b s e -> (s < e)%nat -> (i <= s < j + 1)%nat -> (e <= j)%nat).
  { intros s e [_ Hse] Hlt Hs. destruct (decide (e <= j)%nat) as [|Hne]; [done|].
    destruct Hend. apply Hse. lia. }
  destruct (Nat.ltb_spec (best.2 - best.1) (j - i)) as [Hlt|Hge]; simpl.
  - split_and!; [done|simpl; lia|]. intros s e Hse Hlt' Hs. simpl. destruct (decide (s < i)%nat) as [Hsi|Hsi].
    + destruct (Hbest s e Hse Hlt' Hsi). lia.
    + specialize (Hnew s e Hse Hlt' ltac:(lia)). lia.
  - split_and!; [done|lia|]. intros s e Hse Hlt' Hs. destruct (decide (s < i)%nat) as [Hsi|Hsi]; [by apply Hbest|].
    specialize (Hnew s e Hse Hlt' ltac:(lia)). lia.
Qed.

Lemma longest_best b k : forall i best, (length b <= i + k)%nat -> best_before b i best ->
  exists i', (length b <= i')%nat /\ best_before b i' (longest k i best b).
Proof.
  induction k as [|k IH]; intros i best Hk Hbest; simpl; [by exists i; split; [lia|]|].
  destruct (Nat.ltb_spec i (length b)) as [Hi|Hi]; [|by exists i].
  apply IH; [lia|]. by apply best_before_step.
Qed.

(** What is left out is the longest run of zeros, and the leftmost of these. *)
Theorem longest_run_leftmost b s e :
  longest (length b) 0 (0%nat, 0%nat) b = (s, e) ->
  is_run b s e /\
  forall s' e', is_run b s' e' -> (s' < e')%nat ->
    (e' - s' <= e - s)%nat /\ ((e' - s' = e - s)%nat -> (s <= s')%nat).
Proof.
  intros Heq. destruct (longest_best b (length b) 0 (0%nat, 0%nat)) as (i & Hi & Hrun & _ & Hbest); [lia| |].
  - split_and!; [|done|simpl; lia]. split; simpl; lia.
  - rewrite Heq in *. split; [done|]. intros s' e' Hse Hlt. apply Hbest; [done|done|]. destruct Hse. lia.
Qed.

(** ** Reading what was written *)

(** The text up to a character, and what follows it if it is there. *)
Fixpoint cut_at (c : ascii) (s : string) : string * option string :=
  match s with
  | EmptyString => (EmptyString, None)
  | String d s =>
      if bool_decide (d = c) then (EmptyString, Some s)
      else let '(a, r) := cut_at c s in (String d a, r)
  end.

Definition read_compressed (width : nat) (s : string) : option (list Z) :=
  match cut_at ":" s with
  | (a, None) => hex_decode_ref a
  | (a, Some (String ":" b)) =>
      l ← hex_decode_ref a; r ← hex_decode_ref b;
      Some (l ++ repeat 0 (width - length l - length r) ++ r)
  | _ => None
  end.
Definition read_extranonce (s : string) : option Extranonce.t :=
  b ← match cut_at "/" s with
      | (s, None) => hex_decode_ref s
      | (s, Some width) => w ← parse_uint 8 width; read_compressed (Z.to_nat w) s
      end;
  match Extranonce.from_bytes b with Ok e => Some e | Err _ => None end.

Fixpoint lacks (c : ascii) (s : string) : Prop :=
  match s with EmptyString => True | String d s => d <> c /\ lacks c s end.

Lemma cut_at_lacks c s : lacks c s -> cut_at c s = (s, None).
Proof.
  induction s as [|d s IH]; [done|]. intros [Hd Hs]. simpl. rewrite bool_decide_eq_false_2 by done. by rewrite IH.
Qed.
Lemma cut_at_found c s r : lacks c s -> cut_at c (s +:+ String c r) = (s, Some r).
Proof.
  induction s as [|d s IH]; simpl.
  - intros _. change (("" +:+ String c r)%string) with (String c r). simpl. by rewrite bool_decide_eq_true_2.
  - intros [Hd Hs]. change ((String d s +:+ String c r)%string) with (String d (s +:+ String c r)). simpl.
    rewrite bool_decide_eq_false_2 by done. by rewrite IH.
Qed.
Lemma lacks_app c s t : lacks c s -> lacks c t -> lacks c (s +:+ t).
Proof. induction s as [|d s IH]; [done|]. intros [Hd Hs] Ht. split; [done|]. by apply IH. Qed.

(** Bytes are written with the sixteen digits only. *)
Definition no_digit (c : ascii) : Prop := hex_digit c = None.
Lemma hex_byte_lacks c b : no_digit c -> lacks c (hex_byte b).
Proof.
  intros Hc. assert (H : forall d, 0 <= d < 16 -> digit_char d <> c)
    by (intros d Hd Heq; pose proof (hex_digit_char d Hd); unfold no_digit in Hc; congruence).
  split; [|split; [|done]]; apply H, Z.mod_pos_bound; lia.
Qed.
Lemma write_bytes_lacks c b : no_digit c -> lacks c (write_bytes b).
Proof. intros Hc. induction b as [|x b IH]; [done|]. apply lacks_app; [by apply hex_byte_lacks|done]. Qed.
Lemma read_write_bytes b : bytes b -> hex_decode_ref (write_bytes b) = Some b.
Proof. apply (@hex_decode_encode hex_ref hex_ref_spec). Qed.

Lemma lookup_zeros n : forall k, (k < n)%nat -> repeat 0 n !! k = Some 0.
Proof. induction n as [|n IH]; intros k Hk; [lia|]. destruct k as [|k]; [done|]. simpl. apply IH. lia. Qed.

Lemma run_repeat b s e : is_run b s e -> b = take s b ++ repeat 0 (e - s) ++ drop e b.
Proof.
  intros [Hlen Hrun]. rewrite <- (take_drop s b) at 1. f_equal.
  rewrite <- (take_drop (e - s) (drop s b)) at 1. rewrite drop_drop. replace (s + (e - s))%nat with e by lia. f_equal.
  apply list_eq. intros k. destruct (decide (k < e - s)%nat) as [Hk|Hk].
  - rewrite lookup_take_lt, lookup_drop, Hrun by lia. symmetry.
    by apply lookup_zeros.
  - rewrite (proj2 (lookup_ge_None _ _)) by (rewrite length_take; lia).
    symmetry. apply lookup_ge_None. rewrite repeat_length. lia.
Qed.

Lemma read_write_compressed b : bytes b -> read_compressed (length b) (write_compressed b) = Some b.
Proof.
  intros Hb. unfold write_compressed. destruct (longest _ _ _ b) as [s e] eqn:Hbest. simpl.
  destruct (longest_best b (length b) 0 (0%nat, 0%nat)) as (_ & _ & Hrun & _); [lia| |].
  { split_and!; [|done|simpl; lia]. split; simpl; lia. }
  rewrite Hbest in Hrun. simpl in Hrun.
  unfold read_compressed. destruct (Nat.ltb_spec (e - s) 2).
  - rewrite cut_at_lacks by (by apply write_bytes_lacks). by apply read_write_bytes.
  - change ("::" +:+ write_bytes (drop e b))%string with (String ":" (String ":" (write_bytes (drop e b)))).
    rewrite cut_at_found by (by apply write_bytes_lacks).
    rewrite !read_write_bytes by (by apply Forall_take || by apply Forall_drop). simpl. f_equal.
    rewrite length_take, length_drop. pose proof (run_repeat b s e Hrun) as Hb'. destruct Hrun as [Hlen _].
    by replace (length b - s `min` length b - (length b - e))%nat with (e - s)%nat by lia.
Qed.

Lemma read_write_width w : 1 <= w <= 32 -> parse_uint 8 (pretty w) = Some w /\ lacks "/" (pretty w).
Proof.
  intros Hw. assert (Hall : Forall (fun w => parse_uint 8 (pretty w) = Some w /\ bool_decide (cut_at "/" (pretty w) = (pretty w, None)) = true) (seqZ 1 32))
    by (repeat constructor).
  rewrite Forall_forall in Hall. destruct (Hall w) as [Hp Hc]; [apply elem_of_seqZ; lia|]. split; [done|].
  apply bool_decide_eq_true in Hc. revert Hc. generalize (pretty w). clear. induction s as [|d s IH]; [done|]. simpl.
  case_bool_decide; [done|]. destruct (cut_at "/" s) as [a r]. intros [= -> ->]. auto.
Qed.

Lemma write_compressed_lacks c b : no_digit c -> c <> ":"%char -> lacks c (write_compressed b).
Proof.
  intros Hc Hcolon. unfold write_compressed. case_match; [by apply write_bytes_lacks|].
  apply lacks_app; [by apply write_bytes_lacks|]. apply lacks_app; [|by apply write_bytes_lacks].
  by split_and!.
Qed.

(** C29 What is logged of an extranonce says which it is.  The text of a well-formed one -
    its width and, of a wide one, all but a run of zeros - can be read back, so no two
    extranonces have the same text. *)
Theorem extranonce_text_roundtrip e :
  Extranonce.wf e -> read_extranonce (write_extranonce e) = Some e.
Proof.
  intros Hwf. pose proof (from_bytes_into_vec e Hwf) as Hback.
  assert (Hlen : length (Extranonce.into_vec e) = Extranonce.width_bytes e) by (by apply bytes_of_length).
  assert (Hb : bytes (Extranonce.into_vec e)) by (by apply bytes_of_bytes).
  unfold read_extranonce, write_extranonce. destruct (Nat.leb_spec (Extranonce.width_bytes e) COUNTER_WIDTH).
  - rewrite cut_at_lacks by (by apply write_bytes_lacks). rewrite read_write_bytes by done. simpl. by rewrite Hback.
  - destruct (read_write_width (Extranonce.width e)) as [Hw _]; [by destruct Hwf|].
    change ("/" +:+ pretty (Extranonce.width e))%string with (String "/" (pretty (Extranonce.width e))).
    rewrite cut_at_found by (by apply write_compressed_lacks). rewrite Hw. cbn [mbind option_bind].
    change (Z.to_nat (Extranonce.width e)) with (Extranonce.width_bytes e). rewrite <- Hlen.
    rewrite read_write_compressed by done. simpl. by rewrite Hback.
Qed.

(** ** Ranges *)
Lemma pretty_N_go_lacks c x : (forall d, pretty_N_char d <> c) -> forall s, lacks c s -> lacks c (pretty_N_go x s).
Proof.
  intros Hc. induction (N.lt_wf_0 x) as [x _ IH]. intros s Hs.
  assert (x = 0 \/ 0 < x)%N as [->|Hx] by lia; [by rewrite pretty_N_go_0|].
  rewrite pretty_N_go_step by done. apply IH; [by apply N.div_lt|]. split; [apply Hc|done].
Qed.
Lemma pretty_lacks c x : 0 <= x -> (forall d, pretty_N_char d <> c) -> lacks c (pretty x).
Proof.
  intros Hx Hc. destruct x as [|x|x]; [|by apply pretty_N_go_lacks|lia]. split; [apply (Hc 0%N)|done].
Qed.
Ltac not_decimal := let d := fresh in intros d; unfold pretty_N_char; repeat case_match; discriminate.

Lemma write_count_inj m n : 0 < m -> 0 < n -> write_count m = write_count n -> m = n.
Proof.
  intros Hm Hn. assert (Hp : forall x y : Z, 0 <= y -> ("2^" +:+ pretty x)%string <> pretty y).
  { intros x y Hy Heq. assert (lacks "^" ("2^" +:+ pretty x)) as (_ & Hhat & _); [|done].
    rewrite Heq. apply pretty_lacks; [done|not_decimal]. }
  unfold write_count. destruct ((_ =? m) && _) eqn:Hcm, ((_ =? n) && _) eqn:Hcn; intros Heq.
  - apply andb_prop in Hcm as [Hcm _], Hcn as [Hcn _]. injection Heq as Heq. apply pretty_Z_inj in Heq.
    apply Z.eqb_eq in Hcm, Hcn. congruence.
  - by destruct (Hp (Z.log2 m) n ltac:(lia)).
  - by destruct (Hp (Z.log2 n) m ltac:(lia)).
  - by apply pretty_Z_inj.
Qed.

Lemma app_inj_tail a b t : (a +:+ t)%string = (b +:+ t)%string -> a = b.
Proof.
  assert (Hlen : forall s, String.length (s +:+ t) = (String.length s + String.length t)%nat)
    by (induction s as [|c s IH]; [done|]; by simpl; rewrite IH).
  revert b. induction a as [|c a IH]; intros [|d b] Heq; [done| | |].
  - apply (f_equal String.length) in Heq. rewrite !Hlen in Heq. simpl in Heq. lia.
  - apply (f_equal String.length) in Heq. rewrite !Hlen in Heq. simpl in Heq. lia.
  - injection Heq as -> Heq. f_equal. by apply IH.
Qed.

Lemma range_start_wf r : ExtranonceRange.wf r -> Extranonce.wf (ExtranonceRange.start r).
Proof. intros (Hw & Hf & Hl). split; simpl; lia. Qed.

(** The text of a range says which it is, too. *)
Lemma range_text_injective r1 r2 :
  ExtranonceRange.wf r1 -> ExtranonceRange.wf r2 -> write_range r1 = write_range r2 -> r1 = r2.
Proof.
  assert (Hlacks : forall r, ExtranonceRange.wf r -> lacks "," (write_extranonce (ExtranonceRange.start r))).
  { intros r (Hw & Hf & Hl). unfold write_extranonce. case_match; [by apply write_bytes_lacks|].
    apply lacks_app; [by apply write_compressed_lacks|]. split; [done|].
    apply pretty_lacks; [simpl; lia|not_decimal]. }
  intros H1 H2 Heq. unfold write_range in Heq. injection Heq as Heq.
  set (t1 := (" len: " +:+ write_count (ExtranonceRange.len r1) +:+ " }")%string) in *.
  set (t2 := (" len: " +:+ write_count (ExtranonceRange.len r2) +:+ " }")%string) in *.
  change (write_extranonce (ExtranonceRange.start r1) +:+ String "," t1 =
    write_extranonce (ExtranonceRange.start r2) +:+ String "," t2)%string in Heq.
  apply (f_equal (cut_at ",")) in Heq. rewrite !cut_at_found in Heq by (by apply Hlacks). injection Heq as Hs Ht.
  apply (f_equal read_extranonce) in Hs.
  rewrite !extranonce_text_roundtrip in Hs by (by apply range_start_wf). injection Hs as Hfirst Hwidth.
  change (write_count (ExtranonceRange.len r1) +:+ " }" = write_count (ExtranonceRange.len r2) +:+ " }")%string in Ht.
  apply app_inj_tail in Ht.
  apply write_count_inj in Ht; [|unfold ExtranonceRange.len; destruct H1, H2; lia..].
  destruct r1 as [f1 l1 w1], r2 as [f2 l2 w2]. unfold ExtranonceRange.len in Ht. simpl in *. f_equal; lia.
Qed.

(** ** The theorems at work *)
Lemma longest_run_leftmost_witness :
  longest 9 0 (0%nat, 0%nat) [0; 0; 0x12; 0; 0; 0; 0x34; 0; 0] = (3%nat, 6%nat) /\
  is_run [0; 0; 0x12; 0; 0; 0; 0x34; 0; 0] 3 6.
Proof.
  assert (H : longest 9 0 (0%nat, 0%nat) [0; 0; 0x12; 0; 0; 0; 0x34; 0; 0] = (3%nat, 6%nat)) by reflexivity.
  split; [exact H|]. exact (proj1 (longest_run_leftmost [0; 0; 0x12; 0; 0; 0; 0x34; 0; 0] 3 6 H)).
Defined.

Lemma extranonce_text_roundtrip_witness :
  write_extranonce (Extranonce.Mk 0x1234 32) = "::1234/32"%string /\
  read_extranonce "::1234/32" = Some (Extranonce.Mk 0x1234 32).
Proof.
  split; [reflexivity|]. apply (extranonce_text_roundtrip (Extranonce.Mk 0x1234 32)).
  split; simpl; [lia|]. split; [lia|]. by apply Z.leb_le.
Defined.
