(* ===== verification/Client.v ===== *)
(** * The client of the API and the routes it asks for (api_client/mod.rs, api/server.rs,
    api/v0.rs, bin/cli.rs)

    The library's methods as the request they send and what they make of the response,
    the commands of the command line, and the table of routes.  A response is a status
    and a body; the text of a value as JSON and its reading are the class [Json]. *)
From stdpp Require Import base numbers list strings pretty gmap.
From Stdlib Require Import ZArith Lia Ascii.
From S2P Require Import Prelude Settings Job Scheduler Effects Api.
#[local] Open Scope eff_scope.

(** ** The client *)
Module Client.
Record t := Mk { base_url : string }.
Definition DEFAULT_BASE_URL : string := "http://127.0.0.1:7785".
Definition new : t := Mk DEFAULT_BASE_URL.
Definition with_base_url (base_url : string) : t := Mk base_url.

(** A request is sent; it has a response or the connection fails; then the body is read. *)
Inductive outcome := Response (status : Z) | NoConnection | Body (text : string) | NoBody.
Inductive action := Get (url : string).
Inductive error := FailedToConnect | RequestFailed (status : Z) | FailedToParse | FailedToRead.
Abbreviation M := (Effects.M unit outcome action error).

(** [StatusCode::is_success]. *)
Definition is_success (status : Z) : bool := (200 <=? status) && (status <? 300).
Definition url (c : t) (path : string) : string := (base_url c +:+ "/api/v0/" +:+ path)%string.

Definition send (c : t) (path : string) : M unit :=
  act (Get (url c path)) ;!
  do! status := await (fun o => match o with
    | Response status => Some (ret status) | NoConnection => Some (raise FailedToConnect) | _ => None end) in
  if negb (is_success status) then raise (RequestFailed status) else ret tt.

Definition get_json {A} (parse : string -> option A) (c : t) (path : string) : M A :=
  send c path ;!
  await (fun o => match o with
    | Body text => Some (match parse text with Some a => ret a | None => raise FailedToParse end)
    | NoBody => Some (raise FailedToParse) | _ => None end).
Definition get_raw (c : t) (path : string) : M string :=
  send c path ;!
  await (fun o => match o with Body text => Some (ret text) | NoBody => Some (raise FailedToRead) | _ => None end).
Definition get_miner (parse : string -> option MinerTelemetry) (c : t) : M MinerTelemetry := get_json parse c "miner".
End Client.

(** ** The command line *)
Module Cli.
Definition make_client (var : string -> option string) : Client.t :=
  match var "MUJINA_API_URL"%string with Some url => Client.with_base_url url | None => Client.new end.

(** The arguments after the program's name; every other use ends with status 1. *)
Inductive command := Status | ApiCall (endpoint : string).
Definition command_of (args : list string) : option command :=
  match args with
  | [] => None
  | c :: args =>
      if bool_decide (c = "status"%string) then Some Status
      else if bool_decide (c = "api"%string) then Some (ApiCall (match args with e :: _ => e | [] => "" end))
      else None
  end.


(** The summary, line by line. *)
Definition status_lines (state : MinerTelemetry) : list string :=
  let t := from_scheduler state in
  [("Uptime:  " +:+ pretty (Scheduler.uptime_secs t) +:+ " s")%string;
   ("Hashrate: " +:+ pretty (Scheduler.mt_hashrate t) +:+ " H/s")%string;
   ("Shares:  " +:+ pretty (Scheduler.mt_shares t))%string] ++
  (if bool_decide (Scheduler.mt_sources t = []) then ["Sources: (none)"%string]
   else "Sources:"%string :: map (fun source => ("  - " +:+ Scheduler.st_name source)%string) (Scheduler.mt_sources t)) ++
  (if bool_decide (boards state = []) then []
   else "Boards:"%string :: map (fun board => ("  - " +:+ model board)%string) (boards state)).
Definition cmd_status (parse : string -> option MinerTelemetry) (c : Client.t) : Client.M (list string) :=
  do! state := Client.get_miner parse c in ret (status_lines state).

(** [pretty_json] is what serde_json makes of a text that is JSON. *)
Definition cmd_api (pretty_json : string -> option string) (c : Client.t) (endpoint : string) : Client.M string :=
  do! body := Client.get_raw c endpoint in
  ret (match pretty_json body with
       | Some json => (json +:+ String (ascii_of_nat 10) EmptyString)%string | None => body end).
End Cli.

(** ** The routes

    The router splits a path at slashes and decodes the segments a route names; the
    decoding of a segment is axum's. *)
Module Routes.
Inductive resource := Health | Miner | Boards | Board (name : string) | Sources | Source (name : string).
Inductive body := OkText | MinerBody (m : MinerTelemetry) | BoardsBody (l : list BoardTelemetry)
| BoardBody (b : BoardTelemetry) | SourcesBody (l : list Scheduler.SourceTelemetry) | SourceBody (x : Scheduler.SourceTelemetry).

Fixpoint segments (path : string) : list string :=
  match path with
  | EmptyString => [EmptyString]
  | String c path =>
      if bool_decide (c = "/"%char) then EmptyString :: segments path
      else match segments path with s :: l => String c s :: l | [] => [String c EmptyString] end
  end.

Section Decode.
Context (decode : string -> option string).

(** The GET routes below /api/v0. *)
Definition route (path : string) : option resource :=
  match segments path with
  | [""; "api"; "v0"; "health"] => Some Health
  | [""; "api"; "v0"; "miner"] => Some Miner
  | [""; "api"; "v0"; "boards"] => Some Boards
  | [""; "api"; "v0"; "boards"; name] => if bool_decide (name = ""%string) then None else Board <$> decode name
  | [""; "api"; "v0"; "sources"] => Some Sources
  | [""; "api"; "v0"; "sources"; name] => if bool_decide (name = ""%string) then None else Source <$> decode name
  | _ => None
  end%string.

Definition status_of (e : StatusCode) : Z := match e with NOT_FOUND => 404 | INTERNAL_SERVER_ERROR => 500 end.

(** The response to a GET of a resource. *)
Definition handle (r : resource) (s : SharedState) : result StatusCode body * SharedState :=
  match r with
  | Health => (Ok OkText, s)
  | Miner => let '(m, s) := get_miner s in (Ok (MinerBody m), s)
  | Boards => let '(l, s) := get_boards s in (Ok (BoardsBody l), s)
  | Board name => let '(b, s) := get_board s name in (match b with Ok b => Ok (BoardBody b) | Err e => Err e end, s)
  | Sources => (Ok (SourcesBody (get_sources s)), s)
  | Source name => (match get_source s name with Ok x => Ok (SourceBody x) | Err e => Err e end, s)
  end.
End Decode.
End Routes.

(** ** A client and a server *)
Section Served.
Context (decode : string -> option string) (text : Routes.body -> string).

(** What a server in state [s] makes the client see of a request for a path. *)
Definition served (path : string) (s : SharedState) : list Client.outcome :=
  match Routes.route decode ("/api/v0/" +:+ path) with
  | None => [Client.Response 404; Client.Body ""]
  | Some r =>
      match (Routes.handle r s).1 with
      | Ok b => [Client.Response 200; Client.Body (text b)]
      | Err e => [Client.Response (Routes.status_of e); Client.Body ""]
      end
  end.

Lemma get_raw_served c path s :
  Client.get_raw c path tt (served path s) =
  match Routes.route decode ("/api/v0/" +:+ path) with
  | Some r =>
      match (Routes.handle r s).1 with
      | Ok b => (Ret (text b), tt, [], [Client.Get (Client.url c path)])
      | Err e => (Raise (Client.RequestFailed (Routes.status_of e)), tt, [Client.Body ""], [Client.Get (Client.url c path)])
      end
  | None => (Raise (Client.RequestFailed 404), tt, [Client.Body ""], [Client.Get (Client.url c path)])
  end.
Proof.
  unfold served. destruct (Routes.route _ _) as [r|]; [|done]. destruct (Routes.handle r s).1 as [b|e]; [done|by destruct e].
Qed.

Lemma segments_plain name : (forall c, c ∈ String.list_ascii_of_string name -> c <> "/"%char) -> Routes.segments name = [name].
Proof.
  induction name as [|c name IH]; [done|]. intros Hc. simpl. rewrite bool_decide_eq_false_2 by (apply Hc; by left).
  rewrite IH; [done|]. intros d Hd. apply Hc. by right.
Qed.

(** A board is asked for by its name: the client gets the first of the boards that are
    connected and have the name, in the order of their registration, or a 404. *)
Theorem client_finds_board c name s :
  name <> ""%string -> (forall d, d ∈ String.list_ascii_of_string name -> d <> "/"%char) -> decode name = Some name ->
  (Client.get_raw c ("boards/" +:+ name) tt (served ("boards/" +:+ name) s)).1.1.1 =
  match List.find (fun b => bool_decide (board_name b = name)) (boards_of s).1 with
  | Some b => Ret (text (Routes.BoardBody b))
  | None => Raise (Client.RequestFailed 404)
  end.
Proof.
  intros Hne Hplain Hdecode. rewrite get_raw_served.
  assert (Routes.route decode ("/api/v0/boards/" +:+ name) = Some (Routes.Board name)) as Hroute.
  { assert (Routes.segments ("/api/v0/boards/" +:+ name) = ["" ; "api"; "v0"; "boards"; name]%string) as Hsegs
      by (simpl; by rewrite segments_plain).
    unfold Routes.route. rewrite Hsegs.
    rewrite bool_decide_eq_false_2 by done. by rewrite Hdecode. }
  change ("/api/v0/" +:+ "boards/" +:+ name)%string with ("/api/v0/boards/" +:+ name)%string. rewrite Hroute.
  unfold Routes.handle, get_board. destruct (boards_of s) as [l s']. simpl.
  by destruct (List.find _ l).
Qed.
End Served.

(** ** Examples *)
Example commands :
  map Cli.command_of [[]; ["status"]; ["api"]; ["api"; "miner"]; ["stop"]]%string =
    [None; Some Cli.Status; Some (Cli.ApiCall ""); Some (Cli.ApiCall "miner"); None].
Proof. reflexivity. Qed.

Example routes :
  map (Routes.route Some) ["/api/v0/health"; "/api/v0/boards/bitaxe-1"; "/api/v0/boards/"; "/api/v1/miner"; "/api/v0/miner/x"]%string =
    [Some Routes.Health; Some (Routes.Board "bitaxe-1"); None; None; None].
Proof. reflexivity. Qed.
